(* ===== verification/_CoqProject ===== *)
-Q . S2P
Prelude.v
Mem.v
CString.v
Sha256.v
Boot.v
Kernel.v
Spinlock.v
Kalloc.v
Vm.v
Vmproof.v
Pagetable.v
Proc.v
Procproof.v
Sleepproof.v
Sched.v
Uart.v
Printf.v
Console.v
Bio.v
Virtio.v
Log.v
Logproof.v
Bioproof.v
Frame.v
Logkernel.v
Fs.v
Fsproof.v
Fsread.v
Fsalloc.v
Fswrite.v
Mkfs.v
Mkfsproof.v
Mount.v
Pipe.v
Pipeproof.v
File.v
Lifecycle.v
Exec.v
Syscall.v
Trap.v
Ulib.v
User.v
Sh.v
Shell.v
Umalloc.v
Grep.v
Utils.v
Utilsproof.v
