(* ===== verification/Prelude.v ===== *)
(** * Verification of the secure-boot port of xv6 for RISC-V

    The program is a bootloader that measures a kernel image before it enters it
    (src/xv6-riscv/bootloader), the xv6 kernel it boots (src/xv6-riscv/kernel), the tool
    that makes the kernel's disk (src/xv6-riscv/mkfs) and the user programs on that disk
    (src/xv6-riscv/user).

    ** How the program is modelled

    Code is a function in the state monad [M S] of this file: [Ok] a result and the new
    state, [Panic] the message of the C [panic], [Undef] C's undefined behaviour (an
    index or a pointer out of range), [Hang] a loop that never ends or, in the crash
    model of Logproof.v, a machine without power, [NoFuel] the model's own bound was too
    small.  [wp m Q s] says that [m] run from [s] returns, with a result in [Q]; every
    theorem that code "returns" is of that form (or an equation [m s = Ok a s']), so a
    body that loops or runs out of fuel does not satisfy it.  Integers of a C type are
    [Z] with the wrap-around written out ([u8], [u32], [u64], [s32], [s64]).

    The kernel's state is the record [kst] of Kernel.v: one field per global variable,
    physical memory as a map from addresses to bytes, tables as lists of records,
    pointers into them as indices.  A kernel call that cannot sleep is a [K]; one that
    can is a [KM], whose state also carries what the rest of the system does each time
    the caller gives up the processor (a list of functions on [kst], consumed by
    [sched]).  Interleavings of several harts or of several processes' calls are step
    relations (Spinlock.v, Logkernel.v).

    ** Files

    - Prelude: record update, the monad, its loops and their rules, C integers.
    - Mem, CString: byte memory; string.c (shared by bootloader and kernel).
    - Sha256: bootloader/sha256.c and the FIPS 180-4 function it computes.
    - Boot: bootloader/elf.c (find_kernel_load_addr, find_kernel_size,
      find_kernel_entry_addr), load.c (kernel_copy), start.c (setup_recovery_kernel,
      is_secure_boot, start).
    - Kernel: the structures of param.h, memlayout.h, riscv.h, proc.h, file.h, fs.h,
      buf.h, spinlock.h, sleeplock.h and the globals.
    - Spinlock: spinlock.c.  Kalloc: kalloc.c.  Uart, Console, Printf: uart.c,
      console.c, printf.c.
    - Vm: vm.c; Vmproof: copies to and from user memory; Pagetable: the tree of
      page-table pages and what mappages does to it.
    - Proc, Lifecycle: proc.c and sleeplock.c; Procproof: wakeup and kill; Sleepproof:
      sleep with a lock, and the state the sleeper wakes in.
    - Bio: bio.c over the class [Disk]; Log: log.c, its block-moving part over the
      class [Blocks] of what it uses of the buffer cache.  Logproof: that code against
      the contract [BlocksSpec], with power failures.  Bioproof: bio.c implements
      [BlocksSpec] (instance [kernel_spec]).  Logkernel: the two together.
    - Fs, Pipe, File, Exec, Syscall: fs.c, pipe.c, file.c, exec.c, syscall.c,
      sysproc.c, sysfile.c; Pipeproof: the pipe as a queue.
    - Frame: which parts of the kernel's state a call leaves alone.  Fsproof: block
      allocation and the inode table inside a transaction.  Fsread: bmap, readi and
      dirlookup on an inode's blocks; Fsalloc: bmap where it takes new blocks; Fswrite:
      writei.
    - Mkfs: mkfs/mkfs.c on an image of blocks.  Mkfsproof: the image it builds.  Mount:
      the kernel's readi and dirlookup on the disk that mkfs wrote.
    - Sched: the loop of the scheduler.  Virtio: virtio_disk.c.  Trap: trap.c, plic.c,
      main.c, start.c and forkret.
    - User: user programs as trees of system calls, and user/printf.c.  Ulib:
      user/ulib.c.  Umalloc: user/umalloc.c.
    - Sh: the parser of user/sh.c.  Shell: its runcmd and main, user/init.c, and a
      semantics of their calls on descriptor tables, working directories and what has
      ended before what.
    - Grep, Utils: user/grep.c, cat.c, wc.c, echo.c, kill.c, ln.c, mkdir.c, rm.c, ls.c,
      zombie.c, forktest.c, stressfs.c.  Utilsproof: what those that read, write and name
      files do, with reads that may be cut short.

    ** What is proved

    - Boot.  Where the image's header keeps its load region clear of the ramdisk, the
      bootloader and the information table ([bootable]), start enters a kernel exactly
      when the SHA-256 of the image equals the trusted hash ([secure_boot_decision]), the
      hash code being SHA-256 for every way of cutting the message into updates
      ([sha256_streaming_correct]); what start does with an accepted, a rejected and an
      oversized image.
    - Memory.  The allocator's list invariant under any client that frees only what
      it holds ([allocator_no_double_handout]) and each operation on every branch; mappages and
      walk on well-formed trees; copyout, copyin, copyinstr against the mapping, error
      branches included.
    - Locks and processes.  Mutual exclusion over all interleavings of harts; wakeup and
      kill on the whole table.
    - Disk.  Ring surgery of the cache; bread returns the current contents; commit is
      atomic under power failure, recovery idempotent, and a whole operation on the
      kernel is durable ([transaction_durable]); the reservation invariant of begin_op,
      and the one block it lacks with mkfs's log size.
    - Pipes.  The ring with wrapping counters refines a bounded queue; piperead and
      pipewrite are its operations on user memory, sleeping on an empty or a full pipe
      under contracts on what the rest of the system does meanwhile.
    - Scheduling.  One pass of the scheduler runs every process that was runnable at its
      start.
    - File system.  balloc, bfree and iupdate on the kernel, as parts of a transaction;
      readi, writei (with the blocks bmap allocates) and dirlookup against the contents
      of the file, with the round trip;
      mkfs builds a well-formed image, and the kernel finds and reads in it every file
      that was put there ([mkfs_file_readable]).
    - User programs.  The shell's parser terminates, inverts a printer, and returns
      well-formed commands; the shell runs exactly the programs its grammar gives the
      lines, each after those before it have ended; programs are launched and waited for
      with three descriptors; init starts the shell.  malloc and free keep
      a circular sorted list of free blocks.
    - Output and tools.  printint prints the numeral when it fits its buffer; grep's
      matcher decides its pattern language and grep prints exactly the matching lines;
      wc counts; cat, echo, ls, mkdir, rm and kill write and call what they should.

    ** Bounds and fuel

    Loops over a C counter use [for_] with the exact number of iterations.  Other loops
    use [loop] with fuel: the number of blocks of an image plus one, [S NBUF] for a walk
    of the buffer ring, one more than the environment's steps for a loop that sleeps,
    the remaining length plus one for the copies of vm.c.  The theorems of kind "returns"
    show each bound is enough.  A user program that reads to the end of a file makes at
    most one read more than the file has bytes: fuel over the length is enough.

    ** Not modelled

    The disk that the theorems about the buffer cache, the log and the file system run on
    is the class [Disk] with the instance [ideal_disk], which does at once what it is
    asked.  A user program is the tree of its system calls: its own memory appears only
    in Ulib and Umalloc.  Of zombie, forktest and stressfs, which test the kernel, only
    the programs are given.  The shell's commands are values of an
    inductive type: that malloc may fail in their constructors is not modelled, and the
    programs the shell launches are taken not to read its input.  A copy of is_secure_boot
    that lands on the bootloader itself overwrites the code that runs: it is [Undef], and
    the theorems on start assume that it does not happen.  writei is proved for user memory
    that can be read.

    Assembly (entry.S, swtch.S, trampoline.S, kernelvec.S) appears only through its
    effect: swtch is the environment step of [sched].  user/usertests.c and user/grind.c
    are tests; xv6-riscv-raw is a second copy of the sources that the build does not use;
    build scripts, make files and images are not code of the program.  The trusted hash
    of measurements.h and the image in the ramdisk are parameters of the theorems. *)

From stdpp Require Export base gmap list strings numbers option sets sorting.
From Stdlib Require Export ZArith Lia.

#[global] Open Scope Z_scope.
#[global] Set Default Goal Selector "!".

(** ** Record update

    [r <| f := v |>] is the record [r] with field [f] replaced; the setter of a
    field is found from an eta-expansion of the record ([Settable]). *)

Class Settable (R : Type) := eta_record : R → R.
Class Setter {R T : Type} (proj : R → T) := set_field : (T → T) → R → R.
Arguments set_field {R T} proj {_} _ _.

Ltac solve_setter :=
  match goal with
  | |- @Setter ?R ?T ?proj =>
      let i := constr:(_ : Settable R) in
      let e := eval hnf in i in
      match eval pattern proj in e with
      | ?g proj =>
          let t := constr:(fun (f : T → T) => g (fun r : R => f (proj r))) in
          let t := eval cbv beta in t in exact t
      end
  end.

#[global] Hint Extern 1 (Setter _) => solve_setter : typeclass_instances.

Declare Scope record_scope.
Delimit Scope record_scope with rec.
#[warnings="-postfix-notation-not-level-1"]
Notation "r <| f ::= g |>" := (set_field f g r)
  (at level 12, left associativity, f at level 10, g at level 200) : record_scope.
#[warnings="-postfix-notation-not-level-1"]
Notation "r <| f := v |>" := (set_field f (fun _ => v) r)
  (at level 12, left associativity, f at level 10, v at level 200) : record_scope.
#[global] Open Scope record_scope.

(** ** Machine integers *)

Definition wrap (w x : Z) : Z := x mod 2 ^ w.
Definition u8 (x : Z) : Z := wrap 8 x.
Definition u16 (x : Z) : Z := wrap 16 x.
Definition u32 (x : Z) : Z := wrap 32 x.
Definition u64 (x : Z) : Z := wrap 64 x.

(** The two's-complement reading of the low [w] bits. *)
Definition sgn (w x : Z) : Z :=
  if decide (wrap w x < 2 ^ (w - 1)) then wrap w x else wrap w x - 2 ^ w.
Definition s8 (x : Z) : Z := sgn 8 x.
Definition s16 (x : Z) : Z := sgn 16 x.
Definition s32 (x : Z) : Z := sgn 32 x.
Definition s64 (x : Z) : Z := sgn 64 x.

(** C truth values. *)
Definition truth (b : bool) : Z := if b then 1 else 0.

Lemma wrap_range w x : 0 ≤ w → 0 ≤ wrap w x < 2 ^ w.
Proof. intros. apply Z.mod_pos_bound, Z.pow_pos_nonneg; lia. Qed.

Lemma wrap_small w x : 0 ≤ x < 2 ^ w → wrap w x = x.
Proof. apply Z.mod_small. Qed.

Lemma wrap_wrap w x : wrap w (wrap w x) = wrap w x.
Proof. apply Zmod_mod. Qed.

Lemma wrap_add_l w x y : wrap w (wrap w x + y) = wrap w (x + y).
Proof. apply Zplus_mod_idemp_l. Qed.

Lemma wrap_add_r w x y : wrap w (x + wrap w y) = wrap w (x + y).
Proof. apply Zplus_mod_idemp_r. Qed.

Lemma wrap_sub_l w x y : wrap w (wrap w x - y) = wrap w (x - y).
Proof. apply Zminus_mod_idemp_l. Qed.

Lemma wrap_sub_r w x y : wrap w (x - wrap w y) = wrap w (x - y).
Proof. apply Zminus_mod_idemp_r. Qed.

Lemma sgn_range w x : 0 < w → - 2 ^ (w - 1) ≤ sgn w x < 2 ^ (w - 1).
Proof.
  intros Hw. unfold sgn. pose proof (wrap_range w x ltac:(lia)) as Hr.
  assert (2 ^ w = 2 * 2 ^ (w - 1)) by (rewrite <- Z.pow_succ_r by lia; f_equal; lia).
  case_decide; lia.
Qed.

Lemma sgn_small w x : 0 < w → - 2 ^ (w - 1) ≤ x < 2 ^ (w - 1) → sgn w x = x.
Proof.
  intros Hw Hx. unfold sgn, wrap.
  assert (E : 2 ^ w = 2 * 2 ^ (w - 1)) by (rewrite <- Z.pow_succ_r by lia; f_equal; lia).
  destruct (decide (0 ≤ x)).
  - rewrite Z.mod_small by lia. case_decide; lia.
  - replace (x mod 2 ^ w) with (x + 2 ^ w);
      [|symmetry; rewrite <- (Z.mod_add x 1) by lia; rewrite Z.mul_1_l; apply Z.mod_small; lia].
    case_decide; lia.
Qed.

(** ** Fallible, stateful computations

    The outcomes of a C call: it returns; it reaches [panic(msg)]; it does
    something the C standard leaves undefined (an array index out of range, a
    null pointer); it waits for an event that the given environment never
    produces; or the bound given for a loop was too small. *)

Inductive res (S A : Type) : Type :=
  | Ok (a : A) (s : S)
  | Panic (msg : string) (s : S)
  | Undef (s : S)
  | Hang (s : S)
  | NoFuel.
Arguments Ok {S A} a s.
Arguments Panic {S A} msg s.
Arguments Undef {S A} s.
Arguments Hang {S A} s.
Arguments NoFuel {S A}.

Definition M (S A : Type) : Type := S → res S A.

Section monad.
Context {S : Type}.

Definition ret {A} (a : A) : M S A := fun s => Ok a s.
Definition bind {A B} (m : M S A) (k : A → M S B) : M S B := fun s =>
  match m s with
  | Ok a s' => k a s'
  | Panic msg s' => Panic msg s'
  | Undef s' => Undef s'
  | Hang s' => Hang s'
  | NoFuel => NoFuel
  end.
Definition get : M S S := fun s => Ok s s.
Definition gets {A} (f : S → A) : M S A := fun s => Ok (f s) s.
Definition put (s : S) : M S unit := fun _ => Ok tt s.
Definition modify (f : S → S) : M S unit := fun s => Ok tt (f s).
Definition panic {A} (msg : string) : M S A := fun s => Panic msg s.
Definition undef {A} : M S A := fun s => Undef s.
Definition hang {A} : M S A := fun s => Hang s.
Definition of_option {A} (o : option A) : M S A :=
  match o with Some a => ret a | None => undef end.

(** A C loop: [body a] either goes round again with a new [a] ([inl]) or
    leaves the loop with a result ([inr]). *)
Fixpoint loop {A B} (fuel : nat) (body : A → M S (A + B)) (a : A) : M S B :=
  match fuel with
  | O => fun _ => NoFuel
  | Datatypes.S n => bind (body a) (fun r =>
      match r with inl a' => loop n body a' | inr b => ret b end)
  end.

(** [for(i = lo; i < lo + n; i++) body(i)] *)
Fixpoint for_ (lo : Z) (n : nat) (body : Z → M S unit) : M S unit :=
  match n with
  | O => ret tt
  | Datatypes.S n' => bind (body lo) (fun _ => for_ (lo + 1) n' body)
  end.

(** The same loop with a body that may leave the enclosing function. *)
Fixpoint for_find {B} (lo : Z) (n : nat) (body : Z → M S (option B)) : M S (option B) :=
  match n with
  | O => ret None
  | Datatypes.S n' => bind (body lo) (fun r =>
      match r with Some b => ret (Some b) | None => for_find (lo + 1) n' body end)
  end.

(** Total correctness: [m] returns from [s], with a result in [Q]. *)
Definition wp {A} (m : M S A) (Q : A → S → Prop) (s : S) : Prop :=
  match m s with Ok a s' => Q a s' | _ => False end.

End monad.

Declare Scope monad_scope.
Delimit Scope monad_scope with monad.
Notation "'let!' x := m 'in' k" := (bind m (fun x => k))
  (at level 10, x pattern, m at level 100, k at level 200) : monad_scope.
Notation "m ;;; k" := (bind m (fun _ => k))
  (at level 100, k at level 200, right associativity) : monad_scope.
#[global] Open Scope monad_scope.

Section wp.
Context {S : Type}.

Lemma wp_ret {A} (a : A) Q (s : S) : Q a s → wp (ret a) Q s.
Proof. done. Qed.

Lemma wp_bind {A B} (m : M S A) (k : A → M S B) Q s :
  wp m (fun a s' => wp (k a) Q s') s → wp (bind m k) Q s.
Proof. unfold wp, bind. by destruct (m s). Qed.

Lemma wp_mono {A} (m : M S A) (Q Q' : A → S → Prop) s :
  wp m Q s → (∀ a s', Q a s' → Q' a s') → wp m Q' s.
Proof. unfold wp. destruct (m s); naive_solver. Qed.

Lemma wp_Ok {A} (m : M S A) Q s : wp m Q s ↔ ∃ a s', m s = Ok a s' ∧ Q a s'.
Proof. unfold wp. destruct (m s); naive_solver. Qed.

(** A loop under an invariant and a decreasing measure returns. *)
Lemma wp_loop {A B} (I : A → S → Prop) (m : A → nat) (body : A → M S (A + B)) Q fuel a s :
  (∀ a s, I a s → wp (body a) (fun r s' =>
     match r with inl a' => I a' s' ∧ (m a' < m a)%nat | inr b => Q b s' end) s) →
  I a s → (m a < fuel)%nat → wp (loop fuel body a) Q s.
Proof.
  intros Hb. revert a s. induction fuel as [|fuel IH]; intros a s HI Hm; [lia|].
  simpl. apply wp_bind. eapply wp_mono; [by apply Hb|].
  intros [a'|b] s'; [intros [HI' Hlt]; apply IH; [done|lia]|by intros].
Qed.

Lemma wp_for (I : Z → S → Prop) lo n (body : Z → M S unit) s :
  (∀ i s, lo ≤ i < lo + Z.of_nat n → I i s → wp (body i) (fun _ s' => I (i + 1) s') s) →
  I lo s → wp (for_ lo n body) (fun _ s' => I (lo + Z.of_nat n) s') s.
Proof.
  revert lo s. induction n as [|n IH]; intros lo s Hb HI; simpl.
  { apply wp_ret. by rewrite Z.add_0_r. }
  apply wp_bind. eapply wp_mono; [apply Hb; [lia|done]|].
  intros [] s' HI'. cbn beta in HI'. replace (lo + Z.of_nat (Datatypes.S n)) with (lo + 1 + Z.of_nat n) by lia.
  apply IH; [|done]. intros i s'' Hi. apply Hb. lia.
Qed.

Lemma wp_for_find {B} (I : Z → S → Prop) (Q : option B → S → Prop) lo n (body : Z → M S (option B)) s :
  (∀ i s, lo ≤ i < lo + Z.of_nat n → I i s →
     wp (body i) (fun r s' => match r with Some b => Q (Some b) s' | None => I (i + 1) s' end) s) →
  (∀ s', I (lo + Z.of_nat n) s' → Q None s') →
  I lo s → wp (for_find lo n body) Q s.
Proof.
  revert lo s. induction n as [|n IH]; intros lo s Hb Hend HI; simpl.
  { apply wp_ret, Hend. by rewrite Z.add_0_r. }
  apply wp_bind. eapply wp_mono; [apply Hb; [lia|done]|]. intros [b|] s' H; [by apply wp_ret|].
  apply IH; [|intros s'' Hs; apply Hend; by replace (lo + Z.of_nat (Datatypes.S n)) with (lo + 1 + Z.of_nat n) by lia|done].
  intros i s'' Hi. apply Hb. lia.
Qed.

Lemma bind_ret {A B} (a : A) (k : A → M S B) s : bind (ret a) k s = k a s.
Proof. done. Qed.

Lemma bind_Ok {A B} (m : M S A) (k : A → M S B) s a s' :
  m s = Ok a s' → bind m k s = k a s'.
Proof. unfold bind. by intros ->. Qed.

Lemma bind_assoc {A B C} (m : M S A) (f : A → M S B) (g : B → M S C) s :
  bind (bind m f) g s = bind m (fun a => bind (f a) g) s.
Proof. unfold bind. by destruct (m s). Qed.

Lemma bind_ext {A B} (m : M S A) (f g : A → M S B) s :
  (∀ a s', m s = Ok a s' → f a s' = g a s') → bind m f s = bind m g s.
Proof. unfold bind. destruct (m s); auto. Qed.

End wp.

(** Partial correctness, for results that are known to be returned. *)
Definition wlp {S A} (m : M S A) (Q : A → S → Prop) (s : S) : Prop :=
  ∀ a s', m s = Ok a s' → Q a s'.

Lemma wlp_bind {S A B} (m : M S A) (k : A → M S B) Q s :
  wlp m (fun a s' => wlp (k a) Q s') s → wlp (bind m k) Q s.
Proof. unfold wlp, bind. intros H a s'. destruct (m s); naive_solver. Qed.

Lemma wlp_mono {S A} (m : M S A) (Q Q' : A → S → Prop) s :
  wlp m Q s → (∀ a s', Q a s' → Q' a s') → wlp m Q' s.
Proof. unfold wlp. naive_solver. Qed.

Lemma wlp_loop {S A B} (I : A → S → Prop) (body : A → M S (A + B)) Q fuel a s :
  (∀ a s, I a s → wlp (body a) (fun r s' =>
     match r with inl a' => I a' s' | inr b => Q b s' end) s) →
  I a s → wlp (loop fuel body a) Q s.
Proof.
  intros Hb. revert a s. induction fuel as [|fuel IH]; intros a s HI; [done|].
  simpl. apply wlp_bind. eapply wlp_mono; [by apply Hb|].
  intros [a'|b] s' H; [by apply IH|]. intros ? ? [= <- <-]. done.
Qed.

Lemma wlp_ret {S A} (a : A) (Q : A → S → Prop) s : Q a s → wlp (ret a) Q s.
Proof. intros H ? ? [= <- <-]. done. Qed.

Lemma wlp_any {S A B} (m : M S A) (k : A → M S B) Q s :
  (∀ a s', wlp (k a) Q s') → wlp (bind m k) Q s.
Proof. intros H. apply wlp_bind. intros a s' _. apply H. Qed.

(** Symbolic execution of straight-line code inside [wp]. *)
Create HintDb wpdb.
Ltac wp_step :=
  lazymatch goal with
  | |- wp (bind _ _) _ _ => apply wp_bind
  | |- wp (ret ?a) ?Q ?s => change (Q a s)
  | |- wp (gets ?f) ?Q ?s => change (Q (f s) s)
  | |- wp get ?Q ?s => change (Q s s)
  | |- wp (put ?s') ?Q ?s => change (Q tt s')
  | |- wp (modify ?f) ?Q ?s => change (Q tt (f s))
  | |- wp (of_option (Some ?a)) ?Q ?s => change (Q a s)
  end; cbv beta.
Ltac wp_run := repeat wp_step.

(** Chain a specification already proved for the next call. *)
Ltac wp_apply H := first [eapply wp_mono; [eapply H|] | apply wp_bind; eapply wp_mono; [eapply H|]].
