(* ===== verification/Mem.v ===== *)
(** * Byte-addressed memory

    Physical memory is a finite map from addresses to byte values; an address
    that was never written reads as zero.  C objects wider than a byte are
    stored little-endian, as the RISC-V target does. *)

From S2P Require Import Prelude.

Abbreviation mem := (gmap Z Z).

Definition mem_get (m : mem) (a : Z) : Z := default 0 (m !! a).
Definition mem_set (m : mem) (a v : Z) : mem := <[a := v]> m.

(** The [n] bytes at [a]. *)
Fixpoint read_bytes (m : mem) (a : Z) (n : nat) : list Z :=
  match n with
  | O => []
  | S n' => mem_get m a :: read_bytes m (a + 1) n'
  end.

Fixpoint write_bytes (m : mem) (a : Z) (l : list Z) : mem :=
  match l with
  | [] => m
  | b :: l' => write_bytes (mem_set m a b) (a + 1) l'
  end.

(** Little-endian encoding of the low [n] bytes of [v]. *)
Fixpoint le_bytes (n : nat) (v : Z) : list Z :=
  match n with
  | O => []
  | S n' => v mod 256 :: le_bytes n' (v / 256)
  end.

Fixpoint le_val (l : list Z) : Z :=
  match l with
  | [] => 0
  | b :: l' => b + 256 * le_val l'
  end.

Definition load (m : mem) (a : Z) (n : nat) : Z := le_val (read_bytes m a n).
Definition store (m : mem) (a : Z) (n : nat) (v : Z) : mem := write_bytes m a (le_bytes n v).

Definition load16 m a := load m a 2.
Definition load32 m a := load m a 4.
Definition load64 m a := load m a 8.
Definition store16 m a v := store m a 2 v.
Definition store32 m a v := store m a 4 v.
Definition store64 m a v := store m a 8 v.

Definition is_byte (b : Z) : Prop := 0 ≤ b < 256.
Definition bytes_ok (l : list Z) : Prop := Forall is_byte l.
Definition mem_ok (m : mem) : Prop := ∀ a, is_byte (mem_get m a).

(** [n] bytes from address [a] do not meet [k] bytes from [b]. *)
Definition disjoint_ranges (a n b k : Z) : Prop := a + n ≤ b ∨ b + k ≤ a.

#[export] Instance disjoint_dec a n b k : Decision (disjoint_ranges a n b k).
Proof. unfold disjoint_ranges. solve_decision. Defined.

(** ** Reads and writes *)

Lemma mem_get_set m a v b :
  mem_get (mem_set m a v) b = if decide (a = b) then v else mem_get m b.
Proof. unfold mem_get, mem_set. rewrite lookup_insert. by case_decide. Qed.

Lemma mem_get_set_eq m a v : mem_get (mem_set m a v) a = v.
Proof. rewrite mem_get_set. by case_decide. Qed.

Lemma mem_get_set_ne m a v b : a ≠ b → mem_get (mem_set m a v) b = mem_get m b.
Proof. intros. rewrite mem_get_set. by case_decide. Qed.

Lemma length_read_bytes m a n : length (read_bytes m a n) = n.
Proof. revert a. induction n; intros; simpl; auto. Qed.

Lemma lookup_read_bytes m a n (i : nat) :
  (i < n)%nat → read_bytes m a n !! i = Some (mem_get m (a + Z.of_nat i)).
Proof.
  revert a i. induction n as [|n IH]; intros a i Hi; [lia|].
  destruct i as [|i]; simpl.
  - by rewrite Z.add_0_r.
  - rewrite IH by lia. do 2 f_equal. lia.
Qed.

Lemma read_bytes_ext m m' a a' n :
  (∀ i, 0 ≤ i < Z.of_nat n → mem_get m (a + i) = mem_get m' (a' + i)) →
  read_bytes m a n = read_bytes m' a' n.
Proof.
  intros H. apply list_eq. intros i. destruct (decide (i < n)%nat).
  - rewrite !lookup_read_bytes by done. f_equal. apply H. lia.
  - rewrite !lookup_ge_None_2; rewrite ?length_read_bytes; lia || done.
Qed.

Lemma read_bytes_eq_iff m m' a a' n :
  read_bytes m a n = read_bytes m' a' n ↔
  (∀ i, 0 ≤ i < Z.of_nat n → mem_get m (a + i) = mem_get m' (a' + i)).
Proof.
  split; [|apply read_bytes_ext]. intros E i Hi.
  assert (Hl : read_bytes m a n !! Z.to_nat i = read_bytes m' a' n !! Z.to_nat i) by by rewrite E.
  rewrite !lookup_read_bytes in Hl by lia. rewrite Z2Nat.id in Hl by lia. congruence.
Qed.

Lemma read_bytes_app m a n k :
  read_bytes m a (n + k) = read_bytes m a n ++ read_bytes m (a + Z.of_nat n) k.
Proof.
  revert a. induction n as [|n IH]; intros a; simpl; [by rewrite Z.add_0_r|].
  rewrite IH. do 2 f_equal. f_equal. lia.
Qed.

Lemma take_read_bytes m a n k : (k ≤ n)%nat → take k (read_bytes m a n) = read_bytes m a k.
Proof.
  intros. replace n with (k + (n - k))%nat by lia. rewrite read_bytes_app.
  rewrite take_app_le by (rewrite length_read_bytes; lia).
  apply take_ge. by rewrite length_read_bytes.
Qed.

Lemma read_bytes_ok m a n : mem_ok m → bytes_ok (read_bytes m a n).
Proof. intros H. revert a. induction n; intros; constructor; auto. by apply IHn. Qed.

Lemma mem_get_write_bytes m a l b :
  mem_get (write_bytes m a l) b =
    match l !! Z.to_nat (b - a) with
    | Some v => if decide (a ≤ b) then v else mem_get m b
    | None => mem_get m b
    end.
Proof.
  revert m a. induction l as [|v l IH]; intros m a; simpl.
  { by destruct (Z.to_nat (b - a)). }
  rewrite IH, mem_get_set. destruct (decide (a = b)) as [->|Hne].
  - rewrite Z.sub_diag. simpl. destruct (l !! _); repeat case_decide; done || lia.
  - destruct (decide (a ≤ b)).
    + replace (Z.to_nat (b - a)) with (S (Z.to_nat (b - (a + 1)))) by lia. simpl.
      destruct (l !! _); repeat case_decide; done || lia.
    + replace (Z.to_nat (b - a)) with O by lia. simpl.
      destruct (l !! _); repeat case_decide; done || lia.
Qed.

Lemma mem_get_write_in m a l b :
  a ≤ b < a + Z.of_nat (length l) → Some (mem_get (write_bytes m a l) b) = l !! Z.to_nat (b - a).
Proof.
  intros. rewrite mem_get_write_bytes.
  destruct (lookup_lt_is_Some_2 l (Z.to_nat (b - a))) as [v Hv]; [lia|].
  rewrite Hv. case_decide; [done|lia].
Qed.

Lemma mem_get_write_out m a l b :
  b < a ∨ a + Z.of_nat (length l) ≤ b → mem_get (write_bytes m a l) b = mem_get m b.
Proof.
  intros H. rewrite mem_get_write_bytes. destruct (l !! _) eqn:E; [|done].
  apply lookup_lt_Some in E. case_decide; [|done]. lia.
Qed.

Lemma mem_get_write_read m m' d s n a :
  d ≤ a < d + Z.of_nat n → mem_get (write_bytes m d (read_bytes m' s n)) a = mem_get m' (s + (a - d)).
Proof.
  intros H. apply (inj Some). rewrite mem_get_write_in by (rewrite length_read_bytes; lia).
  rewrite lookup_read_bytes by lia. do 2 f_equal. lia.
Qed.

Lemma read_write_eq m a l : read_bytes (write_bytes m a l) a (length l) = l.
Proof.
  apply list_eq. intros i. destruct (decide (i < length l)%nat).
  - rewrite lookup_read_bytes by done. rewrite mem_get_write_in by lia. f_equal. lia.
  - rewrite !lookup_ge_None_2; rewrite ?length_read_bytes; lia || done.
Qed.

Lemma read_write_ne m a l b n :
  disjoint_ranges a (Z.of_nat (length l)) b (Z.of_nat n) →
  read_bytes (write_bytes m a l) b n = read_bytes m b n.
Proof. intros H. apply read_bytes_ext. intros i Hi. apply mem_get_write_out. destruct H; lia. Qed.

Lemma mem_set_ok m a v : mem_ok m → is_byte v → mem_ok (mem_set m a v).
Proof. intros Hm Hv b. rewrite mem_get_set. by case_decide. Qed.

Lemma write_bytes_ok m a l : mem_ok m → bytes_ok l → mem_ok (write_bytes m a l).
Proof.
  intros Hm Hl. revert m a Hm. induction Hl; intros; simpl; [done|].
  apply IHHl. by apply mem_set_ok.
Qed.

(** ** Little-endian values *)

Lemma length_le_bytes n v : length (le_bytes n v) = n.
Proof. revert v. induction n; intros; simpl; auto. Qed.

Lemma le_bytes_ok n v : bytes_ok (le_bytes n v).
Proof.
  revert v. induction n; intros; constructor; [apply Z.mod_pos_bound; lia|apply IHn].
Qed.

Lemma le_val_bytes n v : le_val (le_bytes n v) = v mod 2 ^ (8 * Z.of_nat n).
Proof.
  revert v. induction n as [|n IH]; intros v; [simpl; by rewrite Z.mod_1_r|].
  cbn [le_bytes le_val]. rewrite IH.
  replace (8 * Z.of_nat (S n)) with (8 + 8 * Z.of_nat n) by lia.
  rewrite Z.pow_add_r by lia. change (2 ^ 8) with 256.
  rewrite Z.rem_mul_r by lia. done.
Qed.

Lemma le_val_range l : bytes_ok l → 0 ≤ le_val l < 2 ^ (8 * Z.of_nat (length l)).
Proof.
  induction 1 as [|b l Hb Hl IH]; cbn [le_val length]; [simpl; lia|].
  replace (8 * Z.of_nat (S (length l))) with (8 + 8 * Z.of_nat (length l)) by lia.
  rewrite Z.pow_add_r by lia. change (2 ^ 8) with 256. unfold is_byte in Hb. lia.
Qed.

Lemma le_bytes_val l : bytes_ok l → le_bytes (length l) (le_val l) = l.
Proof.
  induction 1 as [|b l Hb Hl IH]; [done|]. cbn [length le_val le_bytes]. unfold is_byte in Hb.
  rewrite (Z.mul_comm 256), Z.mod_add, Z.mod_small, Z.div_add, Z.div_small, Z.add_0_l by lia.
  by rewrite IH.
Qed.

(** ** Words in memory *)

Lemma load_range m a n : mem_ok m → 0 ≤ load m a n < 2 ^ (8 * Z.of_nat n).
Proof.
  intros H. unfold load. rewrite <- (length_read_bytes m a n) at 3.
  by apply le_val_range, read_bytes_ok.
Qed.

Lemma load_store_eq m a n v : load (store m a n v) a n = v mod 2 ^ (8 * Z.of_nat n).
Proof.
  unfold load, store. rewrite <- le_val_bytes. f_equal.
  rewrite <- (length_le_bytes n v) at 2. apply read_write_eq.
Qed.

Lemma load_store_ne m a n v b k :
  disjoint_ranges a (Z.of_nat n) b (Z.of_nat k) → load (store m a n v) b k = load m b k.
Proof.
  intros H. unfold load, store. f_equal. apply read_write_ne. by rewrite length_le_bytes.
Qed.

Lemma read_store_ne m a n v b k :
  disjoint_ranges a (Z.of_nat n) b (Z.of_nat k) → read_bytes (store m a n v) b k = read_bytes m b k.
Proof. intros. unfold store. apply read_write_ne. by rewrite length_le_bytes. Qed.

Lemma store_ok m a n v : mem_ok m → mem_ok (store m a n v).
Proof. intros. apply write_bytes_ok; [done|apply le_bytes_ok]. Qed.

Lemma mem_get_store_out m a n v b :
  b < a ∨ a + Z.of_nat n ≤ b → mem_get (store m a n v) b = mem_get m b.
Proof. intros. apply mem_get_write_out. by rewrite length_le_bytes. Qed.

Lemma load_ext m m' a n :
  (∀ i, 0 ≤ i < Z.of_nat n → mem_get m (a + i) = mem_get m' (a + i)) → load m a n = load m' a n.
Proof. intros. unfold load. f_equal. by apply read_bytes_ext. Qed.

Lemma load_zero m a n : (∀ i, 0 ≤ i < Z.of_nat n → mem_get m (a + i) = 0) → load m a n = 0.
Proof.
  unfold load. revert a. induction n as [|n IH]; intros a H; [done|].
  cbn [read_bytes le_val]. rewrite IH.
  - specialize (H 0). rewrite Z.add_0_r in H. rewrite H by lia. done.
  - intros i Hi. rewrite <- Z.add_assoc. apply H. lia.
Qed.
