(* ===== verification/CString.v ===== *)
(** * string.c: memory and string routines

    The bootloader and the kernel link the same [string.c].  Each routine is a
    function on memory; pointers are addresses, [char] is an unsigned byte (as
    on RISC-V) and the loops run over the counter the C code decrements. *)

From S2P Require Import Prelude Mem.

(** ** Definitions *)

Fixpoint memset_loop (m : mem) (cdst i c : Z) (k : nat) : mem :=
  match k with
  | O => m
  | S k' => memset_loop (mem_set m (cdst + i) (u8 c)) cdst (i + 1) c k'
  end.
Definition memset (m : mem) (dst c n : Z) : mem := memset_loop m dst 0 c (Z.to_nat n).

Fixpoint memcmp_loop (m : mem) (s1 s2 : Z) (k : nat) : Z :=
  match k with
  | O => 0
  | S k' =>
      if decide (mem_get m s1 = mem_get m s2) then memcmp_loop m (s1 + 1) (s2 + 1) k'
      else mem_get m s1 - mem_get m s2
  end.
Definition memcmp (m : mem) (v1 v2 n : Z) : Z := memcmp_loop m v1 v2 (Z.to_nat n).

(** [while(n-- > 0) *d++ = *s++;] *)
Fixpoint copy_fwd (m : mem) (d s : Z) (k : nat) : mem :=
  match k with
  | O => m
  | S k' => copy_fwd (mem_set m d (mem_get m s)) (d + 1) (s + 1) k'
  end.

(** [while(n-- > 0) *--d = *--s;] *)
Fixpoint copy_bwd (m : mem) (d s : Z) (k : nat) : mem :=
  match k with
  | O => m
  | S k' => copy_bwd (mem_set m (d - 1) (mem_get m (s - 1))) (d - 1) (s - 1) k'
  end.

Definition memmove (m : mem) (dst src n : Z) : mem :=
  if decide (n = 0) then m
  else if decide (src < dst ∧ src + n > dst)
  then copy_bwd m (dst + n) (src + n) (Z.to_nat n)
  else copy_fwd m dst src (Z.to_nat n).

Definition memcpy (m : mem) (dst src n : Z) : mem := memmove m dst src n.

Fixpoint strncmp_loop (m : mem) (p q : Z) (k : nat) : Z :=
  match k with
  | O => 0
  | S k' =>
      if decide (mem_get m p ≠ 0 ∧ mem_get m p = mem_get m q)
      then strncmp_loop m (p + 1) (q + 1) k'
      else u8 (mem_get m p) - u8 (mem_get m q)
  end.
Definition strncmp (m : mem) (p q n : Z) : Z := strncmp_loop m p q (Z.to_nat n).

(** The second loop of [strncpy]: [while(n-- > 0) *s++ = 0;] *)
Fixpoint zero_fill (m : mem) (s : Z) (k : nat) : mem :=
  match k with
  | O => m
  | S k' => zero_fill (mem_set m s 0) (s + 1) k'
  end.

(** The first loop of [strncpy]; it stops after the NUL it copied. *)
Fixpoint strncpy_loop (m : mem) (s t : Z) (k : nat) : mem :=
  match k with
  | O => m
  | S k' =>
      let m' := mem_set m s (mem_get m t) in
      if decide (mem_get m t ≠ 0) then strncpy_loop m' (s + 1) (t + 1) k'
      else zero_fill m' (s + 1) k'
  end.
Definition strncpy (m : mem) (s t n : Z) : mem := strncpy_loop m s t (Z.to_nat n).

(** [while(--n > 0 && ( *s++ = *t++) != 0); *s = 0;] with [k] the value of
    [n] before the loop. *)
Fixpoint safestrcpy_loop (m : mem) (s t : Z) (k : nat) : mem :=
  match k with
  | O | 1%nat => mem_set m s 0
  | S k' =>
      let m' := mem_set m s (mem_get m t) in
      if decide (mem_get m t ≠ 0) then safestrcpy_loop m' (s + 1) (t + 1) k'
      else mem_set m' (s + 1) 0
  end.
Definition safestrcpy (m : mem) (s t n : Z) : mem :=
  if decide (n ≤ 0) then m else safestrcpy_loop m s t (Z.to_nat n).

(** [for(n = 0; s[n]; n++)], [None] when the bound runs out. *)
Fixpoint strlen_loop (m : mem) (s n : Z) (fuel : nat) : option Z :=
  match fuel with
  | O => None
  | S fuel' => if decide (mem_get m (s + n) = 0) then Some n else strlen_loop m s (n + 1) fuel'
  end.
Definition strlen (m : mem) (s : Z) (fuel : nat) : option Z := strlen_loop m s 0 fuel.

(** A NUL-terminated string of [n] characters starts at [s]. *)
Definition cstring_at (m : mem) (s n : Z) : Prop :=
  0 ≤ n ∧ mem_get m (s + n) = 0 ∧ ∀ i, 0 ≤ i < n → mem_get m (s + i) ≠ 0.

(** ** memset *)

Lemma mem_get_memset_loop m cdst i c k a :
  mem_get (memset_loop m cdst i c k) a =
  if decide (cdst + i ≤ a < cdst + i + Z.of_nat k) then u8 c else mem_get m a.
Proof.
  revert m i. induction k as [|k IH]; intros m i; simpl.
  { case_decide; [lia|done]. }
  rewrite IH, mem_get_set. repeat case_decide; done || lia.
Qed.

Lemma mem_get_memset m dst c n a :
  mem_get (memset m dst c n) a = if decide (dst ≤ a < dst + n) then u8 c else mem_get m a.
Proof. unfold memset. rewrite mem_get_memset_loop. repeat case_decide; done || lia. Qed.

Lemma memset_ok m dst c n : mem_ok m → mem_ok (memset m dst c n).
Proof.
  intros Hm a. rewrite mem_get_memset. case_decide; [|apply Hm].
  apply (wrap_range 8). lia.
Qed.

(** ** memmove *)

Lemma mem_get_copy_fwd m d s k a :
  d ≤ s ∨ s + Z.of_nat k ≤ d →
  mem_get (copy_fwd m d s k) a =
  if decide (d ≤ a < d + Z.of_nat k) then mem_get m (s + (a - d)) else mem_get m a.
Proof.
  revert m d s. induction k as [|k IH]; intros m d s H; simpl.
  { case_decide; [lia|done]. }
  rewrite IH by lia. rewrite !mem_get_set.
  destruct (decide (a = d)) as [->|].
  - rewrite decide_False by lia. rewrite decide_True by lia.
    rewrite decide_True by lia. f_equal. lia.
  - repeat case_decide; try lia; try done. f_equal; lia.
Qed.

Lemma mem_get_copy_bwd m d s k a :
  s ≤ d →
  mem_get (copy_bwd m d s k) a =
  if decide (d - Z.of_nat k ≤ a < d) then mem_get m (s - (d - a)) else mem_get m a.
Proof.
  revert m d s. induction k as [|k IH]; intros m d s H; simpl.
  { case_decide; [lia|done]. }
  rewrite IH by lia. rewrite !mem_get_set.
  destruct (decide (a = d - 1)) as [->|].
  - rewrite decide_False by lia. rewrite decide_True by lia.
    rewrite decide_True by lia. f_equal. lia.
  - destruct (decide (d = s)) as [->|]; repeat case_decide; try lia; try done; f_equal; lia.
Qed.

Lemma mem_get_memmove m dst src n a :
  0 ≤ n →
  mem_get (memmove m dst src n) a =
  if decide (dst ≤ a < dst + n) then mem_get m (src + (a - dst)) else mem_get m a.
Proof.
  intros Hn. unfold memmove. case_decide; [case_decide; [lia|done]|].
  case_decide.
  - rewrite mem_get_copy_bwd by lia. repeat case_decide; try lia; try done. f_equal; lia.
  - rewrite mem_get_copy_fwd by lia. repeat case_decide; try lia; done.
Qed.

Lemma memmove_ok m dst src n : 0 ≤ n → mem_ok m → mem_ok (memmove m dst src n).
Proof. intros Hn Hm a. rewrite mem_get_memmove by done. case_decide; apply Hm. Qed.

Lemma read_memmove_dst m dst src n :
  0 ≤ n → read_bytes (memmove m dst src n) dst (Z.to_nat n) = read_bytes m src (Z.to_nat n).
Proof.
  intros Hn. apply read_bytes_ext. intros i Hi.
  rewrite mem_get_memmove, decide_True by lia. f_equal. lia.
Qed.

Lemma read_memmove_ne m dst src n a (k : nat) :
  0 ≤ n → disjoint_ranges dst n a (Z.of_nat k) →
  read_bytes (memmove m dst src n) a k = read_bytes m a k.
Proof.
  intros Hn H. apply read_bytes_ext. intros i Hi.
  rewrite mem_get_memmove by done. case_decide; [destruct H; lia|done].
Qed.

(** [memmove] is the write of the bytes read beforehand: the copy behaves as
    if it went through a temporary buffer, whatever the overlap. *)
Lemma mem_get_memmove_write m dst src n a :
  0 ≤ n →
  mem_get (memmove m dst src n) a =
  mem_get (write_bytes m dst (read_bytes m src (Z.to_nat n))) a.
Proof.
  intros Hn. rewrite mem_get_memmove by done. case_decide as H.
  - rewrite mem_get_write_read by lia. done.
  - rewrite mem_get_write_out; [done|]. rewrite length_read_bytes. lia.
Qed.

(** ** Comparisons *)

Lemma memcmp_loop_zero m s1 s2 k :
  memcmp_loop m s1 s2 k = 0 ↔ read_bytes m s1 k = read_bytes m s2 k.
Proof.
  revert s1 s2. induction k as [|k IH]; intros s1 s2; simpl; [done|].
  case_decide as E.
  - rewrite IH, E. split; [by intros ->|by intros [= ?]].
  - split; [lia|]. intros [= ? ?]. done.
Qed.

Lemma memcmp_zero m v1 v2 n :
  memcmp m v1 v2 n = 0 ↔ read_bytes m v1 (Z.to_nat n) = read_bytes m v2 (Z.to_nat n).
Proof. apply memcmp_loop_zero. Qed.

(** The characters two C strings are compared on: up to [k], and up to the
    first NUL. *)
Fixpoint cut_nul (l : list Z) : list Z :=
  match l with
  | [] => []
  | b :: l' => if decide (b = 0) then [] else b :: cut_nul l'
  end.

Lemma strncmp_loop_zero m p q k :
  mem_ok m →
  strncmp_loop m p q k = 0 ↔ cut_nul (read_bytes m p k) = cut_nul (read_bytes m q k).
Proof.
  intros Hm. revert p q. induction k as [|k IH]; intros p q; simpl; [done|].
  pose proof (Hm p) as Bp. pose proof (Hm q) as Bq. unfold is_byte in *.
  unfold u8. rewrite !wrap_small by lia.
  case_decide as E.
  - destruct E as [Hz E]. rewrite IH, <- E, !decide_False by done.
    split; [by intros ->|by intros [= ?]].
  - destruct (decide (mem_get m p = 0)) as [Ep|Ep]; destruct (decide (mem_get m q = 0)) as [Eq|Eq].
    + split; [done|lia].
    + split; [lia|done].
    + split; [lia|done].
    + split; [|intros [= ? ?]]; naive_solver lia.
Qed.

(** ** String copies *)

Lemma mem_get_zero_fill m s k a :
  mem_get (zero_fill m s k) a = if decide (s ≤ a < s + Z.of_nat k) then 0 else mem_get m a.
Proof.
  revert m s. induction k as [|k IH]; intros m s; simpl.
  { case_decide; [lia|done]. }
  rewrite IH, mem_get_set. repeat case_decide; done || lia.
Qed.

(** The bytes [strncpy] leaves at its destination: the source string, cut at
    [k], padded with NULs. *)
Definition padded (l : list Z) (k : nat) : list Z :=
  cut_nul l ++ replicate (k - length (cut_nul l)) 0.

Lemma length_cut_nul l : (length (cut_nul l) ≤ length l)%nat.
Proof. induction l as [|b l IH]; simpl; [lia|]. case_decide; simpl; lia. Qed.

Lemma read_zero_fill m s k : read_bytes (zero_fill m s k) s k = replicate k 0.
Proof.
  apply list_eq. intros i. destruct (decide (i < k)%nat).
  - rewrite lookup_read_bytes by done. rewrite mem_get_zero_fill, decide_True by lia.
    symmetry. apply lookup_replicate_2. done.
  - rewrite !lookup_ge_None_2; rewrite ?length_read_bytes, ?length_replicate; lia || done.
Qed.

Lemma mem_get_strncpy_out m s t k a :
  a < s ∨ s + Z.of_nat k ≤ a → mem_get (strncpy_loop m s t k) a = mem_get m a.
Proof.
  revert m s t. induction k as [|k IH]; intros m s t H; simpl; [done|].
  case_decide.
  - rewrite IH by lia. apply mem_get_set_ne. lia.
  - rewrite mem_get_zero_fill, decide_False by lia. apply mem_get_set_ne. lia.
Qed.

Lemma read_strncpy_loop m s t k :
  disjoint_ranges s (Z.of_nat k) t (Z.of_nat k) →
  read_bytes (strncpy_loop m s t k) s k = padded (read_bytes m t k) k.
Proof.
  revert m s t. induction k as [|k IH]; intros m s t H; [done|].
  cbn [strncpy_loop read_bytes]. unfold padded. cbn [cut_nul].
  destruct (decide (mem_get m t = 0)) as [E|E].
  - rewrite decide_False by auto. rewrite read_zero_fill, mem_get_zero_fill.
    rewrite decide_False by lia. rewrite mem_get_set_eq, E. done.
  - rewrite decide_True by done. rewrite mem_get_strncpy_out by lia.
    rewrite mem_get_set_eq, IH by (unfold disjoint_ranges in *; lia).
    rewrite (read_bytes_ext _ m (t + 1) (t + 1)).
    + cbn [length app]. unfold padded. done.
    + intros i Hi. apply mem_get_set_ne. destruct H; lia.
Qed.

Lemma mem_get_safestrcpy_out m s t k a :
  a < s ∨ s + Z.of_nat (Nat.max k 1) ≤ a → mem_get (safestrcpy_loop m s t k) a = mem_get m a.
Proof.
  revert m s t. induction k as [|k IH]; intros m s t H; simpl.
  { apply mem_get_set_ne. lia. }
  destruct k as [|k]; [apply mem_get_set_ne; lia|].
  case_decide.
  - rewrite IH by lia. apply mem_get_set_ne. lia.
  - rewrite !mem_get_set_ne by lia. done.
Qed.

(** [safestrcpy] leaves a NUL-terminated string: the first [k - 1] characters
    of the source, cut at its NUL. *)
Lemma safestrcpy_loop_string m s t k :
  (0 < k)%nat → disjoint_ranges s (Z.of_nat k) t (Z.of_nat k) →
  cstring_at (safestrcpy_loop m s t k) s (Z.of_nat (length (cut_nul (read_bytes m t (k - 1))))) ∧
  read_bytes (safestrcpy_loop m s t k) s (length (cut_nul (read_bytes m t (k - 1)))) =
    cut_nul (read_bytes m t (k - 1)).
Proof.
  revert m s t. induction k as [|k IH]; intros m s t Hk H; [lia|].
  destruct k as [|k].
  { simpl. split; [|done]. split; [done|]. rewrite Z.add_0_r, mem_get_set_eq.
    split; [done|lia]. }
  replace (S (S k) - 1)%nat with (S k) by lia. cbn [read_bytes cut_nul].
  change (safestrcpy_loop m s t (S (S k))) with
    (if decide (mem_get m t ≠ 0)
     then safestrcpy_loop (mem_set m s (mem_get m t)) (s + 1) (t + 1) (S k)
     else mem_set (mem_set m s (mem_get m t)) (s + 1) 0).
  destruct (decide (mem_get m t = 0)) as [E|E].
  { rewrite decide_False by auto. simpl. split; [|done]. split; [done|].
    rewrite Z.add_0_r, mem_get_set_ne, mem_get_set_eq by lia. split; [done|lia]. }
  rewrite decide_True by done. set (m' := mem_set m s (mem_get m t)).
  destruct (IH m' (s + 1) (t + 1)) as [[H0 [Hz Hnz]] Hr]; [lia|unfold disjoint_ranges in *; lia|].
  replace (S k - 1)%nat with k in * by lia.
  assert (Hsrc : read_bytes m' (t + 1) k = read_bytes m (t + 1) k).
  { apply read_bytes_ext. intros i Hi. apply mem_get_set_ne. destruct H; lia. }
  rewrite Hsrc in *. cbn [length]. set (n := length (cut_nul (read_bytes m (t + 1) k))) in *.
  assert (Hhd : mem_get (safestrcpy_loop m' (s + 1) (t + 1) (S k)) s = mem_get m t).
  { rewrite mem_get_safestrcpy_out by lia. apply mem_get_set_eq. }
  split.
  - split; [lia|]. split.
    + replace (s + Z.of_nat (S n)) with (s + 1 + Z.of_nat n) by lia. done.
    + intros i Hi. destruct (decide (i = 0)) as [->|].
      * rewrite Z.add_0_r, Hhd. done.
      * replace (s + i) with (s + 1 + (i - 1)) by lia. apply Hnz. lia.
  - cbn [read_bytes]. rewrite Hhd, Hr. done.
Qed.

(** ** strlen *)

Lemma strlen_loop_spec m s n fuel k :
  cstring_at m s k → 0 ≤ n ≤ k → k - n < Z.of_nat fuel → strlen_loop m s n fuel = Some k.
Proof.
  intros (Hk & Hz & Hnz). revert n. induction fuel as [|fuel IH]; intros n Hn Hf; [lia|].
  simpl. case_decide as E.
  - f_equal. destruct (decide (n = k)); [done|]. destruct (Hnz n); [lia|done].
  - apply IH; [|lia]. destruct (decide (n = k)) as [->|]; [done|lia].
Qed.

Lemma strlen_spec m s k fuel :
  cstring_at m s k → k < Z.of_nat fuel → strlen m s fuel = Some k.
Proof. intros H Hf. apply strlen_loop_spec; [done| |lia]. destruct H. lia. Qed.
