(* ===== verification/Sha256.v ===== *)
(** * sha256.c: the hash the bootloader measures the kernel with

    [sha256_transform], [sha256_init], [sha256_update] and [sha256_final] work
    on the context structure of sha256.h, with 32-bit [WORD] arithmetic.  The
    second half of the file states SHA-256 as FIPS 180-4 does (padding, message
    schedule, compression of successive blocks) and proves that the streaming
    implementation computes it, however the message is cut into updates. *)

From S2P Require Import Prelude.

(** ** Macros *)

Definition ROTRIGHT (a b : Z) : Z := Z.lor (Z.shiftr a b) (u32 (Z.shiftl a (32 - b))).
Definition CH (x y z : Z) : Z := Z.lxor (Z.land x y) (Z.land (Z.lxor x 0xffffffff) z).
Definition MAJ (x y z : Z) : Z := Z.lxor (Z.lxor (Z.land x y) (Z.land x z)) (Z.land y z).
Definition EP0 (x : Z) : Z := Z.lxor (Z.lxor (ROTRIGHT x 2) (ROTRIGHT x 13)) (ROTRIGHT x 22).
Definition EP1 (x : Z) : Z := Z.lxor (Z.lxor (ROTRIGHT x 6) (ROTRIGHT x 11)) (ROTRIGHT x 25).
Definition SIG0 (x : Z) : Z := Z.lxor (Z.lxor (ROTRIGHT x 7) (ROTRIGHT x 18)) (Z.shiftr x 3).
Definition SIG1 (x : Z) : Z := Z.lxor (Z.lxor (ROTRIGHT x 17) (ROTRIGHT x 19)) (Z.shiftr x 10).

Definition k : list Z :=
  [0x428a2f98; 0x71374491; 0xb5c0fbcf; 0xe9b5dba5; 0x3956c25b; 0x59f111f1; 0x923f82a4; 0xab1c5ed5] ++
  [0xd807aa98; 0x12835b01; 0x243185be; 0x550c7dc3; 0x72be5d74; 0x80deb1fe; 0x9bdc06a7; 0xc19bf174] ++
  [0xe49b69c1; 0xefbe4786; 0x0fc19dc6; 0x240ca1cc; 0x2de92c6f; 0x4a7484aa; 0x5cb0a9dc; 0x76f988da] ++
  [0x983e5152; 0xa831c66d; 0xb00327c8; 0xbf597fc7; 0xc6e00bf3; 0xd5a79147; 0x06ca6351; 0x14292967] ++
  [0x27b70a85; 0x2e1b2138; 0x4d2c6dfc; 0x53380d13; 0x650a7354; 0x766a0abb; 0x81c2c92e; 0x92722c85] ++
  [0xa2bfe8a1; 0xa81a664b; 0xc24b8b70; 0xc76c51a3; 0xd192e819; 0xd6990624; 0xf40e3585; 0x106aa070] ++
  [0x19a4c116; 0x1e376c08; 0x2748774c; 0x34b0bcb5; 0x391c0cb3; 0x4ed8aa4a; 0x5b9cca4f; 0x682e6ff3] ++
  [0x748f82ee; 0x78a5636f; 0x84c87814; 0x8cc70208; 0x90befffa; 0xa4506ceb; 0xbef9a3f7; 0xc67178f2].

(** ** The context *)

Record SHA256_CTX := mkctx {
  data : list Z;      (* BYTE data[64] *)
  datalen : Z;        (* WORD *)
  bitlen : Z;         (* unsigned long long *)
  state : list Z      (* WORD state[8] *)
}.
#[export] Instance ctx_settable : Settable SHA256_CTX :=
  fun r => mkctx (data r) (datalen r) (bitlen r) (state r).

(** Array reads of arrays whose bounds the code respects. *)
Abbreviation idx l i := (nth i%nat l 0).

(** ** sha256_transform *)

(** [m[i] = (data[j] << 24) | ...] for [i < 16], [j = 4 i]. *)
Definition load_word (d : list Z) (i : nat) : Z :=
  u32 (Z.lor (Z.lor (Z.lor (Z.shiftl (idx d (4 * i)) 24) (Z.shiftl (idx d (4 * i + 1)) 16))
    (Z.shiftl (idx d (4 * i + 2)) 8)) (idx d (4 * i + 3))).

(** [for ( ; i < 64; ++i) m[i] = SIG1(m[i-2]) + m[i-7] + SIG0(m[i-15]) + m[i-16];]
    [m] holds the words filled so far. *)
Fixpoint extend (n : nat) (m : list Z) : list Z :=
  match n with
  | O => m
  | S n' =>
      let i := length m in
      extend n' (m ++ [u32 (SIG1 (idx m (i - 2)) + idx m (i - 7)
                            + SIG0 (idx m (i - 15)) + idx m (i - 16))])
  end.

Definition schedule (d : list Z) : list Z := extend 48 (map (load_word d) (seq 0 16)).

Record regs := mkregs { ra : Z; rb : Z; rc : Z; rd : Z; re : Z; rf : Z; rg : Z; rh : Z }.

Definition round (m : list Z) (r : regs) (i : nat) : regs :=
  let t1 := u32 (rh r + EP1 (re r) + CH (re r) (rf r) (rg r) + idx k i + idx m i) in
  let t2 := u32 (EP0 (ra r) + MAJ (ra r) (rb r) (rc r)) in
  mkregs (u32 (t1 + t2)) (ra r) (rb r) (rc r) (u32 (rd r + t1)) (re r) (rf r) (rg r).

Definition sha256_transform (ctx : SHA256_CTX) (d : list Z) : SHA256_CTX :=
  let m := schedule d in
  let s := state ctx in
  let r := fold_left (round m) (seq 0 64)
    (mkregs (idx s 0) (idx s 1) (idx s 2) (idx s 3) (idx s 4) (idx s 5) (idx s 6) (idx s 7)) in
  ctx <| state := [u32 (idx s 0 + ra r); u32 (idx s 1 + rb r); u32 (idx s 2 + rc r);
                   u32 (idx s 3 + rd r); u32 (idx s 4 + re r); u32 (idx s 5 + rf r);
                   u32 (idx s 6 + rg r); u32 (idx s 7 + rh r)] |>.

(** ** sha256_init, sha256_update, sha256_final *)

Definition sha256_init (ctx : SHA256_CTX) : SHA256_CTX :=
  ctx <| datalen := 0 |> <| bitlen := 0 |>
      <| state := [0x6a09e667; 0xbb67ae85; 0x3c6ef372; 0xa54ff53a;
                   0x510e527f; 0x9b05688c; 0x1f83d9ab; 0x5be0cd19] |>.

(** The body of the update loop, for one byte; [None] is a write outside
    [ctx->data]. *)
Definition update_byte (ctx : SHA256_CTX) (b : Z) : option SHA256_CTX :=
  if decide (0 ≤ datalen ctx < Z.of_nat (length (data ctx))) then
    let ctx := ctx <| data ::= <[Z.to_nat (datalen ctx) := b]> |> in
    let ctx := ctx <| datalen := u32 (datalen ctx + 1) |> in
    Some (if decide (datalen ctx = 64) then
            let ctx := sha256_transform ctx (data ctx) in
            ctx <| bitlen := u64 (bitlen ctx + 512) |> <| datalen := 0 |>
          else ctx)
  else None.

(** [for (i = 0; i < len; ++i)] with a 32-bit [i] and a 64-bit [len]; [None]
    when the loop does not end or reads past [d]. *)
Fixpoint update_loop (fuel : nat) (ctx : SHA256_CTX) (d : list Z) (len i : Z) : option SHA256_CTX :=
  if decide (i < len) then
    match fuel with
    | O => None
    | S fuel' =>
        b ← d !! Z.to_nat i;
        ctx' ← update_byte ctx b;
        update_loop fuel' ctx' d len (u32 (i + 1))
    end
  else Some ctx.

Definition sha256_update (ctx : SHA256_CTX) (d : list Z) (len : Z) : option SHA256_CTX :=
  update_loop (Z.to_nat len) ctx d len 0.

(** [ctx->data[i++] = 0x00] from [i] up to [hi]. *)
Fixpoint fill_zero (d : list Z) (i n : nat) : list Z :=
  match n with O => d | S n' => fill_zero (<[i := 0]> d) (S i) n' end.

Definition put_length (ctx : SHA256_CTX) : SHA256_CTX :=
  let n := bitlen ctx in
  ctx <| data := <[56%nat := u8 (Z.shiftr n 56)]> (<[57%nat := u8 (Z.shiftr n 48)]>
    (<[58%nat := u8 (Z.shiftr n 40)]> (<[59%nat := u8 (Z.shiftr n 32)]>
    (<[60%nat := u8 (Z.shiftr n 24)]> (<[61%nat := u8 (Z.shiftr n 16)]>
    (<[62%nat := u8 (Z.shiftr n 8)]> (<[63%nat := u8 n]> (data ctx)))))))) |>.

(** [hash[i + 4 * w] = (ctx->state[w] >> (24 - i * 8)) & 0x000000ff] *)
Definition digest_bytes (s : list Z) : list Z :=
  flat_map (fun w => map (fun i => Z.land (Z.shiftr (idx s w) (24 - Z.of_nat i * 8)) 0xff) (seq 0 4))
    (seq 0 8).

Definition sha256_final (ctx : SHA256_CTX) : option (SHA256_CTX * list Z) :=
  let i := Z.to_nat (datalen ctx) in
  ctx ← (if decide (datalen ctx < 56) then
           Some (ctx <| data := fill_zero (<[i := 0x80]> (data ctx)) (S i) (55 - i) |>)
         else if decide (datalen ctx < 64) then
           let ctx := ctx <| data := fill_zero (<[i := 0x80]> (data ctx)) (S i) (63 - i) |> in
           let ctx := sha256_transform ctx (data ctx) in
           Some (ctx <| data ::= fun d => fill_zero d 0 56 |>)
         else None);
  let ctx := ctx <| bitlen := u64 (bitlen ctx + u32 (datalen ctx * 8)) |> in
  let ctx := put_length ctx in
  let ctx := sha256_transform ctx (data ctx) in
  Some (ctx, digest_bytes (state ctx)).

(** ** SHA-256 as FIPS 180-4 states it *)

Module FIPS.

Definition rotr (n x : Z) : Z := x / 2 ^ n + (x mod 2 ^ n) * 2 ^ (32 - n).
Definition shr (n x : Z) : Z := x / 2 ^ n.
Definition Ch (x y z : Z) : Z := Z.lxor (Z.land x y) (Z.land (Z.lnot x) z).
Definition Maj (x y z : Z) : Z := Z.lxor (Z.lxor (Z.land x y) (Z.land x z)) (Z.land y z).
Definition Sigma0 (x : Z) : Z := Z.lxor (Z.lxor (rotr 2 x) (rotr 13 x)) (rotr 22 x).
Definition Sigma1 (x : Z) : Z := Z.lxor (Z.lxor (rotr 6 x) (rotr 11 x)) (rotr 25 x).
Definition sigma0 (x : Z) : Z := Z.lxor (Z.lxor (rotr 7 x) (rotr 18 x)) (shr 3 x).
Definition sigma1 (x : Z) : Z := Z.lxor (Z.lxor (rotr 17 x) (rotr 19 x)) (shr 10 x).
Definition add32 (x y : Z) : Z := (x + y) mod 2 ^ 32.

(** The [t]-th big-endian word of a block. *)
Definition word (b : list Z) (t : nat) : Z :=
  ((idx b (4 * t) * 256 + idx b (4 * t + 1)) * 256 + idx b (4 * t + 2)) * 256 + idx b (4 * t + 3).

(** The message schedule; [n] bounds the recursion and [t] is always enough. *)
Fixpoint sched (b : list Z) (n t : nat) : Z :=
  match n with
  | O => word b t
  | S n' =>
      if decide (t < 16)%nat then word b t
      else (sigma1 (sched b n' (t - 2)) + sched b n' (t - 7)
            + sigma0 (sched b n' (t - 15)) + sched b n' (t - 16)) mod 2 ^ 32
  end.
Definition W (b : list Z) (t : nat) : Z := sched b t t.

(** The constants as the standard derives them: the first 32 bits of the fractional parts of
    the cube roots of the first 64 primes. *)
Definition primes : list Z :=
  take 64 (filter (fun p => forallb (fun d => negb (p mod d =? 0)) (seqZ 2 (p - 2)) = true) (seqZ 2 400)).

(** The largest [r < 2^n] above [acc] with [r ^ 3 ≤ x], a bit at a time. *)
Fixpoint cbrt (n : nat) (acc x : Z) : Z :=
  match n with
  | O => acc
  | S n => let r := acc + 2 ^ Z.of_nat n in cbrt n (if r ^ 3 <=? x then r else acc) x
  end.
Definition K : list Z := (fun p => cbrt 40 0 (p * 2 ^ 96) mod 2 ^ 32) <$> primes.

Definition step (b : list Z) (r : regs) (t : nat) : regs :=
  let T1 := (rh r + Sigma1 (re r) + Ch (re r) (rf r) (rg r) + idx K t + W b t) mod 2 ^ 32 in
  let T2 := (Sigma0 (ra r) + Maj (ra r) (rb r) (rc r)) mod 2 ^ 32 in
  mkregs (add32 T1 T2) (ra r) (rb r) (rc r) (add32 (rd r) T1) (re r) (rf r) (rg r).

Definition regs_of (H : list Z) : regs :=
  mkregs (idx H 0) (idx H 1) (idx H 2) (idx H 3) (idx H 4) (idx H 5) (idx H 6) (idx H 7).
Definition list_of (r : regs) : list Z := [ra r; rb r; rc r; rd r; re r; rf r; rg r; rh r].

Definition compress (H b : list Z) : list Z :=
  zip_with add32 H (list_of (fold_left (step b) (seq 0 64) (regs_of H))).

(** The square roots of the first eight primes. *)
Definition H0 : list Z := (fun p => Z.sqrt (p * 2 ^ 64) mod 2 ^ 32) <$> take 8 primes.

(** [n] bytes of [v], most significant first. *)
Definition be_bytes (n : nat) (v : Z) : list Z :=
  map (fun i => (v / 2 ^ (8 * Z.of_nat (n - 1 - i))) mod 256) (seq 0 n).

Definition pad (l : list Z) : list Z :=
  l ++ [0x80] ++ replicate (Z.to_nat ((55 - Z.of_nat (length l)) mod 64)) 0
    ++ be_bytes 8 (8 * Z.of_nat (length l)).

Fixpoint blocks (n : nat) (l : list Z) : list (list Z) :=
  match n with O => [] | S n' => take 64 l :: blocks n' (drop 64 l) end.

Definition hash_blocks (bl : list (list Z)) : list Z := fold_left compress bl H0.

Definition sha256 (l : list Z) : list Z :=
  flat_map (be_bytes 4) (hash_blocks (blocks (length (pad l) / 64) (pad l))).

End FIPS.

(** ** Words and bits *)

Definition is_word (x : Z) : Prop := 0 ≤ x < 2 ^ 32.
Definition words_ok (s : list Z) : Prop := length s = 8%nat ∧ Forall is_word s.

Lemma u32_word x : is_word (u32 x).
Proof. apply (wrap_range 32). lia. Qed.
#[local] Hint Resolve u32_word : core.

Lemma lor_add n a b : 0 ≤ n → a mod 2 ^ n = 0 → 0 ≤ b < 2 ^ n → Z.lor a b = a + b.
Proof.
  intros Hn Ha Hb.
  assert (Hl : Z.land a b = 0).
  { apply Z.bits_inj'. intros i Hi. rewrite Z.land_spec, Z.bits_0.
    destruct (decide (i < n)).
    - replace a with (a / 2 ^ n * 2 ^ n) by (pose proof (Z.div_mod a (2 ^ n)); lia).
      rewrite Z.mul_pow2_bits_low by lia. done.
    - rewrite <- (Z.mod_small b (2 ^ n)) by lia.
      rewrite Z.mod_pow2_bits_high by lia. by rewrite andb_false_r. }
  rewrite <- Z.lxor_lor by done. symmetry. by apply Z.add_nocarry_lxor.
Qed.

Lemma ROTRIGHT_rotr n x : is_word x → 0 < n < 32 → ROTRIGHT x n = FIPS.rotr n x.
Proof.
  intros Hx Hn. unfold ROTRIGHT, FIPS.rotr, u32, wrap, is_word in *.
  rewrite Z.shiftr_div_pow2, Z.shiftl_mul_pow2 by lia.
  assert (E : 2 ^ 32 = 2 ^ n * 2 ^ (32 - n)) by (rewrite <- Z.pow_add_r by lia; f_equal; lia).
  assert (0 < 2 ^ n) by (apply Z.pow_pos_nonneg; lia).
  assert (0 < 2 ^ (32 - n)) by (apply Z.pow_pos_nonneg; lia).
  rewrite E, Z.mul_mod_distr_r by lia.
  rewrite Z.lor_comm, (lor_add (32 - n)); [lia|lia| |].
  - apply Z.mod_mul. lia.
  - split; [apply Z.div_pos; lia|]. apply Z.div_lt_upper_bound; lia.
Qed.

Lemma bits_above_word x i : is_word x → 32 ≤ i → Z.testbit x i = false.
Proof.
  intros Hx Hi. rewrite <- (Z.mod_small x (2 ^ 32)) by done. apply Z.mod_pow2_bits_high. lia.
Qed.

Lemma CH_Ch x y z : is_word z → CH x y z = FIPS.Ch x y z.
Proof.
  intros Hz. unfold CH, FIPS.Ch. f_equal. apply Z.bits_inj'. intros i Hi.
  rewrite !Z.land_spec, Z.lxor_spec, Z.lnot_spec by done.
  change 0xffffffff with (Z.ones 32). destruct (decide (i < 32)).
  - rewrite Z.ones_spec_low by lia. by destruct (Z.testbit x i).
  - rewrite (bits_above_word z) by (done || lia). by rewrite !andb_false_r.
Qed.

Lemma EP0_Sigma0 x : is_word x → EP0 x = FIPS.Sigma0 x.
Proof. intros. unfold EP0, FIPS.Sigma0. rewrite !ROTRIGHT_rotr by (done || lia). done. Qed.
Lemma EP1_Sigma1 x : is_word x → EP1 x = FIPS.Sigma1 x.
Proof. intros. unfold EP1, FIPS.Sigma1. rewrite !ROTRIGHT_rotr by (done || lia). done. Qed.
Lemma SIG0_sigma0 x : is_word x → SIG0 x = FIPS.sigma0 x.
Proof.
  intros. unfold SIG0, FIPS.sigma0. rewrite !ROTRIGHT_rotr by (done || lia).
  by rewrite Z.shiftr_div_pow2 by lia.
Qed.
Lemma SIG1_sigma1 x : is_word x → SIG1 x = FIPS.sigma1 x.
Proof.
  intros. unfold SIG1, FIPS.sigma1. rewrite !ROTRIGHT_rotr by (done || lia).
  by rewrite Z.shiftr_div_pow2 by lia.
Qed.

(** ** The message schedule *)

Lemma idx_lookup (l : list Z) i : (i < length l)%nat → l !! i = Some (idx l i).
Proof.
  intros Hi. destruct (lookup_lt_is_Some_2 l i Hi) as [x Hx]. rewrite Hx.
  f_equal. symmetry. by apply nth_lookup_Some.
Qed.

Lemma idx_byte (b : list Z) i : Forall (fun x => 0 ≤ x < 256) b → 0 ≤ idx b i < 256.
Proof.
  intros H. rewrite nth_lookup. destruct (b !! i) as [x|] eqn:E; simpl; [|lia].
  by apply (Forall_lookup_1 _ _ _ _ H E).
Qed.

Lemma load_word_eq b t : Forall (fun x => 0 ≤ x < 256) b → load_word b t = FIPS.word b t.
Proof.
  intros H. unfold load_word, FIPS.word.
  pose proof (idx_byte b (4 * t) H). pose proof (idx_byte b (4 * t + 1) H).
  pose proof (idx_byte b (4 * t + 2) H). pose proof (idx_byte b (4 * t + 3) H).
  rewrite !Z.shiftl_mul_pow2 by lia.
  set (b0 := idx b (4 * t)) in *. set (b1 := idx b (4 * t + 1)) in *.
  set (b2 := idx b (4 * t + 2)) in *. set (b3 := idx b (4 * t + 3)) in *.
  replace (Z.lor (b0 * 2 ^ 24) (b1 * 2 ^ 16)) with ((b0 * 2 ^ 8 + b1) * 2 ^ 16)
    by (rewrite (lor_add 24); [lia|lia|apply Z.mod_mul; lia|lia]).
  replace (Z.lor ((b0 * 2 ^ 8 + b1) * 2 ^ 16) (b2 * 2 ^ 8)) with ((b0 * 2 ^ 16 + b1 * 2 ^ 8 + b2) * 2 ^ 8)
    by (rewrite (lor_add 16); [lia|lia|apply Z.mod_mul; lia|lia]).
  rewrite (lor_add 8); [|lia|apply Z.mod_mul; lia|lia].
  unfold u32. rewrite wrap_small; lia.
Qed.

Lemma word_ok b t : Forall (fun x => 0 ≤ x < 256) b → is_word (FIPS.word b t).
Proof. intros. rewrite <- load_word_eq by done. apply u32_word. Qed.

Lemma sched_ok b n t : Forall (fun x => 0 ≤ x < 256) b → is_word (FIPS.sched b n t).
Proof.
  intros H. destruct n; simpl; [by apply word_ok|]. case_decide; [by apply word_ok|].
  apply Z.mod_pos_bound. lia.
Qed.

(** Any bound from [t] up gives the same schedule. *)
Lemma sched_enough b n n' t :
  (t ≤ n)%nat → (t ≤ n')%nat → FIPS.sched b n t = FIPS.sched b n' t.
Proof.
  revert n n'. induction t as [t IH] using lt_wf_ind. intros n n' Hn Hn'.
  destruct n as [|n], n' as [|n']; try (assert (t = 0)%nat as -> by lia; done).
  simpl. case_decide; [done|].
  rewrite !(IH (t - 2)%nat ltac:(lia) n n') by lia. rewrite !(IH (t - 7)%nat ltac:(lia) n n') by lia.
  rewrite !(IH (t - 15)%nat ltac:(lia) n n') by lia. rewrite !(IH (t - 16)%nat ltac:(lia) n n') by lia.
  done.
Qed.

Lemma W_rec b t : (16 ≤ t)%nat →
  FIPS.W b t = (FIPS.sigma1 (FIPS.W b (t - 2)) + FIPS.W b (t - 7)
                + FIPS.sigma0 (FIPS.W b (t - 15)) + FIPS.W b (t - 16)) mod 2 ^ 32.
Proof.
  intros Ht. unfold FIPS.W at 1. destruct t as [|t]; [lia|]. cbn [FIPS.sched].
  rewrite decide_False by lia. unfold FIPS.W.
  rewrite !(sched_enough b t (S t - 2) (S t - 2)) by lia.
  rewrite !(sched_enough b t (S t - 7) (S t - 7)) by lia.
  rewrite !(sched_enough b t (S t - 15) (S t - 15)) by lia.
  rewrite !(sched_enough b t (S t - 16) (S t - 16)) by lia. done.
Qed.

Lemma W_init b t : (t < 16)%nat → FIPS.W b t = FIPS.word b t.
Proof. intros. unfold FIPS.W. destruct t; [done|]. cbn [FIPS.sched]. by rewrite decide_True. Qed.

Definition is_sched (b m : list Z) : Prop := ∀ t, (t < length m)%nat → idx m t = FIPS.W b t.

Lemma extend_sched b n m :
  Forall (fun x => 0 ≤ x < 256) b → (16 ≤ length m)%nat → is_sched b m →
  is_sched b (extend n m) ∧ length (extend n m) = (length m + n)%nat.
Proof.
  intros Hb. revert m. induction n as [|n IH]; intros m Hm Hs; cbn [extend]; [split; [done|lia]|].
  match goal with |- context [m ++ [?x]] => set (v := x) end.
  destruct (IH (m ++ [v])) as [H1 H2].
  - rewrite length_app. lia.
  - intros t Ht. rewrite length_app in Ht. simpl in Ht.
    destruct (decide (t < length m)%nat).
    + rewrite app_nth1 by done. by apply Hs.
    + replace t with (length m) in * by lia. rewrite app_nth2, Nat.sub_diag by lia. cbn [nth].
      subst v. rewrite W_rec by lia. unfold u32, wrap.
      rewrite !Hs by lia. by rewrite SIG1_sigma1, SIG0_sigma0 by by apply sched_ok.
  - split; [done|]. rewrite H2, length_app. simpl. lia.
Qed.

Lemma schedule_W b t :
  Forall (fun x => 0 ≤ x < 256) b → (t < 64)%nat → idx (schedule b) t = FIPS.W b t.
Proof.
  intros Hb Ht. unfold schedule.
  destruct (extend_sched b 48 (map (load_word b) (seq 0 16))) as [H1 H2];
    [done|rewrite length_map, length_seq; lia| |].
  - intros i Hi. rewrite length_map, length_seq in Hi.
    rewrite (nth_indep _ 0 (load_word b 0)) by (rewrite length_map, length_seq; lia).
    rewrite map_nth, seq_nth by done. rewrite load_word_eq, W_init by done. done.
  - apply H1. rewrite H2, length_map, length_seq. lia.
Qed.

(** ** Compression *)

Definition regs_ok (r : regs) : Prop := Forall is_word (FIPS.list_of r).

(** The constants of the source are those of the standard. *)
Lemma K_k : FIPS.K = k.
Proof. by vm_compute. Qed.
Lemma H0_eq : FIPS.H0 =
  [0x6a09e667; 0xbb67ae85; 0x3c6ef372; 0xa54ff53a; 0x510e527f; 0x9b05688c; 0x1f83d9ab; 0x5be0cd19].
Proof. by vm_compute. Qed.

Lemma round_step b r t :
  Forall (fun x => 0 ≤ x < 256) b → regs_ok r → (t < 64)%nat →
  round (schedule b) r t = FIPS.step b r t ∧ regs_ok (FIPS.step b r t).
Proof.
  intros Hb Hr Ht. unfold regs_ok, FIPS.list_of in *.
  repeat match goal with H : Forall _ (_ :: _) |- _ => apply Forall_cons in H as [? ?] end.
  unfold round, FIPS.step, FIPS.add32, u32, wrap. rewrite K_k, schedule_W by done.
  rewrite EP0_Sigma0, EP1_Sigma1, CH_Ch by done. split; [done|].
  cbn [ra rb rc rd re rf rg rh].
  repeat first [apply Forall_cons_2 | apply Forall_nil_2]; try done; apply Z.mod_pos_bound; lia.
Qed.

Lemma rounds_steps b l r :
  Forall (fun x => 0 ≤ x < 256) b → regs_ok r → Forall (fun t => t < 64)%nat l →
  fold_left (round (schedule b)) l r = fold_left (FIPS.step b) l r ∧
  regs_ok (fold_left (FIPS.step b) l r).
Proof.
  intros Hb Hr Hl. revert r Hr. induction Hl as [|t l Ht Hl IH]; intros r Hr; [done|].
  cbn [fold_left]. destruct (round_step b r t Hb Hr Ht) as [E Hok]. rewrite E. by apply IH.
Qed.

Lemma transform_compress ctx b :
  Forall (fun x => 0 ≤ x < 256) b → words_ok (state ctx) →
  sha256_transform ctx b = ctx <| state := FIPS.compress (state ctx) b |> ∧
  words_ok (FIPS.compress (state ctx) b).
Proof.
  intros Hb [Hlen Hs].
  destruct (state ctx) as [|s0 [|s1 [|s2 [|s3 [|s4 [|s5 [|s6 [|s7 [|]]]]]]]]] eqn:Es; try done.
  unfold sha256_transform, FIPS.compress. rewrite Es. cbv zeta.
  destruct (rounds_steps b (seq 0 64) (FIPS.regs_of [s0; s1; s2; s3; s4; s5; s6; s7])) as [E Hok].
  - done.
  - done.
  - apply Forall_forall. intros t [_ Ht]%elem_of_seq. lia.
  - unfold FIPS.regs_of in E. cbn [nth] in E |- *. rewrite E. split; [done|].
    split; [done|]. unfold FIPS.list_of, FIPS.add32. cbn [zip_with].
    repeat first [apply Forall_cons_2 | apply Forall_nil_2]; apply Z.mod_pos_bound; lia.
Qed.

(** ** The streaming invariant

    After hashing the bytes [l], the context holds the compression of the
    complete blocks [bl] of [l] and the unfinished block [rest]. *)

Definition bytes (l : list Z) : Prop := Forall (fun x => 0 ≤ x < 256) l.

Definition absorbed (l : list Z) (bl : list (list Z)) (rest : list Z) (ctx : SHA256_CTX) : Prop :=
  l = concat bl ++ rest ∧ Forall (fun b => length b = 64%nat) bl ∧ (length rest < 64)%nat ∧
  length (data ctx) = 64%nat ∧ datalen ctx = Z.of_nat (length rest) ∧
  take (length rest) (data ctx) = rest ∧
  bitlen ctx = u64 (512 * Z.of_nat (length bl)) ∧
  state ctx = FIPS.hash_blocks bl ∧ words_ok (state ctx) ∧ bytes l.

Definition sha_repr (l : list Z) (ctx : SHA256_CTX) : Prop := ∃ bl rest, absorbed l bl rest ctx.

Lemma hash_blocks_snoc bl b :
  FIPS.hash_blocks (bl ++ [b]) = FIPS.compress (FIPS.hash_blocks bl) b.
Proof. unfold FIPS.hash_blocks. by rewrite fold_left_app. Qed.

Lemma init_repr ctx : length (data ctx) = 64%nat → sha_repr [] (sha256_init ctx).
Proof.
  intros H. exists [], []. unfold absorbed, sha256_init. simpl.
  split_and!; try done; try lia; try apply Forall_nil_2. split; [done|].
  repeat first [apply Forall_cons_2 | apply Forall_nil_2]; unfold is_word; lia.
Qed.

Lemma update_byte_repr l ctx b :
  sha_repr l ctx → 0 ≤ b < 256 → ∃ ctx', update_byte ctx b = Some ctx' ∧ sha_repr (l ++ [b]) ctx'.
Proof.
  intros (bl & rest & -> & Hbl & Hr & Hd & Hdl & Htk & Hbit & Hst & Hw & Hby) Hb.
  unfold update_byte. rewrite Hd, Hdl, decide_True by lia. rewrite Nat2Z.id.
  assert (Hins : take (S (length rest)) (<[length rest := b]> (data ctx)) = rest ++ [b]).
  { rewrite (take_S_r _ _ b) by (apply list_lookup_insert_eq; lia).
    rewrite take_insert_ge by lia. by rewrite Htk. }
  assert (Hby' : bytes ((concat bl ++ rest) ++ [b])).
  { apply Forall_app_2; [done|]. by constructor. }
  assert (Hu : u32 (Z.of_nat (length rest) + 1) = Z.of_nat (S (length rest))).
  { unfold u32. rewrite wrap_small; lia. }
  eexists. split; [reflexivity|]. cbn [set_field data datalen bitlen state]. rewrite Hdl, Hu.
  case_decide as Hfull.
  - assert (HL : length rest = 63%nat) by lia.
    assert (Hall : <[length rest:=b]> (data ctx) = rest ++ [b]).
    { rewrite <- Hins. symmetry. apply take_ge. rewrite length_insert. lia. }
    rewrite Hall.
    match goal with |- context [sha256_transform ?c ?d] =>
      destruct (transform_compress c d) as [E Hok] end.
    { apply Forall_app_2; [|by constructor]. by apply Forall_app in Hby as [_ ?]. }
    { exact Hw. }
    rewrite E. exists (bl ++ [rest ++ [b]]), []. unfold absorbed.
    cbn [set_field data datalen bitlen state] in Hok |- *.
    rewrite Hst, hash_blocks_snoc in *.
    split_and!; try done.
    + rewrite concat_app. simpl. rewrite !app_nil_r. by rewrite <- app_assoc.
    + apply Forall_app_2; [done|]. constructor; [|constructor]. rewrite length_app. simpl. lia.
    + simpl. lia.
    + rewrite length_insert. done.
    + rewrite Hbit, length_app. unfold u64. rewrite wrap_add_l. f_equal. simpl. lia.
  - exists bl, (rest ++ [b]). unfold absorbed. cbn [set_field data datalen bitlen state].
    rewrite length_app. simpl. rewrite Nat.add_1_r.
    split_and!; try done; try lia.
    + by rewrite <- app_assoc.
    + rewrite length_insert. done.
Qed.

Lemma update_loop_repr n ctx l d len i :
  sha_repr l ctx → bytes d → 0 ≤ i → len < 2 ^ 32 → len ≤ Z.of_nat (length d) →
  len - i ≤ Z.of_nat n →
  ∃ ctx', update_loop n ctx d len i = Some ctx' ∧
    sha_repr (l ++ take (Z.to_nat (len - i)) (drop (Z.to_nat i) d)) ctx'.
Proof.
  revert ctx l i. induction n as [|n IH]; intros ctx l i Hr Hd Hi Hlen Hld Hn.
  - simpl. rewrite decide_False by lia. replace (Z.to_nat (len - i)) with O by lia.
    rewrite take_0, app_nil_r. eauto.
  - cbn [update_loop]. case_decide as Hlt.
    + destruct (lookup_lt_is_Some_2 d (Z.to_nat i)) as [b Hb]; [lia|]. rewrite Hb. simpl.
      destruct (update_byte_repr l ctx b Hr) as (ctx1 & E & Hr1).
      { by apply (Forall_lookup_1 _ _ _ _ Hd Hb). }
      rewrite E. simpl.
      assert (Hu : u32 (i + 1) = i + 1) by (unfold u32; rewrite wrap_small; lia).
      rewrite Hu. destruct (IH ctx1 (l ++ [b]) (i + 1)) as (ctx2 & E2 & Hr2); try done; try lia.
      exists ctx2. split; [done|]. rewrite <- app_assoc in Hr2.
      replace (Z.to_nat (len - i)) with (S (Z.to_nat (len - (i + 1)))) by lia.
      rewrite (drop_S _ _ _ Hb). replace (S (Z.to_nat i)) with (Z.to_nat (i + 1)) by lia. done.
    + replace (Z.to_nat (len - i)) with O by lia. rewrite take_0, app_nil_r. eauto.
Qed.

Lemma update_repr ctx l d len :
  sha_repr l ctx → bytes d → 0 ≤ len < 2 ^ 32 → len ≤ Z.of_nat (length d) →
  ∃ ctx', sha256_update ctx d len = Some ctx' ∧ sha_repr (l ++ take (Z.to_nat len) d) ctx'.
Proof.
  intros Hr Hd Hl Hld. unfold sha256_update.
  destruct (update_loop_repr (Z.to_nat len) ctx l d len 0) as (ctx' & E & Hr'); try done; try lia.
  exists ctx'. split; [done|]. by rewrite Z.sub_0_r, drop_0 in Hr'.
Qed.

(** ** Padding *)

Lemma fill_zero_eq d i n :
  (i + n ≤ length d)%nat → fill_zero d i n = take i d ++ replicate n 0 ++ drop (i + n) d.
Proof.
  revert d i. induction n as [|n IH]; intros d i H; simpl.
  { by rewrite Nat.add_0_r, take_drop. }
  rewrite IH by (rewrite length_insert; lia).
  rewrite (take_S_r _ _ 0) by (apply list_lookup_insert_eq; lia).
  rewrite take_insert_ge by lia. rewrite <- app_assoc. simpl.
  rewrite drop_insert_lt by lia. do 4 f_equal. lia.
Qed.

Lemma blocks_concat bl rest n :
  Forall (fun b => length b = 64%nat) bl → n = length bl → FIPS.blocks n (concat bl ++ rest) = bl.
Proof.
  intros H ->. induction H as [|b bl Hb H IH]; [done|]. cbn [length FIPS.blocks concat].
  rewrite <- !app_assoc. rewrite take_app_length', drop_app_length' by done. by rewrite IH.
Qed.

Lemma length_concat64 bl :
  Forall (fun b : list Z => length b = 64%nat) bl → length (concat bl) = (64 * length bl)%nat.
Proof.
  induction 1 as [|b bl Hb H IH]; [done|]. cbn [concat length].
  rewrite length_app, IH, Hb. lia.
Qed.

Lemma be_bytes_8 v :
  FIPS.be_bytes 8 v = [u8 (Z.shiftr v 56); u8 (Z.shiftr v 48); u8 (Z.shiftr v 40); u8 (Z.shiftr v 32);
                       u8 (Z.shiftr v 24); u8 (Z.shiftr v 16); u8 (Z.shiftr v 8); u8 v].
Proof.
  unfold FIPS.be_bytes, u8, wrap. rewrite !Z.shiftr_div_pow2 by lia. cbn [map seq Nat.sub Nat.add].
  change (8 * Z.of_nat 0) with 0. rewrite Z.pow_0_r, Z.div_1_r. done.
Qed.

Lemma be_bytes_8_wrap v : FIPS.be_bytes 8 (u64 v) = FIPS.be_bytes 8 v.
Proof.
  unfold FIPS.be_bytes. apply map_ext_in. intros i Hi. apply in_seq in Hi.
  unfold u64, wrap. set (p := 8 * Z.of_nat (8 - 1 - i)).
  assert (0 ≤ p ≤ 56) by lia.
  replace 64 with (p + (64 - p)) by lia.
  rewrite Z.pow_add_r by lia. assert (0 < 2 ^ p) by (apply Z.pow_pos_nonneg; lia).
  assert (0 < 2 ^ (64 - p)) by (apply Z.pow_pos_nonneg; lia).
  rewrite Z.rem_mul_r by lia.
  rewrite (Z.mul_comm (2 ^ p)), Z.div_add, Z.div_small, Z.add_0_l by (try apply Z.mod_pos_bound; lia).
  change 256 with (2 ^ 8). replace (64 - p) with (8 + (56 - p)) by lia.
  rewrite Z.pow_add_r by lia. assert (0 < 2 ^ (56 - p)) by (apply Z.pow_pos_nonneg; lia).
  rewrite Z.rem_mul_r by lia. rewrite (Z.mul_comm (2 ^ 8)), Z.mod_add by lia. apply Zmod_mod.
Qed.

Lemma put_length_data ctx :
  length (data ctx) = 64%nat →
  put_length ctx = ctx <| data := take 56 (data ctx) ++ FIPS.be_bytes 8 (bitlen ctx) |>.
Proof.
  intros H. unfold put_length. cbv zeta. rewrite be_bytes_8.
  set (p := take 56 (data ctx)). set (q := drop 56 (data ctx)).
  assert (E : data ctx = p ++ q) by (symmetry; apply take_drop).
  assert (Lp : length p = 56%nat) by (unfold p; rewrite length_take; lia).
  assert (Lq : length q = 8%nat) by (unfold q; rewrite length_drop; lia).
  rewrite E. clearbody p q.
  destruct q as [|q0 [|q1 [|q2 [|q3 [|q4 [|q5 [|q6 [|q7 [|]]]]]]]]]; try done.
  repeat (rewrite insert_app_r_alt by lia; rewrite Lp). cbn [Nat.sub]. done.
Qed.

(** The two padded tails: one block, or two. *)
Lemma pad_short l (bl : list (list Z)) rest :
  l = concat bl ++ rest → Forall (fun b => length b = 64%nat) bl → (length rest < 56)%nat →
  FIPS.pad l = concat (bl ++ [rest ++ [0x80] ++ replicate (55 - length rest) 0
                                ++ FIPS.be_bytes 8 (8 * Z.of_nat (length l))]).
Proof.
  intros -> Hbl Hr. unfold FIPS.pad.
  rewrite concat_app. cbn [concat]. rewrite app_nil_r, <- !app_assoc. cbn [app].
  do 4 f_equal. rewrite length_app, length_concat64 by done.
  replace (55 - Z.of_nat (64 * length bl + length rest))
    with (55 - Z.of_nat (length rest) + (- Z.of_nat (length bl)) * 64) by lia.
  rewrite Z.mod_add, Z.mod_small by lia. f_equal. lia.
Qed.

Lemma pad_long l (bl : list (list Z)) rest :
  l = concat bl ++ rest → Forall (fun b => length b = 64%nat) bl → (56 ≤ length rest < 64)%nat →
  FIPS.pad l = concat (bl ++ [rest ++ [0x80] ++ replicate (63 - length rest) 0;
                              replicate 56 0 ++ FIPS.be_bytes 8 (8 * Z.of_nat (length l))]).
Proof.
  intros -> Hbl Hr. unfold FIPS.pad.
  rewrite concat_app. cbn [concat]. rewrite app_nil_r, <- !app_assoc. cbn [app].
  do 3 f_equal. rewrite app_assoc, <- replicate_add. f_equal. f_equal.
  rewrite length_app, length_concat64 by done.
  replace (55 - Z.of_nat (64 * length bl + length rest))
    with (119 - Z.of_nat (length rest) + (- Z.of_nat (length bl) - 1) * 64) by lia.
  rewrite Z.mod_add, Z.mod_small by lia. lia.
Qed.

Lemma sha256_of_blocks l bl :
  FIPS.pad l = concat bl → Forall (fun b => length b = 64%nat) bl →
  FIPS.sha256 l = flat_map (FIPS.be_bytes 4) (FIPS.hash_blocks bl).
Proof.
  intros E H. unfold FIPS.sha256. rewrite E, length_concat64 by done.
  rewrite Nat.mul_comm, Nat.div_mul by lia. rewrite <- (app_nil_r (concat bl)).
  by rewrite blocks_concat by done.
Qed.

Lemma digest_be s : words_ok s → digest_bytes s = flat_map (FIPS.be_bytes 4) s.
Proof.
  intros [Hlen _].
  destruct s as [|s0 [|s1 [|s2 [|s3 [|s4 [|s5 [|s6 [|s7 [|]]]]]]]]]; try done.
  unfold digest_bytes, FIPS.be_bytes. cbn [flat_map seq map nth Nat.sub Nat.add app].
  change 0xff with (Z.ones 8). rewrite !Z.land_ones, !Z.shiftr_div_pow2 by lia. done.
Qed.

Lemma be_bytes_bytes n v : bytes (FIPS.be_bytes n v).
Proof. apply Forall_fmap, Forall_true. intros i. apply Z.mod_pos_bound. lia. Qed.

Lemma bytes_zeros n : bytes (replicate n 0).
Proof. apply Forall_replicate. lia. Qed.

Lemma mark_data d rest (n : nat) :
  take (length rest) d = rest → (length rest < length d)%nat → (S (length rest) + n ≤ length d)%nat →
  take (S (length rest) + n) (fill_zero (<[length rest := 0x80]> d) (S (length rest)) n) =
    rest ++ [0x80] ++ replicate n 0 ∧
  length (fill_zero (<[length rest := 0x80]> d) (S (length rest)) n) = length d.
Proof.
  intros Ht Hl Hn. rewrite fill_zero_eq by (rewrite length_insert; lia).
  rewrite (take_S_r _ _ 0x80) by (apply list_lookup_insert_eq; lia).
  rewrite take_insert_ge, Ht by lia. rewrite <- !app_assoc. split.
  - rewrite !app_assoc. apply take_app_length'. rewrite !length_app, length_replicate. simpl. lia.
  - rewrite !length_app, length_replicate, length_drop, length_insert. simpl. lia.
Qed.

(** The last block of the message: data, then the length. *)
Lemma final_block ctx bl b l :
  length (data ctx) = 64%nat → words_ok (state ctx) → state ctx = FIPS.hash_blocks bl →
  take 56 (data ctx) = b → bytes b →
  bitlen ctx = u64 (8 * Z.of_nat (length l)) →
  Forall (fun b => length b = 64%nat) bl →
  FIPS.pad l = concat (bl ++ [b ++ FIPS.be_bytes 8 (8 * Z.of_nat (length l))]) →
  ∃ ctx', (let c := put_length ctx in
           let c := sha256_transform c (data c) in
           Some (c, digest_bytes (state c))) = Some (ctx', FIPS.sha256 l).
Proof.
  intros Hd Hw Hst Hb Hby Hbit Hbl Hpad. cbv zeta. rewrite put_length_data by done.
  rewrite Hb, Hbit, be_bytes_8_wrap. cbn [set_field data].
  set (fb := b ++ FIPS.be_bytes 8 (8 * Z.of_nat (length l))) in *.
  destruct (transform_compress (ctx <| data := fb |>) fb) as [E Hok].
  { apply Forall_app_2; [done|apply be_bytes_bytes]. }
  { done. }
  cbn [set_field state] in Hok. rewrite E. eexists. do 2 f_equal. cbn [set_field state].
  rewrite digest_be by done. rewrite Hst, <- hash_blocks_snoc. symmetry.
  apply sha256_of_blocks; [done|]. apply Forall_app_2; [done|]. constructor; [|constructor].
  unfold fb. rewrite length_app, <- Hb, length_take, Hd. done.
Qed.

Lemma final_repr l ctx : sha_repr l ctx → ∃ ctx', sha256_final ctx = Some (ctx', FIPS.sha256 l).
Proof.
  intros (bl & rest & El & Hbl & Hr & Hd & Hdl & Htk & Hbit & Hst & Hw & Hby).
  assert (Hlen : Z.of_nat (length l) = 64 * Z.of_nat (length bl) + Z.of_nat (length rest)).
  { rewrite El, length_app, length_concat64 by done. lia. }
  assert (Hbit' : u64 (bitlen ctx + u32 (datalen ctx * 8)) = u64 (8 * Z.of_nat (length l))).
  { rewrite Hbit, Hdl. unfold u32. rewrite (wrap_small 32) by lia. unfold u64.
    rewrite wrap_add_l. f_equal. lia. }
  assert (Hrb : bytes rest) by (rewrite El in Hby; by apply Forall_app in Hby as [_ ?]).
  unfold sha256_final. rewrite Hdl, Nat2Z.id. case_decide as Hs.
  - destruct (mark_data (data ctx) rest (55 - length rest)) as [Hm HL]; [done|lia|lia|].
    replace (S (length rest) + (55 - length rest))%nat with 56%nat in Hm by lia.
    cbn [mbind option_bind set_field datalen bitlen].
    eapply (final_block _ bl (rest ++ [0x80] ++ replicate (55 - length rest) 0));
      cbn [set_field data state bitlen]; try done.
    + by rewrite HL.
    + repeat apply Forall_app_2; [done|repeat constructor; lia|apply bytes_zeros].
    + rewrite <- !app_assoc. by apply pad_short; [done..|lia].
  - rewrite decide_True by lia.
    destruct (mark_data (data ctx) rest (63 - length rest)) as [Hm HL]; [done|lia|lia|].
    replace (S (length rest) + (63 - length rest))%nat with 64%nat in Hm by lia.
    rewrite take_ge in Hm by lia. cbn [set_field data]. rewrite Hm in *.
    match goal with |- context [sha256_transform ?c ?d] =>
      destruct (transform_compress c d) as [E Hok] end.
    { repeat apply Forall_app_2; [done|repeat constructor; lia|apply bytes_zeros]. }
    { done. }
    cbn [set_field state] in Hok. rewrite E.
    cbn [mbind option_bind set_field datalen bitlen].
    eapply (final_block _ (bl ++ [rest ++ [0x80] ++ replicate (63 - length rest) 0])
              (replicate 56 0)); cbn [set_field data state bitlen]; try done.
    + rewrite fill_zero_eq by (rewrite HL; lia).
      rewrite !length_app, length_replicate, length_drop, HL. simpl. lia.
    + by rewrite Hst, hash_blocks_snoc.
    + rewrite fill_zero_eq by (rewrite HL; lia). rewrite take_0, app_nil_l.
      by apply take_app_length'.
    + apply bytes_zeros.
    + apply Forall_app_2; [done|]. constructor; [by rewrite HL|constructor].
    + rewrite <- app_assoc. by apply pad_long; [done..|lia].
Qed.

Lemma length_sha256 l : length (FIPS.sha256 l) = 32%nat.
Proof.
  unfold FIPS.sha256, FIPS.hash_blocks.
  assert (H : ∀ bl H, length H = 8%nat → length (fold_left FIPS.compress bl H) = 8%nat).
  { induction bl as [|b bl IH]; intros H HH; [done|]. cbn [fold_left]. apply IH.
    unfold FIPS.compress. rewrite length_zip_with, HH. done. }
  specialize (H (FIPS.blocks (length (FIPS.pad l) / 64) (FIPS.pad l)) FIPS.H0 eq_refl).
  destruct (fold_left _ _ _) as [|s0 [|s1 [|s2 [|s3 [|s4 [|s5 [|s6 [|s7 [|]]]]]]]]]; done.
Qed.

(** ** Hashing a message in pieces *)

Fixpoint update_all (ctx : SHA256_CTX) (chunks : list (list Z)) : option SHA256_CTX :=
  match chunks with
  | [] => Some ctx
  | c :: cs => ctx' ← sha256_update ctx c (Z.of_nat (length c)); update_all ctx' cs
  end.

Lemma update_all_repr ctx l chunks :
  sha_repr l ctx → Forall (fun c => bytes c ∧ Z.of_nat (length c) < 2 ^ 32) chunks →
  ∃ ctx', update_all ctx chunks = Some ctx' ∧ sha_repr (l ++ concat chunks) ctx'.
Proof.
  intros Hr H. revert ctx l Hr. induction H as [|c cs [Hc Hl] H IH]; intros ctx l Hr.
  { simpl. rewrite app_nil_r. eauto. }
  cbn [update_all concat].
  destruct (update_repr ctx l c (Z.of_nat (length c))) as (ctx1 & E & Hr1); try done; try lia.
  rewrite E. simpl. rewrite Nat2Z.id, firstn_all in Hr1.
  destruct (IH _ _ Hr1) as (ctx2 & E2 & Hr2). exists ctx2. split; [done|].
  by rewrite <- app_assoc in Hr2.
Qed.

(** ** Theorems *)

(** C5: initialising the context, absorbing a message in any sequence of
    updates (each shorter than 2^32 bytes) and finalising returns, and the
    digest is the FIPS 180-4 SHA-256 of the concatenated message. *)
Theorem sha256_streaming_correct (ctx : SHA256_CTX) (chunks : list (list Z)) :
  length (data ctx) = 64%nat →
  Forall (fun c => bytes c ∧ Z.of_nat (length c) < 2 ^ 32) chunks →
  ∃ ctx1 ctx2, update_all (sha256_init ctx) chunks = Some ctx1 ∧
    sha256_final ctx1 = Some (ctx2, FIPS.sha256 (concat chunks)).
Proof.
  intros Hd Hc. destruct (update_all_repr (sha256_init ctx) [] chunks) as (c1 & E1 & H1);
    [by apply init_repr|done|].
  destruct (final_repr _ _ H1) as (c2 & E2). eauto.
Qed.

Definition zero_ctx : SHA256_CTX := mkctx (replicate 64 0) 0 0 (replicate 8 0).

Lemma sha256_streaming_correct_witness :
  ∃ ctx1 ctx2, update_all (sha256_init zero_ctx) [[97; 98]; []; [99]] = Some ctx1 ∧
    sha256_final ctx1 = Some (ctx2, FIPS.sha256 [97; 98; 99]).
Proof.
  apply (sha256_streaming_correct zero_ctx [[97; 98]; []; [99]]).
  - reflexivity.
  - repeat constructor; try lia; reflexivity.
Defined.

(** The digest of "abc" of FIPS 180-4, appendix B.1. *)
Example sha256_abc :
  (c ← sha256_update (sha256_init zero_ctx) [97; 98; 99] 3; snd <$> sha256_final c) =
  Some [0xba;0x78;0x16;0xbf;0x8f;0x01;0xcf;0xea;0x41;0x41;0x40;0xde;0x5d;0xae;0x22;0x23;
        0xb0;0x03;0x61;0xa3;0x96;0x17;0x7a;0x9c;0xb4;0x10;0xff;0x61;0xf2;0x00;0x15;0xad].
Proof. vm_compute. reflexivity. Qed.
