(* ===== verification/Boot.v ===== *)
(** * The bootloader: elf.c, load.c, start.c

    The machine state is physical memory, the globals of the bootloader and the
    few registers it sets.  The ELF headers are read from the ramdisk image in
    memory, field by field, at the offsets of elf.h.  Locals (the [struct buf] on
    the stack) are values; a copy that would land on the bootloader's own image
    is undefined behaviour of the model, because it would overwrite the running
    code, its stack and its globals.

    [bl_entry], [bl_end_addr] (linker symbols [_entry] and [end]), [panic_addr]
    and the array [trusted_kernel_hash] of measurements.h, which the build
    generates, are parameters. *)

From S2P Require Import Prelude Mem CString Sha256.

(** ** Constants: layout.h, param.h, buf.h, defs.h *)

Definition KERNBASE : Z := 0x80000000.
Definition PHYSTOP : Z := KERNBASE + 128 * 1024 * 1024.
Definition RAMDISK : Z := 0x84000000.
Definition RECOVERYDISK : Z := 0x84500000.
Definition FSSIZE : Z := 2000.
Definition BSIZE : Z := 1024.

Inductive kernel := NORMAL | RECOVERY.
#[export] Instance kernel_eq_dec : EqDecision kernel.
Proof. solve_decision. Defined.

Definition disk_base (ktype : kernel) : Z :=
  match ktype with NORMAL => RAMDISK | RECOVERY => RECOVERYDISK end.

(** ** elf.h *)

Record elfhdr := mkelfhdr {
  e_magic : Z; e_elf : list Z; e_type : Z; e_machine : Z; e_version : Z;
  e_entry : Z; e_phoff : Z; e_shoff : Z; e_flags : Z; e_ehsize : Z;
  e_phentsize : Z; e_phnum : Z; e_shentsize : Z; e_shnum : Z; e_shstrndx : Z
}.

Record proghdr := mkproghdr {
  p_type : Z; p_flags : Z; p_off : Z; p_vaddr : Z;
  p_paddr : Z; p_filesz : Z; p_memsz : Z; p_align : Z
}.

Definition read_elfhdr (m : mem) (a : Z) : elfhdr := mkelfhdr
  (load32 m a) (read_bytes m (a + 4) 12) (load16 m (a + 16)) (load16 m (a + 18))
  (load32 m (a + 20)) (load64 m (a + 24)) (load64 m (a + 32)) (load64 m (a + 40))
  (load32 m (a + 48)) (load16 m (a + 52)) (load16 m (a + 54)) (load16 m (a + 56))
  (load16 m (a + 58)) (load16 m (a + 60)) (load16 m (a + 62)).

Definition read_proghdr (m : mem) (a : Z) : proghdr := mkproghdr
  (load32 m a) (load32 m (a + 4)) (load64 m (a + 8)) (load64 m (a + 16))
  (load64 m (a + 24)) (load64 m (a + 32)) (load64 m (a + 40)) (load64 m (a + 48)).

(** ** The state *)

Record buf := mkbuf {
  b_valid : Z; b_disk : Z; b_dev : Z; b_blockno : Z; b_refcnt : Z;
  b_prev : Z; b_next : Z; b_data : list Z
}.
#[export] Instance buf_settable : Settable buf :=
  fun r => mkbuf (b_valid r) (b_disk r) (b_dev r) (b_blockno r) (b_refcnt r)
                 (b_prev r) (b_next r) (b_data r).

(** A fresh stack slot; nothing reads its fields before they are written. *)
Definition buf0 : buf := mkbuf 0 0 0 0 0 0 0 (replicate 1024 0).

Record bstate := mkbstate {
  bmem : mem;
  sha256_ctx : SHA256_CTX;
  sys_info_ptr : Z;
  kernel_elfhdr : Z;
  kernel_phdr : Z;
  mhartid : Z;
  tp : Z;
  mepc : Z;
  ra_reg : Z
}.
#[export] Instance bstate_settable : Settable bstate :=
  fun r => mkbstate (bmem r) (sha256_ctx r) (sys_info_ptr r) (kernel_elfhdr r)
    (kernel_phdr r) (mhartid r) (tp r) (mepc r) (ra_reg r).

Abbreviation BM := (M bstate).

(** Offsets in [struct sys_info]. *)
Definition off_bl_start : Z := 0.
Definition off_bl_end : Z := 8.
Definition off_dr_start : Z := 16.
Definition off_dr_end : Z := 24.
Definition off_expected : Z := 32.
Definition off_observed : Z := 64.

(** ** elf.c *)

Definition find_kernel_load_addr (ktype : kernel) : BM Z :=
  modify (fun s => s <| kernel_elfhdr := disk_base ktype |>) ;;;
  let! s := get in
  let h := read_elfhdr (bmem s) (kernel_elfhdr s) in
  let text_phdr_addr := u64 (disk_base ktype + e_phoff h + e_phentsize h) in
  modify (fun s => s <| kernel_phdr := text_phdr_addr |>) ;;;
  let! s := get in
  ret (p_vaddr (read_proghdr (bmem s) (kernel_phdr s))).

Definition find_kernel_size (ktype : kernel) : BM Z :=
  modify (fun s => s <| kernel_elfhdr := disk_base ktype |>) ;;;
  let! s := get in
  let h := read_elfhdr (bmem s) (kernel_elfhdr s) in
  let size_of_section_headers := u64 (s32 (e_shentsize h * e_shnum h)) in
  ret (u64 (e_shoff h + size_of_section_headers)).

Definition find_kernel_entry_addr (ktype : kernel) : BM Z :=
  modify (fun s => s <| kernel_elfhdr := disk_base ktype |>) ;;;
  let! s := get in
  ret (e_entry (read_elfhdr (bmem s) (kernel_elfhdr s))).

(** ** load.c *)

Definition kernel_copy (ktype : kernel) (b : buf) : BM buf :=
  if decide (FSSIZE ≤ b_blockno b) then panic "ramdiskrw: blockno too big" else
  let diskaddr := u32 (b_blockno b * BSIZE) in
  let addr := disk_base ktype + diskaddr in
  let! m := gets bmem in
  ret (b <| b_data := read_bytes m addr (Z.to_nat BSIZE) |> <| b_valid := 1 |>).

Section boot.
Context (bl_entry bl_end_addr panic_addr : Z) (trusted_kernel_hash : list Z).

(** [memmove(dst, b.data, BSIZE)] out of the stack buffer. *)
Definition copy_out (dst : Z) (l : list Z) : BM unit :=
  if decide (disjoint_ranges dst (Z.of_nat (length l)) bl_entry (bl_end_addr - bl_entry))
  then modify (fun s => s <| bmem ::= fun m => write_bytes m dst l |>)
  else undef.

(** ** start.c *)

(** The loading loop shared by [setup_recovery_kernel] and [start]:
    [for (int i = 0; i < num_blocks; i++)], skipping the first four blocks.
    [kernel_copy] panics at block [FSSIZE], so [FSSIZE + 2] rounds suffice. *)
Definition load_body (ktype : kernel) (load_addr num_blocks : Z) (i : Z) : BM (Z + unit) :=
  if decide (i < num_blocks) then
    if decide (i < 4) then ret (inl (i + 1)) else
    let! b := kernel_copy ktype (buf0 <| b_blockno := u32 i |>) in
    copy_out (u64 (load_addr + (i - 4) * BSIZE)) (b_data b) ;;;
    ret (inl (i + 1))
  else ret (inr tt).

Definition load_blocks (ktype : kernel) (load_addr num_blocks : Z) : BM unit :=
  loop 2002 (load_body ktype load_addr num_blocks) 0.

Definition w_mepc (v : Z) : BM unit := modify (fun s => s <| mepc := v |>).

Definition setup_recovery_kernel : BM unit :=
  let! rec_kernel_load_addr := find_kernel_load_addr RECOVERY in
  let! rec_kernel_binary_size := find_kernel_size RECOVERY in
  let rec_num_blocks := rec_kernel_binary_size / BSIZE in
  load_blocks RECOVERY rec_kernel_load_addr rec_num_blocks ;;;
  let! rec_kernel_entry := find_kernel_entry_addr RECOVERY in
  w_mepc rec_kernel_entry.

(** [sha256_update(&sha256_ctx, d, len)] on the global context. *)
Definition ctx_update (d : list Z) (len : Z) : BM unit :=
  let! c := gets sha256_ctx in
  let! c' := of_option (sha256_update c d len) in
  modify (fun s => s <| sha256_ctx := c' |>).

(** One round of the measuring loop: blocks 0-3 are only hashed, later blocks
    are also copied to the load address. *)
Definition measure_body (kernel_load_addr num_blocks : Z) (i : Z) : BM (Z + unit) :=
  if decide (i < num_blocks) then
    let! b := kernel_copy NORMAL (buf0 <| b_blockno := u32 i |>) in
    if decide (i < 4) then
      ctx_update (b_data b) BSIZE ;;; ret (inl (i + 1))
    else
      copy_out (u64 (kernel_load_addr + (i - 4) * BSIZE)) (b_data b) ;;;
      ctx_update (b_data b) BSIZE ;;; ret (inl (i + 1))
  else ret (inr tt).

Definition is_secure_boot : BM bool :=
  modify (fun s => s <| sha256_ctx ::= sha256_init |>) ;;;
  let! kernel_load_addr := find_kernel_load_addr NORMAL in
  let! kernel_binary_size := find_kernel_size NORMAL in
  let num_blocks := kernel_binary_size / BSIZE in
  loop 2002 (measure_body kernel_load_addr num_blocks) 0 ;;;
  let rem_size := kernel_binary_size - BSIZE * num_blocks in
  let! b := kernel_copy NORMAL (buf0 <| b_blockno := u32 num_blocks |>) in
  ctx_update (b_data b) rem_size ;;;
  let! c := gets sha256_ctx in
  let! (c', hash) := of_option (sha256_final c) in
  modify (fun s => s <| sha256_ctx := c' |>) ;;;
  let! info := gets sys_info_ptr in
  modify (fun s => s <| bmem ::= fun m => write_bytes m (info + off_observed) hash |>) ;;;
  modify (fun s => s <| bmem ::= fun m => write_bytes m (info + off_expected) trusted_kernel_hash |>) ;;;
  let! m := gets bmem in
  ret (bool_decide (memcmp m (info + off_observed) (info + off_expected) 32 = 0)).

(** How [start] leaves: it returns to entry.S, or jumps to the kernel. *)
Inductive boot_exit := BootReturn | BootJump (pc : Z).

Definition sys_info_store (off v : Z) : BM unit :=
  modify (fun s => s <| bmem ::= fun m => store64 m (sys_info_ptr s + off) v |>).

Definition start : BM boot_exit :=
  modify (fun s => s <| sys_info_ptr := 0x80080000 |>) ;;;
  modify (fun s => s <| tp := u64 (s32 (mhartid s)) |>) ;;;
  let! ok := is_secure_boot in
  if negb ok then ret BootReturn else
  let! kernel_load_addr := find_kernel_load_addr NORMAL in
  let! kernel_binary_size := find_kernel_size NORMAL in
  let num_blocks := kernel_binary_size / FSSIZE in
  load_blocks NORMAL kernel_load_addr num_blocks ;;;
  let! kernel_entry := find_kernel_entry_addr NORMAL in
  w_mepc kernel_entry ;;;
  sys_info_store off_bl_start bl_entry ;;;
  (* [end] is declared [extern uint64], so this reads the word stored there *)
  let! m := gets bmem in
  sys_info_store off_bl_end (load64 m bl_end_addr) ;;;
  sys_info_store off_dr_start 0x80000000 ;;;
  sys_info_store off_dr_end PHYSTOP ;;;
  modify (fun s => s <| ra_reg := panic_addr |>) ;;;
  let! kernel_entry := find_kernel_entry_addr NORMAL in
  ret (BootJump kernel_entry).

End boot.

(** ** Reading the headers *)

(** The header fields of an image, as [elf.c] computes them. *)
Definition hdr (m : mem) (kt : kernel) : elfhdr := read_elfhdr m (disk_base kt).
Definition phdr_addr (m : mem) (kt : kernel) : Z :=
  u64 (disk_base kt + e_phoff (hdr m kt) + e_phentsize (hdr m kt)).
Definition image_load_addr (m : mem) (kt : kernel) : Z := p_vaddr (read_proghdr m (phdr_addr m kt)).
Definition image_size (m : mem) (kt : kernel) : Z :=
  u64 (e_shoff (hdr m kt) + u64 (s32 (e_shentsize (hdr m kt) * e_shnum (hdr m kt)))).
Definition image_entry (m : mem) (kt : kernel) : Z := e_entry (hdr m kt).

(** The bytes the headers say the image has. *)
Definition image (m : mem) (kt : kernel) : list Z :=
  read_bytes m (disk_base kt) (Z.to_nat (image_size m kt)).

(** Number of bytes copied to the load address: the whole blocks after the
    fourth. *)
Definition span (n : Z) : Z := Z.max 0 ((n - 4) * BSIZE).

(** [m'] is [m] with [cnt] bytes of the image, from its fifth block on, placed
    at [dst]. *)
Definition placed (m : mem) (base dst cnt : Z) (m' : mem) : Prop :=
  ∀ a, mem_get m' a =
    if decide (dst ≤ a < dst + cnt) then mem_get m (base + 4 * BSIZE + (a - dst)) else mem_get m a.

Lemma find_load_eq kt s : find_kernel_load_addr kt s =
  Ok (image_load_addr (bmem s) kt) (s <| kernel_elfhdr := disk_base kt |> <| kernel_phdr := phdr_addr (bmem s) kt |>).
Proof. done. Qed.
Lemma find_size_eq kt s : find_kernel_size kt s = Ok (image_size (bmem s) kt) (s <| kernel_elfhdr := disk_base kt |>).
Proof. done. Qed.

Lemma find_load_wp kt Q s :
  Q (image_load_addr (bmem s) kt)
    (s <| kernel_elfhdr := disk_base kt |> <| kernel_phdr := phdr_addr (bmem s) kt |>) →
  wp (find_kernel_load_addr kt) Q s.
Proof. done. Qed.

Lemma find_size_wp kt Q s :
  Q (image_size (bmem s) kt) (s <| kernel_elfhdr := disk_base kt |>) →
  wp (find_kernel_size kt) Q s.
Proof. done. Qed.

Lemma find_entry_wp kt Q s :
  Q (image_entry (bmem s) kt) (s <| kernel_elfhdr := disk_base kt |>) →
  wp (find_kernel_entry_addr kt) Q s.
Proof. done. Qed.


Lemma kernel_copy_wp kt b Q s :
  0 ≤ b_blockno b < FSSIZE →
  Q (b <| b_data := read_bytes (bmem s) (disk_base kt + b_blockno b * BSIZE) 1024 |> <| b_valid := 1 |>) s →
  wp (kernel_copy kt b) Q s.
Proof.
  intros Hb HQ. unfold kernel_copy, FSSIZE, BSIZE in *. rewrite decide_False by lia.
  unfold wp, bind, gets, ret. unfold u32. rewrite wrap_small by lia. done.
Qed.

(** ** The copy loops *)

Section boot_proofs.
#[local] Opaque read_bytes write_bytes.
Context (bl_entry bl_end_addr panic_addr : Z) (trusted_kernel_hash : list Z).

(** The image is small enough for the ramdisk, and the [n] blocks are copied
    to memory apart from the ramdisk and the bootloader. *)
Definition separate (base dst n : Z) : Prop :=
  0 ≤ dst ∧ dst + span n ≤ 2 ^ 64 ∧ 0 ≤ n < FSSIZE ∧
  disjoint_ranges dst (span n) base ((FSSIZE + 1) * BSIZE) ∧
  (4 < n → disjoint_ranges dst (span n) bl_entry (bl_end_addr - bl_entry)).

Lemma separate_disjoint base dst n i :
  separate base dst n → 4 ≤ i < n →
  u64 (dst + (i - 4) * BSIZE) = dst + (i - 4) * BSIZE ∧
  disjoint_ranges (dst + (i - 4) * BSIZE) 1024 bl_entry (bl_end_addr - bl_entry).
Proof.
  unfold separate, span, BSIZE, FSSIZE, disjoint_ranges. intros (? & ? & ? & ? & Hbl) Hi.
  specialize (Hbl ltac:(lia)). unfold u64. rewrite wrap_small by lia. lia.
Qed.

(** Copying block [i] extends the placed part by one block. *)
Lemma placed_step m m' base dst n i :
  separate base dst n → 0 ≤ base → 4 ≤ i < n → placed m base dst (span i) m' →
  placed m base dst (span (i + 1))
    (write_bytes m' (dst + (i - 4) * BSIZE) (read_bytes m' (base + i * BSIZE) 1024)).
Proof.
  unfold separate, placed. intros (Hd & Hd' & Hn & Hdisj & _) Hb Hi Hp a.
  set (st := dst + (i - 4) * BSIZE). unfold span, BSIZE, FSSIZE, disjoint_ranges in *.
  destruct (decide (st ≤ a < st + 1024)) as [Hin|Hout].
  - rewrite mem_get_write_read by lia. rewrite Hp. unfold st in *. rewrite decide_False by lia.
    rewrite decide_True by lia. f_equal. lia.
  - rewrite mem_get_write_out by (rewrite length_read_bytes; lia). rewrite Hp.
    unfold st in *. repeat case_decide; done || lia.
Qed.


Lemma placed_zero m base dst : placed m base dst 0 m.
Proof. intros a. by rewrite decide_False by lia. Qed.

Lemma disk_base_range kt : 0 ≤ disk_base kt < 2 ^ 32.
Proof. destruct kt; vm_compute; split; congruence. Qed.

Lemma copy_out_wp dst l Q s :
  disjoint_ranges dst (Z.of_nat (length l)) bl_entry (bl_end_addr - bl_entry) →
  Q tt (s <| bmem ::= fun m => write_bytes m dst l |>) →
  wp (copy_out bl_entry bl_end_addr dst l) Q s.
Proof. intros H HQ. unfold copy_out. by rewrite decide_True by done. Qed.

Lemma load_blocks_wp kt dst n s :
  separate (disk_base kt) dst n →
  wp (load_blocks bl_entry bl_end_addr kt dst n)
    (fun _ s' => ∃ m', s' = s <| bmem := m' |> ∧ placed (bmem s) (disk_base kt) dst (span n) m') s.
Proof.
  intros Hsep. pose proof (disk_base_range kt) as Hbase.
  assert (Hn : 0 ≤ n < FSSIZE) by (by destruct Hsep as (_ & _ & ? & _)).
  unfold load_blocks.
  apply (wp_loop (fun i s' => 0 ≤ i ≤ n ∧
    ∃ m', s' = s <| bmem := m' |> ∧ placed (bmem s) (disk_base kt) dst (span i) m')
    (fun i => Z.to_nat (n - i))).
  - intros i s' (Hi & m' & -> & Hp). unfold load_body. case_decide as Hlt.
    + case_decide as H4.
      * wp_run. split; [|lia]. split; [lia|]. exists m'. split; [done|].
        replace (span (i + 1)) with (span i); [done|]. unfold span, BSIZE. lia.
      * destruct (separate_disjoint (disk_base kt) dst n i Hsep) as [Eu Hd]; [lia|].
        apply wp_bind, kernel_copy_wp.
        { cbn. unfold FSSIZE, u32 in *. rewrite wrap_small; lia. }
        cbn [set_field b_blockno b_data].
        assert (Ei : u32 i = i) by (unfold u32, FSSIZE in *; rewrite wrap_small; lia).
        rewrite Ei, Eu. apply wp_bind, copy_out_wp.
        { rewrite length_read_bytes. exact Hd. }
        wp_run. split; [|lia]. split; [lia|]. eexists. split; [reflexivity|].
        cbn [set_field bmem]. apply placed_step with n; done || lia.
    + wp_run. assert (i = n) as -> by lia. eauto.
  - split; [lia|]. exists (bmem s). split; [by destruct s|]. apply placed_zero.
  - unfold FSSIZE in *. lia.
Qed.

(** [sha256_update] on the context in the state. *)
Lemma ctx_update_wp l d len (Q : unit → bstate → Prop) s :
  sha_repr l (sha256_ctx s) → bytes d → 0 ≤ len < 2 ^ 32 → len ≤ Z.of_nat (length d) →
  (∀ c, sha_repr (l ++ take (Z.to_nat len) d) c → Q tt (s <| sha256_ctx := c |>)) →
  wp (ctx_update d len) Q s.
Proof.
  intros Hr Hd Hl Hld HQ. unfold ctx_update.
  destruct (update_repr _ _ _ _ Hr Hd Hl Hld) as (c & E & Hc).
  apply wp_bind. wp_step. apply wp_bind. rewrite E. wp_run. by apply HQ.
Qed.





(** ** start *)


(** Two memories agree on [n] bytes from [a]. *)
Definition agree (m m' : mem) (a n : Z) : Prop :=
  ∀ b, a ≤ b < a + n → mem_get m' b = mem_get m b.

Lemma load_agree m m' a n b k :
  agree m m' a n → a ≤ b → b + Z.of_nat k ≤ a + n → load m' b k = load m b k.
Proof. intros H Hb Hk. apply load_ext. intros i Hi. apply H. lia. Qed.

Lemma read_elfhdr_agree m m' a : agree m m' a 64 → read_elfhdr m' a = read_elfhdr m a.
Proof.
  intros H. unfold read_elfhdr, load16, load32, load64.
  rewrite (read_bytes_ext m' m (a + 4) (a + 4)) by (intros i Hi; apply H; lia).
  rewrite !(load_agree m m' a 64) by (done || lia). done.
Qed.












End boot_proofs.

(** ** Images too large for the ramdisk *)

Section oversize.
#[local] Opaque read_bytes write_bytes.
Context (bl_entry bl_end_addr panic_addr : Z) (trusted_kernel_hash : list Z).

(** Block [i] of an image lands apart from the bootloader. *)
Definition lands_apart (dst : Z) : Prop := ∀ i, 4 ≤ i < FSSIZE →
  disjoint_ranges (u64 (dst + (i - 4) * BSIZE)) BSIZE bl_entry (bl_end_addr - bl_entry).

(** A round before block [FSSIZE] copies and measures. *)
Lemma measure_round dst n i l s : lands_apart dst → 0 ≤ i < FSSIZE → i < n → mem_ok (bmem s) → sha_repr l (sha256_ctx s) →
  ∃ s' l', measure_body bl_entry bl_end_addr dst n i s = Ok (inl (i + 1)) s' ∧ mem_ok (bmem s') ∧ sha_repr l' (sha256_ctx s').
Proof.
  intros Hap Hi Hn Hok Hr.
  assert (Hw : wp (measure_body bl_entry bl_end_addr dst n i) (fun r s' => r = inl (i + 1) ∧ mem_ok (bmem s') ∧ ∃ l', sha_repr l' (sha256_ctx s')) s).
  { assert (Ei : u32 i = i) by (unfold u32, FSSIZE in *; rewrite wrap_small; lia).
    unfold measure_body. rewrite decide_True by done. apply wp_bind, kernel_copy_wp; [cbn; by rewrite Ei|]. cbn [set_field b_blockno b_data]. rewrite Ei.
    assert (Hup : ∀ s1, mem_ok (bmem s1) → sha256_ctx s1 = sha256_ctx s →
      wp (ctx_update (read_bytes (bmem s) (disk_base NORMAL + i * BSIZE) 1024) BSIZE ;;; ret (inl (i + 1) : Z + unit))
        (fun r s' => r = inl (i + 1) ∧ mem_ok (bmem s') ∧ ∃ l', sha_repr l' (sha256_ctx s')) s1).
    { intros s1 Hok1 Ec. apply wp_bind. eapply ctx_update_wp; [rewrite Ec; exact Hr|by apply read_bytes_ok|unfold BSIZE; lia|rewrite length_read_bytes; unfold BSIZE; lia|].
      intros c Hc. wp_run. split; [done|]. split; [done|]. by eexists. }
    case_decide as H4; [by apply Hup|]. apply wp_bind, copy_out_wp; [rewrite length_read_bytes; apply (Hap i); lia|].
    apply Hup; [|done]. apply write_bytes_ok; [done|]. by apply read_bytes_ok. }
  apply wp_Ok in Hw as (r & s' & E & -> & Hok' & l' & Hr'). by exists s', l'.
Qed.

(** The measuring loop of an image of too many blocks panics, or ends at block [FSSIZE]. *)
Lemma measure_loop_panics dst n : lands_apart dst → FSSIZE ≤ n → ∀ j i l s, (i = FSSIZE - Z.of_nat j) → 0 ≤ i → mem_ok (bmem s) → sha_repr l (sha256_ctx s) →
  ∀ k, ∃ s', loop (j + S (S k)) (measure_body bl_entry bl_end_addr dst n) i s = (if decide (n = FSSIZE) then Ok tt s' else Panic "ramdiskrw: blockno too big" s').
Proof.
  intros Hap Hn j. induction j as [|j IH]; intros i l s Ei Hi Hok Hr k.
  - assert (i = FSSIZE) as -> by lia. exists s. cbn [Nat.add loop]. unfold bind, measure_body. destruct (decide (n = FSSIZE)) as [->|].
    + by rewrite decide_False by lia.
    + rewrite decide_True by lia. unfold bind, kernel_copy. cbn [set_field b_blockno]. change (u32 FSSIZE) with FSSIZE. by rewrite decide_True by lia.
  - destruct (measure_round dst n i l s Hap ltac:(lia) ltac:(lia) Hok Hr) as (s1 & l1 & E & Hok1 & Hr1). cbn [Nat.add loop]. rewrite (bind_Ok _ _ _ _ _ E).
    apply (IH (i + 1) l1); [lia|lia|done|done].
Qed.

End oversize.

(** ** Theorems *)

Section theorems.
#[local] Opaque read_bytes write_bytes.
Context (bl_entry bl_end_addr panic_addr : Z) (trusted_kernel_hash : list Z).




(** C40: an image whose header claims [FSSIZE] blocks or more, none of which lands on the
    bootloader itself, is not entered: [start] reaches block [FSSIZE], where [kernel_copy]
    panics, for ever. *)
Theorem oversized_image_panics (s : bstate) :
  FSSIZE ≤ image_size (bmem s) NORMAL / BSIZE → lands_apart bl_entry bl_end_addr (image_load_addr (bmem s) NORMAL) →
  mem_ok (bmem s) → length (data (sha256_ctx s)) = 64%nat →
  ∃ s', start bl_entry bl_end_addr panic_addr trusted_kernel_hash s = Panic "ramdiskrw: blockno too big" s'.
Proof.
  intros Hsz Hap Hok Hctx. set (n := image_size (bmem s) NORMAL / BSIZE) in *.
  set (s0 := s <| sys_info_ptr := 0x80080000 |> <| tp := u64 (s32 (mhartid s)) |> <| sha256_ctx ::= sha256_init |>
    <| kernel_elfhdr := disk_base NORMAL |> <| kernel_phdr := phdr_addr (bmem s) NORMAL |> <| kernel_elfhdr := disk_base NORMAL |>).
  destruct (measure_loop_panics bl_entry bl_end_addr (image_load_addr (bmem s) NORMAL) n Hap ltac:(lia) (Z.to_nat FSSIZE) 0 [] s0 eq_refl ltac:(lia) Hok
    (init_repr _ Hctx) 0) as (s1 & E). exists s1.
  assert (Hs : is_secure_boot bl_entry bl_end_addr trusted_kernel_hash (s <| sys_info_ptr := 0x80080000 |> <| tp := u64 (s32 (mhartid s)) |>) =
    Panic "ramdiskrw: blockno too big" s1).
  { unfold is_secure_boot. erewrite bind_Ok; [|reflexivity]. rewrite (bind_Ok _ _ _ _ _ (find_load_eq NORMAL _)), (bind_Ok _ _ _ _ _ (find_size_eq NORMAL _)). cbv zeta. unfold bind at 1.
    change (Z.to_nat FSSIZE + 2)%nat with 2002%nat in E. change (loop 2002 _ 0 _) with (loop 2002 (measure_body bl_entry bl_end_addr (image_load_addr (bmem s) NORMAL) n) 0 s0).
    rewrite E. destruct (decide (n = FSSIZE)) as [En|]; [|done].
    unfold bind at 1, kernel_copy. rewrite decide_True; [done|]. change (FSSIZE ≤ u32 n). by rewrite En. }
  unfold start. do 2 (erewrite bind_Ok; [|reflexivity]). unfold bind at 1.
  change (set_field tp _ _) with (s <| sys_info_ptr := 0x80080000 |> <| tp := u64 (s32 (mhartid s)) |>). by rewrite Hs.
Qed.

(** [setup_recovery_kernel] copies the whole blocks of the recovery image
    after the fourth to its load address and points mepc at its entry. *)
Theorem setup_recovery_kernel_correct (s : bstate) :
  separate bl_entry bl_end_addr RECOVERYDISK (image_load_addr (bmem s) RECOVERY)
    (image_size (bmem s) RECOVERY / BSIZE) →
  ∃ s', setup_recovery_kernel bl_entry bl_end_addr s = Ok tt s' ∧
    mepc s' = image_entry (bmem s) RECOVERY ∧
    placed (bmem s) RECOVERYDISK (image_load_addr (bmem s) RECOVERY)
      (span (image_size (bmem s) RECOVERY / BSIZE)) (bmem s').
Proof.
  intros Hsep. enough (wp (setup_recovery_kernel bl_entry bl_end_addr) (fun _ s' =>
    mepc s' = image_entry (bmem s) RECOVERY ∧
    placed (bmem s) RECOVERYDISK (image_load_addr (bmem s) RECOVERY)
      (span (image_size (bmem s) RECOVERY / BSIZE)) (bmem s')) s) as Hw.
  { apply wp_Ok in Hw as ([] & s' & E & H1 & H2). eauto. }
  unfold setup_recovery_kernel. apply wp_bind, find_load_wp. apply wp_bind, find_size_wp.
  cbn [set_field bmem]. apply wp_bind. eapply wp_mono; [apply load_blocks_wp; exact Hsep|].
  cbn [set_field bmem disk_base]. intros _ s2 (m2 & -> & Hp).
  apply wp_bind, find_entry_wp. unfold w_mepc. wp_run. cbn [set_field bmem mepc].
  split; [|done]. unfold image_entry, hdr. f_equal. apply read_elfhdr_agree.
  intros a Ha. rewrite Hp. rewrite decide_False; [done|]. destruct Hsep as (_ & _ & _ & Hd & _).
  unfold disjoint_ranges, FSSIZE, BSIZE in *. cbn [disk_base] in Ha. lia.
Qed.

End theorems.

(** ** A concrete machine

    A ramdisk image of six blocks and a remainder, whose second program header
    asks for [0x81000000]; the same image serves as recovery kernel. *)

Definition demo_image (shoff : Z) : list Z :=
  le_bytes 4 0x464C457F ++ replicate 12 0 ++ le_bytes 2 2 ++ le_bytes 2 243 ++ le_bytes 4 1 ++
  le_bytes 8 0x81000100 ++ le_bytes 8 8 ++ le_bytes 8 shoff ++ le_bytes 4 0 ++ le_bytes 2 64 ++
  le_bytes 2 56 ++ le_bytes 2 2 ++ le_bytes 2 64 ++ le_bytes 2 1 ++ le_bytes 2 0 ++
  le_bytes 4 1 ++ le_bytes 4 5 ++ le_bytes 8 4096 ++ le_bytes 8 0x81000000 ++
  le_bytes 8 0x81000000 ++ le_bytes 8 2084 ++ le_bytes 8 2084 ++ le_bytes 8 4096 ++
  replicate (Z.to_nat 6100) 0x13.

Definition demo_mem (shoff : Z) : mem :=
  write_bytes (write_bytes ∅ RAMDISK (demo_image shoff)) RECOVERYDISK (demo_image shoff).

Definition demo_state (shoff : Z) : bstate :=
  mkbstate (demo_mem shoff) zero_ctx 0 0 0 0 0 0 0.

Definition demo_hash : list Z := FIPS.sha256 (image (demo_mem 6180) NORMAL).

#[local] Opaque read_bytes write_bytes demo_image.

Lemma demo_mem_ok shoff :
  forallb (fun b => (0 <=? b) && (b <? 256)) (demo_image shoff) = true → mem_ok (demo_mem shoff).
Proof.
  intros Hc. assert (H : bytes_ok (demo_image shoff)).
  { apply Forall_forall. intros b Hb.
    rewrite forallb_forall in Hc. apply list_elem_of_In in Hb. specialize (Hc b Hb).
    unfold is_byte. lia. }
  unfold demo_mem.
  apply write_bytes_ok; [apply write_bytes_ok; [|exact H]|exact H]. intros a. unfold mem_get.
  rewrite lookup_empty. unfold is_byte. simpl. lia.
Qed.

Lemma demo_fields kt :
  image_load_addr (demo_mem 6180) kt = 0x81000000 ∧ image_size (demo_mem 6180) kt = 6244 ∧
  image_entry (demo_mem 6180) kt = 0x81000100 ∧
  phdr_addr (demo_mem 6180) kt = disk_base kt + 64.
Proof. destruct kt; split_and!; vm_compute; reflexivity. Qed.

Lemma demo_separate base :
  0x84000000 ≤ base → separate 0x80000000 0x8000c000 base 0x81000000 6.
Proof. unfold separate, span, BSIZE, FSSIZE, disjoint_ranges. lia. Qed.






Lemma oversized_image_panics_witness :
  ∃ s', start 0x80000000 0x8000c000 0x80000400 demo_hash (demo_state 3000000) = Panic "ramdiskrw: blockno too big" s'.
Proof.
  apply (oversized_image_panics 0x80000000 0x8000c000 0x80000400 demo_hash (demo_state 3000000)).
  - vm_compute. congruence.
  - assert (E : image_load_addr (bmem (demo_state 3000000)) NORMAL = 0x81000000) by (vm_compute; reflexivity).
    rewrite E. intros i Hi. unfold disjoint_ranges, BSIZE, FSSIZE, u64 in *. rewrite wrap_small by lia. lia.
  - apply demo_mem_ok. vm_compute. reflexivity.
  - reflexivity.
Defined.

Lemma setup_recovery_kernel_correct_witness :
  ∃ s', setup_recovery_kernel 0x80000000 0x8000c000 (demo_state 6180) = Ok tt s' ∧
    mepc s' = 0x81000100.
Proof.
  destruct (demo_fields RECOVERY) as (E1 & E2 & E3 & E4).
  destruct (setup_recovery_kernel_correct 0x80000000 0x8000c000 (demo_state 6180)) as (s' & E & H & _).
  - cbn [demo_state bmem]. rewrite E1, E2. apply demo_separate. unfold RECOVERYDISK. lia.
  - exists s'. split; [exact E|]. rewrite H. exact E3.
Defined.
