(* ===== verification/Kernel.v ===== *)
(** * Kernel data: the structures and globals of the xv6 kernel

    One record per C struct and one field of [kst] per global variable.  Pages of
    physical memory are bytes ([k_mem]); the tables that live in the kernel's data
    segment ([proc], [ftable], [itable], [bcache], ...) are lists of records and a
    pointer into one of them is an index.  Spin locks are kept in one map, keyed by
    the object that embeds them.

    Functions of the kernel are computations in [M kst]: one hart runs, nobody
    interferes, and waiting for a lock another hart holds never ends ([Hang]).
    Functions that sleep are computations in [KM]: the state is paired with a list
    of environment steps, and each time the running process gives up the processor
    one step is applied to the kernel state. *)

From S2P Require Import Prelude Mem CString.

(** ** param.h, memlayout.h, riscv.h *)

Definition NPROC : nat := 64.
Definition NCPU : nat := 8.
Definition NOFILE : nat := 16.
Definition NFILE : nat := 100.
Definition NINODE : nat := 50.
Definition NDEV : Z := 10.
Definition ROOTDEV : Z := 1.
Definition MAXARG : Z := 32.
Definition MAXOPBLOCKS : Z := 10.
Definition LOGSIZE : Z := MAXOPBLOCKS * 3.
Definition NBUF : nat := 30.
Definition MAXPATH : Z := 128.
Definition USERSTACK : Z := 1.

Definition UART0 : Z := 0x10000000.
Definition UART0_IRQ : Z := 10.
Definition VIRTIO0 : Z := 0x10001000.
Definition VIRTIO0_IRQ : Z := 1.
Definition PLIC : Z := 0x0c000000.
Definition KERNBASE : Z := 0x81000000.
Definition PHYSTOP : Z := KERNBASE + 128 * 1024 * 1024.

Definition PGSIZE : Z := 4096.
Definition PGSHIFT : Z := 12.
Definition PGROUNDUP (sz : Z) : Z := Z.land (u64 (sz + PGSIZE - 1)) (Z.lnot (PGSIZE - 1)).
Definition PGROUNDDOWN (a : Z) : Z := Z.land a (Z.lnot (PGSIZE - 1)).

Lemma land_lnot_low x : Z.land x (Z.lnot (PGSIZE - 1)) = x - x mod PGSIZE.
Proof.
  change (PGSIZE - 1) with (Z.ones 12). rewrite <- Z.ldiff_land, Z.ldiff_ones_r by lia.
  rewrite Z.shiftl_mul_pow2, Z.shiftr_div_pow2 by lia. change (2 ^ 12) with PGSIZE.
  pose proof (Z.div_mod x PGSIZE ltac:(done)). lia.
Qed.

Lemma PGROUNDDOWN_spec a :
  PGROUNDDOWN a mod PGSIZE = 0 ∧ PGROUNDDOWN a ≤ a < PGROUNDDOWN a + PGSIZE.
Proof.
  unfold PGROUNDDOWN. rewrite land_lnot_low. unfold PGSIZE.
  pose proof (Z.mod_pos_bound a 4096). pose proof (Z.div_mod a 4096).
  split; [|lia]. replace (a - a mod 4096) with (a / 4096 * 4096) by lia. apply Z.mod_mul. lia.
Qed.

Lemma PGROUNDDOWN_nonneg a : 0 ≤ a → 0 ≤ PGROUNDDOWN a.
Proof.
  intros. unfold PGROUNDDOWN. rewrite land_lnot_low. pose proof (Z.mod_le a PGSIZE). unfold PGSIZE in *. lia.
Qed.

Lemma PGROUNDUP_spec sz :
  0 ≤ sz → sz + PGSIZE - 1 < 2 ^ 64 →
  PGROUNDUP sz mod PGSIZE = 0 ∧ sz ≤ PGROUNDUP sz < sz + PGSIZE.
Proof.
  intros H0 H1. unfold PGROUNDUP, u64. rewrite wrap_small by (unfold PGSIZE in *; lia).
  pose proof (PGROUNDDOWN_spec (sz + PGSIZE - 1)) as H. unfold PGROUNDDOWN in H. unfold PGSIZE in *. lia.
Qed.

Definition MAXVA : Z := Z.shiftl 1 (9 + 9 + 9 + 12 - 1).
Lemma MAXVA_val : MAXVA = 274877906944.
Proof. done. Qed.
Definition TRAMPOLINE : Z := MAXVA - PGSIZE.
Definition TRAPFRAME : Z := TRAMPOLINE - PGSIZE.
Definition KSTACK (p : Z) : Z := TRAMPOLINE - (p + 1) * 2 * PGSIZE.

Definition SSTATUS_SPP : Z := Z.shiftl 1 8.
Definition SSTATUS_SPIE : Z := Z.shiftl 1 5.
Definition SSTATUS_SIE : Z := Z.shiftl 1 1.

(** ** proc.h, spinlock.h, sleeplock.h *)

(** Which object embeds a spin lock. *)
Inductive lockid :=
  | LKmem | LPid | LWait | LTicks | LPr | LCons | LUart | LFtable | LItable
  | LBcache | LLog | LVdisk
  | LProc (i : nat) | LBuf (i : nat) | LInode (i : nat) | LPipe (a : Z).
#[export] Instance lockid_eq_dec : EqDecision lockid.
Proof. solve_decision. Defined.

Definition lockid_code (l : lockid) : nat * Z :=
  match l with
  | LKmem => (0%nat, 0) | LPid => (1%nat, 0) | LWait => (2%nat, 0) | LTicks => (3%nat, 0)
  | LPr => (4%nat, 0) | LCons => (5%nat, 0) | LUart => (6%nat, 0) | LFtable => (7%nat, 0)
  | LItable => (8%nat, 0) | LBcache => (9%nat, 0) | LLog => (10%nat, 0) | LVdisk => (11%nat, 0)
  | LProc i => (12%nat, Z.of_nat i) | LBuf i => (13%nat, Z.of_nat i)
  | LInode i => (14%nat, Z.of_nat i) | LPipe a => (15%nat, a)
  end.
#[export] Instance lockid_code_inj : Inj (=) (=) lockid_code.
Proof. intros [] [] H; simplify_eq/=; try done; f_equal; lia. Qed.
#[export] Instance lockid_countable : Countable lockid.
Proof.
  refine (inj_countable lockid_code (fun c =>
    match c with
    | (0, _) => Some LKmem | (1, _) => Some LPid | (2, _) => Some LWait | (3, _) => Some LTicks
    | (4, _) => Some LPr | (5, _) => Some LCons | (6, _) => Some LUart | (7, _) => Some LFtable
    | (8, _) => Some LItable | (9, _) => Some LBcache | (10, _) => Some LLog | (11, _) => Some LVdisk
    | (12, z) => Some (LProc (Z.to_nat z)) | (13, z) => Some (LBuf (Z.to_nat z))
    | (14, z) => Some (LInode (Z.to_nat z)) | (15, z) => Some (LPipe z) | _ => None
    end)%nat _).
  intros []; simpl; rewrite ?Nat2Z.id; done.
Defined.

(** The addresses processes sleep on. *)
Inductive chan :=
  | ChLog | ChTicks | ChCons | ChUart | ChDiskFree
  | ChProc (i : nat) | ChBuf (i : nat) | ChBufLock (i : nat) | ChInodeLock (i : nat)
  | ChPipeRead (a : Z) | ChPipeWrite (a : Z).
#[export] Instance chan_eq_dec : EqDecision chan.
Proof. solve_decision. Defined.

Record spinlock := mkspinlock {
  locked : Z;
  lk_name : string;
  lk_cpu : option nat     (* the cpu holding the lock *)
}.
#[export] Instance spinlock_settable : Settable spinlock :=
  fun r => mkspinlock (locked r) (lk_name r) (lk_cpu r).

#[export] Instance spinlock_eq_dec : EqDecision spinlock.
Proof. solve_decision. Defined.

Record sleeplock := mksleeplock { sl_locked : Z; sl_name : string; sl_pid : Z }.
#[export] Instance sleeplock_settable : Settable sleeplock :=
  fun r => mksleeplock (sl_locked r) (sl_name r) (sl_pid r).

Record context := mkcontext { c_ra : Z; c_sp : Z; c_s : list Z }.

Record cpu := mkcpu {
  c_proc : option nat;
  c_context : context;
  noff : Z;
  intena : Z
}.
#[export] Instance cpu_settable : Settable cpu :=
  fun r => mkcpu (c_proc r) (c_context r) (noff r) (intena r).

Inductive procstate := UNUSED | USED | SLEEPING | RUNNABLE | RUNNING | ZOMBIE.
#[export] Instance procstate_eq_dec : EqDecision procstate.
Proof. solve_decision. Defined.

Record proc := mkproc {
  p_state : procstate;
  p_chan : option chan;
  p_killed : Z;
  p_xstate : Z;
  p_pid : Z;
  p_parent : option nat;
  p_kstack : Z;
  p_sz : Z;
  p_pagetable : Z;
  p_trapframe : Z;
  p_context : context;
  p_ofile : list (option nat);
  p_cwd : option nat;
  p_name : list Z
}.
#[export] Instance proc_settable : Settable proc :=
  fun r => mkproc (p_state r) (p_chan r) (p_killed r) (p_xstate r) (p_pid r) (p_parent r)
    (p_kstack r) (p_sz r) (p_pagetable r) (p_trapframe r) (p_context r) (p_ofile r)
    (p_cwd r) (p_name r).

(** ** file.h, fs.h, buf.h, log.c, pipe.c, console.c, uart.c *)

Inductive fdtype := FD_NONE | FD_PIPE | FD_INODE | FD_DEVICE.
#[export] Instance fdtype_eq_dec : EqDecision fdtype.
Proof. solve_decision. Defined.

Record file := mkfile {
  f_type : fdtype; f_ref : Z; f_readable : Z; f_writable : Z;
  f_pipe : Z; f_ip : option nat; f_off : Z; f_major : Z
}.
#[export] Instance file_settable : Settable file :=
  fun r => mkfile (f_type r) (f_ref r) (f_readable r) (f_writable r) (f_pipe r)
    (f_ip r) (f_off r) (f_major r).

Record inode := mkinode {
  i_dev : Z; i_inum : Z; i_ref : Z; i_lock : sleeplock; i_valid : Z;
  i_type : Z; i_major : Z; i_minor : Z; i_nlink : Z; i_size : Z; i_addrs : list Z
}.
#[export] Instance inode_settable : Settable inode :=
  fun r => mkinode (i_dev r) (i_inum r) (i_ref r) (i_lock r) (i_valid r) (i_type r)
    (i_major r) (i_minor r) (i_nlink r) (i_size r) (i_addrs r).

Record superblock := mksb {
  sb_magic : Z; sb_size : Z; sb_nblocks : Z; sb_ninodes : Z; sb_nlog : Z;
  sb_logstart : Z; sb_inodestart : Z; sb_bmapstart : Z
}.

Record buf := mkbuf {
  b_valid : Z; b_disk : Z; b_dev : Z; b_blockno : Z; b_lock : sleeplock;
  b_refcnt : Z; b_prev : nat; b_next : nat; b_data : list Z
}.
#[export] Instance buf_settable : Settable buf :=
  fun r => mkbuf (b_valid r) (b_disk r) (b_dev r) (b_blockno r) (b_lock r) (b_refcnt r)
    (b_prev r) (b_next r) (b_data r).

Record log := mklog {
  l_start : Z; l_size : Z; l_outstanding : Z; l_committing : Z; l_dev : Z;
  lh_n : Z; lh_block : list Z
}.
#[export] Instance log_settable : Settable log :=
  fun r => mklog (l_start r) (l_size r) (l_outstanding r) (l_committing r) (l_dev r)
    (lh_n r) (lh_block r).

Definition PIPESIZE : Z := 512.
Record pipe := mkpipe {
  pi_data : list Z; pi_nread : Z; pi_nwrite : Z; pi_readopen : Z; pi_writeopen : Z
}.
#[export] Instance pipe_settable : Settable pipe :=
  fun r => mkpipe (pi_data r) (pi_nread r) (pi_nwrite r) (pi_readopen r) (pi_writeopen r).

Definition INPUT_BUF_SIZE : Z := 128.
Record console := mkconsole { cons_buf : list Z; cons_r : Z; cons_w : Z; cons_e : Z }.
#[export] Instance console_settable : Settable console :=
  fun r => mkconsole (cons_buf r) (cons_r r) (cons_w r) (cons_e r).

Definition UART_TX_BUF_SIZE : Z := 32.
Record uart := mkuart {
  uart_tx_buf : list Z; uart_tx_w : Z; uart_tx_r : Z;
  (* the device: characters waiting in RHR, answers of successive LSR reads to
     "is THR still full?" (idle when exhausted), and what was sent *)
  u_rx : list Z; u_busy : list bool; u_out : list Z;
  u_regs : list (Z * Z)   (* writes to the configuration registers, in order *)
}.
#[export] Instance uart_settable : Settable uart :=
  fun r => mkuart (uart_tx_buf r) (uart_tx_w r) (uart_tx_r r) (u_rx r) (u_busy r) (u_out r) (u_regs r).

(** ** Supervisor CSRs of the running hart *)

Record csr := mkcsr {
  sstatus : Z; sepc : Z; scause : Z; stval : Z; stvec : Z; satp : Z; stimecmp : Z; time : Z
}.
#[export] Instance csr_settable : Settable csr :=
  fun r => mkcsr (sstatus r) (sepc r) (scause r) (stval r) (stvec r) (satp r) (stimecmp r) (time r).

(** ** virtio.h, virtio_disk.c *)

Definition NUM : Z := 8.

(** The objects the driver shows to the device. *)
Inductive dma :=
  | DNull
  | DOps (i : Z)        (* &disk.ops[i] *)
  | DData (b : nat)     (* the data of buffer b *)
  | DStatus (i : Z).    (* &disk.info[i].status *)
Record virtq_desc := mkdesc { d_addr : dma; d_len : Z; d_flags : Z; d_next : Z }.
#[export] Instance virtq_desc_settable : Settable virtq_desc :=
  fun r => mkdesc (d_addr r) (d_len r) (d_flags r) (d_next r).
Record virtio_blk_req := mkreq { r_type : Z; r_reserved : Z; r_sector : Z }.
Record vdisk := mkvdisk {
  v_desc : list virtq_desc;
  v_avail_idx : Z; v_avail_ring : list Z;
  v_used_idx_dev : Z; v_used_ring : list Z;    (* written by the device *)
  v_free : list Z;
  v_used_idx : Z;
  v_info_b : list (option nat);
  v_info_status : list Z;
  v_ops : list virtio_blk_req;
  v_pages : list Z;                            (* desc, avail, used *)
  v_regs : gmap Z Z                            (* MMIO registers *)
}.
#[export] Instance vdisk_settable : Settable vdisk :=
  fun r => mkvdisk (v_desc r) (v_avail_idx r) (v_avail_ring r) (v_used_idx_dev r) (v_used_ring r)
    (v_free r) (v_used_idx r) (v_info_b r) (v_info_status r) (v_ops r) (v_pages r) (v_regs r).

(** ** The kernel *)

Record kst := mkkst {
  k_mem : mem;
  k_hart : nat;                   (* tp: the hart that runs *)
  k_csr : csr;
  k_cpus : list cpu;
  k_locks : gmap lockid spinlock;
  k_freelist : Z;
  k_kernel_pagetable : Z;
  k_procs : list proc;
  k_initproc : option nat;
  k_nextpid : Z;
  k_ticks : Z;
  k_files : list file;
  k_inodes : list inode;
  k_sb : superblock;
  k_bufs : list buf;              (* NBUF buffers, then the list head *)
  k_log : log;
  k_pipes : gmap Z pipe;
  k_cons : console;
  k_uart : uart;
  k_pr_locking : Z;
  k_panicked : Z;
  k_vdisk : vdisk;
  k_plic : gmap Z Z;
  k_disk : gmap Z (list Z);       (* blocks of the disk behind the driver *)
  k_first : Z                     (* forkret's static [first] *)
}.
#[export] Instance kst_settable : Settable kst :=
  fun r => mkkst (k_mem r) (k_hart r) (k_csr r) (k_cpus r) (k_locks r) (k_freelist r)
    (k_kernel_pagetable r) (k_procs r) (k_initproc r) (k_nextpid r) (k_ticks r) (k_files r)
    (k_inodes r) (k_sb r) (k_bufs r) (k_log r) (k_pipes r) (k_cons r) (k_uart r)
    (k_pr_locking r) (k_panicked r) (k_vdisk r) (k_plic r) (k_disk r) (k_first r).

Abbreviation K := (M kst).

(** Computations that may sleep. *)
Abbreviation KM := (M (kst * list (kst → kst))).

Definition lift {A} (m : K A) : KM A := fun '(k, e) =>
  match m k with
  | Ok a k' => Ok a (k', e)
  | Panic msg k' => Panic msg (k', e)
  | Undef k' => Undef (k', e)
  | Hang k' => Hang (k', e)
  | NoFuel => NoFuel
  end.

(** Let the rest of the system run. *)
Definition env_step : KM unit := fun '(k, e) =>
  match e with
  | [] => Hang (k, e)
  | f :: e' => Ok tt (f k, e')
  end.

Lemma wp_lift {A} (m : K A) (Q : A → kst * list (kst → kst) → Prop) k e :
  wp m (fun a k' => Q a (k', e)) k → wp (lift m) Q (k, e).
Proof. unfold wp, lift. by destruct (m k). Qed.

(** ** Access to the tables *)

Definition get_proc (i : nat) : K proc := let! k := get in of_option (k_procs k !! i).
Definition upd_proc (i : nat) (f : proc → proc) : K unit :=
  modify (fun k => k <| k_procs ::= alter f i |>).
Definition get_file (i : nat) : K file := let! k := get in of_option (k_files k !! i).
Definition upd_file (i : nat) (f : file → file) : K unit :=
  modify (fun k => k <| k_files ::= alter f i |>).
Definition get_inode (i : nat) : K inode := let! k := get in of_option (k_inodes k !! i).
Definition upd_inode (i : nat) (f : inode → inode) : K unit :=
  modify (fun k => k <| k_inodes ::= alter f i |>).
Definition get_buf (i : nat) : K buf := let! k := get in of_option (k_bufs k !! i).
Definition upd_buf (i : nat) (f : buf → buf) : K unit :=
  modify (fun k => k <| k_bufs ::= alter f i |>).
Definition get_pipe (a : Z) : K pipe := let! k := get in of_option (k_pipes k !! a).
Definition upd_pipe (a : Z) (f : pipe → pipe) : K unit :=
  modify (fun k => k <| k_pipes ::= alter f a |>).

Definition mem_mod (f : mem → mem) : K unit := modify (fun k => k <| k_mem ::= f |>).
Lemma wp_mem_mod f (Q : unit → kst → Prop) k : Q tt (k <| k_mem ::= f |>) → wp (mem_mod f) Q k.
Proof. done. Qed.
Definition upd_csr (f : csr → csr) : K unit := modify (fun k => k <| k_csr ::= f |>).

(** ** Addresses the linker chooses (kernel.ld, the assembly files) *)
Class image := {
  img_end : Z;            (* end[]: first address after the kernel *)
  img_etext : Z;          (* etext[] *)
  img_trampoline : Z;     (* trampoline[], page aligned *)
  img_uservec : Z;
  img_userret : Z;
  img_kernelvec : Z;
  img_forkret : Z;
  img_usertrap : Z
}.

(** The kernel's data segment before anything has run: everything is zero. *)
Definition context0 : context := mkcontext 0 0 (replicate 12 0).
Definition sleeplock0 : sleeplock := mksleeplock 0 "" 0.
Definition proc0 : proc :=
  mkproc UNUSED None 0 0 0 None 0 0 0 0 context0 (replicate NOFILE None) None (replicate 16 0).
Definition file0 : file := mkfile FD_NONE 0 0 0 0 None 0 0.
Definition inode0 : inode := mkinode 0 0 0 sleeplock0 0 0 0 0 0 0 (replicate 13 0).
Definition buf0 : buf := mkbuf 0 0 0 0 sleeplock0 0 0 0 (replicate (Z.to_nat 1024) 0).
Definition log0 : log := mklog 0 0 0 0 0 0 (replicate (Z.to_nat LOGSIZE) 0).
Definition uart0 : uart := mkuart (replicate (Z.to_nat UART_TX_BUF_SIZE) 0) 0 0 [] [] [] [].
Definition vdisk0 : vdisk :=
  mkvdisk (replicate 8 (mkdesc DNull 0 0 0)) 0 (replicate 8 0) 0 (replicate 8 0) (replicate 8 0) 0
    (replicate 8 None) (replicate 8 0) (replicate 8 (mkreq 0 0 0)) [] ∅.
Definition kst0 : kst :=
  mkkst ∅ 0 (mkcsr 0 0 0 0 0 0 0 0) (replicate NCPU (mkcpu None context0 0 0)) ∅ 0 0
    (replicate NPROC proc0) None 1 0 (replicate NFILE file0) (replicate NINODE inode0)
    (mksb 0 0 0 0 0 0 0 0) (replicate (Datatypes.S NBUF) buf0) log0 ∅
    (mkconsole (replicate (Z.to_nat INPUT_BUF_SIZE) 0) 0 0 0) uart0 0 0 vdisk0 ∅ ∅ 1.
