(* ===== verification/Spinlock.v ===== *)
(** * Spin locks and interrupt nesting (spinlock.c, riscv.h)

    [acquire], [release], [holding], [push_off] and [pop_off] on the kernel state,
    the exact state transformers they amount to when they return ([enter], [leave]),
    and the interleaving of several harts that run [acquire]/[release] on one lock,
    as a step relation over the same atomic actions, with mutual exclusion. *)

From S2P Require Import Prelude Mem CString Kernel.

(** ** riscv.h: the interrupt-enable bit *)

Definition intr_get : K bool :=
  let! k := get in ret (negb (Z.land (sstatus (k_csr k)) SSTATUS_SIE =? 0)).
Definition intr_on : K unit := upd_csr (fun c => c <| sstatus ::= Z.lor SSTATUS_SIE |>).
Definition intr_off : K unit :=
  upd_csr (fun c => c <| sstatus ::= fun s => Z.land s (Z.lnot SSTATUS_SIE) |>).

(** ** proc.c: cpuid, mycpu, myproc *)

Definition cpuid : K nat := gets k_hart.
Definition mycpu : K nat := cpuid.
Definition get_cpu (i : nat) : K cpu := let! k := get in of_option (k_cpus k !! i).
Definition upd_cpu (i : nat) (f : cpu → cpu) : K unit :=
  modify (fun k => k <| k_cpus ::= alter f i |>).

(** ** spinlock.c *)

Definition get_lock (lk : lockid) : K spinlock := let! k := get in of_option (k_locks k !! lk).
Definition upd_lock (lk : lockid) (f : spinlock → spinlock) : K unit :=
  modify (fun k => k <| k_locks ::= alter f lk |>).

Definition initlock (lk : lockid) (name : string) : K unit :=
  modify (fun k => k <| k_locks ::= <[lk := mkspinlock 0 name None]> |>).

Definition holding (lk : lockid) : K bool :=
  let! l := get_lock lk in
  let! c := mycpu in
  ret (negb (locked l =? 0) && bool_decide (lk_cpu l = Some c)).

Definition push_off : K unit :=
  let! old := intr_get in
  intr_off ;;;
  let! i := mycpu in
  let! c := get_cpu i in
  (if noff c =? 0 then upd_cpu i (fun c => c <| intena := truth old |>) else ret tt) ;;;
  upd_cpu i (fun c => c <| noff ::= Z.add 1 |>).

Definition pop_off : K unit :=
  let! i := mycpu in
  let! on := intr_get in
  if on then panic "pop_off - interruptible" else
  let! c := get_cpu i in
  if noff c <? 1 then panic "pop_off" else
  upd_cpu i (fun c => c <| noff ::= Z.pred |>) ;;;
  let! c := get_cpu i in
  if (noff c =? 0) && negb (intena c =? 0) then intr_on else ret tt.

(** The atomic swaps on [lk->locked]. *)
Definition sync_lock_test_and_set (lk : lockid) : K Z :=
  let! l := get_lock lk in upd_lock lk (fun l => l <| locked := 1 |>) ;;; ret (locked l).
Definition sync_lock_release (lk : lockid) : K unit :=
  upd_lock lk (fun l => l <| locked := 0 |>).

Definition acquire_check (lk : lockid) : K unit :=
  let! h := holding lk in if h then panic "acquire" else ret tt.
Definition set_owner (lk : lockid) : K unit :=
  let! c := mycpu in upd_lock lk (fun l => l <| lk_cpu := Some c |>).
Definition release_check (lk : lockid) : K unit :=
  let! h := holding lk in if h then ret tt else panic "release".
Definition clear_owner (lk : lockid) : K unit := upd_lock lk (fun l => l <| lk_cpu := None |>).

(** Nobody else runs while this hart spins, so a lock that is taken stays taken. *)
Definition acquire (lk : lockid) : K unit :=
  push_off ;;;
  acquire_check lk ;;;
  let! old := sync_lock_test_and_set lk in
  if negb (old =? 0) then hang else
  set_owner lk.

Definition release (lk : lockid) : K unit :=
  release_check lk ;;;
  clear_owner lk ;;;
  sync_lock_release lk ;;;
  pop_off.

Definition myproc : K (option nat) :=
  push_off ;;;
  let! i := mycpu in
  let! c := get_cpu i in
  pop_off ;;;
  ret (c_proc c).

(** ** What the calls do when they return *)

Definition sie_set (k : kst) : bool := negb (Z.land (sstatus (k_csr k)) SSTATUS_SIE =? 0).

(** This hart's cpu record exists, and interrupts are off inside a critical section. *)
Definition ready (k : kst) : Prop :=
  ∃ c, k_cpus k !! k_hart k = Some c ∧ 0 ≤ noff c ∧ (0 < noff c → sie_set k = false).
Definition unlocked (lk : lockid) (k : kst) : Prop :=
  ∃ l, k_locks k !! lk = Some l ∧ locked l = 0 ∧ lk_cpu l = None.
Definition held (lk : lockid) (k : kst) : Prop :=
  sie_set k = false ∧
  (∃ c, k_cpus k !! k_hart k = Some c ∧ 0 < noff c) ∧
  (∃ l, k_locks k !! lk = Some l ∧ locked l = 1 ∧ lk_cpu l = Some (k_hart k)).

Definition cpu_push (on : bool) (c : cpu) : cpu :=
  (if noff c =? 0 then c <| intena := truth on |> else c) <| noff ::= Z.add 1 |>.
Definition csr_off (c : csr) : csr := c <| sstatus ::= fun s => Z.land s (Z.lnot SSTATUS_SIE) |>.
Definition csr_on (c : csr) : csr := c <| sstatus ::= Z.lor SSTATUS_SIE |>.

Definition pushed (k : kst) : kst :=
  k <| k_csr ::= csr_off |> <| k_cpus ::= alter (cpu_push (sie_set k)) (k_hart k) |>.
Definition reenable (k : kst) : bool :=
  match k_cpus k !! k_hart k with
  | Some c => (noff c =? 1) && negb (intena c =? 0)
  | None => false
  end.
Definition popped (k : kst) : kst :=
  k <| k_csr ::= (if reenable k then csr_on else fun c => c) |>
    <| k_cpus ::= alter (fun c => c <| noff ::= Z.pred |>) (k_hart k) |>.

Definition taken (i : nat) (l : spinlock) : spinlock := l <| locked := 1 |> <| lk_cpu := Some i |>.
Definition dropped (l : spinlock) : spinlock := l <| lk_cpu := None |> <| locked := 0 |>.

Definition enter (lk : lockid) (k : kst) : kst :=
  pushed k <| k_locks ::= alter (taken (k_hart k)) lk |>.
Definition leave (lk : lockid) (k : kst) : kst :=
  popped (k <| k_locks ::= alter dropped lk |>).

(** The trace a matched pair leaves: [intena] remembers the interrupt state. *)
Definition settle (k : kst) : kst :=
  k <| k_cpus ::= alter (fun c =>
         if noff c =? 0 then c <| intena := truth (sie_set k) |> else c) (k_hart k) |>.

Lemma list_alter_alter {A} (f g : A → A) i (l : list A) :
  alter f i (alter g i l) = alter (fun x => f (g x)) i l.
Proof. revert i. induction l as [|x l IH]; intros [|i]; try done. simpl. f_equal. apply IH. Qed.

Lemma map_alter_alter {A} (f g : A → A) (i : lockid) (m : gmap lockid A) :
  alter f i (alter g i m) = alter (fun x => f (g x)) i m.
Proof. apply alter_alter_eq. Qed.

Lemma land_off_sie s : Z.land (Z.land s (Z.lnot SSTATUS_SIE)) SSTATUS_SIE = 0.
Proof. rewrite <- Z.land_assoc, (Z.land_comm (Z.lnot _)), Z.land_lnot_diag. apply Z.land_0_r. Qed.

Lemma land_sie s : Z.land s SSTATUS_SIE = if Z.testbit s 1 then 2 else 0.
Proof.
  apply Z.bits_inj'. intros n Hn. rewrite Z.land_spec.
  change SSTATUS_SIE with (2 ^ 1). destruct (decide (n = 1)) as [->|Hne].
  - rewrite Z.pow2_bits_true by lia. by destruct (Z.testbit s 1).
  - rewrite Z.pow2_bits_false by lia. rewrite andb_false_r.
    destruct (Z.testbit s 1); [|by rewrite Z.bits_0].
    change 2 with (2 ^ 1). by rewrite Z.pow2_bits_false by lia.
Qed.

Lemma csr_off_clear k : sie_set k = false → csr_off (k_csr k) = k_csr k.
Proof.
  unfold sie_set, csr_off. rewrite land_sie. destruct (k_csr k) as [s]; cbn [sstatus].
  destruct (Z.testbit s 1) eqn:E; [done|]. intros _. cbv [set_field csr_settable]. simpl. f_equal.
  change SSTATUS_SIE with (2 ^ 1). apply Z.bits_inj'. intros n Hn. rewrite Z.land_spec, Z.lnot_spec by lia.
  destruct (decide (n = 1)) as [->|]; [by rewrite E|].
  rewrite Z.pow2_bits_false by lia. by rewrite andb_true_r.
Qed.

Lemma csr_on_off k : sie_set k = true → csr_on (csr_off (k_csr k)) = k_csr k.
Proof.
  unfold sie_set, csr_off, csr_on. rewrite land_sie. destruct (k_csr k) as [s]; cbn [sstatus].
  destruct (Z.testbit s 1) eqn:E; [|done]. intros _. cbv [set_field csr_settable]. simpl. f_equal.
  change SSTATUS_SIE with (2 ^ 1). apply Z.bits_inj'. intros n Hn.
  rewrite Z.lor_spec, Z.land_spec, Z.lnot_spec by lia.
  destruct (decide (n = 1)) as [->|]; [by rewrite E|].
  rewrite Z.pow2_bits_false by lia. by rewrite andb_true_r.
Qed.

Lemma sie_pushed k : sie_set (pushed k) = false.
Proof. unfold sie_set. cbn. by rewrite land_off_sie. Qed.

Lemma push_off_eq k c : k_cpus k !! k_hart k = Some c → push_off k = Ok tt (pushed k).
Proof.
  intros Hc. unfold push_off, pushed, bind, intr_get, intr_off, upd_csr, mycpu, cpuid, get_cpu, upd_cpu,
    gets, get, modify, ret, of_option. cbn. rewrite Hc. cbn.
  destruct (noff c =? 0) eqn:E; cbn; f_equal; cbv [set_field kst_settable]; cbn; f_equal.
  - rewrite list_alter_alter. apply list_alter_ext; [|done]. intros x Hx. simplify_eq. unfold cpu_push. by rewrite E.
  - apply list_alter_ext; [|done]. intros x Hx. simplify_eq. unfold cpu_push. by rewrite E.
Qed.

Lemma pop_off_eq k c :
  k_cpus k !! k_hart k = Some c → 0 < noff c → sie_set k = false → pop_off k = Ok tt (popped k).
Proof.
  intros Hc Hn Hs. unfold pop_off, popped, reenable, bind, intr_get, intr_on, upd_csr, mycpu, cpuid, get_cpu,
    upd_cpu, gets, get, modify, ret, of_option, panic. unfold sie_set in Hs. cbn. rewrite Hs, Hc. cbn.
  rewrite (proj2 (Z.ltb_ge (noff c) 1)) by lia. cbn. rewrite list_lookup_alter_eq, Hc. cbn.
  assert (Hp : (Z.pred (noff c) =? 0) = (noff c =? 1)) by (apply Bool.eq_iff_eq_true; rewrite !Z.eqb_eq; lia).
  rewrite Hp.
  destruct ((noff c =? 1) && negb (intena c =? 0)); cbn; f_equal; cbv [set_field kst_settable]; cbn; done.
Qed.

Lemma acquire_eq lk k : ready k → unlocked lk k → acquire lk k = Ok tt (enter lk k).
Proof.
  intros (c & Hc & Hn & Hs) (l & Hl & H0 & Hnone). unfold acquire.
  rewrite (bind_Ok _ _ _ _ _ (push_off_eq k c Hc)).
  unfold acquire_check, holding, sync_lock_test_and_set, set_owner, get_lock, upd_lock, mycpu, cpuid, bind, get, gets,
    modify, ret, of_option, panic, hang. cbn. rewrite Hl. cbn. rewrite H0. cbn. rewrite Hl. cbn. rewrite H0. cbn.
  f_equal. unfold enter. cbv [set_field kst_settable]; cbn. f_equal.
  rewrite map_alter_alter. done.
Qed.

Lemma acquire_taken lk k c l :
  k_cpus k !! k_hart k = Some c → k_locks k !! lk = Some l → locked l ≠ 0 →
  lk_cpu l ≠ Some (k_hart k) → ∃ k', acquire lk k = Hang k'.
Proof.
  intros Hc Hl Hk Ho. unfold acquire. rewrite (bind_Ok _ _ _ _ _ (push_off_eq k c Hc)).
  unfold acquire_check, holding, sync_lock_test_and_set, set_owner, get_lock, upd_lock, mycpu, cpuid, bind, get, gets,
    modify, ret, of_option, panic, hang. cbn. rewrite Hl. cbn.
  rewrite (proj2 (Z.eqb_neq (locked l) 0)) by done. rewrite bool_decide_false by done. cbn.
  rewrite Hl. cbn. rewrite (proj2 (Z.eqb_neq (locked l) 0)) by done. cbn. by eexists.
Qed.

Lemma release_check_eq lk k : held lk k → release_check lk k = Ok tt k.
Proof.
  intros (Hs & _ & (l & Hl & H1 & Ho)).
  unfold release_check, holding, get_lock, mycpu, cpuid, bind, get, gets, of_option, ret. rewrite Hl. cbn.
  rewrite H1, Ho. cbn. by rewrite bool_decide_true.
Qed.

Lemma release_eq lk k : held lk k → release lk k = Ok tt (leave lk k).
Proof.
  intros H. unfold release. rewrite (bind_Ok _ _ _ _ _ (release_check_eq lk k H)).
  destruct H as (Hs & (c & Hc & Hn) & _).
  change (pop_off (k <| k_locks ::= alter (λ l, l <| lk_cpu := None |>) lk |>
                     <| k_locks ::= alter (λ l, l <| locked := 0 |>) lk |>) = Ok tt (leave lk k)).
  etrans; [eapply pop_off_eq; eassumption|].
  f_equal. unfold leave. cbv [set_field kst_settable popped reenable]; cbn. f_equal.
  by rewrite map_alter_alter.
Qed.

Lemma alter_id_on {A} (f : A → A) i (l : list A) :
  (∀ x, l !! i = Some x → f x = x) → alter f i l = l.
Proof.
  intros H. destruct (l !! i) as [x|] eqn:E.
  - apply list_eq. intros j. destruct (decide (i = j)) as [->|].
    + rewrite list_lookup_alter_eq, E. simpl. f_equal. auto.
    + by rewrite list_lookup_alter_ne.
  - unfold alter, list_alter. apply list_eq. intros j. revert i j E H.
    induction l as [|y l IH]; intros [|i] [|j] E H; simpl in *; try done. eapply IH; eauto.
Qed.

Lemma map_alter_id_on {A} (f : A → A) (i : lockid) (m : gmap lockid A) :
  (∀ x, m !! i = Some x → f x = x) → alter f i m = m.
Proof.
  intros H. apply map_eq. intros j. destruct (decide (i = j)) as [->|].
  - rewrite lookup_alter_eq. destruct (m !! j) eqn:E; [|done]. simpl. f_equal. auto.
  - by rewrite lookup_alter_ne.
Qed.

(** The nesting discipline: a matched pair restores the interrupt state. *)
Lemma popped_pushed k : ready k → popped (pushed k) = settle k.
Proof.
  intros (c & Hc & Hn & Hs).
  assert (Hre : reenable (pushed k) =
    (noff (cpu_push (sie_set k) c) =? 1) && negb (intena (cpu_push (sie_set k) c) =? 0)).
  { unfold reenable. cbn. by rewrite list_lookup_alter_eq, Hc. }
  assert (Hcpu : alter (λ c0, c0 <| noff ::= Z.pred |>) (k_hart k)
                   (alter (cpu_push (sie_set k)) (k_hart k) (k_cpus k)) =
                 alter (λ c0, if noff c0 =? 0 then c0 <| intena := truth (sie_set k) |> else c0)
                   (k_hart k) (k_cpus k)).
  { rewrite list_alter_alter. apply list_alter_ext; [|done]. intros x Hx. simplify_eq.
    unfold cpu_push. destruct c as [p ctx n ie]; cbn. destruct (n =? 0) eqn:E; cbn;
      cbv [set_field cpu_settable]; cbn; f_equal; lia. }
  assert (Hcsr : (if (noff (cpu_push (sie_set k) c) =? 1) && negb (intena (cpu_push (sie_set k) c) =? 0)
                  then csr_on else fun c => c) (csr_off (k_csr k)) = k_csr k).
  { unfold cpu_push. destruct (noff c =? 0) eqn:E; cbn.
    - replace (noff c) with 0 by lia. cbn. destruct (sie_set k) eqn:E'; cbn.
      + by apply csr_on_off.
      + by apply csr_off_clear.
    - replace (1 + noff c =? 1) with false by lia. cbn. apply csr_off_clear, Hs. lia. }
  unfold popped. rewrite Hre.
  transitivity (k <| k_csr := (if (noff (cpu_push (sie_set k) c) =? 1) && negb (intena (cpu_push (sie_set k) c) =? 0)
                  then csr_on else fun c => c) (csr_off (k_csr k)) |>
                  <| k_cpus := alter (λ c0, c0 <| noff ::= Z.pred |>) (k_hart k)
                   (alter (cpu_push (sie_set k)) (k_hart k) (k_cpus k)) |>); [reflexivity|].
  rewrite Hcsr, Hcpu. by destruct k.
Qed.

Lemma leave_enter lk k : ready k → unlocked lk k → leave lk (enter lk k) = settle k.
Proof.
  intros Hr (l & Hl & H0 & Hnone). rewrite <- popped_pushed by done.
  unfold leave. f_equal. unfold enter. cbv [set_field kst_settable]. cbn.
  rewrite map_alter_alter, map_alter_id_on; [by destruct k|].
  intros x Hx. simplify_eq. destruct l as [a b d]; simpl in *; subst. done.
Qed.

Lemma held_enter lk k : ready k → unlocked lk k → held lk (enter lk k).
Proof.
  intros (c & Hc & Hn & Hs) (l & Hl & H0 & Hnone). split; [apply (sie_pushed k)|]. split.
  - cbn. rewrite list_lookup_alter_eq, Hc. cbn. eexists; split; [done|].
    unfold cpu_push. destruct (noff c =? 0); cbn; lia.
  - cbn. rewrite lookup_alter_eq, Hl. cbn. by eexists.
Qed.

Lemma ready_enter lk k : ready k → ready (enter lk k).
Proof.
  intros (c & Hc & Hn & Hs). exists (cpu_push (sie_set k) c). cbn.
  rewrite list_lookup_alter_eq, Hc. split; [done|]. unfold cpu_push.
  split; [destruct (noff c =? 0); cbn; lia|]. intros _. apply (sie_pushed k).
Qed.

Lemma unlocked_enter lk lk' k : lk ≠ lk' → unlocked lk' k → unlocked lk' (enter lk k).
Proof. intros Hne (l & Hl & H). exists l. split; [|done]. cbn. by rewrite lookup_alter_ne. Qed.

Lemma ready_settle k : ready k → ready (settle k).
Proof.
  intros (c & Hc & Hn & Hs). eexists. cbn. rewrite list_lookup_alter_eq, Hc. split; [done|].
  unfold sie_set in *. cbn. destruct (noff c =? 0); cbn; auto.
Qed.

Lemma unlocked_settle lk k : unlocked lk k → unlocked lk (settle k).
Proof. done. Qed.

Lemma settle_settle k : settle (settle k) = settle k.
Proof.
  unfold settle. cbv [set_field kst_settable]. cbn. f_equal.
  rewrite list_alter_alter. apply list_alter_ext; [|done].
  intros x _. unfold sie_set. cbn. destruct (noff x =? 0) eqn:E; cbn; by rewrite E.
Qed.

Lemma wp_acquire lk Q k : ready k → unlocked lk k → Q tt (enter lk k) → wp (acquire lk) Q k.
Proof. intros Hr Hu HQ. unfold wp. by rewrite acquire_eq. Qed.

Lemma wp_release lk Q k : held lk k → Q tt (leave lk k) → wp (release lk) Q k.
Proof. intros Hh HQ. unfold wp. by rewrite release_eq. Qed.

Lemma bind_acquire {A} lk (f : unit → K A) k :
  ready k → unlocked lk k → bind (acquire lk) f k = f tt (enter lk k).
Proof. intros. by apply bind_Ok, acquire_eq. Qed.

Lemma bind_release {A} lk (f : unit → K A) k :
  held lk k → bind (release lk) f k = f tt (leave lk k).
Proof. intros. by apply bind_Ok, release_eq. Qed.

Lemma wp_myproc Q k c :
  ready k → k_cpus k !! k_hart k = Some c → Q (c_proc c) (settle k) → wp myproc Q k.
Proof.
  intros Hr Hc HQ. assert (Hc' : k_cpus (pushed k) !! k_hart (pushed k) = Some (cpu_push (sie_set k) c)).
  { cbn. by rewrite list_lookup_alter_eq, Hc. }
  assert (Hn : 0 < noff (cpu_push (sie_set k) c)).
  { destruct Hr as (c' & ? & ? & _). unfold cpu_push. simplify_eq. destruct (noff _ =? 0); cbn; lia. }
  unfold myproc, wp. rewrite (bind_Ok _ _ _ _ _ (push_off_eq k c Hc)).
  unfold mycpu, cpuid, get_cpu, bind at 1 2, gets, bind at 1, get. rewrite Hc'. cbn [of_option].
  unfold ret at 1. rewrite (bind_Ok _ _ _ _ _ (pop_off_eq (pushed k) _ Hc' Hn (sie_pushed k))).
  rewrite popped_pushed by done. unfold ret.
  replace (c_proc (cpu_push (sie_set k) c)) with (c_proc c); [done|].
  unfold cpu_push. by destruct (noff c =? 0).
Qed.

(** Fields the lock bookkeeping does not read or write commute with it. *)
Class LockIndep {T} (proj : kst → T) `{!Setter proj} : Prop := {
  leave_set lk g k : leave lk (set_field proj g k) = set_field proj g (leave lk k);
  enter_set lk g k : enter lk (set_field proj g k) = set_field proj g (enter lk k);
  settle_set g k : settle (set_field proj g k) = set_field proj g (settle k);
  held_set lk g k : held lk (set_field proj g k) = held lk k;
  ready_set g k : ready (set_field proj g k) = ready k;
  unlocked_set lk g k : unlocked lk (set_field proj g k) = unlocked lk k
}.
#[export] Hint Extern 1 (LockIndep _) => split; reflexivity : typeclass_instances.

Create HintDb klock.
#[export] Hint Resolve held_enter ready_enter unlocked_enter ready_settle unlocked_settle : klock.

(** Side conditions of lock calls, through updates of other fields. *)
Ltac klock :=
  repeat progress (rewrite ?held_set, ?ready_set, ?unlocked_set); try done;
  solve [eauto with klock].

(** ** Several harts, one lock

    [pc] says which atomic action of [acquire]/[release] a hart performs next. *)
Module Harts.

Inductive pc := PIdle | PCheck | PSpin | PGot | PCrit | PClear | PFree | PPop | PPanic.

Definition action (lk : lockid) (p : pc) : K pc :=
  match p with
  | PIdle => push_off ;;; ret PCheck
  | PCheck => acquire_check lk ;;; ret PSpin
  | PSpin => let! old := sync_lock_test_and_set lk in ret (if old =? 0 then PGot else PSpin)
  | PGot => set_owner lk ;;; ret PCrit
  | PCrit => release_check lk ;;; ret PClear
  | PClear => clear_owner lk ;;; ret PFree
  | PFree => sync_lock_release lk ;;; ret PPop
  | PPop => pop_off ;;; ret PIdle
  | PPanic => hang
  end.

(** The shared kernel state, and the CSRs and program counter of each hart. *)
Record hst := mkhst { h_k : kst; h_csrs : list csr; h_pcs : list pc }.

Definition on_hart (s : hst) (h : nat) (c : csr) : kst := h_k s <| k_hart := h |> <| k_csr := c |>.

Inductive hstep (lk : lockid) : hst → hst → Prop :=
  | st_action s h p c p' k' :
      h_pcs s !! h = Some p → h_csrs s !! h = Some c →
      action lk p (on_hart s h c) = Ok p' k' →
      hstep lk s (mkhst k' (<[h := k_csr k']> (h_csrs s)) (<[h := p']> (h_pcs s)))
  | st_panic s h p c msg k' :
      h_pcs s !! h = Some p → h_csrs s !! h = Some c →
      action lk p (on_hart s h c) = Panic msg k' →
      hstep lk s (mkhst k' (<[h := k_csr k']> (h_csrs s)) (<[h := PPanic]> (h_pcs s)))
  | st_idle s h c c' :
      (* outside the lock a hart may turn interrupts on and off *)
      h_pcs s !! h = Some PIdle → h_csrs s !! h = Some c →
      hstep lk s (mkhst (h_k s) (<[h := c']> (h_csrs s)) (h_pcs s)).

(** Every hart is outside, with nothing pushed; the lock has been initialised. *)
Definition initial (lk : lockid) (s : hst) : Prop :=
  (∃ name, k_locks (h_k s) !! lk = Some (mkspinlock 0 name None)) ∧
  length (h_csrs s) = length (h_pcs s) ∧
  (∀ h p, h_pcs s !! h = Some p → p = PIdle ∧ ∃ c, k_cpus (h_k s) !! h = Some c ∧ noff c = 0).

Definition reachable (lk : lockid) (s : hst) : Prop := ∃ s0, initial lk s0 ∧ rtc (hstep lk) s0 s.

Definition owning (p : pc) : bool :=
  match p with PGot | PCrit | PClear | PFree => true | _ => false end.
Definition named (p : pc) : bool := match p with PCrit | PClear => true | _ => false end.
Definition csr_sie (c : csr) : bool := negb (Z.land (sstatus c) SSTATUS_SIE =? 0).

Definition hart_ok (s : hst) (h : nat) (p : pc) : Prop :=
  ∃ c r, k_cpus (h_k s) !! h = Some c ∧ h_csrs s !! h = Some r ∧ p ≠ PPanic ∧
    match p with PIdle => noff c = 0 | _ => noff c = 1 ∧ csr_sie r = false end.

Definition owner_ok (pcs : list pc) (l : spinlock) (o : option nat) : Prop :=
  (∀ h p, pcs !! h = Some p → owning p = true ↔ o = Some h) ∧
  locked l = match o with Some _ => 1 | None => 0 end ∧
  lk_cpu l = match o with
             | Some h => match pcs !! h with Some p => if named p then Some h else None | None => None end
             | None => None
             end.

Record inv (lk : lockid) (s : hst) : Prop := {
  inv_len : length (h_csrs s) = length (h_pcs s);
  inv_harts h p : h_pcs s !! h = Some p → hart_ok s h p;
  inv_lock : ∃ l o, k_locks (h_k s) !! lk = Some l ∧ owner_ok (h_pcs s) l o
}.

Lemma inv_update lk s h p p' k' l' o' :
  inv lk s → h_pcs s !! h = Some p →
  (∀ j, j ≠ h → k_cpus k' !! j = k_cpus (h_k s) !! j) →
  (∃ c, k_cpus k' !! h = Some c ∧ p' ≠ PPanic ∧
    match p' with PIdle => noff c = 0 | _ => noff c = 1 ∧ csr_sie (k_csr k') = false end) →
  k_locks k' !! lk = Some l' → owner_ok (<[h := p']> (h_pcs s)) l' o' →
  inv lk (mkhst k' (<[h := k_csr k']> (h_csrs s)) (<[h := p']> (h_pcs s))).
Proof.
  intros [Hlen Hh Hl] Hp Hj (c & Hc & Hnp & Hpc) Hl' Ho. split; cbn.
  - by rewrite !length_insert.
  - intros j q Hq. destruct (decide (j = h)) as [->|Hne].
    + rewrite list_lookup_insert_eq in Hq by (by eapply lookup_lt_Some). simplify_eq.
      exists c, (k_csr k'). cbn. rewrite list_lookup_insert_eq; [done|].
      rewrite Hlen. by eapply lookup_lt_Some.
    + rewrite list_lookup_insert_ne in Hq by done. destruct (Hh j q Hq) as (c1 & r1 & ? & ? & ?).
      exists c1, r1. cbn. rewrite Hj by done. by rewrite list_lookup_insert_ne by done.
  - eauto.
Qed.

(** Moving between two program points on the same side of the lock. *)
Lemma owner_same pcs l o h p p' :
  owner_ok pcs l o → pcs !! h = Some p → owning p = owning p' → named p = named p' →
  owner_ok (<[h := p']> pcs) l o.
Proof.
  intros (Ho & Hlk & Hc) Hp Ho' Hn. assert (Hlt : (h < length pcs)%nat) by (by eapply lookup_lt_Some).
  split_and!; [|done|].
  - intros j q Hq. destruct (decide (j = h)) as [->|Hne].
    + rewrite list_lookup_insert_eq in Hq by done. simplify_eq. rewrite <- Ho'. by apply Ho.
    + rewrite list_lookup_insert_ne in Hq by done. by apply Ho.
  - rewrite Hc. destruct o as [h0|]; [|done]. destruct (decide (h0 = h)) as [->|Hne].
    + rewrite list_lookup_insert_eq by done. by rewrite Hp, Hn.
    + by rewrite list_lookup_insert_ne by done.
Qed.

Lemma owner_take pcs l h :
  owner_ok pcs l None → pcs !! h = Some PSpin →
  owner_ok (<[h := PGot]> pcs) (l <| locked := 1 |>) (Some h).
Proof.
  intros (Ho & Hlk & Hc) Hp. assert (Hlt : (h < length pcs)%nat) by (by eapply lookup_lt_Some).
  split_and!; [|done|by rewrite list_lookup_insert_eq].
  intros j q Hq. destruct (decide (j = h)) as [->|Hne].
  - rewrite list_lookup_insert_eq in Hq by done. by simplify_eq.
  - rewrite list_lookup_insert_ne in Hq by done. specialize (Ho j q Hq). destruct (owning q); naive_solver.
Qed.

Lemma owner_drop pcs l h :
  owner_ok pcs l (Some h) → pcs !! h = Some PFree →
  owner_ok (<[h := PPop]> pcs) (l <| locked := 0 |>) None.
Proof.
  intros (Ho & Hlk & Hc) Hp. assert (Hlt : (h < length pcs)%nat) by (by eapply lookup_lt_Some).
  split_and!; [|done|cbn; rewrite Hc, Hp; done].
  intros j q Hq. destruct (decide (j = h)) as [->|Hne].
  - rewrite list_lookup_insert_eq in Hq by done. by simplify_eq.
  - rewrite list_lookup_insert_ne in Hq by done. specialize (Ho j q Hq). destruct (owning q); naive_solver.
Qed.

Lemma owner_name pcs l o h p p' :
  owner_ok pcs l o → pcs !! h = Some p → owning p = true → owning p' = true →
  owner_ok (<[h := p']> pcs) (l <| lk_cpu := if named p' then Some h else None |>) o.
Proof.
  intros (Ho & Hlk & Hc) Hp Hop Hop'. assert (Hlt : (h < length pcs)%nat) by (by eapply lookup_lt_Some).
  assert (o = Some h) as -> by (by apply (Ho h p)).
  split_and!; [|done|cbn; by rewrite list_lookup_insert_eq].
  intros j q Hq. destruct (decide (j = h)) as [->|Hne].
  - rewrite list_lookup_insert_eq in Hq by done. by simplify_eq.
  - rewrite list_lookup_insert_ne in Hq by done. by apply Ho.
Qed.

Lemma holding_eq lk s h c l :
  k_locks (h_k s) !! lk = Some l →
  holding lk (on_hart s h c) =
  Ok (negb (locked l =? 0) && bool_decide (lk_cpu l = Some h)) (on_hart s h c).
Proof. intros Hl. unfold holding, get_lock, mycpu, cpuid, bind, gets, get, of_option. cbn. by rewrite Hl. Qed.

(** [holding] answers for the hart that asks. *)
Lemma holding_owner lk s h c l o p :
  k_locks (h_k s) !! lk = Some l → owner_ok (h_pcs s) l o → h_pcs s !! h = Some p →
  holding lk (on_hart s h c) = Ok (named p) (on_hart s h c).
Proof.
  intros Hl (Ho & Hlk & Hc) Hp. rewrite (holding_eq lk s h c l Hl). f_equal. rewrite Hlk, Hc.
  specialize (Ho h p Hp). destruct o as [h0|].
  - destruct (decide (h0 = h)) as [->|Hne].
    + rewrite Hp. destruct (named p); [by rewrite bool_decide_true|by rewrite bool_decide_false].
    + assert (named p = false) as -> by (destruct p; cbn in *; try done; naive_solver).
      rewrite bool_decide_false; [done|]. destruct (h_pcs s !! h0) as [q|]; [destruct (named q)|]; congruence.
  - destruct p; cbn in *; try done; naive_solver.
Qed.

Lemma inv_action lk s h p c :
  inv lk s → h_pcs s !! h = Some p → h_csrs s !! h = Some c →
  match action lk p (on_hart s h c) with
  | Ok p' k' => inv lk (mkhst k' (<[h := k_csr k']> (h_csrs s)) (<[h := p']> (h_pcs s)))
  | Panic _ _ => False
  | _ => True
  end.
Proof.
  intros Hi Hp Hc. destruct (inv_harts _ _ Hi h p Hp) as (cp & r & Hcp & Hr & Hnp & Hn).
  destruct (inv_lock _ _ Hi) as (l & o & Hl & Ho). assert (c = r) as -> by congruence.
  assert (Hhold := holding_owner lk s h r l o p Hl Ho Hp).
  destruct p; try done; cbn [action].
  - rewrite (bind_Ok _ _ _ _ _ (push_off_eq (on_hart s h r) cp Hcp)). unfold ret.
    eapply inv_update; [done..|intros j Hj; by apply list_lookup_alter_ne| |exact Hl|by eapply owner_same].
    eexists. cbn. rewrite list_lookup_alter_eq, Hcp. split_and!; [done|done| |].
    + unfold cpu_push. destruct (noff cp =? 0); cbn; lia.
    + unfold csr_sie. cbn. by rewrite land_off_sie.
  - unfold acquire_check. rewrite bind_assoc, (bind_Ok _ _ _ _ _ Hhold). cbn [named bind ret].
    eapply inv_update; [done..|by exists cp|exact Hl|by eapply owner_same].
  - unfold sync_lock_test_and_set, get_lock, upd_lock, bind, get, of_option, modify, ret. cbn.
    rewrite Hl. cbn. destruct Ho as (Ho1 & Hlk & Ho3) eqn:E. destruct o as [h0|]; rewrite Hlk; cbn.
    + match goal with |- inv _ (mkhst ?k' _ _) =>
        apply (inv_update lk s h PSpin PSpin k' (l <| locked := 1 |>) (Some h0)) end; [done..|by exists cp| |].
      * cbn. by rewrite lookup_alter_eq, Hl.
      * assert (l <| locked := 1 |> = l) as -> by (destruct l; simpl in *; by subst).
        by eapply owner_same.
    + match goal with |- inv _ (mkhst ?k' _ _) =>
        apply (inv_update lk s h PSpin PGot k' (l <| locked := 1 |>) (Some h)) end; [done..|by exists cp|cbn; by rewrite lookup_alter_eq, Hl|by eapply owner_take].
  - unfold set_owner, mycpu, cpuid, upd_lock, bind, gets, modify, ret.
    eapply inv_update; [done..|by exists cp|cbn; by rewrite lookup_alter_eq, Hl|].
    by eapply (owner_name _ _ _ _ _ PCrit).
  - unfold release_check. rewrite bind_assoc, (bind_Ok _ _ _ _ _ Hhold). cbn [named bind ret].
    eapply inv_update; [done..|by exists cp|exact Hl|by eapply owner_same].
  - unfold clear_owner, upd_lock, bind, modify, ret.
    eapply inv_update; [done..|by exists cp|cbn; by rewrite lookup_alter_eq, Hl|].
    by eapply (owner_name _ _ _ _ _ PFree).
  - unfold sync_lock_release, upd_lock, bind, modify, ret.
    assert (o = Some h) as -> by (by apply (proj1 Ho h PFree)).
    eapply inv_update; [done..|by exists cp|cbn; by rewrite lookup_alter_eq, Hl|by eapply owner_drop].
  - destruct Hn as [Hn Hs].
    rewrite (bind_Ok _ _ _ _ _ (pop_off_eq (on_hart s h r) cp Hcp ltac:(lia) Hs)). unfold ret.
    eapply inv_update; [done..|intros j Hj; by apply list_lookup_alter_ne| |exact Hl|by eapply owner_same].
    eexists. cbn. rewrite list_lookup_alter_eq, Hcp. split_and!; [done|done|cbn; lia].
Qed.

Lemma inv_step lk s s' : inv lk s → hstep lk s s' → inv lk s'.
Proof.
  intros Hi Hst. revert Hi. destruct Hst as [s1 h p c p' k' Hp Hc Ha|s1 h p c msg k' Hp Hc Ha|s1 h c c' Hp Hc]; intros Hi.
  - pose proof (inv_action lk s1 h p c Hi Hp Hc) as H. by rewrite Ha in H.
  - pose proof (inv_action lk s1 h p c Hi Hp Hc) as H. by rewrite Ha in H.
  - destruct Hi as [Hlen Hh Hl]. split; cbn; [by rewrite length_insert| |done].
    intros j q Hq. destruct (Hh j q Hq) as (cp & r & Hcp & Hr & Hnp & Hn).
    destruct (decide (j = h)) as [->|Hne].
    + simplify_eq. exists cp, c'. cbn. rewrite list_lookup_insert_eq; [done|]. by eapply lookup_lt_Some.
    + exists cp, r. cbn. by rewrite list_lookup_insert_ne by done.
Qed.

Lemma inv_reachable lk s : reachable lk s → inv lk s.
Proof.
  intros (s0 & (Hl & Hlen & Hh) & Hr). assert (H0 : inv lk s0).
  { destruct Hl as [name Hl]. split; [done| |].
    - intros h p Hp. destruct (Hh h p Hp) as (-> & c & Hc & Hn).
      destruct (lookup_lt_is_Some_2 (h_csrs s0) h) as [r Hr'];
        [rewrite Hlen; by eapply lookup_lt_Some|]. by exists c, r.
    - exists (mkspinlock 0 name None), None. split; [done|]. split; [|done].
      intros h p Hp. destruct (Hh h p Hp) as (-> & _). done. }
  clear Hl Hlen Hh. induction Hr as [s|s1 s2 s3 Hst _ IH]; [done|]. apply IH. by eapply inv_step.
Qed.

End Harts.

(** C10: In every interleaving of harts running [acquire] and [release] on one lock
    (starting from [initlock], atomic actions in any order, interrupts toggled
    freely outside the lock): no call panics, at most one hart is past the swap of
    [acquire] and before the final store of [release], that hart runs with
    interrupts off, and [holding] answers true exactly for it. *)
Theorem spinlock_mutual_exclusion (lk : lockid) (s : Harts.hst) :
  Harts.reachable lk s →
  (∀ h, Harts.h_pcs s !! h ≠ Some Harts.PPanic) ∧
  (∀ h1 h2 p1 p2, Harts.h_pcs s !! h1 = Some p1 → Harts.h_pcs s !! h2 = Some p2 →
     Harts.owning p1 = true → Harts.owning p2 = true → h1 = h2) ∧
  (∀ h p, Harts.h_pcs s !! h = Some p → p ≠ Harts.PIdle →
     ∃ c, Harts.h_csrs s !! h = Some c ∧ Harts.csr_sie c = false) ∧
  (∀ h p c, Harts.h_pcs s !! h = Some p →
     ∃ b k', holding lk (Harts.on_hart s h c) = Ok b k' ∧
             (p = Harts.PCrit → b = true) ∧ (Harts.owning p = false → b = false)).
Proof.
  intros Hr%Harts.inv_reachable. destruct (Harts.inv_lock _ _ Hr) as (l & o & Hl & Ho).
  split_and!.
  - intros h Hp. by destruct (Harts.inv_harts _ _ Hr h _ Hp) as (? & ? & ? & ? & ? & ?).
  - intros h1 h2 p1 p2 H1 H2 Ho1 Ho2.
    pose proof (proj1 (proj1 Ho h1 p1 H1) Ho1). pose proof (proj1 (proj1 Ho h2 p2 H2) Ho2). congruence.
  - intros h p Hp Hne. destruct (Harts.inv_harts _ _ Hr h _ Hp) as (? & r & ? & ? & ? & Hn).
    exists r. split; [done|]. destruct p; naive_solver.
  - intros h p c Hp. do 2 eexists. split; [by eapply Harts.holding_owner|].
    split; [by intros ->|]. by destruct p.
Qed.

(** Two harts: hart 0 is inside, hart 1 has tried the swap once and spins. *)
Definition demo_harts : Harts.hst :=
  let csr0 := mkcsr 2 0 0 0 0 0 0 0 in
  let cpu0 := mkcpu None (mkcontext 0 0 []) 0 0 in
  Harts.mkhst (kst0 <| k_cpus := [cpu0; cpu0] |> <| k_locks := {[LKmem := mkspinlock 0 "kmem" None]} |>)
    [csr0; csr0] [Harts.PIdle; Harts.PIdle].

Definition act (lk : lockid) (h : nat) (s : Harts.hst) : Harts.hst :=
  match Harts.h_pcs s !! h, Harts.h_csrs s !! h with
  | Some p, Some c =>
      match Harts.action lk p (Harts.on_hart s h c) with
      | Ok p' k' => Harts.mkhst k' (<[h := k_csr k']> (Harts.h_csrs s)) (<[h := p']> (Harts.h_pcs s))
      | _ => s
      end
  | _, _ => s
  end.

Lemma act_step lk h s :
  (match Harts.h_pcs s !! h, Harts.h_csrs s !! h with
   | Some p, Some c => match Harts.action lk p (Harts.on_hart s h c) with Ok _ _ => true | _ => false end
   | _, _ => false end) = true → Harts.hstep lk s (act lk h s).
Proof.
  unfold act. destruct (Harts.h_pcs s !! h) eqn:E1; [|done]. destruct (Harts.h_csrs s !! h) eqn:E2; [|done].
  destruct (Harts.action _ _ _) eqn:E3; try done. intros _. by eapply Harts.st_action.
Qed.

Definition demo_run : Harts.hst :=
  fold_left (fun s h => act LKmem h s) [0; 1; 1; 0; 0; 1; 0]%nat demo_harts.

Lemma spinlock_mutual_exclusion_witness :
  Harts.h_pcs demo_run = [Harts.PCrit; Harts.PSpin] ∧
  ∃ b k', holding LKmem (Harts.on_hart demo_run 1 (mkcsr 0 0 0 0 0 0 0 0)) = Ok b k' ∧ b = false.
Proof.
  split; [by vm_compute|].
  destruct (spinlock_mutual_exclusion LKmem demo_run) as (_ & _ & _ & H).
  - exists demo_harts. split.
    + split; [by eexists|]. split; [done|]. intros [|[|h]] p; simpl; intros ?; simplify_eq; eauto.
    + unfold demo_run. cbn [fold_left].
      repeat (eapply rtc_r; [|apply act_step; by vm_compute]). apply rtc_refl.
  - destruct (H 1%nat Harts.PSpin (mkcsr 0 0 0 0 0 0 0 0)) as (b & k' & Hb & _ & Hf);
      [by vm_compute|]. exists b, k'. split; [done|]. by apply Hf.
Defined.
