(* ===== verification/Kalloc.v ===== *)
(** * The physical page allocator (kalloc.c)

    The free pages form a linked list threaded through the pages themselves: the
    first eight bytes of a free page hold the address of the next one.
    [kmem_ok k l] says that the list starting at [kmem.freelist] is [l]. *)

From S2P Require Import Prelude Mem CString Kernel Spinlock.

#[local] Opaque memset.

Definition kmem_upd (m : mem) (f : Z) (k : kst) : kst := k <| k_mem := m |> <| k_freelist := f |>.

Lemma ready_kmem_upd m f k : ready k → ready (kmem_upd m f k).
Proof. done. Qed.
Lemma unlocked_kmem_upd lk m f k : unlocked lk k → unlocked lk (kmem_upd m f k).
Proof. done. Qed.
Lemma kmem_upd_mem m f k g : kmem_upd m f k <| k_mem ::= g |> = kmem_upd (g m) f k.
Proof. done. Qed.
Lemma mem_kmem_upd m f k : k_mem (kmem_upd m f k) = m.
Proof. done. Qed.
#[export] Hint Resolve ready_kmem_upd unlocked_kmem_upd : klock.

Section kalloc.
Context {I : image}.

Definition kfree (pa : Z) : K unit :=
  if negb (pa mod PGSIZE =? 0) || (pa <? img_end) || (PHYSTOP <=? pa) then panic "kfree" else
  mem_mod (fun m => memset m pa 1 PGSIZE) ;;;
  acquire LKmem ;;;
  let! k := get in
  mem_mod (fun m => store64 m pa (k_freelist k)) ;;;
  modify (fun k => k <| k_freelist := pa |>) ;;;
  release LKmem.

Definition freerange_body (pa_end : Z) (p : Z) : K (Z + unit) :=
  if p + PGSIZE <=? pa_end then kfree p ;;; ret (inl (p + PGSIZE)) else ret (inr tt).
Definition freerange (pa_start pa_end : Z) : K unit :=
  loop (Z.to_nat (pa_end / PGSIZE + 1)) (freerange_body pa_end) (PGROUNDUP pa_start).

Definition kinit : K unit :=
  initlock LKmem "kmem" ;;;
  freerange img_end PHYSTOP.

Definition kalloc : K Z :=
  acquire LKmem ;;;
  let! r := gets k_freelist in
  (if r =? 0 then ret tt else modify (fun k => k <| k_freelist := load64 (k_mem k) r |>)) ;;;
  release LKmem ;;;
  (if r =? 0 then ret tt else mem_mod (fun m => memset m r 5 PGSIZE)) ;;;
  ret r.

(** ** The free list *)

Definition is_page (pa : Z) : Prop := pa mod PGSIZE = 0 ∧ img_end ≤ pa < PHYSTOP.

Fixpoint chain (m : mem) (a : Z) (l : list Z) : Prop :=
  match l with
  | [] => a = 0
  | p :: l' => a = p ∧ chain m (load64 m p) l'
  end.

Record kmem_ok (k : kst) (l : list Z) : Prop := {
  km_chain : chain (k_mem k) (k_freelist k) l;
  km_nodup : NoDup l;
  km_pages : Forall is_page l
}.

(** [m'] differs from [m] only inside the page [pa]. *)
Definition only_page (pa : Z) (m m' : mem) : Prop :=
  ∀ a, a < pa ∨ pa + PGSIZE ≤ a → mem_get m' a = mem_get m a.

Lemma pages_disjoint p q : p mod PGSIZE = 0 → q mod PGSIZE = 0 → p ≠ q → p + PGSIZE ≤ q ∨ q + PGSIZE ≤ p.
Proof. unfold PGSIZE. intros. pose proof (Z.div_mod p 4096). pose proof (Z.div_mod q 4096). lia. Qed.

Lemma only_page_load p q m m' :
  p mod PGSIZE = 0 → q mod PGSIZE = 0 → p ≠ q → only_page p m m' → load64 m' q = load64 m q.
Proof.
  intros Hp Hq Hne Ho. apply load_ext. intros i Hi. apply Ho.
  pose proof (pages_disjoint p q Hp Hq Hne). unfold PGSIZE in *. lia.
Qed.

Lemma only_page_trans p m1 m2 m3 : only_page p m1 m2 → only_page p m2 m3 → only_page p m1 m3.
Proof. intros H1 H2 a Ha. by rewrite H2, H1. Qed.

Lemma only_page_memset m p c : only_page p m (memset m p c PGSIZE).
Proof. intros a Ha. rewrite mem_get_memset. case_decide; [lia|done]. Qed.

Lemma only_page_store m p v : only_page p m (store64 m p v).
Proof. intros a Ha. apply mem_get_store_out. unfold PGSIZE in *. lia. Qed.

Lemma chain_only_page p m m' a l :
  p mod PGSIZE = 0 → only_page p m m' → p ∉ l → Forall is_page l → chain m a l → chain m' a l.
Proof.
  intros Hp Ho. revert a. induction l as [|q l IH]; intros a Hni Hpg; [done|].
  apply not_elem_of_cons in Hni as [Hne Hni]. apply Forall_cons in Hpg as [[Hq _] Hpg].
  intros [-> Hch]. split; [done|]. rewrite (only_page_load p q m m') by done. auto.
Qed.

(** ** kalloc and kfree on the abstract free list *)

Lemma upd_fl_mem k f g : k <| k_freelist := f |> <| k_mem ::= g |> = kmem_upd (g (k_mem k)) f k.
Proof. done. Qed.
Lemma upd_mem_mem_fl k g h f :
  k <| k_mem ::= g |> <| k_mem ::= h |> <| k_freelist := f |> = kmem_upd (h (g (k_mem k))) f k.
Proof. done. Qed.

Lemma kalloc_eq k r :
  ready k → unlocked LKmem k → k_freelist k = r →
  kalloc k = Ok r (if r =? 0 then settle k else
    kmem_upd (memset (k_mem k) r 5 PGSIZE) (load64 (k_mem k) r) (settle k)).
Proof.
  intros Hr Hu Hf. unfold kalloc. rewrite (bind_Ok _ _ _ _ _ (acquire_eq _ _ Hr Hu)).
  unfold gets at 1, bind at 1.
  change (k_freelist (enter LKmem k)) with (k_freelist k). rewrite Hf.
  pose proof (held_enter _ _ Hr Hu) as Hh. destruct (r =? 0).
  - unfold bind at 1, ret at 1. rewrite (bind_Ok _ _ _ _ _ (release_eq LKmem _ Hh)), leave_enter by done. done.
  - unfold bind at 1, modify at 1.
    rewrite bind_release by klock.
    rewrite leave_set, leave_enter by done. unfold bind, mem_mod, modify, ret.
    by rewrite upd_fl_mem.
Qed.

Lemma kfree_eq k pa :
  ready k → unlocked LKmem k → is_page pa →
  kfree pa k = Ok tt (kmem_upd (store64 (memset (k_mem k) pa 1 PGSIZE) pa (k_freelist k)) pa (settle k)).
Proof.
  intros Hr Hu (Hm & He & Ht). unfold kfree.
  assert (negb (pa mod PGSIZE =? 0) || (pa <? img_end) || (PHYSTOP <=? pa) = false) as -> by lia.
  unfold bind at 1, mem_mod at 1, modify at 1.
  rewrite bind_acquire by klock. unfold bind, get, mem_mod, modify.
  rewrite release_eq by klock. rewrite !enter_set, !leave_set, leave_enter by done.
  by rewrite upd_mem_mem_fl.
Qed.

Lemma wp_kalloc_empty Q k : ready k → unlocked LKmem k → k_freelist k = 0 → Q 0 (settle k) → wp kalloc Q k.
Proof. intros Hr Hu Hf HQ. unfold wp. by rewrite (kalloc_eq k 0). Qed.

Lemma kfree_panics k pa :
  ¬ is_page pa → kfree pa k = Panic "kfree" k.
Proof.
  intros Hn. unfold kfree.
  assert (negb (pa mod PGSIZE =? 0) || (pa <? img_end) || (PHYSTOP <=? pa) = true) as ->; [|done].
  unfold is_page in Hn. lia.
Qed.

Lemma kfree_ok k pa l :
  0 < img_end → ready k → unlocked LKmem k → kmem_ok k l → is_page pa → pa ∉ l →
  ∃ k', kfree pa k = Ok tt k' ∧ kmem_ok k' (pa :: l) ∧ only_page pa (k_mem k) (k_mem k') ∧
        (∃ m, k' = kmem_upd m pa (settle k)).
Proof.
  intros He Hr Hu [Hch Hnd Hpg] Hpa Hni. rewrite kfree_eq by done. eexists. split; [done|].
  set (m' := store64 (memset (k_mem k) pa 1 PGSIZE) pa (k_freelist k)).
  assert (Ho : only_page pa (k_mem k) m').
  { eapply only_page_trans; [apply only_page_memset|apply only_page_store]. }
  split; [|split; [exact Ho|by eexists]]. split.
  - split; [done|]. change (chain m' (load64 m' pa) l).
    assert (load64 m' pa = k_freelist k) as ->.
    { unfold m', load64, store64. rewrite load_store_eq. apply Z.mod_small.
      destruct l as [|q l]; [by rewrite Hch; lia|]. destruct Hch as [-> _].
      apply Forall_cons in Hpg as [[_ Hq] _]. unfold PHYSTOP, KERNBASE in *. lia. }
    eapply chain_only_page; [apply Hpa|done..].
  - by constructor.
  - by constructor.
Qed.

Lemma kalloc_ok k p l :
  0 < img_end → ready k → unlocked LKmem k → kmem_ok k (p :: l) →
  ∃ k', kalloc k = Ok p k' ∧ kmem_ok k' l ∧ only_page p (k_mem k) (k_mem k') ∧
        (∀ a, p ≤ a < p + PGSIZE → mem_get (k_mem k') a = 5) ∧
        (∃ m f, k' = kmem_upd m f (settle k)).
Proof.
  intros He Hr Hu [[Hp Hch] Hnd Hpg]. apply NoDup_cons in Hnd as [Hni Hnd].
  apply Forall_cons in Hpg as [Hp' Hpg]. rewrite (kalloc_eq k p) by done.
  assert ((p =? 0) = false) as -> by (destruct Hp'; lia). eexists. split; [done|].
  split_and!.
  - split; [|done..]. change (chain (memset (k_mem k) p 5 PGSIZE) (load64 (k_mem k) p) l).
    eapply (chain_only_page p (k_mem k)); [apply Hp'|apply only_page_memset|done..].
  - apply only_page_memset.
  - intros a Ha. change (mem_get (memset (k_mem k) p 5 PGSIZE) a = 5).
    rewrite mem_get_memset. by rewrite decide_True.
  - by do 2 eexists.
Qed.

Lemma wp_kalloc Q k p l :
  0 < img_end → ready k → unlocked LKmem k → kmem_ok k (p :: l) →
  (∀ m f, kmem_ok (kmem_upd m f (settle k)) l → only_page p (k_mem k) m → Q p (kmem_upd m f (settle k))) →
  wp kalloc Q k.
Proof.
  intros He Hr Hu Hk HQ. destruct (kalloc_ok k p l He Hr Hu Hk) as (k1 & E1 & Hk1 & Ho & _ & (m & f & ->)).
  unfold wp. rewrite E1. by apply HQ.
Qed.

(** Freeing the pages [lo], [lo + PGSIZE], ... below [hi], lowest first. *)
Definition page_list (lo : Z) (n : nat) : list Z := map (fun i => lo + Z.of_nat i * PGSIZE) (seq 0 n).

Lemma page_list_snoc lo n : page_list lo (S n) = page_list lo n ++ [lo + Z.of_nat n * PGSIZE].
Proof. unfold page_list. by rewrite seq_S, map_app. Qed.

Lemma elem_page_list lo n p : p ∈ page_list lo n → ∃ i : nat, (i < n)%nat ∧ p = lo + Z.of_nat i * PGSIZE.
Proof.
  intros (i & -> & Hi)%list_elem_of_fmap. exists i. split; [|done].
  apply elem_of_seq in Hi. lia.
Qed.

Lemma freerange_ok k lo (n : nat) hi l :
  0 < img_end → ready k → unlocked LKmem k → kmem_ok k l →
  PGROUNDUP lo mod PGSIZE = 0 → img_end ≤ PGROUNDUP lo → hi ≤ PHYSTOP →
  PGROUNDUP lo + Z.of_nat n * PGSIZE ≤ hi < PGROUNDUP lo + Z.of_nat (S n) * PGSIZE →
  (∀ p, p ∈ l → p + PGSIZE ≤ PGROUNDUP lo ∨ hi < p + PGSIZE) →
  ∃ k', freerange lo hi k = Ok tt k' ∧ kmem_ok k' (reverse (page_list (PGROUNDUP lo) n) ++ l) ∧
        ready k' ∧ unlocked LKmem k'.
Proof.
  intros He Hr Hu Hk Hm Hlo Hhi Hn Hfr. set (p0 := PGROUNDUP lo) in *.
  unfold freerange. fold p0.
  enough (H : wp (loop (Z.to_nat (hi / PGSIZE + 1)) (freerange_body hi) p0) (fun _ k' =>
     kmem_ok k' (reverse (page_list p0 n) ++ l) ∧ ready k' ∧ unlocked LKmem k') k).
  { apply wp_Ok in H as ([] & k' & -> & ?). by eexists. }
  eapply (wp_loop (fun p k' => ∃ i : nat, (i ≤ n)%nat ∧ p = p0 + Z.of_nat i * PGSIZE ∧
            kmem_ok k' (reverse (page_list p0 i) ++ l) ∧ ready k' ∧ unlocked LKmem k')
          (fun p => Z.to_nat ((hi - p) / PGSIZE))).
  - intros p k' (i & Hi & -> & Hk' & Hr' & Hu'). unfold freerange_body.
    destruct (Z.leb_spec (p0 + Z.of_nat i * PGSIZE + PGSIZE) hi) as [Hle|Hgt]; unfold PGSIZE in *.
    + apply wp_bind. destruct (kfree_ok k' (p0 + Z.of_nat i * 4096) (reverse (page_list p0 i) ++ l))
        as (k'' & E & Hk'' & _ & (m & ->)); try done.
      * split; [unfold PGSIZE|]; [rewrite Z.mod_add|]; lia.
      * rewrite elem_of_app, elem_of_reverse. intros [(j & Hj & Hp)%elem_page_list|Hp].
        -- unfold PGSIZE in Hp. lia.
        -- specialize (Hfr _ Hp). lia.
      * unfold wp at 1. rewrite E. apply wp_ret. split.
        -- exists (S i). split; [lia|]. split; [lia|]. rewrite page_list_snoc, reverse_snoc. split; [exact Hk''|].
           split; klock.
        -- rewrite <- Z2Nat.inj_lt; [|apply Z.div_pos; lia..].
           replace (hi - (p0 + Z.of_nat i * 4096)) with (hi - (p0 + Z.of_nat i * 4096 + 4096) + 1 * 4096) by lia.
           rewrite Z.div_add by lia. lia.
    + assert (i = n) as -> by nia. apply wp_ret. done.
  - exists 0%nat. split; [lia|]. split; [lia|]. done.
  - unfold PGSIZE in *. rewrite <- Z2Nat.inj_lt; [|apply Z.div_pos; lia|].
    + pose proof (Z.div_le_mono (hi - p0) hi 4096). lia.
    + pose proof (Z.div_pos hi 4096). lia.
Qed.

Lemma page_list_pages lo n p :
  lo mod PGSIZE = 0 →
  p ∈ page_list lo n ↔ p mod PGSIZE = 0 ∧ lo ≤ p < lo + Z.of_nat n * PGSIZE.
Proof.
  unfold PGSIZE. intros Hlo. split.
  - intros (i & Hi & ->)%elem_page_list. unfold PGSIZE. rewrite Z.mod_add; lia.
  - intros [Hm Hp]. apply list_elem_of_fmap. exists (Z.to_nat ((p - lo) / 4096)).
    pose proof (Z.div_mod p 4096). pose proof (Z.div_mod lo 4096).
    assert (p - lo = (p / 4096 - lo / 4096) * 4096) as -> by lia. rewrite Z.div_mul by lia.
    split; [unfold PGSIZE; lia|]. apply elem_of_seq. lia.
Qed.

(** A client of the allocator: what it does next may depend on the pages it was given. *)
Inductive client :=
  | CDone
  | CAlloc (next : Z → client)
  | CFree (p : Z) (next : client).

(** The pages it holds at the end, [mine] being those it held at the start. *)
Fixpoint run_client (c : client) (mine : list Z) : K (list Z) :=
  match c with
  | CDone => ret mine
  | CAlloc next => let! p := kalloc in run_client (next p) (if p =? 0 then mine else p :: mine)
  | CFree p next => kfree p ;;; run_client next (list_difference mine [p])
  end.

(** It frees only pages it holds, whatever pages it is given ([kfree] itself does not check:
    see [double_free]). *)
Fixpoint frees_held (c : client) (mine : list Z) : Prop :=
  match c with
  | CDone => True
  | CAlloc next => ∀ p, frees_held (next p) (if p =? 0 then mine else p :: mine)
  | CFree p next => p ∈ mine ∧ frees_held next (list_difference mine [p])
  end.

Lemma client_ok c mine k l :
  0 < img_end → ready k → unlocked LKmem k → kmem_ok k l →
  Forall is_page mine → NoDup (mine ++ l) → frees_held c mine →
  ∃ mine' k' l', run_client c mine k = Ok mine' k' ∧ kmem_ok k' l' ∧
    mine' ++ l' ≡ₚ mine ++ l ∧ Forall is_page mine'.
Proof.
  intros He. revert mine k l. induction c as [|next IH|p next IH]; intros mine k l Hr Hu Hk Hm Hnd Hfh; simpl.
  - by exists mine, k, l.
  - destruct l as [|p l].
    + rewrite (bind_Ok _ _ _ _ _ (kalloc_eq k 0 Hr Hu (km_chain _ _ Hk))). simpl.
      apply IH; [klock|klock|by destruct Hk|done|done|exact (Hfh 0)].
    + destruct (kalloc_ok k p l He Hr Hu Hk) as (k1 & E & Hk1 & _ & _ & (m & f & ->)).
      rewrite (bind_Ok _ _ _ _ _ E). pose proof (km_pages _ _ Hk) as Hpg. apply Forall_cons in Hpg as [Hp _].
      assert ((p =? 0) = false) as -> by (destruct Hp; lia).
      assert (Hperm : (p :: mine) ++ l ≡ₚ mine ++ p :: l) by (simpl; by rewrite Permutation_middle).
      destruct (IH p (p :: mine) (kmem_upd m f (settle k)) l) as (mine' & k' & l' & E' & Hk' & Hp' & Hm');
        [klock|klock|done|by constructor|by rewrite Hperm| |].
      { specialize (Hfh p). by destruct Hp; rewrite (proj2 (Z.eqb_neq p 0)) in Hfh by lia. }
      exists mine', k', l'. by rewrite Hp', Hperm.
  - destruct Hfh as [Hin Hfh].
    assert (Hp : is_page p) by (rewrite Forall_forall in Hm; auto).
    assert (Hni : p ∉ l) by (apply NoDup_app in Hnd as (_ & Hd & _); auto).
    destruct (kfree_ok k p l He Hr Hu Hk Hp Hni) as (k1 & E & Hk1 & _ & (m & ->)).
    rewrite (bind_Ok _ _ _ _ _ E).
    assert (Hperm : list_difference mine [p] ++ p :: l ≡ₚ mine ++ l).
    { rewrite <- Permutation_middle. change (p :: list_difference mine [p] ++ l)
        with ((p :: list_difference mine [p]) ++ l). f_equiv.
      apply NoDup_app in Hnd as (Hnm & _ & _). apply NoDup_Permutation; [|done|].
      - constructor; [|by apply NoDup_list_difference]. rewrite list_elem_of_difference. set_solver.
      - intros x. rewrite elem_of_cons, list_elem_of_difference, list_elem_of_singleton.
        destruct (decide (x = p)); naive_solver. }
    destruct (IH (list_difference mine [p]) (kmem_upd m p (settle k)) (p :: l)) as (mine' & k' & l' & E' & Hk' & Hp' & Hm');
      [klock|klock|done| |by rewrite Hperm|done|].
    { rewrite Forall_forall in *. intros x [Hx _]%list_elem_of_difference. auto. }
    exists mine', k', l'. by rewrite Hp', Hperm.
Qed.

(** ** Theorems *)

(** [kalloc] on a free list [l] returns 0 and changes nothing when [l] is empty;
    otherwise it returns the first free page, takes it off the list, fills it with
    fives and changes no other byte of memory and no other part of the kernel. *)
Theorem kalloc_correct (k : kst) (l : list Z) :
  0 < img_end → ready k → unlocked LKmem k → kmem_ok k l →
  match l with
  | [] => kalloc k = Ok 0 (settle k)
  | p :: l' => ∃ k', kalloc k = Ok p k' ∧ kmem_ok k' l' ∧ only_page p (k_mem k) (k_mem k') ∧
      (∀ a, p ≤ a < p + PGSIZE → mem_get (k_mem k') a = 5) ∧
      (∃ m f, k' = kmem_upd m f (settle k))
  end.
Proof.
  intros He Hr Hu Hk. destruct l as [|p l]; [|by apply kalloc_ok].
  by rewrite (kalloc_eq k 0 Hr Hu (km_chain _ _ Hk)).
Qed.

(** C4: [kfree] pushes a page that is page-aligned, inside [end, PHYSTOP) and not
    already free, keeps every byte outside that page, and panics on any other
    address. *)
Theorem kfree_correct (k : kst) (pa : Z) (l : list Z) :
  0 < img_end → ready k → unlocked LKmem k → kmem_ok k l → pa ∉ l →
  if decide (pa mod PGSIZE = 0 ∧ img_end ≤ pa < PHYSTOP)
  then ∃ k', kfree pa k = Ok tt k' ∧ kmem_ok k' (pa :: l) ∧ only_page pa (k_mem k) (k_mem k') ∧
             (∃ m, k' = kmem_upd m pa (settle k))
  else kfree pa k = Panic "kfree" k.
Proof. intros. case_decide; [by apply kfree_ok|by apply kfree_panics]. Qed.

(** After [kinit] the free list holds every whole page of [end, PHYSTOP)
    exactly once, and nothing else. *)
Theorem kinit_correct (k : kst) :
  0 < img_end ≤ PHYSTOP → ready k → k_freelist k = 0 →
  ∃ k' l, kinit k = Ok tt k' ∧ kmem_ok k' l ∧ ready k' ∧ unlocked LKmem k' ∧
    (∀ p, p ∈ l ↔ p mod PGSIZE = 0 ∧ img_end ≤ p ∧ p + PGSIZE ≤ PHYSTOP).
Proof.
  intros [He Ht] Hr Hf. unfold kinit, bind at 1, initlock, modify.
  set (k1 := set_field k_locks _ k).
  destruct (PGROUNDUP_spec img_end) as [Hm Hup]; [lia|unfold PHYSTOP, KERNBASE, PGSIZE in *; lia|].
  set (n := Z.to_nat ((PHYSTOP - PGROUNDUP img_end) / PGSIZE)).
  assert (HT : PHYSTOP mod PGSIZE = 0) by done.
  assert (Hdiv : PHYSTOP - PGROUNDUP img_end = Z.of_nat n * PGSIZE).
  { unfold n, PGSIZE in *. pose proof (Z.div_mod (PGROUNDUP img_end) 4096).
    pose proof (Z.div_mod PHYSTOP 4096).
    replace (PHYSTOP - PGROUNDUP img_end) with ((PHYSTOP / 4096 - PGROUNDUP img_end / 4096) * 4096) by lia.
    rewrite Z.div_mul by lia. lia. }
  destruct (freerange_ok k1 img_end n PHYSTOP []) as (k' & E & Hk' & Hr' & Hu'); try done.
  - eexists. split; [apply lookup_insert_eq|done].
  - split; [exact Hf|constructor..].
  - lia.
  - unfold PGSIZE in *. lia.
  - set_solver.
  - rewrite E, app_nil_r in *. exists k', (reverse (page_list (PGROUNDUP img_end) n)). split_and!; [done..|].
    intros p. rewrite elem_of_reverse, page_list_pages by done. unfold PGSIZE in *.
    pose proof (Z.div_mod (PGROUNDUP img_end) 4096). pose proof (Z.div_mod PHYSTOP 4096).
    pose proof (Z.div_mod p 4096). lia.
Qed.

(** C11: For a client that frees only pages it holds, whatever pages it is given and in
    whatever order it calls [kalloc] and [kfree], both return, and the pages it holds and
    the free pages together stay the same pages, each once: no page is handed out twice
    and none is lost. *)
Theorem allocator_no_double_handout (c : client) (mine : list Z) (k : kst) (l : list Z) :
  0 < img_end → ready k → unlocked LKmem k → kmem_ok k l →
  Forall is_page mine → NoDup (mine ++ l) → frees_held c mine →
  ∃ mine' k' l', run_client c mine k = Ok mine' k' ∧ kmem_ok k' l' ∧
    mine' ++ l' ≡ₚ mine ++ l ∧ NoDup (mine' ++ l').
Proof.
  intros He Hr Hu Hk Hm Hnd Hfh. destruct (client_ok c mine k l) as (mine' & k' & l' & ? & ? & Hp & ?); [done..|].
  exists mine', k', l'. split_and!; [done..|by rewrite Hp].
Qed.

End kalloc.

(** ** Witnesses *)

Definition demo_img : image := Build_image (PHYSTOP - 3 * PGSIZE + 5) 0x81008000 0x81007000 0x81007000 0x8100709c 0x81005000 0x81001a00 0x81002000.
Definition demo_k : kst := kst0 <| k_locks := {[LKmem := mkspinlock 0 "kmem" None]} |>.
Definition demo_page : Z := PHYSTOP - PGSIZE.

Lemma demo_ready : ready demo_k ∧ unlocked LKmem demo_k.
Proof. split; [exists (mkcpu None context0 0 0); done|by eexists]. Qed.

Lemma demo_kmem (I : image) : kmem_ok demo_k [].
Proof. split; [done|constructor..]. Qed.

Definition demo_k1 : kst := kmem_upd (store64 ∅ demo_page 0) demo_page demo_k.

Lemma demo_kmem1 : @kmem_ok demo_img demo_k1 [demo_page].
Proof.
  split; [split; [done|by vm_compute]| |]; repeat constructor; try done; set_solver.
Qed.

Lemma kalloc_correct_witness :
  ∃ k', kalloc demo_k1 = Ok demo_page k' ∧ mem_get (k_mem k') (demo_page + 100) = 5.
Proof.
  destruct (@kalloc_correct demo_img demo_k1 [demo_page]) as (k' & E & _ & _ & H & _);
    [by vm_compute|exact (proj1 demo_ready)|exact (proj2 demo_ready)|exact demo_kmem1|].
  exists k'. split; [exact E|apply H; unfold PGSIZE; lia].
Defined.

Lemma kfree_correct_witness :
  (∃ k', @kfree demo_img demo_page demo_k = Ok tt k' ∧ @kmem_ok demo_img k' [demo_page]) ∧
  @kfree demo_img (demo_page + 8) demo_k = Panic "kfree" demo_k.
Proof.
  destruct demo_ready as [Hr Hu].
  pose proof (@kfree_correct demo_img demo_k demo_page [] ltac:(by vm_compute) Hr Hu (demo_kmem _)
    ltac:(apply not_elem_of_nil)) as H1.
  pose proof (@kfree_correct demo_img demo_k (demo_page + 8) [] ltac:(by vm_compute) Hr Hu (demo_kmem _)
    ltac:(apply not_elem_of_nil)) as H2.
  rewrite decide_True in H1 by (by vm_compute). rewrite decide_False in H2 by (vm_compute; naive_solver).
  destruct H1 as (k' & E & Hk & _). split; [by exists k'|done].
Defined.

Lemma kinit_correct_witness :
  ∃ k' l, @kinit demo_img kst0 = Ok tt k' ∧ demo_page ∈ l ∧ @kmem_ok demo_img k' l.
Proof.
  destruct (@kinit_correct demo_img kst0) as (k' & l & E & Hk & _ & _ & Hl);
    [by vm_compute|exact (proj1 demo_ready)|done|].
  exists k', l. split; [exact E|]. split; [apply Hl; by vm_compute|done].
Defined.

(** It takes two pages when there are, gives the first back and takes another. *)
Definition demo_client : client :=
  CAlloc (fun p => CAlloc (fun q => if p =? 0 then CDone else CFree p (CAlloc (fun _ => CDone)))).

Lemma demo_frees_held : frees_held demo_client [].
Proof.
  intros p q. destruct (p =? 0); [done|]. split; [|intros x; exact I].
  destruct (q =? 0); [apply list_elem_of_singleton|apply elem_of_cons; right; apply list_elem_of_singleton]; done.
Qed.

Lemma allocator_no_double_handout_witness :
  ∃ mine' k' l', @run_client demo_img demo_client [] demo_k1 = Ok mine' k' ∧ mine' ++ l' ≡ₚ [demo_page].
Proof.
  destruct (@allocator_no_double_handout demo_img demo_client [] demo_k1 [demo_page])
    as (mine' & k' & l' & E & _ & Hp & _);
    [by vm_compute|exact (proj1 demo_ready)|exact (proj2 demo_ready)|exact demo_kmem1|constructor|apply NoDup_singleton|exact demo_frees_held|].
  exists mine', k', l'. split; [exact E|exact Hp].
Defined.

(** Without the discipline it goes wrong: [kfree] puts a page that is free on the list again,
    and [kalloc] hands it out twice. *)
Lemma double_free :
  match @run_client demo_img (CFree demo_page (CAlloc (fun _ => CAlloc (fun _ => CDone)))) [] demo_k1 with
  | Ok mine _ => mine = [demo_page; demo_page]
  | _ => False
  end.
Proof. vm_compute. reflexivity. Qed.
