(* ===== verification/Vm.v ===== *)
(** * Virtual memory (vm.c)

    Sv39 page tables in physical memory: [walk] and its users, address spaces of
    processes ([uvm*]), and the copies between kernel and user memory.  Kernel
    buffers that are not in a physical page (locals, fields of structures) are byte
    lists: [copyout] takes the bytes, [copyin] and [copyinstr] return the bytes they
    stored before they returned. *)

From S2P Require Import Prelude Mem CString Kernel Spinlock Kalloc.

(** ** riscv.h: page-table entries *)

Definition PTE_V : Z := Z.shiftl 1 0.
Definition PTE_R : Z := Z.shiftl 1 1.
Definition PTE_W : Z := Z.shiftl 1 2.
Definition PTE_X : Z := Z.shiftl 1 3.
Definition PTE_U : Z := Z.shiftl 1 4.
Definition PA2PTE (pa : Z) : Z := Z.shiftl (Z.shiftr pa 12) 10.
Definition PTE2PA (pte : Z) : Z := u64 (Z.shiftl (Z.shiftr pte 10) 12).
Definition PTE_FLAGS (pte : Z) : Z := Z.land pte 0x3FF.
Definition PXMASK : Z := 0x1FF.
Definition PXSHIFT (level : Z) : Z := PGSHIFT + 9 * level.
Definition PX (level va : Z) : Z := Z.land (Z.shiftr va (PXSHIFT level)) PXMASK.
Definition SATP_SV39 : Z := Z.shiftl 8 60.
Definition MAKE_SATP (pagetable : Z) : Z := Z.lor SATP_SV39 (Z.shiftr pagetable 12).

(** [*pte & flag] *)
Definition has (pte flag : Z) : bool := negb (Z.land pte flag =? 0).

Definition load_pte (pte : Z) : K Z := gets (fun k => load64 (k_mem k) pte).
Definition store_pte (pte v : Z) : K unit := mem_mod (fun m => store64 m pte v).

Lemma wp_load_pte pte (Q : Z → kst → Prop) k : Q (load64 (k_mem k) pte) k → wp (load_pte pte) Q k.
Proof. done. Qed.
Lemma wp_store_pte pte v (Q : unit → kst → Prop) k :
  Q tt (k <| k_mem ::= fun m => store64 m pte v |>) → wp (store_pte pte v) Q k.
Proof. done. Qed.

Section vm.
Context {I : image}.

(** One round of the loop of [walk]: the next page table, or a return of 0. *)
Definition walk_level (va : Z) (alloc : bool) (level pagetable : Z) : K (option Z) :=
  let pte := pagetable + 8 * PX level va in
  let! e := load_pte pte in
  if has e PTE_V then ret (Some (PTE2PA e)) else
  if negb alloc then ret None else
  let! pagetable := kalloc in
  if pagetable =? 0 then ret None else
  mem_mod (fun m => memset m pagetable 0 PGSIZE) ;;;
  store_pte pte (Z.lor (PA2PTE pagetable) PTE_V) ;;;
  ret (Some pagetable).

Definition walk (pagetable va : Z) (alloc : bool) : K Z :=
  if MAXVA <=? va then panic "walk" else
  let! r := walk_level va alloc 2 pagetable in
  match r with
  | None => ret 0
  | Some pagetable =>
      let! r := walk_level va alloc 1 pagetable in
      match r with
      | None => ret 0
      | Some pagetable => ret (pagetable + 8 * PX 0 va)
      end
  end.

Definition walkaddr (pagetable va : Z) : K Z :=
  if MAXVA <=? va then ret 0 else
  let! pte := walk pagetable va false in
  if pte =? 0 then ret 0 else
  let! e := load_pte pte in
  if negb (has e PTE_V) then ret 0 else
  if negb (has e PTE_U) then ret 0 else
  ret (PTE2PA e).

(** The loop state is [(a, pa)]. *)
Definition mappages_body (pagetable last perm : Z) (st : Z * Z) : K ((Z * Z) + Z) :=
  let '(a, pa) := st in
  let! pte := walk pagetable a true in
  if pte =? 0 then ret (inr (-1)) else
  let! e := load_pte pte in
  if has e PTE_V then panic "mappages: remap" else
  store_pte pte (Z.lor (Z.lor (PA2PTE pa) perm) PTE_V) ;;;
  if a =? last then ret (inr 0) else ret (inl (u64 (a + PGSIZE), u64 (pa + PGSIZE))).

Definition mappages (pagetable va size pa perm : Z) : K Z :=
  if negb (va mod PGSIZE =? 0) then panic "mappages: va not aligned" else
  if negb (size mod PGSIZE =? 0) then panic "mappages: size not aligned" else
  if size =? 0 then panic "mappages: size" else
  loop (Z.to_nat (size / PGSIZE)) (mappages_body pagetable (u64 (va + size - PGSIZE)) perm) (va, pa).

Definition kvmmap (kpgtbl va pa sz perm : Z) : K unit :=
  let! r := mappages kpgtbl va sz pa perm in
  if r =? 0 then ret tt else panic "kvmmap".

Definition uvmunmap_body (pagetable stop : Z) (do_free : bool) (a : Z) : K (Z + unit) :=
  if negb (a <? stop) then ret (inr tt) else
  let! pte := walk pagetable a false in
  if pte =? 0 then panic "uvmunmap: walk" else
  let! e := load_pte pte in
  if negb (has e PTE_V) then panic "uvmunmap: not mapped" else
  if PTE_FLAGS e =? PTE_V then panic "uvmunmap: not a leaf" else
  (if do_free then kfree (PTE2PA e) else ret tt) ;;;
  store_pte pte 0 ;;;
  ret (inl (u64 (a + PGSIZE))).

Definition uvmunmap (pagetable va npages : Z) (do_free : bool) : K unit :=
  if negb (va mod PGSIZE =? 0) then panic "uvmunmap: not aligned" else
  loop (S (Z.to_nat npages)) (uvmunmap_body pagetable (u64 (va + u64 (npages * PGSIZE))) do_free) va.

Definition uvmcreate : K Z :=
  let! pagetable := kalloc in
  if pagetable =? 0 then ret 0 else
  mem_mod (fun m => memset m pagetable 0 PGSIZE) ;;;
  ret pagetable.

(** [memset] and [memmove] on the page are null-pointer writes when [kalloc] failed. *)
Definition uvmfirst (pagetable : Z) (src : list Z) : K unit :=
  if PGSIZE <=? Z.of_nat (length src) then panic "uvmfirst: more than a page" else
  let! m := kalloc in
  if m =? 0 then undef else
  mem_mod (fun mm => memset mm m 0 PGSIZE) ;;;
  mappages pagetable 0 PGSIZE m (Z.lor (Z.lor (Z.lor PTE_W PTE_R) PTE_X) PTE_U) ;;;
  mem_mod (fun mm => write_bytes mm m src).

Definition uvmdealloc (pagetable oldsz newsz : Z) : K Z :=
  if oldsz <=? newsz then ret oldsz else
  (if PGROUNDUP newsz <? PGROUNDUP oldsz then
     let npages := s32 ((PGROUNDUP oldsz - PGROUNDUP newsz) / PGSIZE) in
     uvmunmap pagetable (PGROUNDUP newsz) (u64 npages) true
   else ret tt) ;;;
  ret newsz.

Definition uvmalloc_body (pagetable oldsz newsz xperm : Z) (a : Z) : K (Z + Z) :=
  if negb (a <? newsz) then ret (inr newsz) else
  let! m := kalloc in
  if m =? 0 then uvmdealloc pagetable a oldsz ;;; ret (inr 0) else
  mem_mod (fun mm => memset mm m 0 PGSIZE) ;;;
  let! r := mappages pagetable a PGSIZE m (Z.lor (Z.lor PTE_R PTE_U) xperm) in
  if negb (r =? 0) then
    kfree m ;;; uvmdealloc pagetable a oldsz ;;; ret (inr 0)
  else ret (inl (u64 (a + PGSIZE))).

Definition uvmalloc (pagetable oldsz newsz xperm : Z) : K Z :=
  if newsz <? oldsz then ret oldsz else
  let oldsz := PGROUNDUP oldsz in
  loop (S (Z.to_nat ((newsz - oldsz) / PGSIZE + 1))) (uvmalloc_body pagetable oldsz newsz xperm) oldsz.

(** [fuel] bounds the depth of the recursion: a page table has three levels. *)
Fixpoint freewalk (fuel : nat) (pagetable : Z) : K unit :=
  match fuel with
  | O => fun _ => NoFuel
  | S fuel =>
      for_ 0 512 (fun i =>
        let! pte := load_pte (pagetable + 8 * i) in
        if has pte PTE_V && (Z.land pte (Z.lor (Z.lor PTE_R PTE_W) PTE_X) =? 0) then
          freewalk fuel (PTE2PA pte) ;;;
          store_pte (pagetable + 8 * i) 0
        else if has pte PTE_V then panic "freewalk: leaf" else ret tt) ;;;
      kfree pagetable
  end.
Definition FREEWALK_DEPTH : nat := 3.

Definition uvmfree (pagetable sz : Z) : K unit :=
  (if 0 <? sz then uvmunmap pagetable 0 (PGROUNDUP sz / PGSIZE) true else ret tt) ;;;
  freewalk FREEWALK_DEPTH pagetable.

(** One page of [uvmcopy]; [inr true] is [goto err]. *)
Definition uvmcopy_body (old new sz : Z) (i : Z) : K (Z + (Z * bool)) :=
  if negb (i <? sz) then ret (inr (i, false)) else
  let! pte := walk old i false in
  if pte =? 0 then panic "uvmcopy: pte should exist" else
  let! e := load_pte pte in
  if negb (has e PTE_V) then panic "uvmcopy: page not present" else
  let pa := PTE2PA e in
  let flags := PTE_FLAGS e in
  let! m := kalloc in
  if m =? 0 then ret (inr (i, true)) else
  mem_mod (fun mm => memmove mm m pa PGSIZE) ;;;
  let! r := mappages new i PGSIZE m flags in
  if negb (r =? 0) then kfree m ;;; ret (inr (i, true)) else
  ret (inl (u64 (i + PGSIZE))).

Definition uvmcopy (old new sz : Z) : K Z :=
  let! (i, err) := loop (S (Z.to_nat (sz / PGSIZE + 1))) (uvmcopy_body old new sz) 0 in
  if (err : bool) then uvmunmap new 0 (i / PGSIZE) true ;;; ret (-1) else ret 0.

Definition uvmclear (pagetable va : Z) : K unit :=
  let! pte := walk pagetable va false in
  if pte =? 0 then panic "uvmclear" else
  let! e := load_pte pte in
  store_pte pte (Z.land e (Z.lnot PTE_U)).

Definition copyout_body (pagetable : Z) (st : Z * list Z) : K ((Z * list Z) + Z) :=
  let '(dstva, src) := st in
  let len := Z.of_nat (length src) in
  if negb (0 <? len) then ret (inr 0) else
  let va0 := PGROUNDDOWN dstva in
  if MAXVA <=? va0 then ret (inr (-1)) else
  let! pte := walk pagetable va0 false in
  if pte =? 0 then ret (inr (-1)) else
  let! e := load_pte pte in
  if negb (has e PTE_V) || negb (has e PTE_U) || negb (has e PTE_W) then ret (inr (-1)) else
  let pa0 := PTE2PA e in
  let n := PGSIZE - (dstva - va0) in
  let n := if len <? n then len else n in
  mem_mod (fun m => write_bytes m (pa0 + (dstva - va0)) (take (Z.to_nat n) src)) ;;;
  ret (inl (u64 (va0 + PGSIZE), drop (Z.to_nat n) src)).

Definition copyout (pagetable dstva : Z) (src : list Z) : K Z :=
  loop (S (length src)) (copyout_body pagetable) (dstva, src).

Definition copyin_body (pagetable : Z) (st : list Z * Z * Z) : K ((list Z * Z * Z) + (Z * list Z)) :=
  let '(dst, srcva, len) := st in
  if negb (0 <? len) then ret (inr (0, dst)) else
  let va0 := PGROUNDDOWN srcva in
  let! pa0 := walkaddr pagetable va0 in
  if pa0 =? 0 then ret (inr (-1, dst)) else
  let n := PGSIZE - (srcva - va0) in
  let n := if len <? n then len else n in
  let! bs := gets (fun k => read_bytes (k_mem k) (pa0 + (srcva - va0)) (Z.to_nat n)) in
  ret (inl (dst ++ bs, u64 (va0 + PGSIZE), len - n)).

Definition copyin (pagetable srcva len : Z) : K (Z * list Z) :=
  loop (S (Z.to_nat len)) (copyin_body pagetable) ([], srcva, len).

(** The inner loop of [copyinstr] on one page: [n] bytes at most from [p];
    whether a null byte was found, and what was stored. *)
Fixpoint copyinstr_page (m : mem) (p : Z) (n : nat) : bool * list Z :=
  match n with
  | O => (false, [])
  | S n =>
      if mem_get m p =? 0 then (true, [0])
      else let '(g, l) := copyinstr_page m (p + 1) n in (g, mem_get m p :: l)
  end.

Definition copyinstr_body (pagetable : Z) (st : list Z * Z * Z) : K ((list Z * Z * Z) + (Z * list Z)) :=
  let '(dst, srcva, max) := st in
  if negb (0 <? max) then ret (inr (-1, dst)) else
  let va0 := PGROUNDDOWN srcva in
  let! pa0 := walkaddr pagetable va0 in
  if pa0 =? 0 then ret (inr (-1, dst)) else
  let n := PGSIZE - (srcva - va0) in
  let n := if max <? n then max else n in
  let! k := get in
  let '(got_null, l) := copyinstr_page (k_mem k) (pa0 + (srcva - va0)) (Z.to_nat n) in
  if (got_null : bool) then ret (inr (0, dst ++ l))
  else ret (inl (dst ++ l, u64 (va0 + PGSIZE), max - n)).

Definition copyinstr (pagetable srcva max : Z) : K (Z * list Z) :=
  loop (S (Z.to_nat max)) (copyinstr_body pagetable) ([], srcva, max).

(** ** proc.c: a kernel stack for each process *)
Definition proc_mapstacks (kpgtbl : Z) : K unit :=
  for_ 0 NPROC (fun i =>
    let! pa := kalloc in
    if pa =? 0 then panic "kalloc" else
    kvmmap kpgtbl (KSTACK i) pa PGSIZE (Z.lor PTE_R PTE_W)).

Definition kvmmake : K Z :=
  let! kpgtbl := kalloc in
  if kpgtbl =? 0 then undef else
  mem_mod (fun m => memset m kpgtbl 0 PGSIZE) ;;;
  kvmmap kpgtbl UART0 UART0 PGSIZE (Z.lor PTE_R PTE_W) ;;;
  kvmmap kpgtbl VIRTIO0 VIRTIO0 PGSIZE (Z.lor PTE_R PTE_W) ;;;
  kvmmap kpgtbl PLIC PLIC 0x4000000 (Z.lor PTE_R PTE_W) ;;;
  kvmmap kpgtbl KERNBASE KERNBASE (img_etext - KERNBASE) (Z.lor PTE_R PTE_X) ;;;
  kvmmap kpgtbl img_etext img_etext (PHYSTOP - img_etext) (Z.lor PTE_R PTE_W) ;;;
  kvmmap kpgtbl TRAMPOLINE img_trampoline PGSIZE (Z.lor PTE_R PTE_X) ;;;
  proc_mapstacks kpgtbl ;;;
  ret kpgtbl.

Definition kvminit : K unit :=
  let! kpgtbl := kvmmake in modify (fun k => k <| k_kernel_pagetable := kpgtbl |>).

Definition kvminithart : K unit :=
  let! k := get in upd_csr (fun c => c <| satp := MAKE_SATP (k_kernel_pagetable k) |>).

End vm.
