(* ===== verification/Vmproof.v ===== *)
(** * User memory seen through a page table

    What [walk] finds without allocating, as a pure function of memory
    ([pte_slot], [upage]); and the copies between kernel and user space: [copyout]
    stores exactly the given bytes at the physical addresses of the user range,
    [copyin] returns them, and a range that is not mapped gives -1. *)

From S2P Require Import Prelude Mem CString Kernel Spinlock Kalloc Vm.

#[local] Opaque read_bytes write_bytes memset memmove.

Definition pte_slot (m : mem) (pt va : Z) : option Z :=
  let e2 := load64 m (pt + 8 * PX 2 va) in
  if has e2 PTE_V then
    let e1 := load64 m (PTE2PA e2 + 8 * PX 1 va) in
    if has e1 PTE_V then Some (PTE2PA e1 + 8 * PX 0 va) else None
  else None.

(** The page-table entries [walk] reads on the way to [va], and the leaf. *)
Definition walk_slots (m : mem) (pt va : Z) : list Z :=
  let s2 := pt + 8 * PX 2 va in
  let e2 := load64 m s2 in
  s2 :: if has e2 PTE_V then
    let s1 := PTE2PA e2 + 8 * PX 1 va in
    let e1 := load64 m s1 in
    s1 :: (if has e1 PTE_V then [PTE2PA e1 + 8 * PX 0 va] else [])
  else [].

(** The physical page of user page [va]; [w]: the page must be writable. *)
Definition upage (w : bool) (m : mem) (pt va : Z) : option Z :=
  if MAXVA <=? va then None else
  match pte_slot m pt va with
  | None => None
  | Some s =>
      if s =? 0 then None else
      let e := load64 m s in
      if has e PTE_V && has e PTE_U && (negb w || has e PTE_W) then Some (PTE2PA e) else None
  end.

Lemma walk_eq (pt va : Z) (k : kst) :
  va < MAXVA → walk pt va false k = Ok (default 0 (pte_slot (k_mem k) pt va)) k.
Proof.
  intros Hva. unfold walk. rewrite (proj2 (Z.leb_gt _ _)) by done.
  unfold walk_level, load_pte, pte_slot, bind, gets, ret. cbn.
  destruct (has (load64 (k_mem k) (pt + 8 * PX 2 va)) PTE_V); [|done].
  by destruct (has (load64 (k_mem k) (PTE2PA (load64 (k_mem k) (pt + 8 * PX 2 va)) + 8 * PX 1 va)) PTE_V).
Qed.

Lemma walkaddr_eq (pt va : Z) (k : kst) :
  walkaddr pt va k = Ok (default 0 (upage false (k_mem k) pt va)) k.
Proof.
  unfold walkaddr, upage. destruct (Z.leb_spec MAXVA va); [done|].
  rewrite (bind_Ok _ _ _ _ _ (walk_eq pt va k H)).
  destruct (pte_slot (k_mem k) pt va) as [s|]; [|done]. cbn [default from_option id].
  destruct (s =? 0); [done|]. unfold bind, load_pte, gets, ret.
  by destruct (has (load64 (k_mem k) s) PTE_V), (has (load64 (k_mem k) s) PTE_U).
Qed.

(** Pages are aligned: offsets do not carry into the next page. *)
Lemma PTE2PA_aligned e : PTE2PA e mod PGSIZE = 0.
Proof.
  unfold PTE2PA, u64, wrap, PGSIZE. rewrite Z.shiftl_mul_pow2 by lia. change (2 ^ 12) with 4096.
  change (2 ^ 64) with (2 ^ 52 * 4096). rewrite Z.mul_mod_distr_r by lia. apply Z.mod_mul. lia.
Qed.

Lemma upage_aligned w m pt va pa : upage w m pt va = Some pa → pa mod PGSIZE = 0.
Proof.
  unfold upage. destruct (MAXVA <=? va); [done|]. destruct (pte_slot m pt va) as [s|]; [|done].
  destruct (s =? 0); [done|]. destruct (_ && _); [|done]. intros [= <-]. apply PTE2PA_aligned.
Qed.

Lemma upage_weaken m pt va pa : upage true m pt va = Some pa → upage false m pt va = Some pa.
Proof.
  unfold upage. destruct (MAXVA <=? va); [done|]. destruct (pte_slot m pt va) as [s|]; [|done].
  destruct (s =? 0); [done|]. by destruct (has _ PTE_V), (has _ PTE_U), (has _ PTE_W).
Qed.

Lemma upage_range w m pt va pa : upage w m pt va = Some pa → va < MAXVA.
Proof. unfold upage. destruct (Z.leb_spec MAXVA va); [done|lia]. Qed.

(** Two memories that agree on the entries of a walk give the same walk. *)
Lemma slots_agree m m' pt va :
  (∀ s, s ∈ walk_slots m pt va → load64 m' s = load64 m s) →
  pte_slot m' pt va = pte_slot m pt va ∧ walk_slots m' pt va = walk_slots m pt va ∧
  (∀ s, pte_slot m pt va = Some s → load64 m' s = load64 m s).
Proof.
  unfold walk_slots, pte_slot. intros H.
  assert (E2 : load64 m' (pt + 8 * PX 2 va) = load64 m (pt + 8 * PX 2 va)) by (apply H; left).
  rewrite E2. destruct (has (load64 m (pt + 8 * PX 2 va)) PTE_V); [|split_and!; [done..|by intros]].
  set (s1 := PTE2PA (load64 m (pt + 8 * PX 2 va)) + 8 * PX 1 va) in *.
  assert (E1 : load64 m' s1 = load64 m s1) by (apply H; right; left).
  rewrite E1. destruct (has (load64 m s1) PTE_V); split_and!; try done.
  intros s [= <-]. apply H. right. right. left.
Qed.

Lemma upage_agree w m m' pt va :
  (∀ s, s ∈ walk_slots m pt va → load64 m' s = load64 m s) → upage w m' pt va = upage w m pt va.
Proof.
  intros (E & _ & Hs)%slots_agree. unfold upage. rewrite E. destruct (MAXVA <=? va); [done|].
  destruct (pte_slot m pt va) as [s|]; [|done]. by rewrite Hs.
Qed.

(** The page tables of [pt] are not inside user-writable pages, frame 0 is not
    mapped, and a frame mapped writable at one user page is mapped at no other. *)
Record uspace_ok (m : mem) (pt : Z) : Prop := {
  us_tables va va' pa s : 0 ≤ va → 0 ≤ va' → upage true m pt va = Some pa → s ∈ walk_slots m pt va' →
    s + 8 ≤ pa ∨ pa + PGSIZE ≤ s;
  us_frames va pa : 0 ≤ va → upage false m pt va = Some pa → pa ≠ 0;
  us_inj va va' pa : 0 ≤ va → 0 ≤ va' → upage true m pt va = Some pa → upage false m pt va' = Some pa →
    va mod PGSIZE = 0 → va' mod PGSIZE = 0 → va = va'
}.

Lemma uspace_write m pt va pa off l :
  uspace_ok m pt → 0 ≤ va → upage true m pt va = Some pa →
  0 ≤ off → off + Z.of_nat (length l) ≤ PGSIZE →
  uspace_ok (write_bytes m (pa + off) l) pt ∧
  (∀ w va', 0 ≤ va' → upage w (write_bytes m (pa + off) l) pt va' = upage w m pt va').
Proof.
  intros [Ht Hz Hi] Hva Hu H0 Hl. set (m' := write_bytes m (pa + off) l).
  assert (Hag : ∀ va' s, 0 ≤ va' → s ∈ walk_slots m pt va' → load64 m' s = load64 m s).
  { intros va' s Hva' Hs. specialize (Ht _ _ _ _ Hva Hva' Hu Hs). apply load_ext. intros i Hi'.
    apply mem_get_write_out. unfold PGSIZE in *. lia. }
  assert (Hup : ∀ w va', 0 ≤ va' → upage w m' pt va' = upage w m pt va').
  { intros w va' Hva'. apply upage_agree. intros s. by apply Hag. }
  split; [|done]. split.
  - intros va1 va2 pa1 s P1 P2. rewrite Hup by done. intros H1 H2. apply (Ht va1 va2); [done..|].
    by rewrite <- (proj1 (proj2 (slots_agree m m' pt va2 (fun s => Hag va2 s P2)))).
  - intros va1 pa1 P1. rewrite Hup by done. by apply Hz.
  - intros va1 va2 pa1 P1 P2. rewrite !Hup by done. by apply Hi.
Qed.

(** Physical address of a user byte. *)
Definition uphys (w : bool) (m : mem) (pt va : Z) : option Z :=
  pa ← upage w m pt (PGROUNDDOWN va); Some (pa + (va - PGROUNDDOWN va)).

Lemma PGROUNDDOWN_eq a b : a mod PGSIZE = 0 → a ≤ b < a + PGSIZE → PGROUNDDOWN b = a.
Proof.
  intros Ha Hb. destruct (PGROUNDDOWN_spec b) as [Hm Hr]. unfold PGSIZE in *.
  pose proof (Z.div_mod a 4096). pose proof (Z.div_mod (PGROUNDDOWN b) 4096). lia.
Qed.

(** Distinct user bytes have distinct physical addresses. *)
Lemma uphys_inj m pt va va' a :
  uspace_ok m pt → 0 ≤ va → 0 ≤ va' → uphys true m pt va = Some a → uphys false m pt va' = Some a → va = va'.
Proof.
  intros Hok P1 P2. unfold uphys. intros (pa & H1 & [= E1])%bind_Some (pa' & H2 & [= E2])%bind_Some.
  destruct (PGROUNDDOWN_spec va) as [M1 R1], (PGROUNDDOWN_spec va') as [M2 R2].
  assert (pa = pa') as <-.
  { pose proof (upage_aligned _ _ _ _ _ H1). pose proof (upage_aligned _ _ _ _ _ H2). unfold PGSIZE in *.
    pose proof (Z.div_mod pa 4096). pose proof (Z.div_mod pa' 4096). lia. }
  pose proof (us_inj _ _ Hok _ _ _ (PGROUNDDOWN_nonneg _ P1) (PGROUNDDOWN_nonneg _ P2) H1 H2 M1 M2). lia.
Qed.

(** [m'] is [m] with the first [n] bytes of [src] stored at user address [va]. *)
Record ustored (m : mem) (pt va : Z) (src : list Z) (n : nat) (m' : mem) : Prop := {
  st_up w va' : 0 ≤ va' → upage w m' pt va' = upage w m pt va';
  st_ok : uspace_ok m' pt;
  st_in i b : (i < n)%nat → src !! i = Some b →
    ∃ a, uphys true m pt (va + Z.of_nat i) = Some a ∧ mem_get m' a = b;
  st_out a : (∀ i, (i < n)%nat → uphys true m pt (va + Z.of_nat i) ≠ Some a) → mem_get m' a = mem_get m a
}.

Lemma ustored_0 m pt va src : uspace_ok m pt → ustored m pt va src 0 m.
Proof. intros H. split; [done|done|lia|done]. Qed.

Lemma uphys_ext w m m' pt va :
  0 ≤ va → (∀ w va', 0 ≤ va' → upage w m' pt va' = upage w m pt va') → uphys w m' pt va = uphys w m pt va.
Proof. intros Hva H. unfold uphys. by rewrite H by (by apply PGROUNDDOWN_nonneg). Qed.

Lemma ustored_page m pt va src n m' pa c :
  0 ≤ va → ustored m pt va src n m' →
  upage true m pt (PGROUNDDOWN (va + Z.of_nat n)) = Some pa →
  Z.of_nat c ≤ PGSIZE - (va + Z.of_nat n - PGROUNDDOWN (va + Z.of_nat n)) → (n + c ≤ length src)%nat →
  ustored m pt va src (n + c)
    (write_bytes m' (pa + (va + Z.of_nat n - PGROUNDDOWN (va + Z.of_nat n))) (take c (drop n src))).
Proof.
  intros Hva Hst Hu Hc Hlen. set (d := va + Z.of_nat n) in *.
  pose proof (PGROUNDDOWN_nonneg d ltac:(lia)) as Hv0. destruct (PGROUNDDOWN_spec d) as [Hm Hr].
  set (v0 := PGROUNDDOWN d) in *.
  assert (Hl : length (take c (drop n src)) = c) by (rewrite length_take, length_drop; lia).
  destruct (uspace_write m' pt v0 pa (d - v0) (take c (drop n src))) as [Hok Hup].
  { apply Hst. } { done. } { by rewrite (st_up _ _ _ _ _ _ Hst). } { lia. } { lia. }
  assert (Hnew : ∀ j : nat, (j < c)%nat → uphys true m pt (d + Z.of_nat j) = Some (pa + (d - v0) + Z.of_nat j)).
  { intros j Hj. unfold uphys. rewrite (PGROUNDDOWN_eq v0) by (unfold PGSIZE in *; lia).
    rewrite Hu. simpl. f_equal. lia. }
  split.
  - intros w va' Hva'. rewrite Hup by done. by apply Hst.
  - done.
  - intros i b Hi Hb. destruct (decide (i < n)%nat) as [Hlt|Hge].
    + destruct (st_in _ _ _ _ _ _ Hst i b Hlt Hb) as (a & Ha & Hget). exists a. split; [done|].
      rewrite mem_get_write_out; [done|]. rewrite Hl.
      destruct (decide (a < pa + (d - v0))); [lia|].
      destruct (decide (pa + (d - v0) + Z.of_nat c ≤ a)); [lia|]. exfalso.
      set (j := Z.to_nat (a - (pa + (d - v0)))).
      assert (va + Z.of_nat i = d + Z.of_nat j); [|lia].
      apply (uphys_inj m' pt _ _ a); [apply Hst|lia|lia| |].
      * by rewrite (uphys_ext _ m) by (lia || apply Hst).
      * rewrite (uphys_ext _ m) by (lia || apply Hst).
        assert (Hj : uphys true m pt (d + Z.of_nat j) = Some a) by (rewrite Hnew by lia; f_equal; lia).
        unfold uphys in *. apply bind_Some in Hj as (pa' & Hj%upage_weaken & ?). by rewrite Hj.
    + exists (pa + (d - v0) + Z.of_nat (i - n)). split.
      * rewrite <- Hnew by lia. f_equal. lia.
      * apply (inj Some). rewrite mem_get_write_in by (rewrite Hl; lia). rewrite <- Hb.
        rewrite lookup_take_lt by lia.
        rewrite lookup_drop. replace (n + Z.to_nat (pa + (d - v0) + Z.of_nat (i - n) - (pa + (d - v0))))%nat with i by lia.
        done.
  - intros a Ha. rewrite mem_get_write_out; [apply Hst; intros i Hi; apply Ha; lia|]. rewrite Hl.
    destruct (decide (a < pa + (d - v0))); [lia|].
    destruct (decide (pa + (d - v0) + Z.of_nat c ≤ a)); [lia|]. exfalso.
    apply (Ha (n + Z.to_nat (a - (pa + (d - v0))))%nat); [lia|].
    transitivity (uphys true m pt (d + Z.of_nat (Z.to_nat (a - (pa + (d - v0)))))); [f_equal; lia|].
    rewrite Hnew by lia. f_equal. lia.
Qed.

(** Storing one more byte after the bytes stored so far. *)
Lemma ustored_app m pt va src n m1 src2 n2 m2 :
  0 ≤ va → ustored m pt va src n m1 → (∀ i b, (i < n2)%nat → src !! (n + i)%nat = Some b → src2 !! i = Some b) →
  ustored m1 pt (va + Z.of_nat n) src2 n2 m2 → ustored m pt va src (n + n2) m2.
Proof.
  intros Hva H1 Hb H2.
  assert (Hup : ∀ va', 0 ≤ va' → uphys true m1 pt va' = uphys true m pt va').
  { intros va' Hv. apply uphys_ext; [done|apply H1]. }
  split.
  - intros w va' Hv. rewrite (st_up _ _ _ _ _ _ H2) by done. by apply H1.
  - apply H2.
  - intros i c Hi Hc. destruct (decide (n ≤ i)%nat) as [Hle|Hlt].
    + replace i with (n + (i - n))%nat in Hc by lia. destruct (st_in _ _ _ _ _ _ H2 (i - n)%nat c ltac:(lia) (Hb (i - n)%nat c ltac:(lia) Hc)) as (a & Ha & Hg).
      exists a. rewrite <- Hup by lia. split; [|done]. rewrite <- Ha. f_equal. lia.
    + destruct (st_in _ _ _ _ _ _ H1 i c ltac:(lia) Hc) as (a & Ha & Hg). exists a. split; [done|].
      rewrite (st_out _ _ _ _ _ _ H2); [done|]. intros j Hj Hj2.
      assert (va + Z.of_nat n + Z.of_nat j = va + Z.of_nat i); [|lia].
      apply (uphys_inj m1 pt _ _ a); [apply H1|lia|lia|done|]. rewrite <- Hup in Ha by lia.
      unfold uphys in *. apply bind_Some in Ha as (pa & Hpa%upage_weaken & Ha). by rewrite Hpa.
  - intros a Ha. rewrite (st_out _ _ _ _ _ _ H2), (st_out _ _ _ _ _ _ H1); [done|intros i Hi; apply Ha; lia|].
    intros i Hi. rewrite Hup by lia. replace (va + Z.of_nat n + Z.of_nat i) with (va + Z.of_nat (n + i)) by lia. apply Ha. lia.
Qed.

Lemma ustored_snoc m pt va src n m1 m2 b :
  0 ≤ va → ustored m pt va src n m1 → src !! n = Some b →
  ustored m1 pt (va + Z.of_nat n) [b] 1 m2 → ustored m pt va src (S n) m2.
Proof.
  intros Hva H1 Hb H2. replace (S n) with (n + 1)%nat by lia. apply (ustored_app m pt va src n m1 [b]); try done.
  intros i c Hi Hc. assert (i = 0%nat) as -> by lia. rewrite Nat.add_0_r in Hc. rewrite Hb in Hc. exact Hc.
Qed.

Lemma copyout_wp (pt va : Z) (src : list Z) (k : kst) :
  0 ≤ va → uspace_ok (k_mem k) pt →
  wp (copyout pt va src) (fun r k' => ∃ n m', ustored (k_mem k) pt va src n m' ∧ k' = k <| k_mem := m' |> ∧
    (n ≤ length src)%nat ∧
    if decide (n = length src) then r = 0
    else r = -1 ∧ upage true (k_mem k) pt (PGROUNDDOWN (va + Z.of_nat n)) = None) k.
Proof.
  intros Hva Hok. unfold copyout.
  eapply (wp_loop (fun '(d, l) k' => ∃ n m', ustored (k_mem k) pt va src n m' ∧ k' = k <| k_mem := m' |> ∧
     (n ≤ length src)%nat ∧ l = drop n src ∧ ((n < length src)%nat → d = va + Z.of_nat n))
     (fun '(d, l) => length l)).
  2:{ exists 0%nat, (k_mem k). split; [by apply ustored_0|]. split; [by destruct k|]. split_and!; [lia|done|lia]. }
  2:{ lia. }
  intros [d l] k' (n & m' & Hst & -> & Hn & -> & Hd). unfold copyout_body. rewrite length_drop.
  destruct (Z.ltb_spec 0 (Z.of_nat (length src - n))) as [Hlt|Hle]; cbn [negb].
  2:{ apply wp_ret. exists n, m'. split_and!; [done..|]. rewrite decide_True by lia. done. }
  rewrite (Hd ltac:(lia)). clear d Hd. set (d := va + Z.of_nat n).
  destruct (PGROUNDDOWN_spec d) as [Hm Hr].
  assert (Hend : upage true (k_mem k) pt (PGROUNDDOWN d) = None →
    ∃ n0 m'0, ustored (k_mem k) pt va src n0 m'0 ∧ k <| k_mem := m' |> = k <| k_mem := m'0 |> ∧ (n0 ≤ length src)%nat ∧
    if decide (n0 = length src) then -1 = 0
    else -1 = -1 ∧ upage true (k_mem k) pt (PGROUNDDOWN (va + Z.of_nat n0)) = None).
  { intros HN. exists n, m'. split_and!; [done..|]. rewrite decide_False by lia. done. }
  pose proof (PGROUNDDOWN_nonneg d ltac:(lia)) as Hd0.
  pose proof (st_up _ _ _ _ _ _ Hst true (PGROUNDDOWN d) Hd0) as Hup. unfold upage at 1 in Hup.
  destruct (Z.leb_spec MAXVA (PGROUNDDOWN d)) as [Hbig|Hsmall]; [apply wp_ret, Hend; done|].
  apply wp_bind. unfold wp at 1. rewrite walk_eq by done. cbn [k_mem set_field].
  change (k_mem (k <| k_mem := m' |>)) with m'.
  destruct (pte_slot m' pt (PGROUNDDOWN d)) as [s|]; cbn [default from_option id]; [|apply wp_ret, Hend; done].
  destruct (s =? 0); [apply wp_ret, Hend; done|].
  apply wp_bind. unfold load_pte, gets, wp at 1. change (k_mem (k <| k_mem := m' |>)) with m'.
  destruct (has (load64 m' s) PTE_V); cbn [negb orb andb] in *; [|apply wp_ret, Hend; done].
  destruct (has (load64 m' s) PTE_U); cbn [negb orb andb] in *; [|apply wp_ret, Hend; done].
  destruct (has (load64 m' s) PTE_W); cbn [negb orb andb] in *; [|apply wp_ret, Hend; done].
  set (c := if Z.of_nat (length src - n) <? PGSIZE - (d - PGROUNDDOWN d)
            then Z.of_nat (length src - n) else PGSIZE - (d - PGROUNDDOWN d)).
  assert (Hc : 0 < c ≤ Z.of_nat (length src - n) ∧ c ≤ PGSIZE - (d - PGROUNDDOWN d)).
  { unfold c. destruct (Z.ltb_spec (Z.of_nat (length src - n)) (PGSIZE - (d - PGROUNDDOWN d))); lia. }
  apply wp_bind. unfold mem_mod, modify, wp at 1. apply wp_ret. cbv beta iota. split.
  2:{ rewrite !length_drop. lia. }
  eexists (n + Z.to_nat c)%nat, _.
  split; [apply (ustored_page _ _ _ _ _ m' (PTE2PA (load64 m' s)) (Z.to_nat c) Hva Hst); [by rewrite Hup|fold d; lia|lia]|].
  split; [done|]. split; [lia|]. split; [by rewrite drop_drop|].
  intros Hmore. unfold u64. rewrite wrap_small
    by (pose proof (PGROUNDDOWN_nonneg d); rewrite MAXVA_val in *; unfold PGSIZE in *; lia).
  unfold c in *. destruct (Z.ltb_spec (Z.of_nat (length src - n)) (PGSIZE - (d - PGROUNDDOWN d))); lia.
Qed.

(** [bs] are the user bytes at [va]. *)
Definition uread (m : mem) (pt va : Z) (bs : list Z) : Prop :=
  ∀ (i : nat) b, bs !! i = Some b → ∃ a, uphys false m pt (va + Z.of_nat i) = Some a ∧ mem_get m a = b.

Lemma uread_page m pt va bs pa (c : nat) :
  uread m pt va bs →
  upage false m pt (PGROUNDDOWN (va + Z.of_nat (length bs))) = Some pa →
  Z.of_nat c ≤ PGSIZE - (va + Z.of_nat (length bs) - PGROUNDDOWN (va + Z.of_nat (length bs))) →
  uread m pt va (bs ++ read_bytes m
    (pa + (va + Z.of_nat (length bs) - PGROUNDDOWN (va + Z.of_nat (length bs)))) c).
Proof.
  set (d := va + Z.of_nat (length bs)). intros H Hu Hc i b. destruct (PGROUNDDOWN_spec d) as [Hm Hr].
  rewrite lookup_app. destruct (bs !! i) as [b'|] eqn:E; [intros [= <-]; by apply H|].
  apply lookup_ge_None in E. intros Hb. pose proof (lookup_lt_Some _ _ _ Hb) as Hlt.
  rewrite length_read_bytes in Hlt. rewrite lookup_read_bytes in Hb by lia. injection Hb as <-.
  eexists. split; [|done]. unfold uphys.
  rewrite (PGROUNDDOWN_eq (PGROUNDDOWN d)) by (unfold PGSIZE in *; lia). rewrite Hu. simpl. f_equal. lia.
Qed.

Lemma uread_0 m pt va : uread m pt va [].
Proof. intros i b. rewrite lookup_nil. done. Qed.

Lemma copyin_wp (pt va len : Z) (k : kst) :
  0 ≤ va → 0 ≤ len →
  wp (copyin pt va len) (fun '(r, bs) k' => k' = k ∧ uread (k_mem k) pt va bs ∧ Z.of_nat (length bs) ≤ len ∧
    if decide (Z.of_nat (length bs) = len) then r = 0
    else r = -1 ∧ default 0 (upage false (k_mem k) pt (PGROUNDDOWN (va + Z.of_nat (length bs)))) = 0) k.
Proof.
  intros Hva Hlen. unfold copyin.
  eapply (wp_loop (fun '(bs, d, rest) k' => k' = k ∧ uread (k_mem k) pt va bs ∧
     rest = len - Z.of_nat (length bs) ∧ 0 ≤ rest ∧ (0 < rest → d = va + Z.of_nat (length bs)))
     (fun '(bs, d, rest) => Z.to_nat rest)).
  2:{ split_and!; [done|apply uread_0|simpl; lia..]. }
  2:{ lia. }
  intros [[bs d] rest] k' (-> & Hrd & Hrest & Hpos & Hd). unfold copyin_body.
  destruct (Z.ltb_spec 0 rest) as [Hlt|Hle]; cbn [negb].
  2:{ apply wp_ret. split_and!; [done..|lia|]. by rewrite decide_True by lia. }
  rewrite (Hd ltac:(lia)). set (d' := va + Z.of_nat (length bs)).
  destruct (PGROUNDDOWN_spec d') as [Hm Hr].
  apply wp_bind. unfold wp at 1. rewrite walkaddr_eq.
  destruct (Z.eqb_spec (default 0 (upage false (k_mem k) pt (PGROUNDDOWN d'))) 0) as [Hz|Hnz].
  { apply wp_ret. split_and!; [done..|lia|]. by rewrite decide_False by lia. }
  destruct (upage false (k_mem k) pt (PGROUNDDOWN d')) as [pa|] eqn:Hu; [|done]. cbn [default from_option id] in *.
  set (c := if rest <? PGSIZE - (d' - PGROUNDDOWN d') then rest else PGSIZE - (d' - PGROUNDDOWN d')).
  assert (Hc : 0 < c ≤ rest ∧ c ≤ PGSIZE - (d' - PGROUNDDOWN d')).
  { unfold c. destruct (Z.ltb_spec rest (PGSIZE - (d' - PGROUNDDOWN d'))); lia. }
  apply wp_bind. unfold gets, wp at 1. apply wp_ret. cbv beta iota. split; [|lia].
  split; [done|]. split; [apply uread_page; [done..|fold d'; lia]|]. rewrite length_app, length_read_bytes.
  split_and!; [lia..|]. intros Hmore. pose proof (upage_range _ _ _ _ _ Hu).
  unfold u64. rewrite wrap_small
    by (pose proof (PGROUNDDOWN_nonneg d'); rewrite MAXVA_val in *; unfold PGSIZE in *; lia).
  unfold c in *. destruct (Z.ltb_spec rest (PGSIZE - (d' - PGROUNDDOWN d'))); lia.
Qed.

(** ** copyinstr *)

Lemma copyinstr_page_eq m p n :
  copyinstr_page m p n =
  let l := cut_nul (read_bytes m p n) in
  if decide (length l = n) then (false, l) else (true, l ++ [0]).
Proof.
  revert p. induction n as [|n IH]; intros p; [done|]. cbn [copyinstr_page].
  Transparent read_bytes. cbn [read_bytes cut_nul]. Opaque read_bytes.
  destruct (Z.eqb_spec (mem_get m p) 0) as [Hz|Hnz].
  - rewrite !(decide_True (P := mem_get m p = 0)) by done. done.
  - rewrite !(decide_False (P := mem_get m p = 0)) by done. rewrite IH. cbv zeta. cbn [length].
    destruct (decide (length (cut_nul (read_bytes m (p + 1) n)) = n));
      [rewrite decide_True by lia|rewrite decide_False by lia]; done.
Qed.

Lemma cut_nul_prefix l : ∃ r, l = cut_nul l ++ r ∧ (r = [] ∨ ∃ r', r = 0 :: r').
Proof.
  induction l as [|b l (r & E & Hr)]; [exists []; auto|]. simpl. case_decide as Hb.
  - subst. exists (0 :: l). eauto.
  - exists r. split; [by rewrite E at 1|done].
Qed.

Lemma cut_nul_nonzero l : 0 ∉ cut_nul l.
Proof.
  induction l as [|b l IH]; simpl; [apply not_elem_of_nil|].
  case_decide; [apply not_elem_of_nil|]. rewrite not_elem_of_cons. auto.
Qed.

Lemma uread_prefix m pt va l r : uread m pt va (l ++ r) → uread m pt va l.
Proof. intros H i b Hb. apply H. by apply lookup_app_l_Some. Qed.

Lemma copyinstr_wp (pt va max : Z) (k : kst) :
  0 ≤ va → 0 ≤ max →
  wp (copyinstr pt va max) (fun '(r, bs) k' => k' = k ∧ uread (k_mem k) pt va bs ∧
    Z.of_nat (length bs) ≤ max ∧
    ((r = 0 ∧ ∃ s, bs = (s ++ [0]) ∧ 0 ∉ s) ∨
     (r = -1 ∧ (0 ∉ bs) ∧ (Z.of_nat (length bs) = max ∨
        default 0 (upage false (k_mem k) pt (PGROUNDDOWN (va + Z.of_nat (length bs)))) = 0)))) k.
Proof.
  intros Hva Hlen. unfold copyinstr.
  eapply (wp_loop (fun '(bs, d, rest) k' => k' = k ∧ uread (k_mem k) pt va bs ∧ (0 ∉ bs) ∧
     rest = max - Z.of_nat (length bs) ∧ 0 ≤ rest ∧ (0 < rest → d = va + Z.of_nat (length bs)))
     (fun '(bs, d, rest) => Z.to_nat rest)).
  2:{ split_and!; [done|apply uread_0|apply not_elem_of_nil|simpl; lia..]. }
  2:{ lia. }
  intros [[bs d] rest] k' (-> & Hrd & Hnz0 & Hrest & Hpos & Hd). unfold copyinstr_body.
  destruct (Z.ltb_spec 0 rest) as [Hlt|Hle]; cbn [negb].
  2:{ apply wp_ret. split_and!; [done..|lia|]. right. split_and!; [done..|lia]. }
  rewrite (Hd ltac:(lia)). set (d' := va + Z.of_nat (length bs)).
  destruct (PGROUNDDOWN_spec d') as [Hm Hr].
  apply wp_bind. unfold wp at 1. rewrite walkaddr_eq.
  destruct (Z.eqb_spec (default 0 (upage false (k_mem k) pt (PGROUNDDOWN d'))) 0) as [Hz|Hnz].
  { apply wp_ret. split_and!; [done..|lia|]. right. auto. }
  destruct (upage false (k_mem k) pt (PGROUNDDOWN d')) as [pa|] eqn:Hu; [|done]. cbn [default from_option id] in *.
  set (c := if rest <? PGSIZE - (d' - PGROUNDDOWN d') then rest else PGSIZE - (d' - PGROUNDDOWN d')).
  assert (Hc : 0 < c ≤ rest ∧ c ≤ PGSIZE - (d' - PGROUNDDOWN d')).
  { unfold c. destruct (Z.ltb_spec rest (PGSIZE - (d' - PGROUNDDOWN d'))); lia. }
  apply wp_bind. unfold get, wp at 1. rewrite copyinstr_page_eq. cbv zeta.
  set (l := read_bytes (k_mem k) (pa + (d' - PGROUNDDOWN d')) (Z.to_nat c)).
  assert (Hl : uread (k_mem k) pt va (bs ++ l)) by (apply uread_page; [done..|fold d'; lia]).
  assert (Hll : length l = Z.to_nat c) by apply length_read_bytes.
  destruct (cut_nul_prefix l) as (r & El & Hr').
  pose proof (cut_nul_nonzero l) as Hn0.
  case_decide as Hfull.
  - apply wp_ret. cbv beta iota. split; [|lia].
    split; [done|]. split. { rewrite El, (assoc_L (++)) in Hl. by apply uread_prefix in Hl. }
    rewrite length_app, Hfull. split; [rewrite elem_of_app; naive_solver|].
    split_and!; [lia..|]. intros Hmore. pose proof (upage_range _ _ _ _ _ Hu).
    unfold u64. rewrite wrap_small
      by (pose proof (PGROUNDDOWN_nonneg d'); rewrite MAXVA_val in *; unfold PGSIZE in *; lia).
    unfold c in *. destruct (Z.ltb_spec rest (PGSIZE - (d' - PGROUNDDOWN d'))); lia.
  - apply wp_ret. split; [done|].
    assert (Hle : (length (cut_nul l) + 1 ≤ length l)%nat) by (pose proof (length_cut_nul l); lia).
    destruct Hr' as [->|(r' & ->)]; [rewrite app_nil_r in El; rewrite <- El in Hle; lia|].
    split. { rewrite El in Hl. change (0 :: r') with ([0] ++ r') in Hl. rewrite !(assoc_L (++)) in Hl.
             apply uread_prefix in Hl. by rewrite <- (assoc_L (++)) in Hl. }
    rewrite !length_app. simpl. split; [lia|]. left. split; [done|].
    exists ((bs ++ cut_nul l)). rewrite (assoc_L (++)). split; [done|]. rewrite elem_of_app. naive_solver.
Qed.

(** ** Theorems *)

(** C3: [copyout] to a user range every page of which is mapped, user-accessible and
    writable returns 0 and stores exactly the given bytes at the physical addresses
    of that range, changing no other byte of memory and no page-table entry.
    Otherwise it returns -1, having stored the bytes before the first bad page. *)
Theorem copyout_correct (pt va : Z) (src : list Z) (k : kst) :
  0 ≤ va → uspace_ok (k_mem k) pt →
  ∃ r n m', copyout pt va src k = Ok r (k <| k_mem := m' |>) ∧
    ustored (k_mem k) pt va src n m' ∧ (n ≤ length src)%nat ∧
    if decide (n = length src) then r = 0
    else r = -1 ∧ upage true (k_mem k) pt (PGROUNDDOWN (va + Z.of_nat n)) = None.
Proof.
  intros Hva Hok. destruct (proj1 (wp_Ok _ _ _) (copyout_wp pt va src k Hva Hok))
    as (r & k' & E & n & m' & Hst & -> & Hn & Hr). by exists r, n, m'.
Qed.

(** C13: What [copyout] stored, [copyin] reads back: after a [copyout] that returned 0,
    [copyin] of the same user range returns 0 and the same bytes. *)
Theorem copyin_copyout (pt va : Z) (src : list Z) (k k' : kst) :
  0 ≤ va → uspace_ok (k_mem k) pt →
  copyout pt va src k = Ok 0 k' →
  copyin pt va (Z.of_nat (length src)) k' = Ok (0, src) k'.
Proof.
  intros Hva Hok E. destruct (proj1 (wp_Ok _ _ _) (copyout_wp pt va src k Hva Hok))
    as (r & k1 & E1 & n & m' & Hst & -> & Hn & Hr). rewrite E in E1. injection E1 as <- ->.
  case_decide as Hfull; [subst n|lia]. set (k1 := k <| k_mem := m' |>) in *.
  assert (Hall : ∀ i : nat, (i < length src)%nat → ∃ a b, src !! i = Some b ∧
    uphys true (k_mem k) pt (va + Z.of_nat i) = Some a ∧ mem_get m' a = b).
  { intros i Hi. destruct (lookup_lt_is_Some_2 src i Hi) as [b Hb].
    destruct (st_in _ _ _ _ _ _ Hst i b Hi Hb) as (a & Ha & Hg). by exists a, b. }
  destruct (proj1 (wp_Ok _ _ _) (copyin_wp pt va (Z.of_nat (length src)) k1 Hva ltac:(lia)))
    as ([r bs] & k2 & E2 & -> & Hrd & Hle & Hr2).
  change (k_mem k1) with m' in *.
  assert (Hlen : length bs = length src).
  { destruct (decide (Z.of_nat (length bs) = Z.of_nat (length src))) as [|Hne]; [lia|].
    destruct Hr2 as [_ Hz]. destruct (Hall (length bs) ltac:(lia)) as (a & b & _ & Ha & _).
    unfold uphys in Ha. apply bind_Some in Ha as (pa & Hpa & _).
    assert (Hd0 : 0 ≤ PGROUNDDOWN (va + Z.of_nat (length bs))) by (apply PGROUNDDOWN_nonneg; lia).
    rewrite <- (st_up _ _ _ _ _ _ Hst) in Hpa by done. apply upage_weaken in Hpa. rewrite Hpa in Hz. simpl in Hz.
    by destruct (us_frames _ _ (st_ok _ _ _ _ _ _ Hst) _ _ Hd0 Hpa). }
  rewrite decide_True in Hr2 by lia. subst r.
  assert (bs = src) as ->; [|exact E2].
  apply list_eq. intros i. destruct (decide (i < length src)%nat) as [Hi|].
  - destruct (Hall i Hi) as (a & b & Hb & Ha & Hg). rewrite Hb.
    destruct (lookup_lt_is_Some_2 bs i ltac:(lia)) as [b' Hb'].
    destruct (Hrd i b' Hb') as (a' & Ha' & Hg'). rewrite Hb'. f_equal. rewrite <- Hg, <- Hg'. f_equal.
    rewrite (uphys_ext _ (k_mem k)) in Ha' by (lia || apply Hst). unfold uphys in Ha, Ha'.
    apply bind_Some in Ha as (pa & Hpa%upage_weaken & [= <-]).
    rewrite Hpa in Ha'. simpl in Ha'. congruence.
  - rewrite !lookup_ge_None_2; [done|lia..].
Qed.

(** C14: [copyinstr] returns 0 exactly when it met a null byte within [max] bytes of
    mapped user memory; then it stored the string with its terminator. Otherwise it
    returns -1 after copying only non-null bytes, because [max] was reached or the
    next page is not mapped. It never reads past an unmapped page and never stores
    more than [max] bytes, and the kernel state is unchanged. *)
Theorem copyinstr_correct (pt va max : Z) (k : kst) :
  0 ≤ va → 0 ≤ max →
  ∃ r bs, copyinstr pt va max k = Ok (r, bs) k ∧ uread (k_mem k) pt va bs ∧
    Z.of_nat (length bs) ≤ max ∧
    ((r = 0 ∧ ∃ s, bs = (s ++ [0]) ∧ 0 ∉ s) ∨
     (r = -1 ∧ (0 ∉ bs) ∧ (Z.of_nat (length bs) = max ∨
        default 0 (upage false (k_mem k) pt (PGROUNDDOWN (va + Z.of_nat (length bs)))) = 0))).
Proof.
  intros Hva Hm. destruct (proj1 (wp_Ok _ _ _) (copyinstr_wp pt va max k Hva Hm))
    as ([r bs] & k' & E & -> & H). by exists r, bs.
Qed.
