(* ===== verification/Pagetable.v ===== *)
(** * Page tables as trees

    The page-table pages reachable from a root ([frame]), the invariant that they
    are pairwise distinct allocated pages ([pt_ok]), and what [walk] with allocation
    and [mappages] do to the mapping [leaf] from virtual pages to entries. *)

From S2P Require Import Prelude Mem CString Kernel Spinlock Kalloc Vm Vmproof.

#[local] Opaque read_bytes write_bytes memset memmove.

(** ** Index arithmetic *)

Lemma PX_range level va : 0 ≤ PX level va < 512.
Proof.
  unfold PX, PXMASK. change 0x1FF with (Z.ones 9). rewrite Z.land_ones by lia.
  apply Z.mod_pos_bound. lia.
Qed.

Lemma PX_val level va : 0 ≤ level → PX level va = va / 2 ^ (12 + 9 * level) mod 512.
Proof.
  intros. unfold PX, PXMASK, PXSHIFT, PGSHIFT. change 0x1FF with (Z.ones 9).
  by rewrite Z.land_ones, Z.shiftr_div_pow2 by lia.
Qed.

(** The three indices determine the page. *)
Lemma PX_inj va va' :
  0 ≤ va < MAXVA → 0 ≤ va' < MAXVA →
  PX 2 va = PX 2 va' → PX 1 va = PX 1 va' → PX 0 va = PX 0 va' → va / PGSIZE = va' / PGSIZE.
Proof.
  rewrite MAXVA_val, !PX_val by lia. unfold PGSIZE.
  change (2 ^ (12 + 9 * 2)) with (4096 * 512 * 512). change (2 ^ (12 + 9 * 1)) with (4096 * 512).
  change (2 ^ (12 + 9 * 0)) with 4096. rewrite <- !Z.div_div by lia.
  intros H1 H2. set (x := va / 4096). set (y := va' / 4096).
  assert (0 ≤ x < 67108864) by (unfold x; split; [apply Z.div_pos; lia|apply Z.div_lt_upper_bound; lia]).
  assert (0 ≤ y < 67108864) by (unfold y; split; [apply Z.div_pos; lia|apply Z.div_lt_upper_bound; lia]).
  clearbody x y.
  pose proof (Z.div_mod x 512). pose proof (Z.div_mod y 512).
  pose proof (Z.div_mod (x / 512) 512). pose proof (Z.div_mod (y / 512) 512).
  pose proof (Z.div_lt_upper_bound (x / 512) 512 512). pose proof (Z.div_lt_upper_bound x 512 262144).
  pose proof (Z.div_lt_upper_bound (y / 512) 512 512). pose proof (Z.div_lt_upper_bound y 512 262144).
  rewrite !(Z.mod_small (_ / 512 / 512)); [lia|split; [repeat apply Z.div_pos; lia|lia]..].
Qed.

Lemma PX_page level va va' : 0 ≤ level → va / PGSIZE = va' / PGSIZE → PX level va = PX level va'.
Proof.
  intros Hl. rewrite !PX_val by done. rewrite Z.pow_add_r by lia. change (2 ^ 12) with PGSIZE.
  rewrite <- !Z.div_div by (unfold PGSIZE; lia). by intros ->.
Qed.

(** ** Entry encoding *)

Lemma has_lor_V x : has (Z.lor x PTE_V) PTE_V = true.
Proof.
  unfold has, PTE_V. change (Z.shiftl 1 0) with 1. rewrite Z.land_comm, Z.land_lor_distr_r.
  apply negb_true_iff, Z.eqb_neq. intros H. apply Z.lor_eq_0_iff in H as [_ H]. done.
Qed.

Lemma PTE2PA_PA2PTE pa fl :
  pa mod PGSIZE = 0 → 0 ≤ pa < 2 ^ 56 → 0 ≤ fl < 1024 → PTE2PA (Z.lor (PA2PTE pa) fl) = pa.
Proof.
  intros Hm Hp Hf. unfold PTE2PA, PA2PTE, u64.
  rewrite Z.shiftr_lor, Z.shiftr_shiftl_l by lia. change (10 - 10) with 0. rewrite Z.shiftl_0_r.
  rewrite (Z.shiftr_div_pow2 fl), Z.div_small, Z.lor_0_r by lia.
  rewrite Z.shiftl_mul_pow2, Z.shiftr_div_pow2 by lia. change (2 ^ 12) with PGSIZE.
  pose proof (Z.div_mod pa PGSIZE ltac:(done)). rewrite wrap_small; lia.
Qed.

Lemma PA2PTE_range pa fl : 0 ≤ pa < 2 ^ 56 → 0 ≤ fl < 1024 → 0 ≤ Z.lor (PA2PTE pa) fl < 2 ^ 64.
Proof.
  intros Hp Hf. unfold PA2PTE. rewrite Z.shiftl_mul_pow2, Z.shiftr_div_pow2 by lia.
  assert (0 ≤ pa / 2 ^ 12 < 2 ^ 44) by (split; [apply Z.div_pos; lia|apply Z.div_lt_upper_bound; lia]).
  split; [apply Z.lor_nonneg; lia|].
  destruct (decide (Z.lor (pa / 2 ^ 12 * 2 ^ 10) fl = 0)) as [->|]; [lia|].
  apply Z.log2_lt_pow2; [assert (0 ≤ Z.lor (pa / 2 ^ 12 * 2 ^ 10) fl) by (apply Z.lor_nonneg; lia); lia|].
  rewrite Z.log2_lor by lia. apply Z.max_lub_lt.
  - destruct (decide (pa / 2 ^ 12 * 2 ^ 10 = 0)) as [->|]; [by simpl|]. apply Z.log2_lt_pow2; lia.
  - destruct (decide (fl = 0)) as [->|]; [by simpl|]. apply Z.log2_lt_pow2; lia.
Qed.

(** ** The tree *)

Inductive node := NRoot | N1 (i : Z) | N0 (i j : Z).
#[export] Instance node_eq_dec : EqDecision node.
Proof. solve_decision. Defined.

Definition node_ok (n : node) : Prop :=
  match n with NRoot => True | N1 i => 0 ≤ i < 512 | N0 i j => 0 ≤ i < 512 ∧ 0 ≤ j < 512 end.

Definition child (m : mem) (t i : Z) : option Z :=
  let e := load64 m (t + 8 * i) in if has e PTE_V then Some (PTE2PA e) else None.

Definition frame (m : mem) (root : Z) (n : node) : option Z :=
  match n with
  | NRoot => Some root
  | N1 i => child m root i
  | N0 i j => t ← child m root i; child m t j
  end.

(** The entry that maps [va], 0 when there is no table for it. *)
Definition leaf (m : mem) (root va : Z) : Z :=
  match frame m root (N0 (PX 2 va) (PX 1 va)) with
  | Some t => load64 m (t + 8 * PX 0 va)
  | None => 0
  end.

Section tree.
Context {I : image}.

Record pt_ok (m : mem) (root : Z) (l : list Z) : Prop := {
  pt_page n a : node_ok n → frame m root n = Some a → is_page a;
  pt_fresh n a : node_ok n → frame m root n = Some a → a ∉ l;
  pt_inj n n' a : node_ok n → node_ok n' → frame m root n = Some a → frame m root n' = Some a → n = n'
}.

Definition in_frames (m : mem) (root a : Z) : Prop :=
  ∃ n t, node_ok n ∧ frame m root n = Some t ∧ t ≤ a < t + PGSIZE.

Lemma child_agree m m' t i :
  0 ≤ i < 512 → (∀ a, t ≤ a < t + PGSIZE → mem_get m' a = mem_get m a) → child m' t i = child m t i.
Proof.
  intros Hi H. unfold child. assert (load64 m' (t + 8 * i) = load64 m (t + 8 * i)) as ->; [|done].
  apply load_ext. intros x Hx. apply H. unfold PGSIZE. lia.
Qed.

Lemma frame_agree m m' root n :
  node_ok n → (∀ a, in_frames m root a → mem_get m' a = mem_get m a) → frame m' root n = frame m root n.
Proof.
  intros Hn H. assert (Hr : ∀ i, 0 ≤ i < 512 → child m' root i = child m root i).
  { intros i Hi. apply child_agree; [done|]. intros a Ha. apply H. by exists NRoot, root. }
  destruct n as [|i|i j]; simpl in *; [done|by apply Hr|]. rewrite Hr by lia.
  destruct (child m root i) as [t|] eqn:E; [|done]. simpl. apply child_agree; [lia|].
  intros a Ha. apply H. exists (N1 i), t. split; [simpl; lia|done].
Qed.

Lemma leaf_agree m m' root va :
  (∀ a, in_frames m root a → mem_get m' a = mem_get m a) → leaf m' root va = leaf m root va.
Proof.
  intros H. unfold leaf. pose proof (PX_range 2 va). pose proof (PX_range 1 va). pose proof (PX_range 0 va).
  rewrite (frame_agree m) by (simpl; done || lia).
  destruct (frame m root (N0 (PX 2 va) (PX 1 va))) as [t|] eqn:E; [|done].
  apply load_ext. intros i Hi. apply H. exists (N0 (PX 2 va) (PX 1 va)), t.
  split; [simpl; lia|]. split; [done|]. unfold PGSIZE. lia.
Qed.

(** Changing memory outside the tables keeps the tree. *)
Lemma pt_ok_agree m m' root l :
  pt_ok m root l → (∀ a, in_frames m root a → mem_get m' a = mem_get m a) → pt_ok m' root l.
Proof.
  intros [Hp Hf Hi] H. split.
  - intros n a Hn. rewrite (frame_agree m) by done. by apply Hp.
  - intros n a Hn. rewrite (frame_agree m) by done. by apply Hf.
  - intros n n' a Hn Hn'. rewrite (frame_agree m m' root n), (frame_agree m m' root n') by done. by apply Hi.
Qed.

Lemma is_page_lt a : is_page a → 0 < img_end → 0 < a < 2 ^ 56 ∧ a mod PGSIZE = 0.
Proof. intros [Hm Hr] He. unfold PHYSTOP, KERNBASE in *. lia. Qed.

(** ** Installing a new table *)

Definition kid (n : node) (x : Z) : option node :=
  match n with NRoot => Some (N1 x) | N1 i => Some (N0 i x) | N0 _ _ => None end.

Lemma child_zero m t i :
  0 ≤ i < 512 → (∀ a, t ≤ a < t + PGSIZE → mem_get m a = 0) → child m t i = None.
Proof.
  intros Hi H. unfold child. replace (load64 m (t + 8 * i)) with 0; [done|].
  symmetry. apply load_zero. intros x Hx. apply H. unfold PGSIZE. lia.
Qed.

Lemma child_store_same m t x e :
  0 ≤ e < 2 ^ 64 → child (store64 m (t + 8 * x) e) t x = if has e PTE_V then Some (PTE2PA e) else None.
Proof. intros He. unfold child, load64, store64. rewrite load_store_eq. by rewrite Z.mod_small. Qed.

Lemma load64_store_other m t x t' x' e :
  t mod PGSIZE = 0 → t' mod PGSIZE = 0 → 0 ≤ x < 512 → 0 ≤ x' < 512 → (t', x') ≠ (t, x) →
  load64 (store64 m (t + 8 * x) e) (t' + 8 * x') = load64 m (t' + 8 * x').
Proof.
  intros Ht Ht' Hx Hx' Hne. unfold load64, store64. apply load_store_ne.
  destruct (decide (t = t')) as [->|Hd].
  - assert (x ≠ x') by congruence. unfold disjoint_ranges. lia.
  - pose proof (pages_disjoint t t' Ht Ht' Hd). unfold disjoint_ranges, PGSIZE in *. lia.
Qed.

Lemma child_store_other m t x t' x' e :
  t mod PGSIZE = 0 → t' mod PGSIZE = 0 → 0 ≤ x < 512 → 0 ≤ x' < 512 → (t', x') ≠ (t, x) →
  child (store64 m (t + 8 * x) e) t' x' = child m t' x'.
Proof. intros. unfold child. by rewrite load64_store_other. Qed.

Section install.
Context (m m1 : mem) (root : Z) (l : list Z) (p : Z).
Context (Hend : 0 < img_end) (Hpt : pt_ok m root (p :: l)) (Hnd : NoDup (p :: l)) (Hp : is_page p).
Context (Hout : only_page p m m1) (Hzero : ∀ a, p ≤ a < p + PGSIZE → mem_get m1 a = 0).
Context (n c : node) (t x : Z) (Hn : node_ok n) (Hx : 0 ≤ x < 512) (Hc : kid n x = Some c).
Context (Ht : frame m root n = Some t) (Hnone : child m t x = None).

Let m2 := store64 m1 (t + 8 * x) (Z.lor (PA2PTE p) PTE_V).

Lemma install_fresh nn a : node_ok nn → frame m root nn = Some a → a ≠ p ∧ a mod PGSIZE = 0.
Proof.
  intros Hnn Hf. pose proof (pt_fresh _ _ _ Hpt nn a Hnn Hf) as Hni.
  split; [intros ->; apply Hni; left|]. apply (pt_page _ _ _ Hpt nn a Hnn Hf).
Qed.

Lemma install_m1_child t' i nn :
  node_ok nn → frame m root nn = Some t' → 0 ≤ i < 512 → child m1 t' i = child m t' i.
Proof.
  intros Hnn Hf Hi. destruct (install_fresh nn t' Hnn Hf) as [Hne Hm]. apply child_agree; [done|].
  intros a Ha. apply Hout. pose proof (pages_disjoint p t' (proj1 Hp) Hm). unfold PGSIZE in *. lia.
Qed.

Lemma install_child t' i nn :
  node_ok nn → frame m root nn = Some t' → 0 ≤ i < 512 →
  child m2 t' i = if decide ((t', i) = (t, x)) then Some p else child m t' i.
Proof.
  intros Hnn Hf Hi. destruct (is_page_lt p Hp Hend) as [Hlt Hm].
  destruct (install_fresh nn t' Hnn Hf) as [_ Hm']. destruct (install_fresh n t Hn Ht) as [_ Hmt].
  case_decide as Heq.
  - injection Heq as -> ->. unfold m2. rewrite child_store_same.
    + rewrite has_lor_V, PTE2PA_PA2PTE; [done|done|lia|]. unfold PTE_V. change (Z.shiftl 1 0) with 1. lia.
    + apply PA2PTE_range; [lia|]. unfold PTE_V. change (Z.shiftl 1 0) with 1. lia.
  - unfold m2. rewrite child_store_other by done. by apply (install_m1_child t' i nn).
Qed.

Lemma install_new_child i : 0 ≤ i < 512 → child m2 p i = None.
Proof.
  intros Hi. destruct (install_fresh n t Hn Ht) as [Hne Hmt]. unfold m2.
  rewrite child_store_other; [|done|apply Hp|done..|congruence]. by apply child_zero.
Qed.

Lemma kid_ok : node_ok c.
Proof. destruct n; simplify_eq/=; done. Qed.

Lemma kid_none : frame m root c = None.
Proof. destruct n; simplify_eq/=; [done|]. by rewrite Ht. Qed.

Lemma install_frame nn :
  node_ok nn → frame m2 root nn = if decide (nn = c) then Some p else frame m root nn.
Proof.
  pose proof install_new_child as Hnew. pose proof install_child as Hch.
  intros Hnn. destruct nn as [|i|i j].
  - rewrite decide_False; [done|]. intros <-. destruct n; simplify_eq/=.
  - simpl. rewrite (Hch root i NRoot) by done. simpl in Hnn.
    destruct n as [|i0|]; simplify_eq/=.
    + repeat case_decide; congruence.
    + rewrite decide_False; [done|].
      intros [= -> ->]. pose proof (pt_inj _ _ _ Hpt NRoot (N1 i0) t Logic.I Hn eq_refl Ht). done.
  - destruct Hnn as [Hi Hj]. simpl. rewrite (Hch root i NRoot) by done.
    destruct n as [|i0|]; simplify_eq/=.
    + case_decide as Hd.
      * injection Hd as ->. simpl. rewrite Hnone. simpl. by apply Hnew.
      * destruct (child m t i) as [t1|] eqn:E; [|done]. simpl.
        rewrite (Hch t1 j (N1 i)) by done. rewrite decide_False; [done|].
        intros [= -> ->]. pose proof (pt_inj _ _ _ Hpt NRoot (N1 i) t Logic.I Hi eq_refl E). done.
    + rewrite (decide_False (P := (root, i) = (t, x))).
      2:{ intros [= -> ->]. pose proof (pt_inj _ _ _ Hpt NRoot (N1 i0) t Logic.I Hn eq_refl Ht). done. }
      destruct (child m root i) as [t1|] eqn:E; simpl.
      * rewrite (Hch t1 j (N1 i)) by done.
        destruct (decide (N0 i j = N0 i0 x)) as [[= -> ->]|Hd].
        -- simplify_eq. by rewrite decide_True.
        -- rewrite decide_False; [done|]. intros [= -> ->].
           pose proof (pt_inj _ _ _ Hpt (N1 i) (N1 i0) t Hi Hn E Ht). naive_solver.
      * rewrite decide_False; [done|]. intros [= -> ->]. congruence.
Qed.

Lemma install_ok : pt_ok m2 root l.
Proof.
  apply NoDup_cons in Hnd as [Hni _]. split.
  - intros nn a Hnn. rewrite install_frame by done. case_decide; [intros [= <-]; done|]. by apply (pt_page _ _ _ Hpt).
  - intros nn a Hnn. rewrite install_frame by done. case_decide; [intros [= <-]; done|].
    intros Hf. pose proof (pt_fresh _ _ _ Hpt nn a Hnn Hf). set_solver.
  - intros n1 n2 a H1 H2. rewrite !install_frame by done. repeat case_decide; subst; try done.
    + intros [= <-] Hf. by destruct (install_fresh n2 p H2 Hf).
    + intros Hf [= <-]. by destruct (install_fresh n1 p H1 Hf).
    + by apply (pt_inj _ _ _ Hpt).
Qed.

Lemma install_leaf va : leaf m2 root va = leaf m root va.
Proof.
  unfold leaf. pose proof (PX_range 2 va). pose proof (PX_range 1 va). pose proof (PX_range 0 va).
  rewrite install_frame by (simpl; lia). destruct (install_fresh n t Hn Ht) as [Hne Hmt].
  case_decide as Hd.
  - rewrite Hd, kid_none. unfold m2. rewrite load64_store_other; [|done|apply Hp|done..|congruence].
    apply load_zero. intros i Hi. apply Hzero. unfold PGSIZE. lia.
  - destruct (frame m root (N0 (PX 2 va) (PX 1 va))) as [t'|] eqn:E; [|done].
    destruct (install_fresh (N0 (PX 2 va) (PX 1 va)) t' ltac:(simpl; lia) E) as [Hne' Hm'].
    unfold m2. rewrite load64_store_other; [|done..|].
    + apply load_ext. intros i Hi. apply Hout.
      pose proof (pages_disjoint p t' (proj1 Hp) Hm'). unfold PGSIZE in *. lia.
    + intros Heq. injection Heq as -> _. pose proof (pt_inj _ _ _ Hpt (N0 (PX 2 va) (PX 1 va)) n t ltac:(simpl; lia) Hn E Ht) as HN. rewrite <- HN in Hc. done.
Qed.

(** Only the new page and the tables change. *)
Lemma install_frames_out a :
  ¬ in_frames m root a → a < p ∨ p + PGSIZE ≤ a → mem_get m2 a = mem_get m a.
Proof.
  intros Hnf Ha. unfold m2. rewrite <- Hout by done. apply mem_get_store_out.
  destruct (decide (t ≤ a < t + PGSIZE)) as [Hin|]; [|unfold PGSIZE in *; lia].
  destruct Hnf. by exists n, t.
Qed.

End install.

(** ** Growing a tree *)

(** Everything but memory and the free list stays (up to a matched lock pair). *)
Definition rest_eq (k k' : kst) : Prop := ∃ m f, settle k' = kmem_upd m f (settle k).

Lemma settle_kmem_upd m f k : settle (kmem_upd m f k) = kmem_upd m f (settle k).
Proof. done. Qed.

Lemma rest_eq_refl k : rest_eq k k.
Proof. exists (k_mem k), (k_freelist k). by destruct k. Qed.

Lemma rest_eq_trans k1 k2 k3 : rest_eq k1 k2 → rest_eq k2 k3 → rest_eq k1 k3.
Proof. intros (m & f & E) (m' & f' & E'). exists m', f'. rewrite E', E. done. Qed.

Lemma rest_eq_upd m f k : rest_eq k (kmem_upd m f (settle k)).
Proof. exists m, f. by rewrite settle_kmem_upd, settle_settle. Qed.

(** New tables come from the front of the free list, and memory changes only in the
    tables and the pages taken. *)
Definition took (root : Z) (m : mem) (l : list Z) (m' : mem) (l' : list Z) : Prop :=
  ∃ taken, l = taken ++ l' ∧
    (∀ n a, node_ok n → frame m' root n = Some a → frame m root n = Some a ∨ a ∈ taken) ∧
    (∀ a, ¬ in_frames m root a → (∀ p, p ∈ taken → a < p ∨ p + PGSIZE ≤ a) → mem_get m' a = mem_get m a).

Lemma took_refl root m l : took root m l m l.
Proof. exists []. split_and!; [done|by left|done]. Qed.

Lemma took_trans root m1 l1 m2 l2 m3 l3 :
  took root m1 l1 m2 l2 → took root m2 l2 m3 l3 → took root m1 l1 m3 l3.
Proof.
  intros (t1 & -> & Hn1 & Ho1) (t2 & -> & Hn2 & Ho2).
  exists (t1 ++ t2). rewrite (assoc_L (++)). split_and!; [done| |].
  - intros n a Hn Hf. destruct (Hn2 n a Hn Hf) as [Hf'|]; [|set_solver].
    destruct (Hn1 n a Hn Hf'); set_solver.
  - intros a Hnf Hp. rewrite Ho2, Ho1; [done|done|set_solver| |set_solver].
    intros (n & t & Hn & Hf & Ha). destruct (Hn1 n t Hn Hf) as [Hf'|Hin].
    + apply Hnf. by exists n, t.
    + specialize (Hp t ltac:(set_solver)). lia.
Qed.

Record grown (root : Z) (k : kst) (l : list Z) (k' : kst) (l' : list Z) : Prop := {
  g_kmem : kmem_ok k' l';
  g_ready : ready k';
  g_unlocked : unlocked LKmem k';
  g_rest : rest_eq k k';
  g_pt : pt_ok (k_mem k') root l';
  g_leaf va : leaf (k_mem k') root va = leaf (k_mem k) root va;
  g_frames n a : node_ok n → frame (k_mem k) root n = Some a → frame (k_mem k') root n = Some a;
  g_taken : took root (k_mem k) l (k_mem k') l'
}.

Lemma grown_refl root k l :
  kmem_ok k l → ready k → unlocked LKmem k → pt_ok (k_mem k) root l → grown root k l k l.
Proof.
  intros. split; try done; [apply rest_eq_refl|apply took_refl].
Qed.

Lemma grown_trans root k1 l1 k2 l2 k3 l3 :
  grown root k1 l1 k2 l2 → grown root k2 l2 k3 l3 → grown root k1 l1 k3 l3.
Proof.
  intros H1 H2. split; [by apply H2|by apply H2|by apply H2| | | | |].
  - eapply rest_eq_trans; [apply H1|apply H2].
  - apply H2.
  - intros va. by rewrite (g_leaf _ _ _ _ _ H2), (g_leaf _ _ _ _ _ H1).
  - intros n a Hn Hf. apply (g_frames _ _ _ _ _ H2), (g_frames _ _ _ _ _ H1); done.
  - eapply took_trans; [apply H1|apply H2].
Qed.

Lemma memset_zero_page m p : ∀ a, p ≤ a < p + PGSIZE → mem_get (memset m p 0 PGSIZE) a = 0.
Proof. intros a Ha. rewrite mem_get_memset, decide_True by done. done. Qed.

Lemma kmem_ok_mem m k l : kmem_ok k l → chain m (k_freelist k) l → kmem_ok (k <| k_mem := m |>) l.
Proof. intros [Hc Hnd Hp] H. by split. Qed.

Lemma grown_install k l p root n c t x m1 f :
  0 < img_end → ready k → unlocked LKmem k → kmem_ok k (p :: l) → pt_ok (k_mem k) root (p :: l) →
  node_ok n → 0 ≤ x < 512 → kid n x = Some c → frame (k_mem k) root n = Some t → child (k_mem k) t x = None →
  chain m1 f l → only_page p (k_mem k) m1 → (∀ a, p ≤ a < p + PGSIZE → mem_get m1 a = 0) →
  let m2 := store64 m1 (t + 8 * x) (Z.lor (PA2PTE p) PTE_V) in
  grown root k (p :: l) (kmem_upd m2 f (settle k)) l ∧ frame m2 root c = Some p.
Proof.
  intros He Hr Hu Hk Hpt Hn Hx Hc Ht Hnone Hch Ho1 Hz m2.
  pose proof (km_pages _ _ Hk) as Hpg. apply Forall_cons in Hpg as [Hp Hpg].
  pose proof (km_nodup _ _ Hk) as Hnd.
  pose proof (install_frame (k_mem k) m1 root l p He Hpt Hp Ho1 Hz n c t x Hn Hx Hc Ht Hnone) as Hfr.
  pose proof (install_fresh (k_mem k) root l p Hpt n t Hn Ht) as [Htp Htm].
  assert (Hcok : node_ok c) by (clear -Hn Hx Hc; destruct n; simplify_eq/=; done).
  assert (Hkn : frame (k_mem k) root c = None)
    by (clear -Hc Ht Hnone; destruct n; simplify_eq/=; [done|by rewrite Ht]).
  fold m2 in Hfr. split; [|by rewrite Hfr, decide_True].
  split.
  - apply NoDup_cons in Hnd as [Hni Hnd]. split; [|done..].
    change (chain m2 f l). eapply (chain_only_page t m1); [done| | |done|done].
    + intros a Ha. apply mem_get_store_out. unfold PGSIZE in *. lia.
    + intros Hin. apply (pt_fresh _ _ _ Hpt n t Hn Ht). by right.
  - klock.
  - klock.
  - apply (rest_eq_upd _ f).
  - change (pt_ok m2 root l). eapply install_ok with (m := k_mem k) (n := n) (c := c); eassumption.
  - intros va. change (leaf m2 root va = leaf (k_mem k) root va).
    eapply install_leaf with (n := n) (c := c); eassumption.
  - intros nn a Hnn Hf. change (frame m2 root nn = Some a).
    rewrite Hfr by done. case_decide as Hd; [|done]. congruence.
  - exists [p]. split_and!; [done| |].
    + intros nn a Hnn. change (frame m2 root nn = Some a → frame (k_mem k) root nn = Some a ∨ a ∈ [p]).
      rewrite Hfr by done. case_decide; [intros [= <-]; right; set_solver|by left].
    + intros a Hnf Ha. change (mem_get m2 a = mem_get (k_mem k) a).
      eapply install_frames_out with (n := n); [eassumption..|]. apply Ha. set_solver.
Qed.

Lemma grown_settle root k l :
  kmem_ok k l → ready k → unlocked LKmem k → pt_ok (k_mem k) root l → grown root k l (settle k) l.
Proof.
  intros [] ? ? ?. split; try done; [klock|apply (rest_eq_upd (k_mem k) (k_freelist k))|apply took_refl].
Qed.

(** One level of [walk] with allocation. *)
Lemma walk_level_alloc root k l va level n c t :
  0 < img_end → ready k → unlocked LKmem k → kmem_ok k l → pt_ok (k_mem k) root l →
  node_ok n → kid n (PX level va) = Some c → frame (k_mem k) root n = Some t →
  wp (walk_level va true level t) (fun r k' => ∃ l', grown root k l k' l' ∧
    match r with
    | Some t' => frame (k_mem k') root c = Some t'
    | None => l' = []
    end) k.
Proof.
  intros He Hr Hu Hk Hpt Hn Hc Ht. unfold walk_level. pose proof (PX_range level va) as Hx.
  apply wp_bind, wp_load_pte.
  destruct (has (load64 (k_mem k) (t + 8 * PX level va)) PTE_V) eqn:E.
  { apply wp_ret. exists l. split; [by apply grown_refl|].
    assert (Hch : child (k_mem k) t (PX level va) = Some (PTE2PA (load64 (k_mem k) (t + 8 * PX level va))))
      by (unfold child; by rewrite E).
    destruct n; simplify_eq/=; [done|]. rewrite Ht. done. }
  assert (Hnone : child (k_mem k) t (PX level va) = None) by (unfold child; by rewrite E).
  cbn [negb]. apply wp_bind. destruct l as [|p l].
  { apply wp_kalloc_empty; [done..|apply Hk|]. apply wp_ret.
    exists []. split; [by apply grown_settle|done]. }
  apply (wp_kalloc _ k p l); [done..|]. intros m f Hk1 Ho. pose proof (km_pages _ _ Hk) as Hpg. apply Forall_cons in Hpg as [Hp Hpg].
  assert ((p =? 0) = false) as -> by (destruct Hp; lia).
  apply wp_bind, wp_mem_mod, wp_bind, wp_store_pte, wp_ret. exists l. rewrite !kmem_upd_mem, mem_kmem_upd.
  pose proof (km_nodup _ _ Hk) as Hnd. apply NoDup_cons in Hnd as [Hni _].
  assert (Ho1 : only_page p (k_mem k) (memset m p 0 PGSIZE))
    by (eapply only_page_trans; [apply Ho|apply only_page_memset]).
  pose proof (memset_zero_page m p) as Hz.
  assert (Hch : chain (memset m p 0 PGSIZE) f l).
  { eapply (chain_only_page p m); [apply Hp|apply only_page_memset|done|done|apply Hk1]. }
  revert Ho1 Hz Hch. generalize (memset m p 0 PGSIZE) as m1. intros m1 Ho1 Hz Hch.
  by apply (grown_install k l p root n c t (PX level va) m1 f).
Qed.

Lemma walk_alloc root k l va :
  0 < img_end → ready k → unlocked LKmem k → kmem_ok k l → pt_ok (k_mem k) root l → va < MAXVA →
  wp (walk root va true) (fun r k' => ∃ l', grown root k l k' l' ∧
    ((r = 0 ∧ l' = []) ∨
     ∃ t, frame (k_mem k') root (N0 (PX 2 va) (PX 1 va)) = Some t ∧ r = t + 8 * PX 0 va)) k.
Proof.
  intros He Hr Hu Hk Hpt Hva. unfold walk. rewrite (proj2 (Z.leb_gt _ _)) by done.
  pose proof (PX_range 2 va). pose proof (PX_range 1 va).
  apply wp_bind. eapply wp_mono; [by eapply (walk_level_alloc root k l va 2 NRoot (N1 (PX 2 va)))|].
  intros [t1|] k1 (l1 & Hg1 & Ht1); [|apply wp_ret; exists l1; auto].
  apply wp_bind. eapply wp_mono.
  { apply (walk_level_alloc root k1 l1 va 1 (N1 (PX 2 va)) (N0 (PX 2 va) (PX 1 va))); try done; apply Hg1. }
  intros [t0|] k2 (l2 & Hg2 & Ht0); apply wp_ret; exists l2; (split; [by eapply grown_trans|]).
  - right. by exists t0.
  - by left.
Qed.

(** ** Setting a leaf *)

Lemma leaf_slot m root va t :
  frame m root (N0 (PX 2 va) (PX 1 va)) = Some t → leaf m root va = load64 m (t + 8 * PX 0 va).
Proof. unfold leaf. by intros ->. Qed.

Section set_leaf.
Context (m : mem) (root : Z) (l : list Z) (va v t : Z).
Context (Hpt : pt_ok m root l) (Hva : 0 ≤ va < MAXVA) (Hv : 0 ≤ v < 2 ^ 64).
Context (Ht : frame m root (N0 (PX 2 va) (PX 1 va)) = Some t).
Let n0 := N0 (PX 2 va) (PX 1 va).
Let m' := store64 m (t + 8 * PX 0 va) v.

Lemma set_leaf_node : node_ok n0.
Proof. pose proof (PX_range 2 va). pose proof (PX_range 1 va). simpl. lia. Qed.

Lemma set_leaf_frame n : node_ok n → frame m' root n = frame m root n.
Proof.
  intros Hn. pose proof set_leaf_node as Hn0. pose proof (PX_range 0 va).
  pose proof (proj1 (pt_page _ _ _ Hpt n0 t Hn0 Ht)) as Htm.
  assert (Hch : ∀ nn t' i, node_ok nn → nn ≠ n0 → frame m root nn = Some t' → 0 ≤ i < 512 → child m' t' i = child m t' i).
  { intros nn t' i Hnn Hne Hf Hi. apply child_store_other; [done|by apply (pt_page _ _ _ Hpt nn)|done..|].
    intros [= -> ->]. by pose proof (pt_inj _ _ _ Hpt nn n0 t Hnn Hn0 Hf Ht). }
  destruct n as [|i|i j]; simpl in *; [done|by apply (Hch NRoot)|].
  rewrite (Hch NRoot root i) by (done || lia). destruct (child m root i) as [t1|] eqn:E; [|done]. simpl.
  apply (Hch (N1 i)); simpl; done || lia.
Qed.

Lemma set_leaf_ok : pt_ok m' root l.
Proof.
  destruct Hpt as [Hp Hf Hi]. split.
  - intros n a Hn. rewrite set_leaf_frame by done. by apply Hp.
  - intros n a Hn. rewrite set_leaf_frame by done. by apply Hf.
  - intros n n' a Hn Hn'. rewrite (set_leaf_frame n), (set_leaf_frame n') by done. by apply Hi.
Qed.

Lemma set_leaf_leaf va' :
  0 ≤ va' < MAXVA → leaf m' root va' = if decide (va' / PGSIZE = va / PGSIZE) then v else leaf m root va'.
Proof.
  intros Hva'. pose proof set_leaf_node as Hn0. pose proof (PX_range 0 va) as Hx0.
  pose proof (PX_range 0 va') as Hx0'. pose proof (PX_range 1 va'). pose proof (PX_range 2 va').
  pose proof (proj1 (pt_page _ _ _ Hpt n0 t Hn0 Ht)) as Htm.
  unfold leaf at 1. rewrite set_leaf_frame by (simpl; lia). case_decide as Hd.
  - rewrite !(PX_page _ va' va) by done. rewrite Ht. unfold m', load64, store64. rewrite load_store_eq.
    by rewrite Z.mod_small.
  - unfold leaf. destruct (frame m root (N0 (PX 2 va') (PX 1 va'))) as [t'|] eqn:E; [|done].
    apply load64_store_other; [done|by eapply (pt_page _ _ _ Hpt (N0 (PX 2 va') (PX 1 va'))); [simpl; lia|]|done..|].
    intros [= -> Hpx]. apply Hd.
    pose proof (pt_inj _ _ _ Hpt (N0 (PX 2 va') (PX 1 va')) n0 t ltac:(simpl; lia) Hn0 E Ht) as [= H1 H2].
    by apply PX_inj.
Qed.

Lemma set_leaf_out a : ¬ in_frames m root a → mem_get m' a = mem_get m a.
Proof.
  intros Hnf. pose proof (PX_range 0 va). apply mem_get_store_out.
  destruct (decide (t ≤ a < t + PGSIZE)) as [Hin|]; [|unfold PGSIZE in *; lia].
  destruct Hnf. exists n0, t. split; [apply set_leaf_node|done].
Qed.

Lemma set_leaf_chain f : Forall is_page l → chain m f l → chain m' f l.
Proof.
  intros Hpg Hc. pose proof set_leaf_node as Hn0. pose proof (PX_range 0 va).
  eapply (chain_only_page t m); [apply (pt_page _ _ _ Hpt n0); done| |by apply (pt_fresh _ _ _ Hpt n0)|done|done].
  intros a Ha. apply mem_get_store_out. unfold PGSIZE in *. lia.
Qed.
End set_leaf.

(** ** mappages *)

Definition entry (pa perm : Z) : Z := Z.lor (Z.lor (PA2PTE pa) perm) PTE_V.

(** The first [i] pages from [va] are mapped to the pages from [pa]; nothing else is. *)
Record mapped (root : Z) (k : kst) (l : list Z) (va pa perm : Z) (i : nat) (k' : kst) (l' : list Z) : Prop := {
  mp_kmem : kmem_ok k' l';
  mp_ready : ready k';
  mp_unlocked : unlocked LKmem k';
  mp_rest : rest_eq k k';
  mp_pt : pt_ok (k_mem k') root l';
  mp_new (j : nat) va' : (j < i)%nat → va' / PGSIZE = va / PGSIZE + Z.of_nat j → 0 ≤ va' < MAXVA →
    leaf (k_mem k') root va' = entry (pa + Z.of_nat j * PGSIZE) perm;
  mp_old va' : 0 ≤ va' < MAXVA → va' / PGSIZE < va / PGSIZE ∨ va / PGSIZE + Z.of_nat i ≤ va' / PGSIZE →
    leaf (k_mem k') root va' = leaf (k_mem k) root va';
  mp_taken : took root (k_mem k) l (k_mem k') l'
}.

Lemma mapped_0 root k l va pa perm :
  kmem_ok k l → ready k → unlocked LKmem k → pt_ok (k_mem k) root l → mapped root k l va pa perm 0 k l.
Proof.
  intros. split; try done; [apply rest_eq_refl|lia|apply took_refl].
Qed.

Lemma mapped_grown root k l va pa perm i k1 l1 k2 l2 :
  mapped root k l va pa perm i k1 l1 → grown root k1 l1 k2 l2 → mapped root k l va pa perm i k2 l2.
Proof.
  intros Hm Hg. split; [apply Hg|apply Hg|apply Hg| |apply Hg| | |].
  - eapply rest_eq_trans; [apply Hm|apply Hg].
  - intros j va' ? ? ?. rewrite (g_leaf _ _ _ _ _ Hg). by apply Hm.
  - intros va' ? ?. rewrite (g_leaf _ _ _ _ _ Hg). by apply Hm.
  - eapply took_trans; [apply Hm|apply Hg].
Qed.

Lemma lor_V_range perm : 0 ≤ perm < 1024 → 0 ≤ Z.lor perm PTE_V < 1024.
Proof.
  intros Hp. unfold PTE_V. change (Z.shiftl 1 0) with 1.
  assert (0 ≤ Z.lor perm 1) by (apply Z.lor_nonneg; lia). split; [done|].
  destruct (decide (Z.lor perm 1 = 0)) as [->|]; [lia|].
  change 1024 with (2 ^ 10). apply Z.log2_lt_pow2; [lia|]. rewrite Z.log2_lor by lia. apply Z.max_lub_lt; [|done].
  destruct (decide (perm = 0)) as [->|]; [done|]. apply Z.log2_lt_pow2; lia.
Qed.

Lemma entry_range pa perm : 0 ≤ pa < 2 ^ 56 → 0 ≤ perm < 1024 → 0 ≤ entry pa perm < 2 ^ 64.
Proof.
  intros. unfold entry. rewrite <- Z.lor_assoc. apply PA2PTE_range; [done|]. by apply lor_V_range.
Qed.

Lemma mapped_set root k l va pa perm i k1 l1 t :
  va mod PGSIZE = 0 → 0 ≤ va → va + Z.of_nat (S i) * PGSIZE ≤ MAXVA →
  0 ≤ pa → pa + Z.of_nat (S i) * PGSIZE ≤ 2 ^ 56 → 0 ≤ perm < 1024 →
  mapped root k l va pa perm i k1 l1 →
  let a := va + Z.of_nat i * PGSIZE in
  frame (k_mem k1) root (N0 (PX 2 a) (PX 1 a)) = Some t →
  mapped root k l va pa perm (S i)
    (k1 <| k_mem ::= fun m => store64 m (t + 8 * PX 0 a) (entry (pa + Z.of_nat i * PGSIZE) perm) |>) l1.
Proof.
  intros Hal Hva Hmax Hpa Hpam Hperm Hm a Ht.
  assert (Ha : 0 ≤ a < MAXVA) by (unfold a, PGSIZE in *; lia).
  assert (Hv : 0 ≤ entry (pa + Z.of_nat i * PGSIZE) perm < 2 ^ 64)
    by (apply entry_range; [unfold PGSIZE in *; lia|done]).
  assert (Hdiv : a / PGSIZE = va / PGSIZE + Z.of_nat i) by (unfold a, PGSIZE; rewrite Z.div_add; lia).
  pose proof (mp_pt _ _ _ _ _ _ _ _ _ Hm) as Hpt.
  set (v := entry (pa + Z.of_nat i * PGSIZE) perm) in *.
  pose proof (set_leaf_leaf (k_mem k1) root l1 a v t Hpt Ha Hv Ht) as Hleaf.
  set (m2 := store64 (k_mem k1) (t + 8 * PX 0 a) v) in *.
  split.
  - pose proof (mp_kmem _ _ _ _ _ _ _ _ _ Hm) as [Hc Hnd Hpg]. split; [|done..].
    change (chain m2 (k_freelist k1) l1). by apply (set_leaf_chain _ root).
  - rewrite ready_set. apply Hm.
  - rewrite unlocked_set. apply Hm.
  - eapply rest_eq_trans; [apply Hm|]. exists m2, (k_freelist k1). rewrite settle_set. by destruct k1.
  - change (pt_ok m2 root l1). by apply set_leaf_ok.
  - intros j va' Hj Hva' Hr. change (leaf m2 root va' = entry (pa + Z.of_nat j * PGSIZE) perm).
    rewrite Hleaf by done. case_decide as Hd; [by replace j with i by lia|]. apply Hm; [|done..].
    destruct (decide (j = i)); [subst; lia|lia].
  - intros va' Hr Hva'. change (leaf m2 root va' = leaf (k_mem k) root va').
    rewrite Hleaf by done. rewrite decide_False by lia. apply Hm; [done|lia].
  - eapply took_trans; [apply Hm|]. change (took root (k_mem k1) l1 m2 l1). exists []. split_and!; [done| |].
    + intros n b Hn. unfold m2. rewrite (set_leaf_frame _ _ l1) by done. by left.
    + intros b Hnf _. by apply (set_leaf_out _ root).
Qed.

Lemma mappages_wp root k l va pa perm (n : nat) :
  0 < img_end → ready k → unlocked LKmem k → kmem_ok k l → pt_ok (k_mem k) root l →
  va mod PGSIZE = 0 → 0 ≤ va → (0 < n)%nat → va + Z.of_nat n * PGSIZE ≤ MAXVA →
  0 ≤ pa → pa + Z.of_nat n * PGSIZE ≤ 2 ^ 56 → 0 ≤ perm < 1024 →
  (∀ va', va ≤ va' < va + Z.of_nat n * PGSIZE → has (leaf (k_mem k) root va') PTE_V = false) →
  wp (mappages root va (Z.of_nat n * PGSIZE) pa perm) (fun r k' =>
    ∃ i l', mapped root k l va pa perm i k' l' ∧
      ((r = 0 ∧ i = n) ∨ (r = -1 ∧ (i < n)%nat ∧ l' = []))) k.
Proof.
  intros He Hr Hu Hk Hpt Hal Hva Hn Hmax Hpa Hpam Hperm Hfree. unfold mappages.
  rewrite Hal. cbn [Z.eqb negb]. rewrite Z.mod_mul by done. cbn [Z.eqb negb].
  rewrite (proj2 (Z.eqb_neq (Z.of_nat n * PGSIZE) 0)) by (unfold PGSIZE; lia).
  rewrite Z.div_mul, Nat2Z.id by done.
  assert (Hlast : u64 (va + Z.of_nat n * PGSIZE - PGSIZE) = va + Z.of_nat (n - 1) * PGSIZE).
  { unfold u64. rewrite wrap_small; unfold PGSIZE in *; rewrite ?MAXVA_val in *; lia. }
  rewrite Hlast.
  eapply (wp_loop (fun '(a, q) k' => ∃ i l', mapped root k l va pa perm i k' l' ∧ (i < n)%nat ∧
            a = va + Z.of_nat i * PGSIZE ∧ q = pa + Z.of_nat i * PGSIZE)
          (fun '(a, q) => (n - 1 - Z.to_nat ((a - va) / PGSIZE))%nat)).
  2:{ exists 0%nat, l. split; [by apply mapped_0|]. split_and!; lia. }
  2:{ lia. }
  intros [a q] k' (i & l' & Hm & Hi & -> & ->). unfold mappages_body.
  set (a := va + Z.of_nat i * PGSIZE). set (q := pa + Z.of_nat i * PGSIZE).
  assert (Ha : 0 ≤ a < MAXVA) by (unfold a, PGSIZE in *; lia).
  assert (Hdiv : a / PGSIZE = va / PGSIZE + Z.of_nat i) by (unfold a, PGSIZE; rewrite Z.div_add; lia).
  apply wp_bind. eapply wp_mono.
  { apply (walk_alloc root k' l' a); try done; [apply Hm..|lia]. }
  intros pte k1 (l1 & Hg & [[-> ->]|(t & Ht & ->)]).
  { apply wp_ret. exists i, []. split; [by eapply mapped_grown|]. right. auto. }
  pose proof (PX_range 0 a). pose proof (PX_range 1 a). pose proof (PX_range 2 a).
  pose proof (pt_page _ _ _ (g_pt _ _ _ _ _ Hg) (N0 (PX 2 a) (PX 1 a)) t ltac:(simpl; lia) Ht) as [_ Htp].
  rewrite (proj2 (Z.eqb_neq (t + 8 * PX 0 a) 0)) by lia.
  apply wp_bind, wp_load_pte. rewrite <- (leaf_slot _ root a t Ht).
  rewrite (g_leaf _ _ _ _ _ Hg), (mp_old _ _ _ _ _ _ _ _ _ Hm a Ha) by lia.
  rewrite Hfree by (unfold a, PGSIZE; lia).
  apply wp_bind, wp_store_pte.
  assert (Hm' : mapped root k l va pa perm (S i)
    (k1 <| k_mem ::= fun m => store64 m (t + 8 * PX 0 a) (entry q perm) |>) l1).
  { apply mapped_set; try done; [unfold PGSIZE in *; lia..|by eapply mapped_grown]. }
  destruct (Z.eqb_spec a (va + Z.of_nat (n - 1) * PGSIZE)) as [Heq|Hne]; apply wp_ret.
  { exists (S i), l1. split; [done|]. left. unfold a, PGSIZE in Heq. lia. }
  assert (i ≠ n - 1)%nat by (intros ->; done).
  assert (u64 (a + PGSIZE) = va + Z.of_nat (S i) * PGSIZE) as ->.
  { unfold u64. rewrite wrap_small; unfold a, PGSIZE in *; rewrite ?MAXVA_val in *; lia. }
  assert (u64 (q + PGSIZE) = pa + Z.of_nat (S i) * PGSIZE) as ->.
  { unfold u64. rewrite wrap_small; unfold q, PGSIZE in *; lia. }
  split.
  - exists (S i), l1. split; [done|]. split_and!; [lia|done..].
  - unfold a. replace (va + Z.of_nat (S i) * PGSIZE - va) with (Z.of_nat (S i) * PGSIZE) by lia.
    replace (va + Z.of_nat i * PGSIZE - va) with (Z.of_nat i * PGSIZE) by lia.
    rewrite !Z.div_mul by done. lia.
Qed.

(** ** Address spaces the copies can work on *)

Lemma walk_slots_frames m root va s :
  s ∈ walk_slots m root va → ∃ n t x, node_ok n ∧ frame m root n = Some t ∧ 0 ≤ x < 512 ∧ s = t + 8 * x.
Proof.
  pose proof (PX_range 0 va). pose proof (PX_range 1 va). pose proof (PX_range 2 va).
  unfold walk_slots. rewrite elem_of_cons. intros [->|Hs].
  { exists NRoot, root, (PX 2 va). done. }
  destruct (has (load64 m (root + 8 * PX 2 va)) PTE_V) eqn:E2; [|by apply elem_of_nil in Hs].
  assert (Hc1 : child m root (PX 2 va) = Some (PTE2PA (load64 m (root + 8 * PX 2 va))))
    by (unfold child; by rewrite E2).
  apply elem_of_cons in Hs as [->|Hs].
  { exists (N1 (PX 2 va)). eexists _, (PX 1 va). split; [done|]. split; [exact Hc1|done]. }
  destruct (has (load64 m (PTE2PA (load64 m (root + 8 * PX 2 va)) + 8 * PX 1 va)) PTE_V) eqn:E1;
    [|by apply elem_of_nil in Hs].
  apply list_elem_of_singleton in Hs as ->.
  exists (N0 (PX 2 va) (PX 1 va)). eexists _, (PX 0 va). split; [done|]. split; [|done].
  cbn [frame]. rewrite Hc1. cbn [mbind option_bind]. unfold child. by rewrite E1.
Qed.

Lemma pte_slot_frame m root va :
  pte_slot m root va = (fun t => t + 8 * PX 0 va) <$> frame m root (N0 (PX 2 va) (PX 1 va)).
Proof.
  unfold pte_slot, frame, child.
  destruct (has (load64 m (root + 8 * PX 2 va)) PTE_V); cbn [mbind option_bind]; [|done].
  by destruct (has (load64 m (PTE2PA (load64 m (root + 8 * PX 2 va)) + 8 * PX 1 va)) PTE_V).
Qed.

Lemma upage_leaf m root va :
  0 ≤ va < MAXVA → (∀ t, frame m root (N0 (PX 2 va) (PX 1 va)) = Some t → 0 < t) →
  has (leaf m root va) PTE_V = true → has (leaf m root va) PTE_U = true →
  upage false m root va = Some (PTE2PA (leaf m root va)).
Proof.
  intros Hva Hpos HV HU. unfold upage. rewrite (proj2 (Z.leb_gt _ _)), pte_slot_frame by lia.
  unfold leaf in *. destruct (frame m root (N0 (PX 2 va) (PX 1 va))) as [t|]; [|done].
  simpl. pose proof (PX_range 0 va). specialize (Hpos t eq_refl).
  rewrite (proj2 (Z.eqb_neq _ _)) by lia. by rewrite HV, HU.
Qed.

Lemma upage_leaf_inv w m root va pa :
  upage w m root va = Some pa →
  va < MAXVA ∧ has (leaf m root va) PTE_V = true ∧ pa = PTE2PA (leaf m root va).
Proof.
  unfold upage. destruct (Z.leb_spec MAXVA va); [done|]. rewrite pte_slot_frame. unfold leaf.
  destruct (frame m root (N0 (PX 2 va) (PX 1 va))) as [t|]; [|done]. cbn [fmap option_fmap option_map].
  destruct (t + 8 * PX 0 va =? 0); [done|]. destruct (has _ PTE_V); [|done].
  cbn [andb]. destruct (_ && _); [|done]. by intros [= <-].
Qed.

(** A tree whose user frames are not tables, not frame 0 and mapped once. *)
Lemma uspace_of_tree m root l :
  pt_ok m root l →
  (∀ va pa, 0 ≤ va → upage false m root va = Some pa → pa ≠ 0 ∧ ∀ n t, node_ok n → frame m root n = Some t → t ≠ pa) →
  (∀ va va' pa, 0 ≤ va → 0 ≤ va' → upage false m root va = Some pa → upage false m root va' = Some pa →
     va / PGSIZE = va' / PGSIZE) →
  uspace_ok m root.
Proof.
  intros Hpt Huser Hinj. split.
  - intros va va' pa s Hva Hva' Hu Hs. pose proof (upage_aligned _ _ _ _ _ Hu) as Hal.
    apply upage_weaken in Hu. destruct (Huser va pa Hva Hu) as [_ Hnt].
    apply walk_slots_frames in Hs as (n & t & x & Hn & Hf & Hx & ->).
    pose proof (pages_disjoint t pa (proj1 (pt_page _ _ _ Hpt n t Hn Hf)) Hal (Hnt n t Hn Hf)).
    unfold PGSIZE in *. lia.
  - intros va pa Hva Hu. by apply (Huser va pa Hva Hu).
  - intros va va' pa Hva Hva' Hu Hu' Hm Hm'. apply upage_weaken in Hu.
    pose proof (Hinj va va' pa Hva Hva' Hu Hu'). unfold PGSIZE in *.
    pose proof (Z.div_mod va 4096). pose proof (Z.div_mod va' 4096). lia.
Qed.

(** ** Theorems *)

(** C12: [mappages] on a page-aligned, unmapped range of [n > 0] pages either returns 0
    with exactly those [n] pages mapped to the physical pages from [pa] with the given
    permissions, or returns -1 because the free list ran out, with a prefix of them
    mapped. Every other virtual page keeps its entry, the tree of tables stays
    well formed, new tables come off the front of the free list, and no memory outside
    the tables and the pages taken changes. *)
Theorem mappages_correct (root : Z) (k : kst) (l : list Z) (va pa perm : Z) (n : nat) :
  0 < img_end → ready k → unlocked LKmem k → kmem_ok k l → pt_ok (k_mem k) root l →
  va mod PGSIZE = 0 → 0 ≤ va → (0 < n)%nat → va + Z.of_nat n * PGSIZE ≤ MAXVA →
  0 ≤ pa → pa + Z.of_nat n * PGSIZE ≤ 2 ^ 56 → 0 ≤ perm < 1024 →
  (∀ va', va ≤ va' < va + Z.of_nat n * PGSIZE → has (leaf (k_mem k) root va') PTE_V = false) →
  ∃ r k' i l', mappages root va (Z.of_nat n * PGSIZE) pa perm k = Ok r k' ∧
    mapped root k l va pa perm i k' l' ∧
    ((r = 0 ∧ i = n) ∨ (r = -1 ∧ (i < n)%nat ∧ l' = [])).
Proof.
  intros. destruct (proj1 (wp_Ok _ _ _) (mappages_wp root k l va pa perm n ltac:(done) ltac:(done)
    ltac:(done) ltac:(done) ltac:(done) ltac:(done) ltac:(done) ltac:(done) ltac:(done) ltac:(done)
    ltac:(done) ltac:(done) ltac:(done))) as (r & k' & E & i & l' & Hm & Hr).
  by exists r, k', i, l'.
Qed.

Lemma has_entry_perm pa perm fl :
  Z.land perm fl ≠ 0 → 0 ≤ pa → 0 ≤ perm → 0 ≤ fl → has (entry pa perm) fl = true.
Proof.
  intros H Hpa Hperm Hfl. unfold has, entry. apply negb_true_iff, Z.eqb_neq. intros E.
  rewrite !Z.land_lor_distr_l in E. apply Z.lor_eq_0_iff in E as [E _]. by apply Z.lor_eq_0_iff in E as [_ E].
Qed.

(** A user mapping made by [mappages] is what [walkaddr] finds: after it returned 0,
    every page of the range translates to the corresponding physical page. *)
Theorem mappages_walkaddr (root : Z) (k k' : kst) (l : list Z) (va pa perm : Z) (n : nat) :
  0 < img_end → ready k → unlocked LKmem k → kmem_ok k l → pt_ok (k_mem k) root l →
  va mod PGSIZE = 0 → 0 ≤ va → (0 < n)%nat → va + Z.of_nat n * PGSIZE ≤ MAXVA →
  pa mod PGSIZE = 0 → 0 ≤ pa → pa + Z.of_nat n * PGSIZE ≤ 2 ^ 56 → 0 ≤ perm < 1024 → Z.land perm PTE_U ≠ 0 →
  (∀ va', va ≤ va' < va + Z.of_nat n * PGSIZE → has (leaf (k_mem k) root va') PTE_V = false) →
  mappages root va (Z.of_nat n * PGSIZE) pa perm k = Ok 0 k' →
  ∀ j : nat, (j < n)%nat →
    walkaddr root (va + Z.of_nat j * PGSIZE) k' = Ok (pa + Z.of_nat j * PGSIZE) k'.
Proof.
  intros He Hr Hu Hk Hpt Hal Hva Hn Hmax Hpal Hpa Hpam Hperm HU Hfree E.
  destruct (proj1 (wp_Ok _ _ _) (mappages_wp root k l va pa perm n He Hr Hu Hk Hpt Hal Hva Hn Hmax Hpa Hpam
    Hperm Hfree)) as (r & k1 & E1 & i & l' & Hm & Hcase). rewrite E in E1. injection E1 as <- <-.
  assert (i = n) as -> by (destruct Hcase as [[_ ?]|[? _]]; [done|lia]).
  pose proof (mp_pt _ _ _ _ _ _ _ _ _ Hm) as Hpt'.
  assert (Hpos : ∀ va' t, frame (k_mem k') root (N0 (PX 2 va') (PX 1 va')) = Some t → 0 < t).
  { intros va' t Ht. pose proof (PX_range 2 va'). pose proof (PX_range 1 va').
    pose proof (pt_page _ _ _ Hpt' (N0 (PX 2 va') (PX 1 va')) t ltac:(simpl; lia) Ht) as [_ ?]. lia. }
  assert (Hleaf : ∀ j : nat, (j < n)%nat →
    leaf (k_mem k') root (va + Z.of_nat j * PGSIZE) = entry (pa + Z.of_nat j * PGSIZE) perm).
  { intros j Hj. apply (mp_new _ _ _ _ _ _ _ _ _ Hm j); [done|unfold PGSIZE; rewrite Z.div_add; lia|].
    unfold PGSIZE in *. lia. }
  intros j Hj. rewrite walkaddr_eq, upage_leaf; [| |apply Hpos|..].
  - rewrite Hleaf by done. unfold entry. rewrite <- Z.lor_assoc. simpl. f_equal.
    apply PTE2PA_PA2PTE; [by rewrite Z.mod_add by done|unfold PGSIZE in *; lia|].
    by apply lor_V_range.
  - unfold PGSIZE in *. lia.
  - rewrite Hleaf by done. apply has_lor_V.
  - rewrite Hleaf by done. apply has_entry_perm; [done|unfold PGSIZE; lia|lia|done].
Qed.
End tree.

(** ** Witnesses: an empty table, two free pages *)

Definition demo_img4 : image := Build_image (PHYSTOP - 4 * PGSIZE) 0x81008000 0x81007000 0x81007000 0x8100709c 0x81005000 0x81001a00 0x81002000.
Definition demo_root : Z := PHYSTOP - PGSIZE.
Definition demo_p1 : Z := PHYSTOP - 2 * PGSIZE.
Definition demo_p2 : Z := PHYSTOP - 3 * PGSIZE.
Definition demo_mem : mem := store64 (store64 ∅ demo_p1 demo_p2) demo_p2 0.
Definition demo_vm : kst := kmem_upd demo_mem demo_p1 demo_k.

Lemma demo_vm_ready : ready demo_vm ∧ unlocked LKmem demo_vm.
Proof. exact demo_ready. Qed.

Lemma demo_vm_kmem : @kmem_ok demo_img4 demo_vm [demo_p1; demo_p2].
Proof.
  split; [split; [done|split; by vm_compute]| |]; repeat constructor; try done; set_solver.
Qed.

Lemma demo_child i : 0 ≤ i < 512 → child demo_mem demo_root i = None.
Proof.
  intros Hi. apply child_zero; [done|]. intros a Ha. unfold demo_mem, store64.
  unfold demo_root, demo_p1, demo_p2, PHYSTOP, KERNBASE, PGSIZE in *.
  rewrite !mem_get_store_out by lia. done.
Qed.

Lemma demo_vm_pt : @pt_ok demo_img4 (k_mem demo_vm) demo_root [demo_p1; demo_p2].
Proof.
  change (k_mem demo_vm) with demo_mem.
  assert (Hn : ∀ n a, node_ok n → frame demo_mem demo_root n = Some a → n = NRoot ∧ a = demo_root).
  { intros [|i|i j] a Hn; simpl in *; [naive_solver|by rewrite demo_child|by rewrite demo_child by lia]. }
  split.
  - intros n a Hn0 [-> ->]%Hn; [|done]. by split; vm_compute.
  - intros n a Hn0 [-> ->]%Hn; [|done]. rewrite !not_elem_of_cons. split_and!; [done..|apply not_elem_of_nil].
  - intros n n' a Hn0 Hn1 [-> _]%Hn [-> _]%Hn; done.
Qed.

Lemma demo_vm_unmapped va' : has (leaf (k_mem demo_vm) demo_root va') PTE_V = false.
Proof.
  unfold leaf. simpl. change (k_mem demo_vm) with demo_mem. rewrite demo_child by apply PX_range. done.
Qed.

Lemma mappages_correct_witness :
  ∃ r k' i l', @mappages demo_root 0x1000 (Z.of_nat 1 * PGSIZE) 0x81003000 22 demo_vm = Ok r k' ∧
    @mapped demo_img4 demo_root demo_vm [demo_p1; demo_p2] 0x1000 0x81003000 22 i k' l'.
Proof.
  destruct (@mappages_correct demo_img4 demo_root demo_vm [demo_p1; demo_p2] 0x1000 0x81003000 22 1)
    as (r & k' & i & l' & E & Hm & _);
    [done|apply demo_vm_ready|apply demo_vm_ready|apply demo_vm_kmem|apply demo_vm_pt|done|done|lia|done|done|done|done| |].
  - intros va' _. apply demo_vm_unmapped.
  - exists r, k', i, l'. split; [exact E|exact Hm].
Defined.

Definition demo_user : Z := 0x81003000.
Definition demo_mapped : res kst Z := @mappages demo_root 0x1000 (Z.of_nat 1 * PGSIZE) demo_user 22 demo_vm.

Lemma demo_mapped_ok : ∃ k', demo_mapped = Ok 0 k'.
Proof.
  assert (H : match demo_mapped with Ok r _ => r =? 0 | _ => false end = true) by (by vm_compute).
  destruct demo_mapped as [r k'| | | |]; try done. exists k'. f_equal. lia.
Qed.

Lemma mappages_walkaddr_witness :
  ∃ k', demo_mapped = Ok 0 k' ∧ walkaddr demo_root (0x1000 + Z.of_nat 0 * PGSIZE) k' = Ok (demo_user + Z.of_nat 0 * PGSIZE) k'.
Proof.
  pose proof (fun k' => @mappages_walkaddr demo_img4 demo_root demo_vm k' [demo_p1; demo_p2] 0x1000 demo_user 22 1
    ltac:(done) (proj1 demo_vm_ready) (proj2 demo_vm_ready) demo_vm_kmem demo_vm_pt ltac:(done) ltac:(done) ltac:(lia)
    ltac:(done) ltac:(done) ltac:(done) ltac:(done) ltac:(done) ltac:(done)
    (fun va' _ => demo_vm_unmapped va')) as H.
  destruct demo_mapped_ok as [k' E]. exists k'. split; [exact E|]. apply (H k' E). lia.
Defined.

(** The address space with that one page is fit for the copies. *)
Lemma demo_uspace k' : demo_mapped = Ok 0 k' → uspace_ok (k_mem k') demo_root.
Proof.
  destruct (proj1 (wp_Ok _ _ _) (@mappages_wp demo_img4 demo_root demo_vm [demo_p1; demo_p2] 0x1000 demo_user 22 1
    ltac:(done) (proj1 demo_vm_ready) (proj2 demo_vm_ready) demo_vm_kmem demo_vm_pt ltac:(done) ltac:(done) ltac:(lia)
    ltac:(done) ltac:(done) ltac:(done) ltac:(done) (fun va' _ => demo_vm_unmapped va')))
    as (r & k1 & E1 & i & l' & Hm & Hc).
  intros E. unfold demo_mapped in E. rewrite E in E1. injection E1 as <- <-. clear E.
  assert (i = 1%nat) as -> by (destruct Hc as [[_ ?]|[? _]]; [done|lia]).
  assert (Hu : ∀ va pa, 0 ≤ va → upage false (k_mem k') demo_root va = Some pa → va / PGSIZE = 1 ∧ pa = demo_user).
  { intros va pa Hva (Hmax & HV & ->)%upage_leaf_inv. destruct (decide (va / PGSIZE = 1)) as [Hd|Hd].
    - split; [done|].
      rewrite (mp_new _ _ _ _ _ _ _ _ _ Hm 0%nat va) by (lia || exact Hd). by vm_compute.
    - rewrite (mp_old _ _ _ _ _ _ _ _ _ Hm va) in HV; [by rewrite demo_vm_unmapped in HV|lia|].
      change (0x1000 / PGSIZE) with 1. lia. }
  apply (@uspace_of_tree demo_img4 _ _ l'); [apply Hm| |].
  - intros va pa Hva [_ ->]%Hu; [|done]. split; [done|]. intros n t Hn Hf.
    destruct (mp_taken _ _ _ _ _ _ _ _ _ Hm) as (taken & Ht & Hnew & _).
    destruct (Hnew n t Hn Hf) as [Hold|Hin].
    + destruct (@pt_page demo_img4 _ _ _ demo_vm_pt n t Hn Hold) as [_ Hr]. intros ->. destruct Hr as [Hr _]. vm_compute in Hr. by apply Hr.
    + assert (t ∈ [demo_p1; demo_p2]) as Hin' by (rewrite Ht; set_solver). intros ->.
      rewrite !elem_of_cons, elem_of_nil in Hin'. destruct Hin' as [H|[H|[]]]; by vm_compute in H.
  - intros va va' pa Hva Hva' [-> _]%Hu [-> _]%Hu; done.
Qed.

Lemma copyout_correct_witness :
  ∃ k' r n m', demo_mapped = Ok 0 k' ∧ copyout demo_root 0x1ffe [104; 105] k' = Ok r (k' <| k_mem := m' |>) ∧
    ustored (k_mem k') demo_root 0x1ffe [104; 105] n m'.
Proof.
  destruct demo_mapped_ok as [k' E].
  destruct (copyout_correct demo_root 0x1ffe [104; 105] k' ltac:(lia) (demo_uspace k' E))
    as (r & n & m' & E1 & Hst & _). exists k', r, n, m'. split; [exact E|]. split; [exact E1|exact Hst].
Defined.

Definition and_then (r : res kst Z) (m : K Z) : res kst Z := match r with Ok _ k' => m k' | r => r end.
Definition demo_copied : res kst Z := and_then demo_mapped (copyout demo_root 0x1ffe [104; 105]).

Lemma copyin_copyout_witness :
  ∃ k', demo_copied = Ok 0 k' ∧ copyin demo_root 0x1ffe 2 k' = Ok (0, [104; 105]) k'.
Proof.
  assert (H : match demo_copied with Ok r _ => r =? 0 | _ => false end = true) by (by vm_compute).
  unfold demo_copied, and_then in *. destruct demo_mapped_ok as [k E]. rewrite E in *.
  destruct (copyout demo_root 0x1ffe [104; 105] k) as [r k'| | | |] eqn:Ec; try discriminate H.
  apply Z.eqb_eq in H. subst r. exists k'. split; [reflexivity|].
  exact (copyin_copyout demo_root 0x1ffe [104; 105] k k' ltac:(lia) (demo_uspace k E) Ec).
Defined.

Lemma copyinstr_correct_witness :
  ∃ r bs, copyinstr demo_root 0x1ffe 5 demo_vm = Ok (r, bs) demo_vm ∧ Z.of_nat (length bs) ≤ 5.
Proof.
  destruct (copyinstr_correct demo_root 0x1ffe 5 demo_vm ltac:(done) ltac:(done)) as (r & bs & E & _ & H & _).
  exists r, bs. split; [exact E|exact H].
Defined.
