(* ===== verification/Proc.v ===== *)
(** * Processes: the process table, sleep and wakeup (proc.c, sleeplock.c)

    The part of proc.c below the file system: allocation and release of process
    slots and of their page tables, [growproc], [wait], [kill], [sched], [yield],
    [sleep], [wakeup], [scheduler], and the sleep locks built on them.  [swtch] into
    the scheduler is one environment step: whatever the rest of the system does
    until this process runs again. *)

From S2P Require Import Prelude Mem CString Kernel Spinlock Kalloc Vm.

Notation "⇑ m" := (lift m) (at level 9, m at level 9).

(** The current process; a null [struct proc *] is dereferenced when there is none. *)
Definition curproc : K nat := let! p := myproc in of_option p.

(** struct trapframe: byte offsets of the fields in its page. *)
Definition tf_kernel_satp : Z := 0.
Definition tf_kernel_sp : Z := 8.
Definition tf_kernel_trap : Z := 16.
Definition tf_epc : Z := 24.
Definition tf_kernel_hartid : Z := 32.
Definition tf_sp : Z := 48.
Definition tf_a0 : Z := 112.
Definition tf_a1 : Z := 120.
Definition tf_a2 : Z := 128.
Definition tf_a3 : Z := 136.
Definition tf_a4 : Z := 144.
Definition tf_a5 : Z := 152.
Definition tf_a7 : Z := 168.
Definition TRAPFRAME_SIZE : Z := 288.

Definition tf_get (p : nat) (off : Z) : K Z :=
  let! pr := get_proc p in gets (fun k => load64 (k_mem k) (p_trapframe pr + off)).
Definition tf_set (p : nat) (off v : Z) : K unit :=
  let! pr := get_proc p in mem_mod (fun m => store64 m (p_trapframe pr + off) v).

(** The indices of the process table, in order. *)
Definition for_procs (body : nat → K unit) : K unit := for_ 0 NPROC (fun i => body (Z.to_nat i)).

Definition procinit : K unit :=
  initlock LPid "nextpid" ;;;
  initlock LWait "wait_lock" ;;;
  for_procs (fun p =>
    initlock (LProc p) "proc" ;;;
    upd_proc p (fun r => r <| p_state := UNUSED |> <| p_kstack := KSTACK (Z.of_nat p) |>)).

Definition allocpid : K Z :=
  acquire LPid ;;;
  let! pid := gets k_nextpid in
  modify (fun k => k <| k_nextpid := s32 (pid + 1) |>) ;;;
  release LPid ;;;
  ret pid.

Section proc.
Context {I : image}.

Definition proc_pagetable (p : nat) : K Z :=
  let! pagetable := uvmcreate in
  if pagetable =? 0 then ret 0 else
  let! r := mappages pagetable TRAMPOLINE PGSIZE img_trampoline (Z.lor PTE_R PTE_X) in
  if r <? 0 then uvmfree pagetable 0 ;;; ret 0 else
  let! pr := get_proc p in
  let! r := mappages pagetable TRAPFRAME PGSIZE (p_trapframe pr) (Z.lor PTE_R PTE_W) in
  if r <? 0 then
    uvmunmap pagetable TRAMPOLINE 1 false ;;;
    uvmfree pagetable 0 ;;;
    ret 0
  else ret pagetable.

Definition proc_freepagetable (pagetable sz : Z) : K unit :=
  uvmunmap pagetable TRAMPOLINE 1 false ;;;
  uvmunmap pagetable TRAPFRAME 1 false ;;;
  uvmfree pagetable sz.

Definition freeproc (p : nat) : K unit :=
  let! pr := get_proc p in
  (if p_trapframe pr =? 0 then ret tt else kfree (p_trapframe pr)) ;;;
  upd_proc p (fun r => r <| p_trapframe := 0 |>) ;;;
  (if p_pagetable pr =? 0 then ret tt else proc_freepagetable (p_pagetable pr) (p_sz pr)) ;;;
  upd_proc p (fun r => r <| p_pagetable := 0 |> <| p_sz := 0 |> <| p_pid := 0 |> <| p_parent := None |>
    <| p_name ::= <[0%nat := 0]> |> <| p_chan := None |> <| p_killed := 0 |> <| p_xstate := 0 |>
    <| p_state := UNUSED |>).

(** The search loop: the first UNUSED slot, its lock held. *)
Definition find_unused : K (option nat) :=
  for_find 0 NPROC (fun i =>
    let p := Z.to_nat i in
    acquire (LProc p) ;;;
    let! pr := get_proc p in
    if decide (p_state pr = UNUSED) then ret (Some p)
    else release (LProc p) ;;; ret None).

Definition allocproc : K (option nat) :=
  let! found := find_unused in
  match found with
  | None => ret None
  | Some p =>
      let! pid := allocpid in
      upd_proc p (fun r => r <| p_pid := pid |> <| p_state := USED |>) ;;;
      let! tf := kalloc in
      upd_proc p (fun r => r <| p_trapframe := tf |>) ;;;
      if tf =? 0 then freeproc p ;;; release (LProc p) ;;; ret None else
      let! pt := proc_pagetable p in
      upd_proc p (fun r => r <| p_pagetable := pt |>) ;;;
      if pt =? 0 then freeproc p ;;; release (LProc p) ;;; ret None else
      upd_proc p (fun r => r <| p_context := mkcontext img_forkret (p_kstack r + PGSIZE) (replicate 12 0) |>) ;;;
      ret (Some p)
  end.

(** [sz + n] is [uint64 + int]. *)
Definition growproc (n : Z) : K Z :=
  let! p := curproc in
  let! pr := get_proc p in
  let sz := p_sz pr in
  if 0 <? n then
    let! sz := uvmalloc (p_pagetable pr) sz (u64 (sz + n)) PTE_W in
    if sz =? 0 then ret (-1) else
    upd_proc p (fun r => r <| p_sz := sz |>) ;;; ret 0
  else
    let! sz := (if n <? 0 then uvmdealloc (p_pagetable pr) sz (u64 (sz + n)) else ret sz) in
    upd_proc p (fun r => r <| p_sz := sz |>) ;;; ret 0.
End proc.

(** ** Wakeup and kill *)

(** The argument is a pointer, possibly null ([wakeup(p->parent)]). *)
Definition wakeup_ptr (ch : option chan) : K unit :=
  for_procs (fun p =>
    let! me := myproc in
    if decide (me = Some p) then ret tt else
    acquire (LProc p) ;;;
    let! pr := get_proc p in
    (if decide (p_state pr = SLEEPING ∧ p_chan pr = ch)
     then upd_proc p (fun r => r <| p_state := RUNNABLE |>) else ret tt) ;;;
    release (LProc p)).
Definition wakeup (ch : chan) : K unit := wakeup_ptr (Some ch).

Definition kill (pid : Z) : K Z :=
  let! r := for_find 0 NPROC (fun i =>
    let p := Z.to_nat i in
    acquire (LProc p) ;;;
    let! pr := get_proc p in
    if p_pid pr =? pid then
      upd_proc p (fun r => r <| p_killed := 1 |>) ;;;
      let! pr := get_proc p in
      (if decide (p_state pr = SLEEPING) then upd_proc p (fun r => r <| p_state := RUNNABLE |>) else ret tt) ;;;
      release (LProc p) ;;;
      ret (Some 0)
    else release (LProc p) ;;; ret None) in
  ret (default (-1) r).

Definition setkilled (p : nat) : K unit :=
  acquire (LProc p) ;;;
  upd_proc p (fun r => r <| p_killed := 1 |>) ;;;
  release (LProc p).

Definition killed (p : nat) : K Z :=
  acquire (LProc p) ;;;
  let! pr := get_proc p in
  release (LProc p) ;;;
  ret (p_killed pr).

Definition reparent (p : nat) : K unit :=
  for_procs (fun pp =>
    let! r := get_proc pp in
    if decide (p_parent r = Some p) then
      let! k := get in
      upd_proc pp (fun r => r <| p_parent := k_initproc k |>) ;;;
      wakeup_ptr (ChProc <$> k_initproc k)
    else ret tt).

(** ** Copies between kernel and user or kernel memory *)

Definition either_copyout (user_dst : bool) (dst : Z) (src : list Z) : K Z :=
  let! p := myproc in
  if user_dst then
    let! p := of_option p in
    let! pr := get_proc p in
    copyout (p_pagetable pr) dst src
  else mem_mod (fun m => write_bytes m dst src) ;;; ret 0.

Definition either_copyin (user_src : bool) (src len : Z) : K (Z * list Z) :=
  let! p := myproc in
  if user_src then
    let! p := of_option p in
    let! pr := get_proc p in
    copyin (p_pagetable pr) src len
  else
    let! bs := gets (fun k => read_bytes (k_mem k) src (Z.to_nat len)) in
    ret (0, bs).

(** ** Giving up the processor *)

(** [swtch] to the scheduler returns when some scheduler chose this process again. *)
Definition sched : KM unit :=
  let! p := ⇑ curproc in
  let! h := ⇑ (holding (LProc p)) in
  if negb h then panic "sched p->lock" else
  let! i := ⇑ mycpu in
  let! c := ⇑ (get_cpu i) in
  if negb (noff c =? 1) then panic "sched locks" else
  let! pr := ⇑ (get_proc p) in
  if decide (p_state pr = RUNNING) then panic "sched running" else
  let! on := ⇑ intr_get in
  if (on : bool) then panic "sched interruptible" else
  env_step ;;;
  let! i := ⇑ mycpu in
  ⇑ (upd_cpu i (fun r => r <| intena := intena c |>)).

Definition yield : KM unit :=
  let! p := ⇑ curproc in
  ⇑ (acquire (LProc p)) ;;;
  ⇑ (upd_proc p (fun r => r <| p_state := RUNNABLE |>)) ;;;
  sched ;;;
  ⇑ (release (LProc p)).

Definition sleep (ch : chan) (lk : lockid) : KM unit :=
  let! p := ⇑ curproc in
  ⇑ (acquire (LProc p)) ;;;
  ⇑ (release lk) ;;;
  ⇑ (upd_proc p (fun r => r <| p_chan := Some ch |> <| p_state := SLEEPING |>)) ;;;
  sched ;;;
  ⇑ (upd_proc p (fun r => r <| p_chan := None |>)) ;;;
  ⇑ (release (LProc p)) ;;;
  ⇑ (acquire lk).

(** A loop that sleeps at most as often as there are environment steps. *)
Definition sleep_loop {A B} (body : A → KM (A + B)) (a : A) : KM B := fun s =>
  loop (S (S (length (snd s)))) body a s.

(** One pass of [wait] over the table: the value to return, or whether there are children. *)
Definition wait_scan {I : image} (p : nat) (addr : Z) : K (option Z * bool) :=
  let fix go (i : Z) (n : nat) (havekids : bool) : K (option Z * bool) :=
    match n with
    | O => ret (None, havekids)
    | S n =>
        let pp := Z.to_nat i in
        let! r := get_proc pp in
        if decide (p_parent r = Some p) then
          acquire (LProc pp) ;;;
          let! r := get_proc pp in
          if decide (p_state r = ZOMBIE) then
            let pid := p_pid r in
            let! me := get_proc p in
            let! bad := (if addr =? 0 then ret false else
                           let! c := copyout (p_pagetable me) addr (le_bytes 4 (p_xstate r)) in
                           ret (c <? 0)) in
            if (bad : bool) then
              release (LProc pp) ;;; release LWait ;;; ret (Some (-1), true)
            else
              freeproc pp ;;; release (LProc pp) ;;; release LWait ;;; ret (Some pid, true)
          else release (LProc pp) ;;; go (i + 1) n true
        else go (i + 1) n havekids
    end in
  go 0 NPROC false.

Definition wait {I : image} (addr : Z) : KM Z :=
  let! p := ⇑ curproc in
  ⇑ (acquire LWait) ;;;
  sleep_loop (fun _ : unit =>
    let! (r, havekids) := ⇑ (wait_scan p addr) in
    match r with
    | Some v => ret (inr v)
    | None =>
        let! dead := (if (havekids : bool) then ⇑ (killed p) else ret 0) in
        if negb havekids || negb (dead =? 0) then ⇑ (release LWait) ;;; ret (inr (-1))
        else sleep (ChProc p) LWait ;;; ret (inl tt)
    end) tt.

(** The loop of [scheduler] over the processes from [i] on; [run p] is what process [p]
    does from [swtch(&c->context, &p->context)] until it switches back. *)
Fixpoint scheduler_loop (run : nat → K unit) (i n : nat) (found : bool) : K bool :=
  match n with
  | O => ret found
  | S n =>
      acquire (LProc i) ;;;
      let! pr := get_proc i in
      let! found :=
        (if decide (p_state pr = RUNNABLE) then
           let! c := mycpu in
           upd_proc i (fun r => r <| p_state := RUNNING |>) ;;;
           upd_cpu c (fun r => r <| c_proc := Some i |>) ;;;
           run i ;;;
           upd_cpu c (fun r => r <| c_proc := None |>) ;;;
           ret true
         else ret found) in
      release (LProc i) ;;;
      scheduler_loop run (S i) n found
  end.

(** One pass of the scheduler over the table. *)
Definition scheduler_pass (run : nat → K unit) : K bool :=
  intr_on ;;;
  let! found := scheduler_loop run 0 NPROC false in
  (if (found : bool) then ret tt else intr_on) ;;;
  ret found.

(** ** sleeplock.c *)

(** A sleep lock is a field of a buffer or of an inode. *)
Class SleepLock := {
  sl_id : lockid;                       (* lk->lk *)
  sl_chan : chan;                       (* the address of the lock *)
  sl_get : K sleeplock;
  sl_upd : (sleeplock → sleeplock) → K unit
}.

Definition buf_lock (b : nat) : SleepLock :=
  {| sl_id := LBuf b; sl_chan := ChBufLock b;
     sl_get := (let! r := get_buf b in ret (b_lock r));
     sl_upd f := upd_buf b (fun r => r <| b_lock ::= f |>) |}.
Definition inode_lock (i : nat) : SleepLock :=
  {| sl_id := LInode i; sl_chan := ChInodeLock i;
     sl_get := (let! r := get_inode i in ret (i_lock r));
     sl_upd f := upd_inode i (fun r => r <| i_lock ::= f |>) |}.

Definition initsleeplock (L : SleepLock) (name : string) : K unit :=
  initlock sl_id "sleep lock" ;;;
  sl_upd (fun r => r <| sl_name := name |> <| sl_locked := 0 |> <| sl_pid := 0 |>).

Definition acquiresleep (L : SleepLock) : KM unit :=
  ⇑ (acquire sl_id) ;;;
  sleep_loop (fun _ : unit =>
    let! r := ⇑ sl_get in
    if negb (sl_locked r =? 0) then sleep sl_chan sl_id ;;; ret (inl tt) else ret (inr tt)) tt ;;;
  ⇑ (sl_upd (fun r => r <| sl_locked := 1 |>)) ;;;
  let! p := ⇑ curproc in
  let! pr := ⇑ (get_proc p) in
  ⇑ (sl_upd (fun r => r <| sl_pid := p_pid pr |>)) ;;;
  ⇑ (release sl_id).

Definition releasesleep (L : SleepLock) : K unit :=
  acquire sl_id ;;;
  sl_upd (fun r => r <| sl_locked := 0 |> <| sl_pid := 0 |>) ;;;
  wakeup sl_chan ;;;
  release sl_id.

Definition holdingsleep (L : SleepLock) : K bool :=
  acquire sl_id ;;;
  let! r := sl_get in
  let! r' :=
    (if sl_locked r =? 0 then ret false else
     let! p := curproc in
     let! pr := get_proc p in
     ret (sl_pid r =? p_pid pr)) in
  release sl_id ;;;
  ret r'.
