(* ===== verification/Procproof.v ===== *)
(** * Properties of the process table: wakeup, kill, allocation of slots *)

From S2P Require Import Prelude Mem CString Kernel Spinlock Kalloc Vm Proc.

Lemma wp_get_proc p pr (Q : proc → kst → Prop) k :
  k_procs k !! p = Some pr → Q pr k → wp (get_proc p) Q k.
Proof. intros H HQ. unfold get_proc, wp, bind, get, of_option. by rewrite H. Qed.

Lemma wp_upd_proc p f (Q : unit → kst → Prop) k :
  Q tt (k <| k_procs ::= alter f p |>) → wp (upd_proc p f) Q k.
Proof. done. Qed.

(** The process running on this hart. *)
Definition current (k : kst) : option nat := c ← k_cpus k !! k_hart k; c_proc c.

Lemma current_settle k : current (settle k) = current k.
Proof.
  unfold current. cbn. rewrite list_lookup_alter_eq. destruct (k_cpus k !! k_hart k) as [c|]; [|done].
  cbn. by destruct (noff c =? 0).
Qed.

Lemma wp_myproc' Q k : ready k → Q (current k) (settle k) → wp myproc Q k.
Proof.
  intros Hr HQ. destruct Hr as (c & Hc & Hn). eapply wp_myproc; [by exists c|done|].
  unfold current in HQ. by rewrite Hc in HQ.
Qed.

(** Two states that differ at most in the trace of matched lock pairs. *)
Definition same_as (k k' : kst) : Prop := settle k' = settle k ∧ ready k'.

Lemma same_as_refl k : ready k → same_as k k.
Proof. done. Qed.

Lemma same_as_settle k k' : same_as k k' → same_as k (settle k').
Proof. intros [E Hr]. split; [by rewrite settle_settle|klock]. Qed.

Lemma same_as_set {T} (proj : kst → T) `{!Setter proj, !LockIndep proj} g k k' :
  same_as k k' → same_as (set_field proj g k) (set_field proj g k').
Proof. intros [E Hr]. split; [by rewrite !settle_set, E|by rewrite ready_set]. Qed.

Lemma same_as_procs k k' : same_as k k' → k_procs k' = k_procs k.
Proof. intros [E _]. by apply (f_equal k_procs) in E. Qed.

Lemma same_as_unlocked lk k k' : same_as k k' → unlocked lk k → unlocked lk k'.
Proof. intros [E _]. unfold unlocked. apply (f_equal k_locks) in E. cbn in E. by rewrite E. Qed.

Lemma same_as_current k k' : same_as k k' → current k' = current k.
Proof. intros [E _]. rewrite <- (current_settle k'), <- (current_settle k). by rewrite E. Qed.

(** ** wakeup *)

Definition woken (ch : option chan) (me : option nat) (n : nat) (j : nat) (p : proc) : proc :=
  if decide ((j < n)%nat ∧ me ≠ Some j ∧ p_state p = SLEEPING ∧ p_chan p = ch)
  then p <| p_state := RUNNABLE |> else p.

Lemma imap_woken_S ch me n (l : list proc) p :
  l !! n = Some p →
  imap (woken ch me (S n)) l =
  (if decide (me ≠ Some n ∧ p_state p = SLEEPING ∧ p_chan p = ch)
   then alter (fun r => r <| p_state := RUNNABLE |>) n (imap (woken ch me n) l)
   else imap (woken ch me n) l).
Proof.
  intros Hp. apply list_eq. intros j.
  assert (Hn : woken ch me n n p = p) by (unfold woken; by rewrite decide_False by lia).
  destruct (decide (j = n)) as [->|Hne].
  - rewrite list_lookup_imap, Hp. case_decide as Hd.
    + rewrite list_lookup_alter_eq, list_lookup_imap, Hp. cbn. rewrite Hn.
      unfold woken. rewrite decide_True; [done|]. destruct Hd as (? & ? & ?). split_and!; [lia|done..].
    + rewrite list_lookup_imap, Hp. cbn. rewrite Hn. unfold woken. rewrite decide_False; [done|]. naive_solver.
  - transitivity (imap (woken ch me n) l !! j).
    + rewrite !list_lookup_imap. destruct (l !! j) as [q|]; [|done]. cbn. f_equal. unfold woken.
      destruct (decide (j < n)%nat).
      * repeat case_decide; try done; exfalso; naive_solver lia.
      * rewrite !decide_False; [done|naive_solver lia..].
    + case_decide; [by rewrite list_lookup_alter_ne|done].
Qed.

Lemma imap_woken_0 ch me (l : list proc) : imap (woken ch me 0) l = l.
Proof.
  apply list_eq. intros j. rewrite list_lookup_imap. destruct (l !! j); [|done]. cbn.
  unfold woken. by rewrite decide_False by lia.
Qed.

Lemma set_procs_id k : k <| k_procs := k_procs k |> = k.
Proof. by destruct k. Qed.

Lemma set_cpus_id k : k <| k_cpus := k_cpus k |> = k.
Proof. by destruct k. Qed.

Lemma wakeup_ptr_wp ch k :
  ready k → length (k_procs k) = NPROC →
  (∀ j, (j < NPROC)%nat → current k ≠ Some j → unlocked (LProc j) k) →
  wp (wakeup_ptr ch) (fun _ k' =>
    same_as (k <| k_procs := imap (woken ch (current k) NPROC) (k_procs k) |>) k') k.
Proof.
  intros Hr Hlen Hul. unfold wakeup_ptr, for_procs.
  eapply wp_mono; [apply (wp_for (fun i k' => same_as (k <| k_procs := imap (woken ch (current k) (Z.to_nat i)) (k_procs k) |>) k'))|].
  - intros i k' Hi Hs. set (n := Z.to_nat i) in *.
    replace (Z.to_nat (i + 1)) with (S n) by lia.
    destruct (lookup_lt_is_Some_2 (k_procs k) n) as [p Hp]; [rewrite Hlen; unfold n; lia|].
    rewrite (imap_woken_S ch (current k) n _ p Hp).
    pose proof Hs as [_ Hr'].
    pose proof (same_as_current _ _ Hs) as Hc. change (current (k <| k_procs := _ |>)) with (current k) in Hc.
    pose proof (same_as_procs _ _ Hs) as Hps. cbn in Hps.
    apply wp_bind, wp_myproc'; [done|]. rewrite Hc. case_decide as Hme.
    { apply wp_ret. rewrite decide_False by naive_solver. by apply same_as_settle. }
    assert (Hu' : unlocked (LProc n) k').
    { apply (same_as_unlocked _ _ _ Hs). rewrite unlocked_set. apply Hul; [unfold n; lia|done]. }
    apply wp_bind, wp_acquire; [klock|klock|].
    apply wp_bind. apply (wp_get_proc n p).
    { change (k_procs k' !! n = Some p). rewrite Hps, list_lookup_imap, Hp. cbn. f_equal.
      unfold woken. by rewrite decide_False by lia. }
    apply wp_bind. case_decide as Hsl.
    + rewrite decide_True by (split; done). apply wp_upd_proc. apply wp_release; [klock|].
      rewrite leave_set, leave_enter, settle_settle by klock.
      change (k <| k_procs := alter (λ r, r <| p_state := RUNNABLE |>) n (imap (woken ch (current k) n) (k_procs k)) |>)
        with ((k <| k_procs := imap (woken ch (current k) n) (k_procs k) |>) <| k_procs ::= alter (λ r, r <| p_state := RUNNABLE |>) n |>).
      apply same_as_set; [typeclasses eauto|]. by apply same_as_settle.
    + rewrite (decide_False (P := current k ≠ Some n ∧ _)) by naive_solver. apply wp_ret, wp_release; [klock|].
      rewrite leave_enter, settle_settle by klock. by apply same_as_settle.
  - change (Z.to_nat 0) with 0%nat. rewrite imap_woken_0, set_procs_id. by apply same_as_refl.
  - intros [] k' Hs. exact Hs.
Qed.

(** Inside a critical section the trace is nothing. *)
Lemma settle_held lk k : held lk k → settle k = k.
Proof.
  intros (_ & (c & Hc & Hn) & _). transitivity (k <| k_cpus := k_cpus k |>); [|apply set_cpus_id].
  unfold settle. cbv [set_field kst_settable]. f_equal. apply alter_id_on. intros x Hx. simplify_eq.
  destruct (Z.eqb_spec (noff c) 0); [lia|done].
Qed.

Lemma held_settle lk k : held lk (settle k) → held lk k.
Proof.
  intros (Hs & (c & Hc & Hn) & Hl). split; [done|]. split; [|done]. cbn in Hc.
  rewrite list_lookup_alter_eq in Hc. destruct (k_cpus k !! k_hart k) as [c0|]; [|done]. cbn in Hc.
  exists c0. split; [done|]. injection Hc as <-. by destruct (noff c0 =? 0).
Qed.

Lemma same_as_held lk k k' : held lk k → same_as k k' → k' = k.
Proof.
  intros Hh [E _]. rewrite (settle_held lk k Hh) in E. rewrite <- (settle_held lk k'); [done|].
  apply held_settle. by rewrite E.
Qed.

Lemma wp_wakeup lk ch (Q : unit → kst → Prop) k :
  held lk k → ready k → length (k_procs k) = NPROC →
  (∀ j, (j < NPROC)%nat → current k ≠ Some j → unlocked (LProc j) k) →
  Q tt (k <| k_procs := imap (woken (Some ch) (current k) NPROC) (k_procs k) |>) → wp (wakeup ch) Q k.
Proof.
  intros Hh Hr Hlen Hul HQ. eapply wp_mono; [by apply wakeup_ptr_wp|]. intros [] k' Hs.
  assert (k' = k <| k_procs := imap (woken (Some ch) (current k) NPROC) (k_procs k) |>) as ->; [|done].
  eapply same_as_held; [|exact Hs]. by rewrite held_set.
Qed.

Lemma killed_wp p pr (Q : Z → kst → Prop) k :
  ready k → unlocked (LProc p) k → k_procs k !! p = Some pr → Q (p_killed pr) (settle k) → wp (killed p) Q k.
Proof.
  intros Hr Hu Hp HQ. unfold killed. apply wp_bind, wp_acquire; [done..|].
  apply wp_bind, (wp_get_proc p pr); [done|]. apply wp_bind, wp_release; [klock|].
  rewrite leave_enter by done. by apply wp_ret.
Qed.

(** ** kill *)

Definition doomed (p : proc) : proc :=
  let p := p <| p_killed := 1 |> in
  if decide (p_state p = SLEEPING) then p <| p_state := RUNNABLE |> else p.

Lemma alter_doomed k j p :
  k_procs k !! j = Some p →
  (if decide (p_state p = SLEEPING)
   then k <| k_procs ::= alter (fun r => r <| p_killed := 1 |>) j |> <| k_procs ::= alter (fun r => r <| p_state := RUNNABLE |>) j |>
   else k <| k_procs ::= alter (fun r => r <| p_killed := 1 |>) j |>) = k <| k_procs ::= alter doomed j |>.
Proof.
  intros Hp. case_decide as Hd; cbv [set_field kst_settable]; cbn; f_equal.
  - rewrite list_alter_alter. apply list_alter_ext; [|done]. intros x Hx. simplify_eq. unfold doomed. cbn.
    by rewrite decide_True.
  - apply list_alter_ext; [|done]. intros x Hx. simplify_eq. unfold doomed. cbn. by rewrite decide_False.
Qed.

Lemma kill_wp pid k :
  ready k → length (k_procs k) = NPROC →
  (∀ j, (j < NPROC)%nat → unlocked (LProc j) k) →
  wp (kill pid) (fun r k' =>
    (r = -1 ∧ same_as k k' ∧ Forall (fun p => p_pid p ≠ pid) (k_procs k)) ∨
    (∃ j p, r = 0 ∧ k_procs k !! j = Some p ∧ p_pid p = pid ∧
       (∀ i q, (i < j)%nat → k_procs k !! i = Some q → p_pid q ≠ pid) ∧
       same_as (k <| k_procs ::= alter doomed j |>) k')) k.
Proof.
  intros Hr Hlen Hul. unfold kill. apply wp_bind.
  apply (wp_for_find (fun i k' => same_as k k' ∧
     ∀ j q, (j < Z.to_nat i)%nat → k_procs k !! j = Some q → p_pid q ≠ pid)).
  - intros i k' Hi [Hs Hno]. set (j := Z.to_nat i) in *.
    destruct (lookup_lt_is_Some_2 (k_procs k) j) as [p Hp]; [rewrite Hlen; unfold j; lia|].
    pose proof Hs as [_ Hr']. pose proof (same_as_procs _ _ Hs) as Hps.
    assert (Hu' : unlocked (LProc j) k') by (apply (same_as_unlocked _ _ _ Hs), Hul; unfold j; lia).
    assert (Hp' : k_procs (enter (LProc j) k') !! j = Some p)
      by (change (k_procs k' !! j = Some p); by rewrite Hps).
    apply wp_bind, wp_acquire; [done..|]. apply wp_bind, (wp_get_proc j p); [done|].
    destruct (Z.eqb_spec (p_pid p) pid) as [Heq|Hne].
    + apply wp_bind, wp_upd_proc, wp_bind, (wp_get_proc j (p <| p_killed := 1 |>)).
      { change (alter (λ r, r <| p_killed := 1 |>) j (k_procs (enter (LProc j) k')) !! j = Some (p <| p_killed := 1 |>)).
        by rewrite list_lookup_alter_eq, Hp'. }
      apply wp_bind.
      assert (Hfin : wp (release (LProc j);;; ret (Some 0)) (fun r s' =>
          match r with
          | Some b => wp (ret (default (-1) (Some b))) (fun r k' =>
              (r = -1 ∧ same_as k k' ∧ Forall (fun p => p_pid p ≠ pid) (k_procs k)) ∨
              (∃ j p, r = 0 ∧ k_procs k !! j = Some p ∧ p_pid p = pid ∧
               (∀ i q, (i < j)%nat → k_procs k !! i = Some q → p_pid q ≠ pid) ∧
               same_as (k <| k_procs ::= alter doomed j |>) k')) s'
          | None => same_as k s' ∧ ∀ j q, (j < Z.to_nat (i + 1))%nat → k_procs k !! j = Some q → p_pid q ≠ pid
          end) (enter (LProc j) k' <| k_procs ::= alter doomed j |>)).
      { apply wp_bind, wp_release; [klock|]. rewrite leave_set, leave_enter by done. apply wp_ret, wp_ret.
        right. exists j, p. split_and!; [done..|]. apply same_as_set; [typeclasses eauto|]. by apply same_as_settle. }
      rewrite <- (alter_doomed _ _ _ Hp') in Hfin.
      change (p_state (p <| p_killed := 1 |>)) with (p_state p). case_decide as Hd.
      * apply wp_upd_proc. exact Hfin.
      * apply wp_ret. exact Hfin.
    + apply wp_bind, wp_release; [klock|]. rewrite leave_enter by done. apply wp_ret.
      split; [by apply same_as_settle|]. intros j' q Hj' Hq.
      destruct (decide (j' = j)) as [->|]; [by simplify_eq|]. apply (Hno j' q); [unfold j in *; lia|done].
  - intros k' [Hs Hno]. apply wp_ret. left. split_and!; [done..|].
    apply Forall_lookup_2. intros j p Hp. apply (Hno j p); [|done].
    apply lookup_lt_Some in Hp. rewrite Hlen in Hp. lia.
  - split; [by apply same_as_refl|]. lia.
Qed.

(** ** Theorems *)

(** [wakeup] returns and makes runnable exactly the processes, other than the
    caller, that are asleep on the channel; every other process, and the rest of the
    kernel apart from the saved interrupt flag of this hart, is unchanged. *)
Theorem wakeup_correct (ch : chan) (k : kst) :
  ready k → length (k_procs k) = NPROC →
  (∀ j, (j < NPROC)%nat → current k ≠ Some j → unlocked (LProc j) k) →
  ∃ k', wakeup ch k = Ok tt k' ∧
    k_procs k' = imap (woken (Some ch) (current k) NPROC) (k_procs k) ∧
    same_as (k <| k_procs := k_procs k' |>) k'.
Proof.
  intros Hr Hlen Hul. destruct (proj1 (wp_Ok _ _ _) (wakeup_ptr_wp (Some ch) k Hr Hlen Hul)) as ([] & k' & E & Hs).
  exists k'. split; [exact E|]. pose proof (same_as_procs _ _ Hs) as Hp. split; [exact Hp|]. by rewrite Hp.
Qed.

(** [kill] returns -1 and changes nothing when no slot has the pid; otherwise it
    returns 0, the first slot with that pid is marked killed and, if it was asleep,
    made runnable, and nothing else changes. *)
Theorem kill_correct (pid : Z) (k : kst) :
  ready k → length (k_procs k) = NPROC → (∀ j, (j < NPROC)%nat → unlocked (LProc j) k) →
  ∃ r k', kill pid k = Ok r k' ∧
    match list_find (fun p => p_pid p = pid) (k_procs k) with
    | None => r = -1 ∧ same_as k k'
    | Some (j, _) => r = 0 ∧ same_as (k <| k_procs ::= alter doomed j |>) k'
    end.
Proof.
  intros Hr Hlen Hul. destruct (proj1 (wp_Ok _ _ _) (kill_wp pid k Hr Hlen Hul)) as (r & k' & E & H).
  exists r, k'. split; [exact E|]. destruct H as [(-> & Hs & Hno)|(j & p & -> & Hp & Hpid & Hbefore & Hs)].
  - assert (list_find (fun p => p_pid p = pid) (k_procs k) = None) as ->; [|done].
    by apply list_find_None.
  - assert (list_find (fun p => p_pid p = pid) (k_procs k) = Some (j, p)) as ->; [|done].
    apply list_find_Some. split_and!; [done..|]. intros i q Hq Hi. by apply (Hbefore i q).
Qed.

(** [kill(0)] on a table with a free slot "succeeds": a slot that holds no process
    has pid 0, so it is marked killed, and it stays UNUSED for [allocproc] to hand out. *)
Theorem kill_zero_marks_free_slot (k : kst) (j : nat) (p : proc) :
  ready k → length (k_procs k) = NPROC → (∀ j, (j < NPROC)%nat → unlocked (LProc j) k) →
  (∀ i q, k_procs k !! i = Some q → p_state q = UNUSED ↔ p_pid q = 0) →
  k_procs k !! j = Some p → p_state p = UNUSED →
  (∀ i q, (i < j)%nat → k_procs k !! i = Some q → p_state q ≠ UNUSED) →
  ∃ k' p', kill 0 k = Ok 0 k' ∧ k_procs k' !! j = Some p' ∧ p_state p' = UNUSED ∧ p_killed p' = 1.
Proof.
  intros Hr Hlen Hul Hpid Hp Hst Hfirst.
  destruct (proj1 (wp_Ok _ _ _) (kill_wp 0 k Hr Hlen Hul)) as (r & k' & E & H).
  destruct H as [(-> & Hs & Hno)|(j' & p' & -> & Hp' & Hz & Hbefore & Hs)].
  - rewrite Forall_lookup in Hno. destruct (Hno j p Hp). by apply (Hpid j p).
  - assert (j' = j) as ->.
    { destruct (lt_eq_lt_dec j' j) as [[?|?]|?]; [|done|].
      - destruct (Hfirst j' p'); [done..|by apply (Hpid j' p')].
      - destruct (Hbefore j p); [done..|by apply (Hpid j p)]. }
    exists k', (doomed p). rewrite (same_as_procs _ _ Hs). cbn. rewrite list_lookup_alter_eq, Hp.
    split_and!; [exact E|done| |]; unfold doomed; cbn; rewrite Hst; done.
Qed.

(** ** Witnesses: a table with one sleeping process and free slots *)

Definition demo_sleeper : proc := proc0 <| p_state := SLEEPING |> <| p_chan := Some ChTicks |> <| p_pid := 1 |>.
Definition demo_procs : kst :=
  kst0 <| k_procs := demo_sleeper :: replicate (NPROC - 1) proc0 |>
       <| k_locks := list_to_map ((fun i => (LProc i, mkspinlock 0 "proc" None)) <$> seq 0 NPROC) |>.

Lemma demo_procs_ready : ready demo_procs.
Proof. exists (mkcpu None context0 0 0). by vm_compute. Qed.

Lemma demo_procs_unlocked j : (j < NPROC)%nat → unlocked (LProc j) demo_procs.
Proof.
  intros Hj. exists (mkspinlock 0 "proc" None). split; [|done]. cbn [k_locks demo_procs set_field].
  apply elem_of_list_to_map.
  - rewrite <- list_fmap_compose. apply NoDup_fmap_2; [intros ?? [=]; done|apply NoDup_seq].
  - apply list_elem_of_fmap. exists j. split; [done|]. apply elem_of_seq. lia.
Qed.

Lemma wakeup_correct_witness :
  ∃ k', wakeup ChTicks demo_procs = Ok tt k' ∧ p_state <$> (k_procs k' !! 0%nat) = Some RUNNABLE.
Proof.
  destruct (wakeup_correct ChTicks demo_procs demo_procs_ready eq_refl (fun j Hj _ => demo_procs_unlocked j Hj))
    as (k' & E & Hp & _). exists k'. split; [exact E|]. rewrite Hp. by vm_compute.
Defined.

Lemma kill_correct_witness :
  ∃ k', kill 1 demo_procs = Ok 0 k' ∧ p_killed <$> (k_procs k' !! 0%nat) = Some 1.
Proof.
  destruct (kill_correct 1 demo_procs demo_procs_ready eq_refl demo_procs_unlocked) as (r & k' & E & H).
  assert (Hf : list_find (fun p => p_pid p = 1) (k_procs demo_procs) = Some (0%nat, demo_sleeper)) by (by vm_compute).
  rewrite Hf in H. destruct H as [-> Hs]. exists k'. split; [exact E|].
  rewrite (same_as_procs _ _ Hs). by vm_compute.
Defined.

Lemma kill_zero_marks_free_slot_witness :
  ∃ k' p', kill 0 demo_procs = Ok 0 k' ∧ k_procs k' !! 1%nat = Some p' ∧ p_state p' = UNUSED ∧ p_killed p' = 1.
Proof.
  apply (kill_zero_marks_free_slot demo_procs 1 proc0 demo_procs_ready eq_refl demo_procs_unlocked); [|done|done|].
  - intros [|i] q; [intros [= <-]; done|]. change (replicate (NPROC - 1) proc0 !! i = Some q → p_state q = UNUSED ↔ p_pid q = 0).
    intros Hq%lookup_replicate. by destruct Hq as [-> _].
  - intros [|i] q Hi; [intros [= <-]; done|lia].
Defined.
