(* ===== verification/Sleepproof.v ===== *)
(** * Sleeping (sleep and sched of proc.c)

    [sleep] gives up the lock and the processor and comes back with the lock, in the state
    that the rest of the system made meanwhile: the environment's step, applied to the
    state in which the process sleeps. *)

From S2P Require Import Prelude Mem CString Kernel Spinlock Kalloc Vm Proc Procproof.

(** The depth of [push_off] on this hart. *)
Definition depth (k : kst) (n : Z) : Prop := ∃ c, k_cpus k !! k_hart k = Some c ∧ noff c = n.

Lemma depth_enter lk k n : depth k n → depth (enter lk k) (n + 1).
Proof.
  intros (c & Hc & Hn). exists (cpu_push (sie_set k) c). cbn. rewrite list_lookup_alter_eq, Hc. split; [done|].
  unfold cpu_push. destruct (noff c =? 0); cbn; lia.
Qed.
Lemma depth_leave lk k n : depth k n → depth (leave lk k) (n - 1).
Proof. intros (c & Hc & Hn). exists (c <| noff ::= Z.pred |>). cbn. rewrite list_lookup_alter_eq, Hc. split; [done|]. cbn. lia. Qed.
Lemma depth_settle k n : depth k n → depth (settle k) n.
Proof. intros (c & Hc & Hn). eexists. cbn. rewrite list_lookup_alter_eq, Hc. split; [done|]. by destruct (noff c =? 0). Qed.
Lemma current_leave lk k : current (leave lk k) = current k.
Proof. unfold current. cbn. rewrite list_lookup_alter_eq. by destruct (k_cpus k !! k_hart k). Qed.
Lemma enter_current lk k : current (enter lk k) = current k.
Proof.
  unfold current. cbn. rewrite list_lookup_alter_eq. destruct (k_cpus k !! k_hart k) as [c|]; [|done]. cbn. unfold cpu_push. by destruct (noff c =? 0).
Qed.
Lemma leave_keeps_unlocked lk lk' k : unlocked lk' k → unlocked lk' (leave lk k).
Proof.
  intros (l & Hl & H). destruct (decide (lk = lk')) as [->|Hne].
  - exists (dropped l). cbn. by rewrite lookup_alter_eq, Hl.
  - exists l. cbn. by rewrite lookup_alter_ne.
Qed.
Lemma leave_unlocked lk k : held lk k → unlocked lk (leave lk k).
Proof. intros (_ & _ & l & Hl & _). exists (dropped l). cbn. by rewrite lookup_alter_eq, Hl. Qed.

(** Leaving an inner lock, the outer one is held. *)
Lemma held_leave lk lk' k : lk ≠ lk' → held lk' k → depth k 2 → held lk' (leave lk k).
Proof.
  intros Hne (Hs & (c & Hc & Hn) & l & Hl & Hll) (c' & Hc' & Hd). simplify_eq. split; [|split].
  - unfold sie_set in *. cbn. unfold reenable. cbn. rewrite Hc, Hd. cbn. done.
  - exists (c <| noff ::= Z.pred |>). cbn. rewrite list_lookup_alter_eq, Hc. split; [done|]. cbn. lia.
  - exists l. cbn. by rewrite lookup_alter_ne.
Qed.

Lemma ready_depth0 k : depth k 0 → ready k.
Proof. intros (c & Hc & Hn). exists c. split; [done|]. lia. Qed.
Lemma held_ready lk k : held lk k → ready k.
Proof. intros (Hs & (c & Hc & Hn) & _). exists c. split; [done|]. split; [lia|done]. Qed.

Lemma held_enter_other lk lk' k : lk ≠ lk' → held lk' k → held lk' (enter lk k).
Proof.
  intros Hne (Hs & (c & Hc & Hn) & l & Hl & Hll). split; [apply sie_pushed|]. split.
  - exists (cpu_push (sie_set k) c). cbn. rewrite list_lookup_alter_eq, Hc. split; [done|]. unfold cpu_push. destruct (noff c =? 0); cbn; lia.
  - exists l. cbn. by rewrite lookup_alter_ne.
Qed.

Lemma enter_settle lk k : enter lk (settle k) = enter lk k.
Proof.
  unfold enter, pushed, settle. cbv [set_field kst_settable]. cbn. f_equal. rewrite list_alter_alter. apply list_alter_ext; [|done].
  intros c _. unfold cpu_push, sie_set. cbn. destruct (noff c =? 0) eqn:E; cbn; rewrite E; done.
Qed.

(** ** The state in which process [p] sleeps, and the one in which it goes on *)

Definition asleep (ch : chan) (lk : lockid) (p : nat) (k : kst) : kst :=
  leave lk (enter (LProc p) k) <| k_procs ::= alter (fun r => r <| p_chan := Some ch |> <| p_state := SLEEPING |>) p |>.

(** A scheduler chose the process again: it runs, with its lock, which the scheduler took. *)
Record resumed (p : nat) (lk : lockid) (k : kst) : Prop := {
  re_held : held (LProc p) k;
  re_depth : depth k 1;
  re_cur : current k = Some p;
  re_lock : unlocked lk k
}.

Definition back (p : nat) (i : Z) (k : kst) : kst :=
  leave (LProc p) (k <| k_cpus ::= alter (fun c => c <| intena := i |>) (k_hart k) |> <| k_procs ::= alter (fun r => r <| p_chan := None |>) p |>).

Lemma back_facts p lk i k : resumed p lk k →
  depth (back p i k) 0 ∧ current (back p i k) = Some p ∧ unlocked lk (back p i k) ∧ unlocked (LProc p) (back p i k) ∧
  (∀ lk', unlocked lk' k → unlocked lk' (back p i k)) ∧
  k_procs (back p i k) = alter (fun r => r <| p_chan := None |>) p (k_procs k) ∧ k_pipes (back p i k) = k_pipes k ∧ k_mem (back p i k) = k_mem k.
Proof.
  intros [Hh (c & Hc & Hd) Hcur Hu]. set (k1 := k <| k_cpus ::= alter (fun c => c <| intena := i |>) (k_hart k) |> <| k_procs ::= alter (fun r => r <| p_chan := None |>) p |>).
  assert (Hh1 : held (LProc p) k1).
  { destruct Hh as (Hs & (c' & Hc' & Hn) & Hl). split; [done|]. split; [|done]. exists (c' <| intena := i |>). cbn. by rewrite list_lookup_alter_eq, Hc'. }
  split_and!; try done.
  - apply (depth_leave _ _ 1). exists (c <| intena := i |>). cbn. by rewrite list_lookup_alter_eq, Hc.
  - unfold back. fold k1. rewrite current_leave. unfold current in *. cbn. rewrite list_lookup_alter_eq, Hc in *. done.
  - apply leave_keeps_unlocked. exact Hu.
  - by apply leave_unlocked.
  - intros lk' Hl. apply leave_keeps_unlocked. exact Hl.
Qed.

(** [sleep(ch, lk)], called with [lk] and no other lock. *)
Lemma wp_sleep ch lk p f k e (Q : unit → kst * list (kst → kst) → Prop) :
  lk ≠ LProc p → held lk k → depth k 1 → current k = Some p → unlocked (LProc p) k → is_Some (k_procs k !! p) →
  resumed p lk (f (asleep ch lk p k)) → (∀ i, Q tt (enter lk (back p i (f (asleep ch lk p k))), e)) →
  wp (sleep ch lk) Q (k, f :: e).
Proof.
  intros Hne Hh Hd Hcur Hu [pr Hpr] Hre HQ. pose proof (held_ready _ _ Hh) as Hr. unfold sleep.
  apply wp_bind, wp_lift. unfold curproc. apply wp_bind, wp_myproc'; [done|]. rewrite Hcur, (settle_held _ _ Hh). apply wp_ret.
  apply wp_bind, wp_lift, wp_acquire; [done|done|]. set (k1 := enter (LProc p) k).
  assert (Hd1 : depth k1 2) by (by apply (depth_enter _ _ 1)).
  apply wp_bind, wp_lift, wp_release; [by apply held_enter_other|].
  apply wp_bind, wp_lift, wp_upd_proc.
  match goal with |- wp _ _ (?x, _) => change x with (asleep ch lk p k) end. set (k3 := asleep ch lk p k) in *.
  assert (Hh3 : held (LProc p) k3).
  { unfold k3, asleep. rewrite held_set. fold k1. apply held_leave; [exact Hne|exact (held_enter (LProc p) k Hr Hu)|exact Hd1]. }
  assert (Hd3 : depth k3 1) by (unfold k3, asleep; fold k1; destruct (depth_leave lk k1 2 Hd1) as (c & Hc & Hn); by exists c).
  assert (Hc3 : current k3 = Some p) by (unfold k3, asleep; change (current (leave lk (enter (LProc p) k)) = Some p); by rewrite current_leave, enter_current).
  assert (Hp3 : k_procs k3 !! p = Some (pr <| p_chan := Some ch |> <| p_state := SLEEPING |>)).
  { unfold k3, asleep. cbn. by rewrite list_lookup_alter_eq, Hpr. }
  clearbody k3. destruct Hd3 as (c & Hc & Hn). apply wp_bind. unfold sched.
  apply wp_bind, wp_lift. unfold curproc. apply wp_bind, wp_myproc'; [by apply (held_ready (LProc p))|]. rewrite Hc3, (settle_held _ _ Hh3). apply wp_ret.
  apply wp_bind, wp_lift. assert (Hhold : holding (LProc p) k3 = Ok true k3).
  { pose proof (release_check_eq (LProc p) k3 Hh3) as E. unfold release_check, bind in E. destruct (holding (LProc p) k3) as [[] ?|? ?|?|?|] eqn:Eh; try done.
    unfold ret in E. by injection E as ->. }
  unfold wp. rewrite Hhold. cbn [negb].
  apply wp_bind, wp_lift. unfold mycpu, cpuid. unfold wp, gets. apply wp_bind, wp_lift. unfold get_cpu, wp, bind, get. rewrite Hc. cbn [of_option]. unfold ret. rewrite Hn. cbn [Z.eqb Pos.eqb negb].
  eapply wp_bind, wp_lift, wp_get_proc; [exact Hp3|]. rewrite decide_False by done.
  apply wp_bind, wp_lift. assert (Hon : intr_get k3 = Ok false k3).
  { destruct Hh3 as (Hs & _). unfold sie_set in Hs. unfold intr_get. cbn. by rewrite Hs. }
  pose proof (re_held _ _ _ Hre) as Hh4. unfold wp. rewrite Hon. set (k4 := f k3) in *.
  change (wp (⇑ (release (LProc p)) ;;; ⇑ (acquire lk)) Q
    (k4 <| k_cpus ::= alter (fun c' => c' <| intena := intena c |>) (k_hart k4) |> <| k_procs ::= alter (fun r => r <| p_chan := None |>) p |>, e)).
  destruct (back_facts p lk (intena c) k4 Hre) as (Hd5 & _ & Hu5 & _).
  apply wp_bind, wp_lift, wp_release.
  { destruct Hh4 as (Hs & (c' & Hc' & Hn') & Hl). split; [done|]. split; [|done]. exists (c' <| intena := intena c |>). cbn. by rewrite list_lookup_alter_eq, Hc'. }
  apply wp_lift, wp_acquire; [apply ready_depth0; exact Hd5|exact Hu5|]. apply HQ.
Qed.

(** A loop whose measure may depend on the state. *)
Lemma wp_loop_state {S A B} (I : A → S → Prop) (m : A → S → nat) (body : A → M S (A + B)) Q fuel a s :
  (∀ a s, I a s → wp (body a) (fun r s' => match r with inl a' => I a' s' ∧ (m a' s' < m a s)%nat | inr b => Q b s' end) s) →
  I a s → (m a s < fuel)%nat → wp (loop fuel body a) Q s.
Proof.
  intros Hb. revert a s. induction fuel as [|fuel IH]; intros a s HI Hm; [lia|]. cbn [loop]. apply wp_bind.
  eapply wp_mono; [by apply Hb|]. intros [a'|b] s' H; [|by apply wp_ret]. destruct H as [H1 H2]. apply IH; [done|lia].
Qed.
