(* ===== verification/Sched.v ===== *)
(** * The scheduler gives every runnable process its turn (proc.c)

    What a process does between two switches is the parameter [turn]; the scheduler relies
    on the convention its comment states: a process comes back with its own lock held and
    the other processes' locks free, and only a scheduler takes a process out of RUNNABLE. *)

From S2P Require Import Prelude Mem CString Kernel Spinlock Kalloc Vm Proc Procproof.

Lemma ready_leave lk k : held lk k → ready (leave lk k).
Proof.
  intros (Hs & (c & Hc & Hn) & _). eexists. split; [cbn; rewrite list_lookup_alter_eq, Hc; done|]. cbn.
  split; [lia|]. intros Hpos. assert (Hre : reenable (k <| k_locks ::= alter dropped lk |>) = false).
  { unfold reenable. cbn. rewrite Hc. by replace (noff c =? 1) with false by lia. }
  unfold sie_set, leave, popped. rewrite Hre. exact Hs.
Qed.

Lemma unlocked_leave lk k : held lk k → unlocked lk (leave lk k).
Proof. intros (_ & _ & l & Hl & _). eexists. split; [cbn; by rewrite lookup_alter_eq, Hl|done]. Qed.

Lemma unlocked_leave_ne lk lk' k : lk ≠ lk' → unlocked lk' k → unlocked lk' (leave lk k).
Proof. intros Hne (l & Hl & H). exists l. split; [|done]. cbn. by rewrite lookup_alter_ne. Qed.

Lemma held_upd_cpu lk k i p : held lk k → held lk (k <| k_cpus ::= alter (fun r => r <| c_proc := p |>) i |>).
Proof.
  intros (Hs & (c & Hc & Hn) & Hl). split; [done|]. split; [|done]. destruct (decide (i = k_hart k)) as [->|Hne].
  - eexists. split; [cbn; rewrite list_lookup_alter_eq, Hc; done|done].
  - exists c. split; [|done]. cbn. by rewrite list_lookup_alter_ne.
Qed.

(** The scheduler between two processes. *)
Definition between (k : kst) : Prop :=
  ready k ∧ length (k_procs k) = NPROC ∧ ∀ q, (q < NPROC)%nat → unlocked (LProc q) k.

(** The lock of [p] is held, the others are free. *)
Definition only (p : nat) (k : kst) : Prop :=
  held (LProc p) k ∧ length (k_procs k) = NPROC ∧ ∀ q, (q < NPROC)%nat → q ≠ p → unlocked (LProc q) k.

Definition is_runnable (p : nat) (k : kst) : Prop := p_state <$> k_procs k !! p = Some RUNNABLE.

Lemma between_enter p k : (p < NPROC)%nat → between k → only p (enter (LProc p) k).
Proof.
  intros Hp (Hr & Hl & Hu). split; [apply held_enter; auto|]. split; [done|]. intros q Hq Hne.
  apply unlocked_enter; [congruence|auto].
Qed.

Lemma between_leave p k : only p k → between (leave (LProc p) k).
Proof.
  intros (Hh & Hl & Hu). split; [by apply ready_leave|]. split; [done|]. intros q Hq.
  destruct (decide (q = p)) as [->|Hne]; [by apply unlocked_leave|]. apply unlocked_leave_ne; [congruence|auto].
Qed.

Section fair.
Context (turn : nat → K unit) (had_turn : nat → mem → Prop).

(** What a process does in its turn. *)
Hypothesis turn_spec : ∀ p k, (p < NPROC)%nat → only p k →
  p_state <$> k_procs k !! p = Some RUNNING → current k = Some p →
  wp (turn p) (fun _ k' => only p k' ∧ had_turn p (k_mem k') ∧
    (∀ q, q ≠ p → had_turn q (k_mem k) → had_turn q (k_mem k')) ∧
    (∀ q, q ≠ p → is_runnable q k → is_runnable q k')) k.

(** After the first [i] processes: those of them that were runnable have had a turn, the
    others are still runnable. *)
Definition served (k0 : kst) (i : nat) (found : bool) (k : kst) : Prop :=
  between k ∧
  (∀ p, (p < i)%nat → is_runnable p k0 → had_turn p (k_mem k) ∧ found = true) ∧
  (∀ p, (i ≤ p < NPROC)%nat → is_runnable p k0 → is_runnable p k).

Lemma scheduler_loop_serves k0 n : ∀ i found k, (i + n = NPROC)%nat → served k0 i found k →
  wp (scheduler_loop turn i n found) (fun found k' => served k0 NPROC found k') k.
Proof.
  induction n as [|n IH]; intros i found k Hin Hs; cbn [scheduler_loop].
  { apply wp_ret. by replace NPROC with i by lia. }
  destruct Hs as (Hb & Hdone & Hleft). assert (Hi : (i < NPROC)%nat) by lia.
  pose proof (between_enter i k Hi Hb) as Ho. apply wp_bind, wp_acquire; [apply Hb|by apply Hb|].
  destruct (lookup_lt_is_Some_2 (k_procs k) i) as [pr Hpr]; [destruct Hb as (_ & -> & _); lia|].
  apply wp_bind, (wp_get_proc i pr); [done|]. apply wp_bind. case_decide as Est.
  - (* its turn *)
    set (k1 := enter (LProc i) k) in *. unfold mycpu, cpuid. apply wp_bind. change (wp (gets k_hart) ?Q k1) with (Q (k_hart k1) k1). cbn beta.
    apply wp_bind, wp_upd_proc. apply wp_bind. set (k2 := k1 <| k_procs ::= _ |>).
    set (k3 := k2 <| k_cpus ::= alter (fun r => r <| c_proc := Some i |>) (k_hart k1) |>).
    change (wp (upd_cpu (k_hart k1) (fun r => r <| c_proc := Some i |>)) ?Q k2) with (Q tt k3). cbn beta.
    assert (Ho3 : only i k3).
    { destruct Ho as (Hh & Hl & Hu). split; [by apply held_upd_cpu|]. split; [|done]. cbn. by rewrite length_alter. }
    apply wp_bind. eapply wp_mono; [apply turn_spec; [done|done| |]|].
    + cbn. by rewrite list_lookup_alter_eq, Hpr.
    + destruct Ho as ((_ & (c & Hc & _) & _) & _). unfold current. cbn. cbn in Hc. by rewrite list_lookup_alter_eq, Hc.
    + intros _ k4 (Ho4 & Hd & Hkeep & Hrun). apply wp_bind. set (k5 := k4 <| k_cpus ::= alter (fun r => r <| c_proc := None |>) (k_hart k1) |>).
      change (wp (upd_cpu (k_hart k1) (fun r => r <| c_proc := None |>)) ?Q k4) with (Q tt k5). cbn beta. apply wp_ret.
      assert (Ho5 : only i k5) by (destruct Ho4 as (Hh & Hl & Hu); split; [by apply held_upd_cpu|done]).
      apply wp_bind, wp_release; [apply Ho5|]. apply IH; [lia|]. split; [by apply between_leave|]. split.
      * intros p Hp Hr. split; [|done]. change (had_turn p (k_mem k4)). destruct (decide (p = i)) as [->|Hne]; [done|].
        apply Hkeep; [done|]. change (had_turn p (k_mem k)). apply Hdone; [lia|done].
      * intros p Hp Hr. change (is_runnable p k4). apply Hrun; [lia|]. unfold is_runnable. cbn.
        rewrite list_lookup_alter_ne by lia. apply Hleft; [lia|done].
  - (* not runnable *)
    apply wp_ret, wp_bind, wp_release; [apply Ho|]. apply IH; [lia|]. split; [by apply between_leave|]. split.
    + intros p Hp Hr. change (had_turn p (k_mem k) ∧ found = true). apply Hdone; [|done].
      destruct (decide (p = i)) as [->|]; [|lia]. specialize (Hleft i ltac:(lia) Hr). unfold is_runnable in Hleft.
      rewrite Hpr in Hleft. by injection Hleft.
    + intros p Hp Hr. change (is_runnable p k). apply Hleft; [lia|done].
Qed.

(** C21: The scheduler is fair: in one pass over the table, every process that was runnable
    when the pass began gets its turn on the processor, in a pass that terminates when
    each turn does; the pass reports that it found nothing only if there was none. *)
Theorem scheduler_fair (k : kst) (c : cpu) :
  between k → k_cpus k !! k_hart k = Some c → noff c = 0 →
  wp (scheduler_pass turn) (fun found k' =>
    ∀ p, (p < NPROC)%nat → is_runnable p k → had_turn p (k_mem k') ∧ found = true) k.
Proof.
  intros (Hr & Hl & Hu) Hc Hn. unfold scheduler_pass. apply wp_bind. set (k1 := k <| k_csr ::= csr_on |>).
  change (wp intr_on ?Q k) with (Q tt k1). cbn beta. apply wp_bind.
  eapply wp_mono; [apply (scheduler_loop_serves k)|].
  - done.
  - split; [|split; [intros; lia|done]]. split; [|done]. exists c. split_and!; [done|lia|lia].
  - intros found k2 (_ & Hs & _). apply wp_bind. destruct found; [by apply wp_ret, wp_ret|].
    change (wp intr_on ?Q k2) with (Q tt (k2 <| k_csr ::= csr_on |>)). cbn beta. apply wp_ret.
    intros p Hp Hrp. by apply Hs.
Qed.
End fair.

(** A process that writes the byte of its number and goes to sleep. *)
Definition demo_turn (p : nat) : K unit :=
  modify (fun k => k <| k_mem ::= fun m => mem_set m (Z.of_nat p) 1 |>) ;;;
  upd_proc p (fun r => r <| p_state := SLEEPING |>).
Definition demo_table : kst := demo_procs <| k_procs := replicate NPROC (proc0 <| p_state := RUNNABLE |>) |>.
Definition demo_had_turn (p : nat) (m : mem) : Prop := mem_get m (Z.of_nat p) = 1.

Lemma demo_turn_spec p k : (p < NPROC)%nat → only p k →
  p_state <$> k_procs k !! p = Some RUNNING → current k = Some p →
  wp (demo_turn p) (fun _ k' => only p k' ∧ demo_had_turn p (k_mem k') ∧
    (∀ q, q ≠ p → demo_had_turn q (k_mem k) → demo_had_turn q (k_mem k')) ∧
    (∀ q, q ≠ p → is_runnable q k → is_runnable q k')) k.
Proof.
  intros Hp (Hh & Hl & Hu) _ _. apply wp_bind. change (wp (modify ?f) ?Q k) with (Q tt (f k)). cbn beta. apply wp_upd_proc.
  split_and!.
  - split; [done|]. split; [|done]. cbn. by rewrite length_alter.
  - apply mem_get_set_eq.
  - intros q Hq Hd. unfold demo_had_turn. cbn. rewrite mem_get_set_ne by lia. exact Hd.
  - intros q Hq Hr. unfold is_runnable. cbn. by rewrite list_lookup_alter_ne.
Qed.

Lemma scheduler_fair_witness : wp (scheduler_pass demo_turn) (fun found k' =>
  ∀ p, (p < NPROC)%nat → is_runnable p demo_table → demo_had_turn p (k_mem k') ∧ found = true) demo_table.
Proof.
  apply (scheduler_fair demo_turn demo_had_turn demo_turn_spec demo_table (mkcpu None context0 0 0)).
  - split; [apply demo_procs_ready|]. split; [by vm_compute|apply demo_procs_unlocked].
  - by vm_compute.
  - done.
Defined.
