(* ===== verification/Uart.v ===== *)
(** * The UART driver (uart.c) and [consputc] (console.c)

    The device is part of the kernel state: characters that wait in RHR, the
    answers of successive reads of LSR to "is THR still full" (the device is idle
    when they are used up), and the characters sent. *)

From S2P Require Import Prelude Mem CString Kernel Spinlock Kalloc Vm Proc.

Definition RHR : Z := 0.
Definition THR : Z := 0.
Definition IER : Z := 1.
Definition IER_RX_ENABLE : Z := Z.shiftl 1 0.
Definition IER_TX_ENABLE : Z := Z.shiftl 1 1.
Definition FCR : Z := 2.
Definition FCR_FIFO_ENABLE : Z := Z.shiftl 1 0.
Definition FCR_FIFO_CLEAR : Z := Z.shiftl 3 1.
Definition LCR : Z := 3.
Definition LCR_EIGHT_BITS : Z := Z.shiftl 3 0.
Definition LCR_BAUD_LATCH : Z := Z.shiftl 1 7.
Definition LSR_RX_READY : Z := Z.shiftl 1 0.
Definition LSR_TX_IDLE : Z := Z.shiftl 1 5.

Definition upd_uart (f : uart → uart) : K unit := modify (fun k => k <| k_uart ::= f |>).

(** Writes to the configuration registers, to THR, and reads of LSR and RHR. *)
Definition WriteReg (reg v : Z) : K unit := upd_uart (fun u => u <| u_regs ::= fun l => l ++ [(reg, v)] |>).
Definition WriteTHR (c : Z) : K unit := upd_uart (fun u => u <| u_out ::= fun l => l ++ [u8 c] |>).
Definition ReadLSR : K Z :=
  let! k := get in
  let u := k_uart k in
  let rx := if decide (u_rx u = []) then 0 else LSR_RX_READY in
  match u_busy u with
  | [] => ret (Z.lor rx LSR_TX_IDLE)
  | busy :: rest =>
      upd_uart (fun u => u <| u_busy := rest |>) ;;;
      ret (if (busy : bool) then rx else Z.lor rx LSR_TX_IDLE)
  end.
Definition ReadRHR : K Z :=
  let! k := get in
  match u_rx (k_uart k) with
  | [] => ret 0
  | c :: rest => upd_uart (fun u => u <| u_rx := rest |>) ;;; ret c
  end.

Definition uartinit : K unit :=
  WriteReg IER 0x00 ;;;
  WriteReg LCR LCR_BAUD_LATCH ;;;
  WriteReg 0 0x03 ;;;
  WriteReg 1 0x00 ;;;
  WriteReg LCR LCR_EIGHT_BITS ;;;
  WriteReg FCR (Z.lor FCR_FIFO_ENABLE FCR_FIFO_CLEAR) ;;;
  WriteReg IER (Z.lor IER_TX_ENABLE IER_RX_ENABLE) ;;;
  initlock LUart "uart".

(** One round of the loop of [uartstart]; reading ISR has no effect on the model. *)
Definition uartstart_body (_ : unit) : K (unit + unit) :=
  let! k := get in
  let u := k_uart k in
  if uart_tx_w u =? uart_tx_r u then ret (inr tt) else
  let! lsr := ReadLSR in
  if Z.land lsr LSR_TX_IDLE =? 0 then ret (inr tt) else
  let! c := of_option (uart_tx_buf u !! Z.to_nat (uart_tx_r u mod UART_TX_BUF_SIZE)) in
  upd_uart (fun u => u <| uart_tx_r ::= fun r => u64 (r + 1) |>) ;;;
  wakeup ChUart ;;;
  WriteTHR c ;;;
  ret (inl tt).
Definition uartstart : K unit :=
  let! k := get in
  loop (S (Z.to_nat (u64 (uart_tx_w (k_uart k) - uart_tx_r (k_uart k))))) uartstart_body tt.

Definition uartputc (c : Z) : KM unit :=
  ⇑ (acquire LUart) ;;;
  let! k := ⇑ get in
  if negb (k_panicked k =? 0) then hang else
  sleep_loop (fun _ : unit =>
    let! k := ⇑ get in
    if uart_tx_w (k_uart k) =? u64 (uart_tx_r (k_uart k) + UART_TX_BUF_SIZE)
    then sleep ChUart LUart ;;; ret (inl tt) else ret (inr tt)) tt ;;;
  ⇑ (upd_uart (fun u => u <| uart_tx_buf ::= <[Z.to_nat (uart_tx_w u mod UART_TX_BUF_SIZE) := u8 c]> |>)) ;;;
  ⇑ (upd_uart (fun u => u <| uart_tx_w ::= fun w => u64 (w + 1) |>)) ;;;
  ⇑ uartstart ;;;
  ⇑ (release LUart).

Definition uartputc_sync (c : Z) : K unit :=
  push_off ;;;
  let! k := get in
  if negb (k_panicked k =? 0) then hang else
  loop (S (length (u_busy (k_uart k)))) (fun _ : unit =>
    let! lsr := ReadLSR in
    ret (if Z.land lsr LSR_TX_IDLE =? 0 then inl tt else inr tt)) tt ;;;
  WriteTHR c ;;;
  pop_off.

Definition uartgetc : K Z :=
  let! lsr := ReadLSR in
  if Z.land lsr 0x01 =? 0 then ret (-1) else ReadRHR.

(** ** console.c: consputc *)

Definition BACKSPACE : Z := 0x100.
Definition consputc (c : Z) : K unit :=
  if c =? BACKSPACE then
    uartputc_sync 8 ;;; uartputc_sync 32 ;;; uartputc_sync 8
  else uartputc_sync c.
