(* ===== verification/Printf.v ===== *)
(** * Formatted output of the kernel (printf.c) and [procdump] (proc.c) *)

From Stdlib Require Import Ascii String.
From S2P Require Import Prelude Mem CString Kernel Spinlock Kalloc Vm Proc Uart.

Definition bytes_of (s : string) : list Z :=
  map (fun a => Z.of_N (N_of_ascii a)) (list_ascii_of_string s).

(** [digits[d]] *)
Definition digit (d : Z) : Z := if d <? 10 then 48 + d else 97 + (d - 10).

(** The [do ... while] of [printint] on a buffer of [size] bytes, least significant
    digit first; a store past the buffer is undefined. *)
Fixpoint print_digits (fuel : nat) (size : nat) (x base : Z) (buf : list Z) : option (list Z) :=
  match fuel with
  | O => None
  | S fuel =>
      if decide (size ≤ length buf)%nat then None else
      let buf := buf ++ [digit (x mod base)] in
      let x := x / base in
      if x =? 0 then Some buf else print_digits fuel size x base buf
  end.

(** The characters [printint] sends, or [None] when [buf[16]] overflows.
    [xx] is a [long long]; a 64-bit number has at most 64 digits. *)
Definition printint_chars (xx base : Z) (sign : bool) : option (list Z) :=
  let neg := sign && (xx <? 0) in
  let x := if neg then u64 (- xx) else u64 xx in
  buf ← print_digits 65 16 x base [];
  if neg then
    if decide (16 ≤ length buf)%nat then None else Some (reverse (buf ++ [45]))
  else Some (reverse buf).

Fixpoint putchars (l : list Z) : K unit :=
  match l with [] => ret tt | c :: l => consputc c ;;; putchars l end.

Definition printint (xx base : Z) (sign : bool) : K unit :=
  let! l := of_option (printint_chars xx base sign) in putchars l.

Definition printptr (x : Z) : K unit :=
  consputc 48 ;;;
  consputc 120 ;;;
  for_ 0 16 (fun i => consputc (digit (Z.shiftr (u64 (Z.shiftl x (4 * i))) 60))).

(** Variadic arguments. *)
Inductive arg := AInt (v : Z) | AStr (s : option (list Z)).

Definition va_int (args : list arg) : K (Z * list arg) :=
  match args with AInt v :: rest => ret (s32 v, rest) | _ => undef end.
Definition va_u64 (args : list arg) : K (Z * list arg) :=
  match args with AInt v :: rest => ret (s64 v, rest) | _ => undef end.
Definition va_str (args : list arg) : K (option (list Z) * list arg) :=
  match args with AStr s :: rest => ret (s, rest) | _ => undef end.

Definition ch (c : string) : Z := match bytes_of c with [x] => x | _ => 0 end.

(** One conversion after a percent sign: [f] is the format after it. The rest of the
    format and of the arguments, or [None] when the format ends there. *)
Definition print_conv (f : list Z) (args : list arg) : K (option (list Z * list arg)) :=
  let c0 := default 0 (f !! 0%nat) in
  let c1 := if c0 =? 0 then 0 else default 0 (f !! 1%nat) in
  let c2 := if c1 =? 0 then 0 else default 0 (f !! 2%nat) in
  let eqc c d := c =? ch d in
  let num (va : list arg → K (Z * list arg)) base sign skip :=
    let! (v, rest) := va args in
    printint v base sign ;;;
    ret (Some (drop skip f, rest)) in
  if eqc c0 "d" then num va_int 10 true 1%nat
  else if eqc c0 "l" && eqc c1 "d" then num va_u64 10 true 2%nat
  else if eqc c0 "l" && eqc c1 "l" && eqc c2 "d" then num va_u64 10 true 3%nat
  else if eqc c0 "u" then num va_int 10 false 1%nat
  else if eqc c0 "l" && eqc c1 "u" then num va_u64 10 false 2%nat
  else if eqc c0 "l" && eqc c1 "l" && eqc c2 "u" then num va_u64 10 false 3%nat
  else if eqc c0 "x" then num va_int 16 false 1%nat
  else if eqc c0 "l" && eqc c1 "x" then num va_u64 16 false 2%nat
  else if eqc c0 "l" && eqc c1 "l" && eqc c2 "x" then num va_u64 16 false 3%nat
  else if eqc c0 "p" then
    let! (v, rest) := va_u64 args in printptr (u64 v) ;;; ret (Some (drop 1 f, rest))
  else if eqc c0 "s" then
    let! (s, rest) := va_str args in
    putchars (default (bytes_of "(null)") s) ;;; ret (Some (drop 1 f, rest))
  else if eqc c0 "%" then consputc c0 ;;; ret (Some (drop 1 f, args))
  else if c0 =? 0 then ret None
  else consputc (ch "%") ;;; consputc c0 ;;; ret (Some (drop 1 f, args)).

Fixpoint print_fmt (fuel : nat) (f : list Z) (args : list arg) : K unit :=
  match fuel with
  | O => fun _ => NoFuel
  | S fuel =>
      match f with
      | [] => ret tt
      | cx :: f =>
          if negb (cx =? ch "%") then consputc cx ;;; print_fmt fuel f args else
          let! r := print_conv f args in
          match r with
          | Some (f, args) => print_fmt fuel f args
          | None => ret tt
          end
      end
  end.

Definition printf (fmt : string) (args : list arg) : K unit :=
  let! locking := gets k_pr_locking in
  (if locking =? 0 then ret tt else acquire LPr) ;;;
  print_fmt (S (length (bytes_of fmt))) (bytes_of fmt) args ;;;
  (if locking =? 0 then ret tt else release LPr).

Definition NL : string := String (ascii_of_nat 10) EmptyString.

(** The body of [panic]: it prints, freezes the output of other harts and spins. *)
Definition kpanic (s : string) : K unit :=
  modify (fun k => k <| k_pr_locking := 0 |>) ;;;
  printf "panic: " [] ;;;
  printf ("%s" ++ NL) [AStr (Some (bytes_of s))] ;;;
  modify (fun k => k <| k_panicked := 1 |>) ;;;
  hang.

Definition printfinit : K unit :=
  initlock LPr "pr" ;;;
  modify (fun k => k <| k_pr_locking := 1 |>).

(** ** proc.c: procdump *)

Definition state_name (s : procstate) : string :=
  match s with
  | UNUSED => "unused" | USED => "used" | SLEEPING => "sleep "
  | RUNNABLE => "runble" | RUNNING => "run   " | ZOMBIE => "zombie"
  end.

Definition procdump : K unit :=
  printf NL [] ;;;
  for_procs (fun p =>
    let! pr := get_proc p in
    if decide (p_state pr = UNUSED) then ret tt else
    printf "%d %s %s" [AInt (p_pid pr); AStr (Some (bytes_of (state_name (p_state pr))));
                       AStr (Some (cut_nul (p_name pr)))] ;;;
    printf NL []).

(** ** printint prints the number *)

(** The value of digits, most significant first. *)
Definition digits_val (base : Z) (ds : list Z) : Z := foldl (fun v d => v * base + d) 0 ds.

(** A numeral: digits of the base, no zero in front of another digit. *)
Definition numeral (base : Z) (ds : list Z) : Prop :=
  (∀ d, d ∈ ds → 0 ≤ d < base) ∧ ds ≠ [] ∧ (head ds = Some 0 → ds = [0]).

Lemma digits_val_snoc base ds d : digits_val base (ds ++ [d]) = digits_val base ds * base + d.
Proof. unfold digits_val. by rewrite foldl_app. Qed.

Lemma head_snoc (ds : list Z) x : ds ≠ [] → head (ds ++ [x]) = head ds.
Proof. by destruct ds. Qed.

Lemma print_digits_fits base : 2 ≤ base → ∀ (n fuel : nat) (x : Z) (buf : list Z),
  0 ≤ x < base ^ Z.of_nat n → n ≠ 0%nat → (n < fuel)%nat →
  ∃ ds, print_digits fuel (length buf + n) x base buf = Some (buf ++ reverse (digit <$> ds)) ∧
    numeral base ds ∧ digits_val base ds = x.
Proof.
  intros Hb. induction n as [|n IH]; intros fuel x buf Hx Hn Hf; [done|].
  destruct fuel as [|fuel]; [lia|]. cbn [print_digits]. rewrite decide_False by lia.
  pose proof (Z.div_mod x base ltac:(lia)). pose proof (Z.mod_pos_bound x base ltac:(lia)).
  pose proof (Z.div_pos x base ltac:(lia) ltac:(lia)).
  destruct (Z.eqb_spec (x / base) 0) as [E|E].
  - exists [x]. replace (x mod base) with x by lia. split_and!; [done| |unfold digits_val; simpl; lia].
    split_and!; [|done|by intros [= ->]]. intros d ->%list_elem_of_singleton. lia.
  - rewrite Nat2Z.inj_succ, Z.pow_succ_r in Hx by lia.
    assert (Hlt : x / base < base ^ Z.of_nat n) by (apply Z.div_lt_upper_bound; lia).
    assert (n ≠ 0%nat) by (intros ->; simpl in Hlt; lia).
    destruct (IH fuel (x / base) (buf ++ [digit (x mod base)])) as (ds & Hr & (Hd & Hne & Hh) & Hv); [lia|done|lia|].
    exists (ds ++ [x mod base]). rewrite length_app in Hr. cbn [length] in Hr.
    replace (length buf + S n)%nat with (length buf + 1 + n)%nat by lia. rewrite Hr, fmap_app, reverse_app, <- app_assoc.
    split_and!; [done| |rewrite digits_val_snoc; lia]. split_and!.
    + intros d [Hd'| ->%list_elem_of_singleton]%elem_of_app; [by apply Hd|lia].
    + by destruct ds.
    + rewrite head_snoc by done. intros Hz. rewrite (Hh Hz) in Hv. unfold digits_val in Hv. simpl in Hv. lia.
Qed.

Lemma print_digits_overflows base : 2 ≤ base → ∀ (n fuel : nat) (x : Z) (buf : list Z),
  base ^ Z.of_nat n ≤ x → print_digits fuel (length buf + n) x base buf = None.
Proof.
  intros Hb. induction n as [|n IH]; intros [|fuel] x buf Hx; try done; cbn [print_digits].
  { by rewrite decide_True by lia. }
  rewrite decide_False by lia. rewrite Nat2Z.inj_succ, Z.pow_succ_r in Hx by lia.
  assert (Hle : base ^ Z.of_nat n ≤ x / base) by (apply Z.div_le_lower_bound; lia).
  pose proof (Z.pow_pos_nonneg base (Z.of_nat n) ltac:(lia) ltac:(lia)).
  rewrite (proj2 (Z.eqb_neq _ _)) by lia. replace (length buf + S n)%nat with (length (buf ++ [digit (x mod base)]) + n)%nat
    by (rewrite length_app; simpl; lia). by apply IH.
Qed.

Lemma digits_val_bounds base ds :
  2 ≤ base → (∀ d, d ∈ ds → 0 ≤ d < base) →
  0 ≤ digits_val base ds < base ^ Z.of_nat (length ds) ∧
  (∀ d ds', ds = d :: ds' → d ≠ 0 → base ^ Z.of_nat (length ds') ≤ digits_val base ds).
Proof.
  intros Hb. induction ds as [|x ds IH] using rev_ind; intros Hd; [done|].
  destruct IH as [Hv Hlo]; [intros d Hin; apply Hd; set_solver|].
  assert (0 ≤ x < base) by (apply Hd; set_solver).
  rewrite digits_val_snoc, length_app, Nat2Z.inj_add. cbn [length]. change (Z.of_nat 1) with 1.
  rewrite Z.pow_add_r, Z.pow_1_r by lia. split; [nia|]. intros d ds' E Hnz.
  destruct ds as [|d0 ds0]; simpl in E; simplify_eq.
  - unfold digits_val. simpl. lia.
  - rewrite length_app, Nat2Z.inj_add. cbn [length]. change (Z.of_nat 1) with 1. rewrite Z.pow_add_r, Z.pow_1_r by lia.
    pose proof (Hlo d ds0 eq_refl Hnz). nia.
Qed.

(** A numeral has at most [n] digits exactly when its value is below [base ^ n]. *)
Lemma numeral_length base ds n :
  2 ≤ base → numeral base ds → 1 ≤ n → (Z.of_nat (length ds) ≤ n ↔ digits_val base ds < base ^ n).
Proof.
  intros Hb (Hd & Hne & Hh) Hn. destruct (digits_val_bounds base ds Hb Hd) as [Hv Hlo]. split; intros H.
  - eapply Z.lt_le_trans; [apply Hv|]. apply Z.pow_le_mono_r; lia.
  - destruct ds as [|d ds]; [done|]. destruct (decide (d = 0)) as [->|Hnz].
    + specialize (Hh eq_refl). simplify_eq. simpl. lia.
    + specialize (Hlo d ds eq_refl Hnz). cbn [length]. destruct (decide (Z.of_nat (length ds) < n)); [lia|].
      assert (base ^ n ≤ base ^ Z.of_nat (length ds)) by (apply Z.pow_le_mono_r; lia). lia.
Qed.

(** The magnitude [printint] prints and whether it prints a minus sign. *)
Definition negative (xx : Z) (sign : bool) : bool := sign && (xx <? 0).
Definition magnitude (xx : Z) (sign : bool) : Z := if negative xx sign then - xx else u64 xx.

(** C36: [printint] of a 64-bit number prints its numeral in the base, after a minus sign
    for a negative number printed as signed, exactly when sign and digits fit in its
    buffer of 16 characters; otherwise it writes past the buffer. *)
Theorem printint_correct (xx base : Z) (sign : bool) :
  2 ≤ base ≤ 16 → - 2 ^ 63 ≤ xx < 2 ^ 63 →
  let room := if negative xx sign then 15 else 16 in
  if decide (magnitude xx sign < base ^ room) then
    ∃ ds, printint_chars xx base sign = Some ((if negative xx sign then [45] else []) ++ (digit <$> ds)) ∧
      numeral base ds ∧ digits_val base ds = magnitude xx sign
  else printint_chars xx base sign = None.
Proof.
  intros Hb Hx. assert (Hm : (if negative xx sign then u64 (- xx) else u64 xx) = magnitude xx sign ∧ 0 ≤ magnitude xx sign).
  { unfold magnitude. destruct (negative xx sign) eqn:E; [|split; [done|apply wrap_range; lia]].
    apply andb_true_iff in E as [_ E%Z.ltb_lt]. split; [apply wrap_small|]; lia. }
  destruct Hm as [Em Hm0]. unfold printint_chars. fold (negative xx sign). rewrite Em.
  set (x := magnitude xx sign) in *. set (neg := negative xx sign) in *. cbv zeta.
  destruct (decide (x < base ^ 16)) as [H16|H16].
  - destruct (print_digits_fits base ltac:(lia) 16 65 x [] ltac:(done) ltac:(done) ltac:(lia)) as (ds & E & Hnum & Hv).
    cbn [length Nat.add app] in E. rewrite E. cbn [mbind option_bind]. rewrite length_reverse, length_fmap.
    pose proof (numeral_length base ds 15 ltac:(lia) Hnum ltac:(lia)) as Hl. rewrite Hv in Hl. destruct neg.
    + repeat case_decide; try lia; [|done]. exists ds. by rewrite reverse_snoc, reverse_involutive.
    + rewrite decide_True by done. exists ds. by rewrite reverse_involutive.
  - pose proof (print_digits_overflows base ltac:(lia) 16 65 x []) as E. cbn [length Nat.add] in E. rewrite E by (simpl; lia).
    rewrite decide_False; [done|]. destruct neg; [|done]. intros H15.
    assert (base ^ 15 ≤ base ^ 16) by (apply Z.pow_le_mono_r; lia). lia.
Qed.

Lemma printint_correct_witness :
  printint_chars (-305) 10 true = Some [45; 51; 48; 53] ∧ printint_chars (10 ^ 16) 10 true = None.
Proof.
  split.
  - destruct (printint_correct (-305) 10 true ltac:(lia) ltac:(lia)) as (ds & E & _ & _). rewrite E. revert E.
    vm_compute. intros E. by rewrite E.
  - exact (printint_correct (10 ^ 16) 10 true ltac:(lia) ltac:(lia)).
Defined.
