(* ===== verification/Console.v ===== *)
(** * The console (console.c) and the UART interrupt handler (uart.c) *)

From S2P Require Import Prelude Mem CString Kernel Spinlock Kalloc Vm Proc Uart Printf.

Definition upd_cons (f : console → console) : K unit := modify (fun k => k <| k_cons ::= f |>).
Definition get_cons : K console := gets k_cons.
Definition Ctrl (x : string) : Z := ch x - ch "@".
Definition cons_at (i : Z) (c : console) : Z :=
  default 0 (cons_buf c !! Z.to_nat (i mod INPUT_BUF_SIZE)).

Definition consolewrite_body (user_src : bool) (src n : Z) (i : Z) : KM (Z + Z) :=
  if negb (i <? n) then ret (inr i) else
  let! (r, cs) := ⇑ (either_copyin user_src (u64 (src + i)) 1) in
  if r =? -1 then ret (inr i) else
  let! c := ⇑ (of_option (cs !! 0%nat)) in
  uartputc c ;;;
  ret (inl (i + 1)).
Definition consolewrite (user_src : bool) (src n : Z) : KM Z :=
  loop (S (Z.to_nat n)) (consolewrite_body user_src src n) 0.

(** The inner wait of [consoleread]; [inr false] is the early return of -1. *)
Definition consoleread_wait (_ : unit) : KM (unit + bool) :=
  let! c := ⇑ get_cons in
  if negb (cons_r c =? cons_w c) then ret (inr true) else
  let! p := ⇑ curproc in
  let! dead := ⇑ (killed p) in
  if negb (dead =? 0) then ⇑ (release LCons) ;;; ret (inr false) else
  sleep ChCons LCons ;;; ret (inl tt).

(** One character; the loop state is [(dst, n)], the result whether the lock is
    still held, and the final [n]. *)
Definition consoleread_body (user_dst : bool) (target : Z) (st : Z * Z) : KM ((Z * Z) + (bool * Z)) :=
  let '(dst, n) := st in
  if negb (0 <? n) then ret (inr (true, n)) else
  let! go := sleep_loop consoleread_wait tt in
  if negb go then ret (inr (false, n)) else
  let! cn := ⇑ get_cons in
  let c := cons_at (cons_r cn) cn in
  ⇑ (upd_cons (fun r => r <| cons_r ::= fun x => u32 (x + 1) |>)) ;;;
  if c =? Ctrl "D" then
    (if u32 n <? target then ⇑ (upd_cons (fun r => r <| cons_r ::= fun x => u32 (x - 1) |>)) else ret tt) ;;;
    ret (inr (true, n))
  else
  let! r := ⇑ (either_copyout user_dst dst [c]) in
  if r =? -1 then ret (inr (true, n)) else
  if c =? 10 then ret (inr (true, n - 1)) else
  ret (inl (u64 (dst + 1), n - 1)).

Definition consoleread (user_dst : bool) (dst n : Z) : KM Z :=
  let target := u32 n in
  ⇑ (acquire LCons) ;;;
  let! (locked, n) := loop (S (Z.to_nat n)) (consoleread_body user_dst target) (dst, n) in
  if negb locked then ret (-1) else
  ⇑ (release LCons) ;;;
  ret (s32 (target - n)).

Definition kill_line_body (_ : unit) : K (unit + unit) :=
  let! c := get_cons in
  if negb (cons_e c =? cons_w c) && negb (cons_at (u32 (cons_e c - 1)) c =? 10) then
    upd_cons (fun r => r <| cons_e ::= fun e => u32 (e - 1) |>) ;;;
    consputc BACKSPACE ;;;
    ret (inl tt)
  else ret (inr tt).

Definition consoleintr (c : Z) : K unit :=
  acquire LCons ;;;
  (if c =? Ctrl "P" then procdump
   else if c =? Ctrl "U" then
     let! cn := get_cons in
     loop (S (Z.to_nat (u32 (cons_e cn - cons_w cn)))) kill_line_body tt
   else if (c =? Ctrl "H") || (c =? 0x7f) then
     let! cn := get_cons in
     if negb (cons_e cn =? cons_w cn) then
       upd_cons (fun r => r <| cons_e ::= fun e => u32 (e - 1) |>) ;;;
       consputc BACKSPACE
     else ret tt
   else
     let! cn := get_cons in
     if negb (c =? 0) && (u32 (cons_e cn - cons_r cn) <? INPUT_BUF_SIZE) then
       let c := if c =? 13 then 10 else c in
       consputc c ;;;
       upd_cons (fun r => r <| cons_buf ::= <[Z.to_nat (cons_e r mod INPUT_BUF_SIZE) := u8 c]> |>
                            <| cons_e ::= fun e => u32 (e + 1) |>) ;;;
       let! cn := get_cons in
       if (c =? 10) || (c =? Ctrl "D") || (u32 (cons_e cn - cons_r cn) =? INPUT_BUF_SIZE) then
         upd_cons (fun r => r <| cons_w := cons_e r |>) ;;;
         wakeup ChCons
       else ret tt
     else ret tt) ;;;
  release LCons.

Definition consoleinit : K unit :=
  initlock LCons "cons" ;;;
  uartinit.

(** ** uart.c: uartintr *)

Definition uartintr_body (_ : unit) : K (unit + unit) :=
  let! c := uartgetc in
  if c =? -1 then ret (inr tt) else
  consoleintr c ;;;
  ret (inl tt).
Definition uartintr : K unit :=
  let! k := get in
  loop (S (length (u_rx (k_uart k)))) uartintr_body tt ;;;
  acquire LUart ;;;
  uartstart ;;;
  release LUart.
