(* ===== verification/Bio.v ===== *)
(** * The buffer cache (bio.c)

    The buffers and the list head form a doubly linked circular list through
    [b_prev]/[b_next]; the head is the entry at index [HEAD].  The disk driver is
    an interface ([Disk]): one operation that moves a buffer to or from the disk. *)

From S2P Require Import Prelude Mem CString Kernel Spinlock Kalloc Vm Proc.

Definition BSIZE : Z := 1024.
Definition HEAD : nat := NBUF.

Class Disk := disk_rw : nat → bool → KM unit.

Definition binit : K unit :=
  initlock LBcache "bcache" ;;;
  upd_buf HEAD (fun r => r <| b_prev := HEAD |> <| b_next := HEAD |>) ;;;
  for_ 0 NBUF (fun i =>
    let b := Z.to_nat i in
    let! h := get_buf HEAD in
    upd_buf b (fun r => r <| b_next := b_next h |> <| b_prev := HEAD |>) ;;;
    initsleeplock (buf_lock b) "buffer" ;;;
    let! h := get_buf HEAD in
    upd_buf (b_next h) (fun r => r <| b_prev := b |>) ;;;
    upd_buf HEAD (fun r => r <| b_next := b |>)).

(** [for(b = bcache.head.next; b != &bcache.head; b = b->next)]: is the block cached? *)
Definition bget_cached (dev blockno : Z) : nat → K (nat + option nat) := fun b =>
  if decide (b = HEAD) then ret (inr None) else
  let! r := get_buf b in
  if (b_dev r =? dev) && (b_blockno r =? blockno) then
    upd_buf b (fun r => r <| b_refcnt ::= fun n => u32 (n + 1) |>) ;;;
    ret (inr (Some b))
  else ret (inl (b_next r)).

(** [for(b = bcache.head.prev; b != &bcache.head; b = b->prev)]: recycle. *)
Definition bget_recycle (dev blockno : Z) : nat → K (nat + option nat) := fun b =>
  if decide (b = HEAD) then ret (inr None) else
  let! r := get_buf b in
  if b_refcnt r =? 0 then
    upd_buf b (fun r => r <| b_dev := dev |> <| b_blockno := blockno |> <| b_valid := 0 |> <| b_refcnt := 1 |>) ;;;
    ret (inr (Some b))
  else ret (inl (b_prev r)).

(** The list has at most [NBUF] buffers, so a walk of the list ends within the fuel. *)
Definition bget_lookup (dev blockno : Z) : K nat :=
  acquire LBcache ;;;
  let! h := get_buf HEAD in
  let! r := loop (S NBUF) (bget_cached dev blockno) (b_next h) in
  match r with
  | Some b => release LBcache ;;; ret b
  | None =>
      let! h := get_buf HEAD in
      let! r := loop (S NBUF) (bget_recycle dev blockno) (b_prev h) in
      match r with
      | Some b => release LBcache ;;; ret b
      | None => panic "bget: no buffers"
      end
  end.

Definition bget (dev blockno : Z) : KM nat :=
  let! b := ⇑ (bget_lookup dev blockno) in
  acquiresleep (buf_lock b) ;;;
  ret b.

Section bio.
Context {D : Disk}.

Definition bread (dev blockno : Z) : KM nat :=
  let! b := bget dev blockno in
  let! r := ⇑ (get_buf b) in
  (if b_valid r =? 0 then
     disk_rw b false ;;;
     ⇑ (upd_buf b (fun r => r <| b_valid := 1 |>))
   else ret tt) ;;;
  ret b.

Definition bwrite (b : nat) : KM unit :=
  let! h := ⇑ (holdingsleep (buf_lock b)) in
  if negb h then panic "bwrite" else disk_rw b true.
End bio.

(** The part of [brelse] under [bcache.lock]. *)
Definition brelse_unlink (b : nat) : K unit :=
  upd_buf b (fun r => r <| b_refcnt ::= fun n => u32 (n - 1) |>) ;;;
  let! r := get_buf b in
  if b_refcnt r =? 0 then
    upd_buf (b_next r) (fun x => x <| b_prev := b_prev r |>) ;;;
    let! r := get_buf b in
    upd_buf (b_prev r) (fun x => x <| b_next := b_next r |>) ;;;
    let! h := get_buf HEAD in
    upd_buf b (fun x => x <| b_next := b_next h |> <| b_prev := HEAD |>) ;;;
    let! h := get_buf HEAD in
    upd_buf (b_next h) (fun x => x <| b_prev := b |>) ;;;
    upd_buf HEAD (fun x => x <| b_next := b |>)
  else ret tt.

Definition brelse (b : nat) : K unit :=
  let! h := holdingsleep (buf_lock b) in
  if negb h then panic "brelse" else
  releasesleep (buf_lock b) ;;;
  acquire LBcache ;;;
  brelse_unlink b ;;;
  release LBcache.

Definition bpin (b : nat) : K unit :=
  acquire LBcache ;;;
  upd_buf b (fun r => r <| b_refcnt ::= fun n => u32 (n + 1) |>) ;;;
  release LBcache.

Definition bunpin (b : nat) : K unit :=
  acquire LBcache ;;;
  upd_buf b (fun r => r <| b_refcnt ::= fun n => u32 (n - 1) |>) ;;;
  release LBcache.

(** A disk that does at once what it is asked: the contract of the driver. *)
Definition ideal_rw (b : nat) (write : bool) : K unit :=
  let! r := get_buf b in
  if write then modify (fun k => k <| k_disk ::= <[b_blockno r := b_data r]> |>)
  else
    let! k := get in
    upd_buf b (fun x => x <| b_data := default (replicate (Z.to_nat BSIZE) 0) (k_disk k !! b_blockno r) |>).
Definition ideal_disk : Disk := fun b w => ⇑ (ideal_rw b w).
