(* ===== verification/Virtio.v ===== *)
(** * The disk driver (virtio_disk.c)

    The descriptor table and the two rings live in pages of their own that the device
    reads and writes; they are the fields of [vdisk], and the objects a descriptor can
    point to are the cases of [dma].  What the device answers when a register is read is
    a parameter ([Mmio]); what it does with the requests in the ring happens in the
    environment, while the driver sleeps. *)

From S2P Require Import Prelude Mem CString Kernel Spinlock Kalloc Vm Proc Bio.

(** virtio.h *)
Definition VIRTIO_MMIO_MAGIC_VALUE : Z := 0x000.
Definition VIRTIO_MMIO_VERSION : Z := 0x004.
Definition VIRTIO_MMIO_DEVICE_ID : Z := 0x008.
Definition VIRTIO_MMIO_VENDOR_ID : Z := 0x00c.
Definition VIRTIO_MMIO_DEVICE_FEATURES : Z := 0x010.
Definition VIRTIO_MMIO_DRIVER_FEATURES : Z := 0x020.
Definition VIRTIO_MMIO_QUEUE_SEL : Z := 0x030.
Definition VIRTIO_MMIO_QUEUE_NUM_MAX : Z := 0x034.
Definition VIRTIO_MMIO_QUEUE_NUM : Z := 0x038.
Definition VIRTIO_MMIO_QUEUE_READY : Z := 0x044.
Definition VIRTIO_MMIO_QUEUE_NOTIFY : Z := 0x050.
Definition VIRTIO_MMIO_INTERRUPT_STATUS : Z := 0x060.
Definition VIRTIO_MMIO_INTERRUPT_ACK : Z := 0x064.
Definition VIRTIO_MMIO_STATUS : Z := 0x070.
Definition VIRTIO_MMIO_QUEUE_DESC_LOW : Z := 0x080.
Definition VIRTIO_MMIO_QUEUE_DESC_HIGH : Z := 0x084.
Definition VIRTIO_MMIO_DRIVER_DESC_LOW : Z := 0x090.
Definition VIRTIO_MMIO_DRIVER_DESC_HIGH : Z := 0x094.
Definition VIRTIO_MMIO_DEVICE_DESC_LOW : Z := 0x0a0.
Definition VIRTIO_MMIO_DEVICE_DESC_HIGH : Z := 0x0a4.
Definition VIRTIO_CONFIG_S_ACKNOWLEDGE : Z := 1.
Definition VIRTIO_CONFIG_S_DRIVER : Z := 2.
Definition VIRTIO_CONFIG_S_DRIVER_OK : Z := 4.
Definition VIRTIO_CONFIG_S_FEATURES_OK : Z := 8.
Definition VIRTIO_BLK_F_RO : Z := 5.
Definition VIRTIO_BLK_F_SCSI : Z := 7.
Definition VIRTIO_BLK_F_CONFIG_WCE : Z := 11.
Definition VIRTIO_BLK_F_MQ : Z := 12.
Definition VIRTIO_F_ANY_LAYOUT : Z := 27.
Definition VIRTIO_RING_F_INDIRECT_DESC : Z := 28.
Definition VIRTIO_RING_F_EVENT_IDX : Z := 29.
Definition VRING_DESC_F_NEXT : Z := 1.
Definition VRING_DESC_F_WRITE : Z := 2.
Definition VIRTIO_BLK_T_IN : Z := 0.
Definition VIRTIO_BLK_T_OUT : Z := 1.
Definition VIRTIO_BLK_REQ_SIZE : Z := 16.

(** The device's answer to a read of a register, given the values last written. *)
Class Mmio := mmio_read : gmap Z Z → Z → Z.

Definition get_vdisk : K vdisk := gets k_vdisk.
Definition upd_vdisk (f : vdisk → vdisk) : K unit := modify (fun k => k <| k_vdisk ::= f |>).
Definition write_reg (r v : Z) : K unit := upd_vdisk (fun d => d <| v_regs ::= <[r := u32 v]> |>).
Definition clear_feature (x i : Z) : Z := Z.land x (Z.lnot (Z.shiftl 1 i)).

Section init.
Context {I : image} {MM : Mmio}.

Definition read_reg (r : Z) : K Z := let! d := get_vdisk in ret (u32 (mmio_read (v_regs d) r)).

Definition virtio_disk_init : K unit :=
  initlock LVdisk "virtio_disk" ;;;
  let! magic := read_reg VIRTIO_MMIO_MAGIC_VALUE in
  let! version := read_reg VIRTIO_MMIO_VERSION in
  let! device := read_reg VIRTIO_MMIO_DEVICE_ID in
  let! vendor := read_reg VIRTIO_MMIO_VENDOR_ID in
  if negb (magic =? 0x74726976) || negb (version =? 2) || negb (device =? 2) || negb (vendor =? 0x554d4551)
  then panic "could not find virtio disk" else
  let status := 0 in
  write_reg VIRTIO_MMIO_STATUS status ;;;
  let status := Z.lor status VIRTIO_CONFIG_S_ACKNOWLEDGE in
  write_reg VIRTIO_MMIO_STATUS status ;;;
  let status := Z.lor status VIRTIO_CONFIG_S_DRIVER in
  write_reg VIRTIO_MMIO_STATUS status ;;;
  let! features := read_reg VIRTIO_MMIO_DEVICE_FEATURES in
  let features := clear_feature features VIRTIO_BLK_F_RO in
  let features := clear_feature features VIRTIO_BLK_F_SCSI in
  let features := clear_feature features VIRTIO_BLK_F_CONFIG_WCE in
  let features := clear_feature features VIRTIO_BLK_F_MQ in
  let features := clear_feature features VIRTIO_F_ANY_LAYOUT in
  let features := clear_feature features VIRTIO_RING_F_EVENT_IDX in
  let features := clear_feature features VIRTIO_RING_F_INDIRECT_DESC in
  write_reg VIRTIO_MMIO_DRIVER_FEATURES features ;;;
  let status := Z.lor status VIRTIO_CONFIG_S_FEATURES_OK in
  write_reg VIRTIO_MMIO_STATUS status ;;;
  let! status := read_reg VIRTIO_MMIO_STATUS in
  if Z.land status VIRTIO_CONFIG_S_FEATURES_OK =? 0 then panic "virtio disk FEATURES_OK unset" else
  write_reg VIRTIO_MMIO_QUEUE_SEL 0 ;;;
  let! ready := read_reg VIRTIO_MMIO_QUEUE_READY in
  if negb (ready =? 0) then panic "virtio disk should not be ready" else
  let! max := read_reg VIRTIO_MMIO_QUEUE_NUM_MAX in
  if max =? 0 then panic "virtio disk has no queue 0" else
  if max <? NUM then panic "virtio disk max queue too short" else
  let! desc := kalloc in
  let! avail := kalloc in
  let! used := kalloc in
  upd_vdisk (fun d => d <| v_pages := [desc; avail; used] |>) ;;;
  if (desc =? 0) || (avail =? 0) || (used =? 0) then panic "virtio disk kalloc" else
  mem_mod (fun m => memset m desc 0 PGSIZE) ;;;
  mem_mod (fun m => memset m avail 0 PGSIZE) ;;;
  mem_mod (fun m => memset m used 0 PGSIZE) ;;;
  upd_vdisk (fun d => d <| v_desc := replicate (Z.to_nat NUM) (mkdesc DNull 0 0 0) |>
    <| v_avail_idx := 0 |> <| v_avail_ring := replicate (Z.to_nat NUM) 0 |>
    <| v_used_idx_dev := 0 |> <| v_used_ring := replicate (Z.to_nat NUM) 0 |>) ;;;
  write_reg VIRTIO_MMIO_QUEUE_NUM NUM ;;;
  write_reg VIRTIO_MMIO_QUEUE_DESC_LOW desc ;;;
  write_reg VIRTIO_MMIO_QUEUE_DESC_HIGH (Z.shiftr desc 32) ;;;
  write_reg VIRTIO_MMIO_DRIVER_DESC_LOW avail ;;;
  write_reg VIRTIO_MMIO_DRIVER_DESC_HIGH (Z.shiftr avail 32) ;;;
  write_reg VIRTIO_MMIO_DEVICE_DESC_LOW used ;;;
  write_reg VIRTIO_MMIO_DEVICE_DESC_HIGH (Z.shiftr used 32) ;;;
  write_reg VIRTIO_MMIO_QUEUE_READY 1 ;;;
  for_ 0 (Z.to_nat NUM) (fun i => upd_vdisk (fun d => d <| v_free ::= <[Z.to_nat i := 1]> |>)) ;;;
  write_reg VIRTIO_MMIO_STATUS (Z.lor status VIRTIO_CONFIG_S_DRIVER_OK).
End init.

(** ** Descriptors *)

Definition alloc_desc : K Z :=
  let! r := for_find 0 (Z.to_nat NUM) (fun i =>
    let! d := get_vdisk in
    let! f := of_option (v_free d !! Z.to_nat i) in
    if f =? 0 then ret None else
    upd_vdisk (fun d => d <| v_free ::= <[Z.to_nat i := 0]> |>) ;;;
    ret (Some i)) in
  ret (default (-1) r).

Definition free_desc (i : Z) : K unit :=
  if NUM <=? i then panic "free_desc 1" else
  if i <? 0 then undef else
  let! d := get_vdisk in
  let! f := of_option (v_free d !! Z.to_nat i) in
  if negb (f =? 0) then panic "free_desc 2" else
  upd_vdisk (fun d => d <| v_desc ::= <[Z.to_nat i := mkdesc DNull 0 0 0]> |>) ;;;
  upd_vdisk (fun d => d <| v_free ::= <[Z.to_nat i := 1]> |>) ;;;
  wakeup ChDiskFree.

Definition free_chain_body (i : Z) : K (Z + unit) :=
  let! d := get_vdisk in
  let! x := of_option (v_desc d !! Z.to_nat i) in
  free_desc i ;;;
  if negb (Z.land (d_flags x) VRING_DESC_F_NEXT =? 0) then ret (inl (d_next x)) else ret (inr tt).
(** A chain has at most NUM descriptors: [free_desc] fails on a second visit. *)
Definition free_chain (i : Z) : K unit := loop (S (Z.to_nat NUM)) free_chain_body i.

(** The three indices, or [None] when [alloc3_desc] returns -1. *)
Definition alloc3_desc : K (option (Z * Z * Z)) :=
  let! i0 := alloc_desc in
  if i0 <? 0 then ret None else
  let! i1 := alloc_desc in
  if i1 <? 0 then free_desc i0 ;;; ret None else
  let! i2 := alloc_desc in
  if i2 <? 0 then free_desc i0 ;;; free_desc i1 ;;; ret None else
  ret (Some (i0, i1, i2)).

(** ** Requests *)

Definition set_desc (i : Z) (d : virtq_desc) : K unit :=
  upd_vdisk (fun v => v <| v_desc ::= <[Z.to_nat i := d]> |>).

(** Format the three descriptors of a request for buffer [b] and put it in the ring. *)
Definition submit (b : nat) (write : bool) (sector i0 i1 i2 : Z) : K unit :=
  upd_vdisk (fun v => v <| v_ops ::=
    <[Z.to_nat i0 := mkreq (if write then VIRTIO_BLK_T_OUT else VIRTIO_BLK_T_IN) 0 sector]> |>) ;;;
  set_desc i0 (mkdesc (DOps i0) VIRTIO_BLK_REQ_SIZE VRING_DESC_F_NEXT i1) ;;;
  set_desc i1 (mkdesc (DData b) BSIZE (Z.lor (if write then 0 else VRING_DESC_F_WRITE) VRING_DESC_F_NEXT) i2) ;;;
  upd_vdisk (fun v => v <| v_info_status ::= <[Z.to_nat i0 := 0xff]> |>) ;;;
  set_desc i2 (mkdesc (DStatus i0) 1 VRING_DESC_F_WRITE 0) ;;;
  upd_buf b (fun r => r <| b_disk := 1 |>) ;;;
  upd_vdisk (fun v => v <| v_info_b ::= <[Z.to_nat i0 := Some b]> |>) ;;;
  upd_vdisk (fun v => v <| v_avail_ring ::= <[Z.to_nat (v_avail_idx v mod NUM) := i0]> |>) ;;;
  upd_vdisk (fun v => v <| v_avail_idx ::= fun x => u16 (x + 1) |>) ;;;
  write_reg VIRTIO_MMIO_QUEUE_NOTIFY 0.

Definition virtio_disk_rw (b : nat) (write : bool) : KM unit :=
  let! r := ⇑ (get_buf b) in
  let sector := u32 (b_blockno r * (BSIZE / 512)) in
  ⇑ (acquire LVdisk) ;;;
  let! (i0, i1, i2) := sleep_loop (fun _ : unit =>
    let! idx := ⇑ alloc3_desc in
    match idx with
    | Some idx => ret (inr idx)
    | None => sleep ChDiskFree LVdisk ;;; ret (inl tt)
    end) tt in
  ⇑ (submit b write sector i0 i1 i2) ;;;
  sleep_loop (fun _ : unit =>
    let! r := ⇑ (get_buf b) in
    if b_disk r =? 1 then sleep (ChBuf b) LVdisk ;;; ret (inl tt) else ret (inr tt)) tt ;;;
  ⇑ (upd_vdisk (fun v => v <| v_info_b ::= <[Z.to_nat i0 := None]> |>)) ;;;
  ⇑ (free_chain i0) ;;;
  ⇑ (release LVdisk).

(** The buffer cache on this driver. *)
Definition virtio_disk : Disk := virtio_disk_rw.

(** One completed request. *)
Definition intr_body (_ : unit) : K (unit + unit) :=
  let! d := get_vdisk in
  if v_used_idx d =? v_used_idx_dev d then ret (inr tt) else
  let! id := of_option (v_used_ring d !! Z.to_nat (v_used_idx d mod NUM)) in
  let id := s32 id in
  if (id <? 0) || (NUM <=? id) then undef else
  let! status := of_option (v_info_status d !! Z.to_nat id) in
  if negb (status =? 0) then panic "virtio_disk_intr status" else
  let! ob := of_option (v_info_b d !! Z.to_nat id) in
  let! b := of_option ob in
  upd_buf b (fun r => r <| b_disk := 0 |>) ;;;
  wakeup (ChBuf b) ;;;
  upd_vdisk (fun d => d <| v_used_idx ::= fun x => u16 (x + 1) |>) ;;;
  ret (inl tt).

(** The 16-bit indices differ by the number of completions not yet seen. *)
Definition virtio_disk_intr {MM : Mmio} : K unit :=
  acquire LVdisk ;;;
  let! st := read_reg VIRTIO_MMIO_INTERRUPT_STATUS in
  write_reg VIRTIO_MMIO_INTERRUPT_ACK (Z.land st 3) ;;;
  let! d := get_vdisk in
  loop (S (Z.to_nat (u16 (v_used_idx_dev d - v_used_idx d)))) intr_body tt ;;;
  release LVdisk.
