(* ===== verification/Log.v ===== *)
(** * The write-ahead log (log.c)

    The part of log.c that moves blocks ([write_log], [write_head], [read_head],
    [install_trans], [commit], [recover_from_log]) uses the buffer cache only
    through [bread], [bwrite], [brelse] and [bunpin] and the bytes of the buffer it
    holds, and is written here against that interface ([Blocks]).  The entry points
    [begin_op], [end_op], [log_write] and [initlog] run on the kernel. *)

From S2P Require Import Prelude Mem CString Kernel Spinlock Kalloc Vm Proc Bio.

(** What log.c uses: buffers with their bytes, and the global [log]. *)
Class Blocks (S : Type) := {
  bl_read : Z → Z → M S nat;                     (* bread(dev, blockno) *)
  bl_write : nat → M S unit;                     (* bwrite(b) *)
  bl_relse : nat → M S unit;                     (* brelse(b) *)
  bl_unpin : nat → M S unit;                     (* bunpin(b) *)
  bl_data : nat → M S (list Z);                  (* b->data *)
  bl_set_data : nat → list Z → M S unit;
  bl_log : M S log;                              (* the global [log] *)
  bl_upd_log : (log → log) → M S unit
}.

(** struct logheader: [n], then [block[LOGSIZE]], 32-bit words. *)
Definition LOGHEADER_SIZE : Z := 4 + 4 * LOGSIZE.
Definition word_at (d : list Z) (i : nat) : Z := s32 (le_val (take 4 (drop (4 * i) d))).
Definition set_word (d : list Z) (i : nat) (v : Z) : list Z :=
  take (4 * i) d ++ le_bytes 4 v ++ drop (4 * i + 4) d.

Section log.
Context {S : Type} {B : Blocks S}.

Definition install_trans (recovering : bool) : M S unit :=
  let! lg := bl_log in
  for_ 0 (Z.to_nat (lh_n lg)) (fun tail =>
    let! lg := bl_log in
    let! lbuf := bl_read (u32 (l_dev lg)) (u32 (l_start lg + tail + 1)) in
    let! blk := of_option (lh_block lg !! Z.to_nat tail) in
    let! dbuf := bl_read (u32 (l_dev lg)) (u32 blk) in
    let! d := bl_data lbuf in
    bl_set_data dbuf d ;;;
    bl_write dbuf ;;;
    (if recovering then ret tt else bl_unpin dbuf) ;;;
    bl_relse lbuf ;;;
    bl_relse dbuf).

(** [log.lh.block[i]] is out of bounds when the header on disk has [n > LOGSIZE]. *)
Definition read_head : M S unit :=
  let! lg := bl_log in
  let! buf := bl_read (u32 (l_dev lg)) (u32 (l_start lg)) in
  let! lh := bl_data buf in
  bl_upd_log (fun r => r <| lh_n := word_at lh 0 |>) ;;;
  let! lg := bl_log in
  for_ 0 (Z.to_nat (lh_n lg)) (fun i =>
    if Z.of_nat (length (lh_block lg)) <=? i then undef else
    bl_upd_log (fun r => r <| lh_block ::= <[Z.to_nat i := word_at lh (1 + Z.to_nat i)]> |>)) ;;;
  bl_relse buf.

Definition write_head : M S unit :=
  let! lg := bl_log in
  let! buf := bl_read (u32 (l_dev lg)) (u32 (l_start lg)) in
  let! hb := bl_data buf in
  bl_set_data buf (set_word hb 0 (lh_n lg)) ;;;
  for_ 0 (Z.to_nat (lh_n lg)) (fun i =>
    let! hb := bl_data buf in
    let! v := of_option (lh_block lg !! Z.to_nat i) in
    bl_set_data buf (set_word hb (1 + Z.to_nat i) v)) ;;;
  bl_write buf ;;;
  bl_relse buf.

Definition recover_from_log : M S unit :=
  read_head ;;;
  install_trans true ;;;
  bl_upd_log (fun r => r <| lh_n := 0 |>) ;;;
  write_head.

Definition write_log : M S unit :=
  let! lg := bl_log in
  for_ 0 (Z.to_nat (lh_n lg)) (fun tail =>
    let! lg := bl_log in
    let! to := bl_read (u32 (l_dev lg)) (u32 (l_start lg + tail + 1)) in
    let! blk := of_option (lh_block lg !! Z.to_nat tail) in
    let! from := bl_read (u32 (l_dev lg)) (u32 blk) in
    let! d := bl_data from in
    bl_set_data to d ;;;
    bl_write to ;;;
    bl_relse from ;;;
    bl_relse to).

Definition commit : M S unit :=
  let! lg := bl_log in
  if 0 <? lh_n lg then
    write_log ;;;
    write_head ;;;
    install_trans false ;;;
    bl_upd_log (fun r => r <| lh_n := 0 |>) ;;;
    write_head
  else ret tt.
End log.

(** ** On the kernel *)

Definition get_log : K log := gets k_log.
Definition upd_log (f : log → log) : K unit := modify (fun k => k <| k_log ::= f |>).

Definition kernel_blocks {D : Disk} : Blocks (kst * list (kst → kst)) := {|
  bl_read := bread;
  bl_write := bwrite;
  bl_relse b := ⇑ (brelse b);
  bl_unpin b := ⇑ (bunpin b);
  bl_data b := ⇑ (let! r := get_buf b in ret (b_data r));
  bl_set_data b d := ⇑ (upd_buf b (fun r => r <| b_data := d |>));
  bl_log := ⇑ get_log;
  bl_upd_log f := ⇑ (upd_log f)
|}.

Definition initlog {D : Disk} (dev : Z) (sb : superblock) : KM unit :=
  if BSIZE <=? LOGHEADER_SIZE then panic "initlog: too big logheader" else
  ⇑ (initlock LLog "log") ;;;
  ⇑ (upd_log (fun r => r <| l_start := s32 (sb_logstart sb) |> <| l_size := s32 (sb_nlog sb) |> <| l_dev := dev |>)) ;;;
  recover_from_log (B := kernel_blocks).

Definition begin_op : KM unit :=
  ⇑ (acquire LLog) ;;;
  sleep_loop (fun _ : unit =>
    let! lg := ⇑ get_log in
    if negb (l_committing lg =? 0) then sleep ChLog LLog ;;; ret (inl tt)
    else if LOGSIZE <? lh_n lg + (l_outstanding lg + 1) * MAXOPBLOCKS then sleep ChLog LLog ;;; ret (inl tt)
    else
      ⇑ (upd_log (fun r => r <| l_outstanding ::= Z.add 1 |>)) ;;;
      ⇑ (release LLog) ;;;
      ret (inr tt)) tt.

(** The first critical section of [end_op]: whether this caller commits. *)
Definition end_op_enter : K bool :=
  acquire LLog ;;;
  upd_log (fun r => r <| l_outstanding ::= Z.pred |>) ;;;
  let! lg := get_log in
  if negb (l_committing lg =? 0) then panic "log.committing" else
  let! do_commit :=
    (if l_outstanding lg =? 0 then
       upd_log (fun r => r <| l_committing := 1 |>) ;;; ret true
     else wakeup ChLog ;;; ret false) in
  release LLog ;;;
  ret do_commit.

(** What the caller that commits does then. *)
Definition end_op_commit {D : Disk} : KM unit :=
  commit (B := kernel_blocks) ;;;
  ⇑ (acquire LLog) ;;;
  ⇑ (upd_log (fun r => r <| l_committing := 0 |>)) ;;;
  ⇑ (wakeup ChLog) ;;;
  ⇑ (release LLog).

Definition end_op {D : Disk} : KM unit :=
  let! do_commit := ⇑ end_op_enter in
  if (do_commit : bool) then end_op_commit else ret tt.

(** The index the block gets in [log.lh.block]: its own (absorption) or the next. *)
Fixpoint absorb (blocks : list Z) (n : nat) (b : Z) : nat :=
  match n, blocks with
  | O, _ => 0
  | S n, x :: blocks => if (u32 x =? b)%Z then 0 else S (absorb blocks n b)
  | S n, [] => 0
  end%nat.

Definition log_write (b : nat) : K unit :=
  acquire LLog ;;;
  let! lg := get_log in
  if (LOGSIZE <=? lh_n lg) || (l_size lg - 1 <=? lh_n lg) then panic "too big a transaction" else
  if l_outstanding lg <? 1 then panic "log_write outside of trans" else
  let! r := get_buf b in
  let i := absorb (lh_block lg) (Z.to_nat (lh_n lg)) (b_blockno r) in
  upd_log (fun x => x <| lh_block ::= <[i := s32 (b_blockno r)]> |>) ;;;
  (if decide (Z.of_nat i = lh_n lg) then
     bpin b ;;;
     upd_log (fun x => x <| lh_n ::= Z.add 1 |>)
   else ret tt) ;;;
  release LLog.
