(* ===== verification/Logproof.v ===== *)
(** * Crash safety of the write-ahead log

    The code of log.c is verified against what it may assume of the buffer cache and
    the disk ([BlocksSpec]): a buffer shows the block's current contents, [bwrite]
    puts them on the disk, a buffer that is neither locked nor pinned keeps its
    contents only if they are on the disk.  A crash can happen before any [bwrite]
    ([crashy]); a [bwrite] itself is atomic. *)

From S2P Require Import Prelude Mem CString Kernel Spinlock Kalloc Vm Proc Bio Log.

(** ** The contract of the buffer cache *)

Abbreviation blocks := (gmap Z (list Z)).

(** A block never written reads as zeroes. *)
Definition blk (m : blocks) (n : Z) : list Z := default (replicate (Z.to_nat BSIZE) 0) (m !! n).

Record cache := mkcache {
  a_disk : blocks;               (* what is on the disk *)
  a_view : blocks;               (* what a reader sees *)
  a_pins : gset Z;               (* blocks pinned in the cache *)
  a_held : gmap nat Z;           (* buffers the caller has locked *)
  a_log : log
}.
#[export] Instance cache_settable : Settable cache :=
  fun r => mkcache (a_disk r) (a_view r) (a_pins r) (a_held r) (a_log r).

Definition a_refs (a : cache) : gset Z := a_pins a ∪ map_img (a_held a).

Class BlocksSpec {S} (B : Blocks S) := {
  bs_dev : Z;
  repr : S → cache → Prop;
  read_spec n s a : repr s a → 0 ≤ n < 2 ^ 32 → (∀ b, a_held a !! b ≠ Some n) →
    n ∈ a_pins a ∨ (size (a_refs a) < NBUF)%nat →
    wp (bl_read bs_dev n) (fun b s' => a_held a !! b = None ∧ repr s' (a <| a_held ::= <[b := n]> |>)) s;
  data_spec b n s a : repr s a → a_held a !! b = Some n →
    wp (bl_data b) (fun d s' => d = blk (a_view a) n ∧ repr s' a) s;
  set_data_spec b n d s a : repr s a → a_held a !! b = Some n → length d = Z.to_nat BSIZE →
    wp (bl_set_data b d) (fun _ s' => repr s' (a <| a_view ::= <[n := d]> |>)) s;
  write_spec b n s a : repr s a → a_held a !! b = Some n →
    wp (bl_write b) (fun _ s' => repr s' (a <| a_disk ::= <[n := blk (a_view a) n]> |>)) s;
  relse_spec b n s a : repr s a → a_held a !! b = Some n →
    n ∈ a_pins a ∨ blk (a_view a) n = blk (a_disk a) n →
    wp (bl_relse b) (fun _ s' => repr s' (a <| a_held ::= delete b |>)) s;
  unpin_spec b n s a : repr s a → a_held a !! b = Some n → n ∈ a_pins a →
    wp (bl_unpin b) (fun _ s' => repr s' (a <| a_pins ::= fun p => p ∖ {[n]} |>)) s;
  log_spec s a : repr s a → wp bl_log (fun lg s' => lg = a_log a ∧ repr s' a) s;
  upd_log_spec f s a : repr s a → wp (bl_upd_log f) (fun _ s' => repr s' (a <| a_log ::= f |>)) s;
  size_spec s a n : repr s a → length (blk (a_view a) n) = Z.to_nat BSIZE;
  disk_det s a a' : repr s a → repr s a' → a_disk a = a_disk a'
}.

(** ** Crashes *)

Section crash.
Context {S : Type} {B : Blocks S}.

(** The writes left before the power fails; [None]: it does not fail. *)
Abbreviation budget := (option nat).

Definition with_budget {A} (m : M S A) : M (S * budget) A := fun '(s, n) =>
  match m s with
  | Ok a s' => Ok a (s', n)
  | Panic msg s' => Panic msg (s', n)
  | Undef s' => Undef (s', n)
  | Hang s' => Hang (s', n)
  | NoFuel => NoFuel
  end.

Definition crashy : Blocks (S * budget) := {|
  bl_read dev n := with_budget (bl_read dev n);
  bl_write b := fun '(s, n) =>
    match n with
    | Some O => Hang (s, n)
    | Some (Datatypes.S n') => with_budget (bl_write b) (s, Some n')
    | None => with_budget (bl_write b) (s, None)
    end;
  bl_relse b := with_budget (bl_relse b);
  bl_unpin b := with_budget (bl_unpin b);
  bl_data b := with_budget (bl_data b);
  bl_set_data b d := with_budget (bl_set_data b d);
  bl_log := with_budget bl_log;
  bl_upd_log f := with_budget (bl_upd_log f)
|}.

(** [m] from [s] with budget [n]: it returns in [Q], or the power fails in a state of [C]. *)
Definition crash_post {A} (m : M (S * budget) A) (Q : A → S → Prop) (C : S → Prop) (s : S) (n : budget) : Prop :=
  match m (s, n) with
  | Ok a (s', n') => (n = None → n' = None) ∧ Q a s'
  | Hang (s', _) => n ≠ None ∧ C s'
  | _ => False
  end.
Definition cwp {A} (m : M (S * budget) A) (Q : A → S → Prop) (C : S → Prop) (s : S) : Prop :=
  ∀ n, crash_post m Q C s n.

Lemma cwp_bind {A D} (m : M (S * budget) A) (k : A → M (S * budget) D) Q C s :
  cwp m (fun a s' => cwp (k a) Q C s') C s → cwp (bind m k) Q C s.
Proof.
  intros H n. specialize (H n). unfold crash_post, bind in *.
  destruct (m (s, n)) as [a [s' n']| | | |]; try done. destruct H as [Hn H]. specialize (H n').
  unfold crash_post in H. destruct (k a (s', n')) as [d [s2 n2]| | |[s2 n2]|]; naive_solver.
Qed.

Lemma cwp_mono {A} (m : M (S * budget) A) (Q Q' : A → S → Prop) C s :
  cwp m Q C s → (∀ a s', Q a s' → Q' a s') → cwp m Q' C s.
Proof. intros H HQ n. specialize (H n). unfold crash_post in *. destruct (m (s, n)) as [a [s' n']| | | |]; naive_solver. Qed.

Lemma cwp_ret {A} (a : A) (Q : A → S → Prop) C s : Q a s → cwp (ret a) Q C s.
Proof. by intros H n. Qed.

Lemma cwp_pure {A} (m : M S A) Q C s : wp m Q s → cwp (with_budget m) Q C s.
Proof. intros H n. unfold crash_post, with_budget. unfold wp in H. by destruct (m s). Qed.

Lemma cwp_write b (Q : unit → S → Prop) (C : S → Prop) s :
  C s → wp (bl_write b) Q s → cwp (bl_write (Blocks := crashy) b) Q C s.
Proof.
  intros HC H n. unfold crash_post, wp in *. destruct n as [[|n]|]; cbn; [done|..]; by destruct (bl_write b s).
Qed.

Lemma cwp_for (I : Z → S → Prop) C lo n (body : Z → M (S * budget) unit) s :
  (∀ i s, lo ≤ i < lo + Z.of_nat n → I i s → cwp (body i) (fun _ s' => I (i + 1) s') C s) →
  I lo s → cwp (for_ lo n body) (fun _ s' => I (lo + Z.of_nat n) s') C s.
Proof.
  revert lo s. induction n as [|n IH]; intros lo s Hb HI; simpl.
  { apply cwp_ret. by rewrite Z.add_0_r. }
  apply cwp_bind. eapply cwp_mono; [apply Hb; [lia|done]|].
  intros [] s' HI'. cbn beta in HI'. replace (lo + Z.of_nat (Datatypes.S n)) with (lo + 1 + Z.of_nat n) by lia.
  apply IH; [|done]. intros i s'' Hi. apply Hb. lia.
Qed.
End crash.

(** ** The header block *)

Lemma length_set_word d i v : (4 * i + 4 ≤ length d)%nat → length (set_word d i v) = length d.
Proof. intros H. unfold set_word. rewrite !length_app, length_take, length_drop, length_le_bytes. lia. Qed.

Lemma word_set_eq d i v : (4 * i + 4 ≤ length d)%nat → - 2 ^ 31 ≤ v < 2 ^ 31 → word_at (set_word d i v) i = v.
Proof.
  intros H Hv. unfold word_at, set_word. rewrite drop_app_length' by (rewrite length_take; lia).
  rewrite take_app_length' by (by rewrite length_le_bytes). rewrite le_val_bytes.
  unfold s32, sgn. change (8 * Z.of_nat 4) with 32. fold (wrap 32 v). rewrite wrap_wrap.
  fold (sgn 32 v). by apply sgn_small.
Qed.

Lemma word_set_ne d i j v : (4 * i + 4 ≤ length d)%nat → i ≠ j → word_at (set_word d i v) j = word_at d j.
Proof.
  intros H Hne. unfold word_at. do 2 f_equal. apply list_eq. intros x.
  destruct (decide (x < 4)%nat) as [Hx|Hx]; [|rewrite !lookup_take_ge by lia; done].
  rewrite !lookup_take_lt, !lookup_drop by lia. unfold set_word.
  destruct (decide (j < i)%nat).
  - rewrite lookup_app_l by (rewrite length_take; lia). by rewrite lookup_take_lt by lia.
  - rewrite lookup_app_r by (rewrite length_take; lia).
    rewrite lookup_app_r by (rewrite length_take, length_le_bytes; lia).
    rewrite length_take, length_le_bytes, lookup_drop. f_equal. lia.
Qed.

Lemma blk_insert_eq (m : blocks) n d : blk (<[n := d]> m) n = d.
Proof. unfold blk. by rewrite lookup_insert_eq. Qed.
Lemma blk_insert_ne (m : blocks) n n' d : n ≠ n' → blk (<[n := d]> m) n' = blk m n'.
Proof. intros. unfold blk. by rewrite lookup_insert_ne. Qed.
Lemma blk_insert (m : blocks) n n' d : blk (<[n := d]> m) n' = if decide (n = n') then d else blk m n'.
Proof. case_decide; [subst; apply blk_insert_eq|by apply blk_insert_ne]. Qed.

(** The header [h] records the block numbers [bl]. *)
Definition hdr_is (h : list Z) (bl : list Z) : Prop :=
  word_at h 0 = Z.of_nat (length bl) ∧ ∀ i b, bl !! i = Some b → word_at h (1 + i) = b.

Section commit.
Context {S : Type} {B : Blocks S} {SP : BlocksSpec B} (start : Z).

(** The log: LOGSIZE blocks, as mkfs makes it, the header and LOGSIZE - 1 more. *)
Definition in_log (n : Z) : Prop := start ≤ n < start + LOGSIZE.

(** The blocks of a transaction: distinct, outside the log, few enough. *)
Record txn (bl : list Z) : Prop := {
  tx_start : 0 ≤ start ∧ start + LOGSIZE < 2 ^ 31;
  tx_len : (length bl < NBUF)%nat;
  tx_nodup : NoDup bl;
  tx_out b : b ∈ bl → 0 ≤ b < 2 ^ 31 ∧ ¬ in_log b
}.

(** The in-memory header holds [bl]. *)
Record lg_is (bl : list Z) (lg : log) : Prop := {
  lg_start : l_start lg = start;
  lg_dev : u32 (l_dev lg) = bs_dev;
  lg_n : lh_n lg = Z.of_nat (length bl);
  lg_blocks : take (length bl) (lh_block lg) = bl;
  lg_size : length (lh_block lg) = Z.to_nat LOGSIZE
}.

Lemma lg_lookup bl lg i b : lg_is bl lg → bl !! i = Some b → lh_block lg !! i = Some b.
Proof.
  intros H Hb. rewrite <- (lg_blocks _ _ H) in Hb. apply lookup_take_Some in Hb as [Hb _]. done.
Qed.

(** Power lost with a disk in [P]. *)
Definition crashed (P : blocks → Prop) (s : S) : Prop := ∃ a, repr s a ∧ P (a_disk a).

Lemma refs_one (a : cache) b n : (size (a_pins a) < NBUF)%nat → a_held a = {[b := n]} →
  (size (a_refs a) ≤ NBUF)%nat.
Proof.
  intros Hp Hh. unfold a_refs. rewrite Hh, map_img_singleton_L.
  pose proof (size_union_alt (a_pins a) {[n]}) as ->.
  assert (size ({[n]} ∖ a_pins a) ≤ size (C := gset Z) {[n]})%nat by (apply subseteq_size; set_solver).
  rewrite size_singleton in *. lia.
Qed.

Lemma refs_none (a : cache) : (size (a_pins a) < NBUF)%nat → a_held a = ∅ → (size (a_refs a) < NBUF)%nat.
Proof. intros Hp Hh. unfold a_refs. rewrite Hh, map_img_empty_L, union_empty_r_L. done. Qed.

Lemma u32_start bl i : txn bl → 0 ≤ i ≤ LOGSIZE → u32 (start + i) = start + i.
Proof. intros [H _ _ _] Hi. apply wrap_small. lia. Qed.

(** [a'] differs from [a] only in what is written at [n], on disk and in the cache. *)
Definition wrote (a : cache) (n : Z) (d : list Z) (a' : cache) : Prop :=
  a_disk a' = <[n := d]> (a_disk a) ∧ a_view a' = <[n := d]> (a_view a) ∧
  a_pins a' = a_pins a ∧ a_held a' = ∅ ∧ a_log a' = a_log a.

Lemma write_head_cwp P bl s a :
  txn bl → lg_is bl (a_log a) → repr s a → a_held a = ∅ → (size (a_pins a) < NBUF)%nat → P (a_disk a) →
  cwp (write_head (B := crashy)) (fun _ s' => ∃ h a', hdr_is h bl ∧ wrote a start h a' ∧ repr s' a') (crashed P) s.
Proof.
  intros Htx Hlg Hs Hh Hp HP. unfold write_head. pose proof (tx_start _ Htx) as Hst.
  pose proof (tx_len _ Htx) as Hlen. unfold NBUF, LOGSIZE, MAXOPBLOCKS in Hlen, Hst.
  apply cwp_bind, cwp_pure. eapply wp_mono; [by apply log_spec|]. intros lg s1 [-> Hs1].
  rewrite (lg_dev _ _ Hlg), (lg_start _ _ Hlg). replace (u32 start) with start by (symmetry; apply wrap_small; lia).
  apply cwp_bind, cwp_pure. eapply wp_mono; [apply (read_spec start); [done|lia| |]|].
  { intros b. by rewrite Hh, lookup_empty. } { right. by apply refs_none. }
  intros b s2 [_ Hs2]. set (a2 := a <| a_held ::= <[b := start]> |>) in *.
  assert (Hb2 : a_held a2 !! b = Some start) by (cbn; by rewrite lookup_insert_eq).
  apply cwp_bind, cwp_pure. eapply wp_mono; [by apply (data_spec b start)|]. intros h0 s3 [-> Hs3].
  pose proof (size_spec _ _ start Hs3) as Hsz. change (Z.to_nat BSIZE) with 1024%nat in Hsz.
  set (h0 := blk (a_view a2) start) in *. rewrite (lg_n _ _ Hlg).
  apply cwp_bind, cwp_pure. eapply wp_mono; [apply (set_data_spec b start); [done|done|]|].
  { rewrite length_set_word; [done|lia]. }
  intros [] s4 Hs4. apply cwp_bind. rewrite Nat2Z.id.
  eapply cwp_mono; [apply (cwp_for (fun i s => ∃ h, repr s (a2 <| a_view ::= <[start := h]> |>) ∧ length h = 1024%nat ∧
     word_at h 0 = Z.of_nat (length bl) ∧ ∀ j c, Z.of_nat j < i → bl !! j = Some c → word_at h (1 + j) = c))|].
  - intros i s5 Hi (h & Hs5 & Hl & Hw & Hw').
    apply cwp_bind, cwp_pure. eapply wp_mono; [by apply (data_spec b start)|]. intros hb s6 [-> Hs6].
    cbn [a_view set_field cache_settable a2]. 
    change (a_view (a2 <| a_view ::= <[start := h]> |>)) with (<[start := h]> (a_view a2)). rewrite blk_insert_eq.
    destruct (lookup_lt_is_Some_2 bl (Z.to_nat i) ltac:(lia)) as [c Hc].
    rewrite (lg_lookup _ _ _ _ Hlg Hc). apply cwp_bind, cwp_ret, cwp_pure.
    pose proof (tx_out _ Htx c (list_elem_of_lookup_2 _ _ _ Hc)) as [Hcr _].
    eapply wp_mono; [apply (set_data_spec b start); [done|done|]|].
    { rewrite length_set_word; [done|lia]. }
    intros [] s7 Hs7. exists (set_word h (1 + Z.to_nat i) c). split_and!.
    + match type of Hs7 with repr _ ?x => match goal with |- repr _ ?y => assert (x = y) as <-; [|done] end end.
      unfold a2. cbv [set_field cache_settable]. cbn. f_equal. by rewrite insert_insert_eq.
    + rewrite length_set_word; [done|lia].
    + rewrite word_set_ne; [done|lia|lia].
    + intros j c' Hj Hc'. destruct (decide (j = Z.to_nat i)) as [->|Hne].
      * simplify_eq. apply word_set_eq; lia.
      * rewrite word_set_ne by lia. apply Hw'; [lia|done].
  - exists (set_word h0 0 (Z.of_nat (length bl))). split_and!; [done|by rewrite length_set_word by lia|apply word_set_eq; lia|lia].
  - intros [] s5 (h & Hs5 & Hl & Hw & Hw'). apply cwp_bind. apply cwp_write.
    { by eexists. }
    eapply wp_mono; [by apply (write_spec b start)|]. intros [] s6 Hs6. apply cwp_pure.
    change (a_view (a2 <| a_view ::= <[start := h]> |>)) with (<[start := h]> (a_view a2)) in Hs6.
    rewrite blk_insert_eq in Hs6.
    eapply wp_mono; [apply (relse_spec b start); [exact Hs6|done|]|].
    { right. cbn. by rewrite !blk_insert_eq. }
    intros [] s7 Hs7. eexists h, _. split; [|split; [|exact Hs7]].
    + split; [done|]. intros i c Hc. apply Hw'; [|done]. apply lookup_lt_Some in Hc. lia.
    + split_and!; try done. cbn. rewrite Hh. apply delete_insert_id. done.
Qed.

Definition data_area (n : Z) : Prop := start < n < start + LOGSIZE.

(** The first [i] blocks of the transaction have been copied to the log. *)
Definition copied (a : cache) (bl : list Z) (i : Z) (a' : cache) : Prop :=
  a_pins a' = a_pins a ∧ a_held a' = ∅ ∧ a_log a' = a_log a ∧
  (∀ m, ¬ data_area m → blk (a_disk a') m = blk (a_disk a) m ∧ blk (a_view a') m = blk (a_view a) m) ∧
  (∀ m, data_area m → blk (a_view a') m = blk (a_disk a') m) ∧
  (∀ j b, Z.of_nat j < i → bl !! j = Some b →
     blk (a_disk a') (start + Z.of_nat j + 1) = blk (a_view a) b ∧
     blk (a_view a') (start + Z.of_nat j + 1) = blk (a_view a) b).

Lemma copied_step a bl i a1 a2 b :
  txn bl → (Z.to_nat i < length bl)%nat → 0 ≤ i → bl !! Z.to_nat i = Some b →
  copied a bl i a1 → wrote a1 (start + i + 1) (blk (a_view a1) b) a2 → copied a bl (i + 1) a2.
Proof.
  intros Htx Hi Hi0 Hb (Hp & Hh & Hl & Hout & Hcl & Hin) (Hd & Hv & Hp2 & Hh2 & Hl2).
  pose proof (tx_len _ Htx) as Hlen. unfold NBUF in Hlen.
  assert (Harea : data_area (start + i + 1)) by (unfold data_area, LOGSIZE, MAXOPBLOCKS; lia).
  assert (Hvb : blk (a_view a1) b = blk (a_view a) b).
  { apply Hout. intros ?. apply (tx_out _ Htx b); [by eapply list_elem_of_lookup_2|]. unfold in_log, data_area in *. lia. }
  rewrite Hvb in *. split_and!; try congruence.
  - intros m Hm. rewrite Hd, Hv, !blk_insert_ne by (intros <-; done). by apply Hout.
  - intros m Hm. rewrite Hd, Hv, !blk_insert. case_decide; [done|]. by apply Hcl.
  - intros j c Hj Hc. rewrite Hd, Hv. destruct (decide (Z.of_nat j = i)) as [E|Hne].
    + rewrite E, !blk_insert_eq. replace (Z.to_nat i) with j in Hb by lia. by simplify_eq.
    + rewrite !blk_insert_ne by lia. apply Hin; [lia|done].
Qed.

Lemma write_log_cwp (P : blocks → Prop) bl s a :
  txn bl → lg_is bl (a_log a) → repr s a → a_held a = ∅ → (size (a_pins a) < NBUF)%nat →
  (∀ b, b ∈ bl → b ∈ a_pins a) → (∀ n, in_log n → n ∉ a_pins a) →
  (∀ m, data_area m → blk (a_view a) m = blk (a_disk a) m) →
  (∀ d, (∀ m, ¬ data_area m → blk d m = blk (a_disk a) m) → P d) →
  cwp (write_log (B := crashy)) (fun _ s' => ∃ a', copied a bl (Z.of_nat (length bl)) a' ∧ repr s' a') (crashed P) s.
Proof.
  intros Htx Hlg Hs Hh Hp Hbl Hlogp Hcl HP. unfold write_log. pose proof (tx_start _ Htx) as Hst.
  pose proof (tx_len _ Htx) as Hlen. unfold NBUF, LOGSIZE, MAXOPBLOCKS in Hlen, Hst.
  apply cwp_bind, cwp_pure. eapply wp_mono; [by apply log_spec|]. intros lg s1 [-> Hs1].
  rewrite (lg_n _ _ Hlg), Nat2Z.id.
  eapply cwp_mono; [apply (cwp_for (fun i s => ∃ a', copied a bl i a' ∧ repr s a'))|].
  3:{ intros [] s' H. exact H. }
  2:{ exists a. split; [|done]. split_and!; [done..|]. lia. }
  intros i s2 Hi (a2 & Hcp & Hs2). pose proof Hcp as (Hp2 & Hh2 & Hl2 & Hout & _ & Hin).
  destruct (lookup_lt_is_Some_2 bl (Z.to_nat i) ltac:(lia)) as [b Hb].
  pose proof (list_elem_of_lookup_2 _ _ _ Hb) as Hbin. pose proof (tx_out _ Htx b Hbin) as [Hbr Hbo].
  assert (Hn0 : start + i + 1 ∉ a_pins a) by (apply Hlogp; unfold in_log, LOGSIZE, MAXOPBLOCKS; lia).
  apply cwp_bind, cwp_pure. eapply wp_mono; [by apply log_spec|]. intros lg s3 [-> Hs3].
  rewrite Hl2, (lg_dev _ _ Hlg), (lg_start _ _ Hlg), (lg_lookup _ _ _ _ Hlg Hb).
  replace (u32 (start + i + 1)) with (start + i + 1) by (symmetry; apply wrap_small; lia).
  apply cwp_bind, cwp_pure. eapply wp_mono; [apply (read_spec (start + i + 1) s3 a2); [done|lia| |]|].
  { intros x. by rewrite Hh2, lookup_empty. } { right. apply refs_none; [by rewrite Hp2|done]. }
  intros to s4 [_ Hs4]. apply cwp_bind, cwp_ret.
  replace (u32 b) with b by (symmetry; apply wrap_small; lia).
  set (a4 := a2 <| a_held ::= <[to := start + i + 1]> |>) in *.
  assert (Hne : start + i + 1 ≠ b) by (intros <-; apply Hbo; unfold in_log, LOGSIZE, MAXOPBLOCKS; lia).
  apply cwp_bind, cwp_pure. eapply wp_mono; [apply (read_spec b s4 a4); [done|lia| |]|].
  { intros x. cbn. rewrite Hh2. destruct (decide (x = to)) as [->|]; [rewrite lookup_insert_eq; congruence|].
    by rewrite lookup_insert_ne. }
  { left. cbn. rewrite Hp2. by apply Hbl. }
  intros from s5 [Hfrom Hs5]. set (a5 := a4 <| a_held ::= <[from := b]> |>) in *.
  assert (Hft : from ≠ to) by (intros ->; cbn in Hfrom; by rewrite lookup_insert_eq in Hfrom).
  apply cwp_bind, cwp_pure. eapply wp_mono; [apply (data_spec from b); [done|cbn; by rewrite lookup_insert_eq]|].
  intros d s6 [-> Hs6]. change (a_view a5) with (a_view a2) in *. set (d := blk (a_view a2) b).
  assert (Hto5 : a_held a5 !! to = Some (start + i + 1)) by (cbn; by rewrite lookup_insert_ne, lookup_insert_eq).
  apply cwp_bind, cwp_pure. eapply wp_mono; [apply (set_data_spec to (start + i + 1)); [done|done|]|].
  { apply (size_spec _ _ b Hs6). }
  intros [] s7 Hs7. set (a7 := a5 <| a_view ::= <[start + i + 1 := d]> |>) in *.
  apply cwp_bind, cwp_write.
  { exists a7. split; [done|]. apply HP. intros m Hm. by apply Hout. }
  eapply wp_mono; [by apply (write_spec to (start + i + 1))|]. intros [] s8 Hs8.
  change (a_view a7) with (<[start + i + 1 := d]> (a_view a2)) in Hs8. rewrite blk_insert_eq in Hs8.
  apply cwp_bind, cwp_pure. eapply wp_mono; [apply (relse_spec from b); [exact Hs8|cbn; by rewrite lookup_insert_eq|]|].
  { left. cbn. rewrite Hp2. by apply Hbl. }
  intros [] s9 Hs9. apply cwp_pure.
  eapply wp_mono; [apply (relse_spec to (start + i + 1)); [exact Hs9| |]|].
  { cbn. by rewrite lookup_delete_ne, lookup_insert_ne, lookup_insert_eq. }
  { right. cbn. by rewrite !blk_insert_eq. }
  intros [] s10 Hs10. eexists. split; [|exact Hs10].
  apply (copied_step a bl i a2 _ b); [done|lia|lia|done|done|]. split_and!; try done.
  cbn. rewrite Hh2. rewrite delete_insert_id by (by rewrite lookup_insert_ne). by apply delete_insert_id.
Qed.

(** The first [i] blocks of the transaction have been installed. *)
Record installed (rec : bool) (a : cache) (bl : list Z) (i : Z) (a' : cache) : Prop := {
  in_pins : a_pins a' = if rec then a_pins a else a_pins a ∖ list_to_set (take (Z.to_nat i) bl);
  in_held : a_held a' = ∅;
  in_lg : a_log a' = a_log a;
  in_other m : m ∉ take (Z.to_nat i) bl →
    blk (a_disk a') m = blk (a_disk a) m ∧ blk (a_view a') m = blk (a_view a) m;
  in_home j b : Z.of_nat j < i → bl !! j = Some b →
    blk (a_disk a') b = blk (a_disk a) (start + Z.of_nat j + 1) ∧
    blk (a_view a') b = blk (a_disk a) (start + Z.of_nat j + 1)
}.

Lemma not_in_take (bl : list Z) i b : NoDup bl → bl !! i = Some b → b ∉ take i bl.
Proof.
  intros Hn Hb Hx. apply list_elem_of_lookup in Hx as [j [Hj Hlt]%lookup_take_Some].
  pose proof (NoDup_lookup _ _ _ _ Hn Hb Hj). lia.
Qed.

Lemma in_take (bl : list Z) i b : b ∈ take i bl → b ∈ bl.
Proof. intros Hx. apply list_elem_of_lookup in Hx as [j [Hj _]%lookup_take_Some]. by eapply list_elem_of_lookup_2. Qed.

Lemma in_log_data i : 0 ≤ i < LOGSIZE - 1 → in_log (start + i + 1).
Proof. unfold in_log. lia. Qed.

Lemma installed_step rec a bl i a1 a2 b :
  txn bl → 0 ≤ i → bl !! Z.to_nat i = Some b → installed rec a bl i a1 →
  a_disk a2 = <[b := blk (a_disk a) (start + i + 1)]> (a_disk a1) →
  a_view a2 = <[b := blk (a_disk a) (start + i + 1)]> (a_view a1) →
  a_pins a2 = (if rec then a_pins a1 else a_pins a1 ∖ {[b]}) →
  a_held a2 = ∅ → a_log a2 = a_log a1 →
  installed rec a bl (i + 1) a2.
Proof.
  intros Htx Hi Hb [Hp Hh Hl Hoth Hhome] Hd Hv Hp2 Hh2 Hl2.
  assert (Ht : take (Z.to_nat (i + 1)) bl = take (Z.to_nat i) bl ++ [b]).
  { replace (Z.to_nat (i + 1)) with (Datatypes.S (Z.to_nat i)) by lia. by apply take_S_r. }
  split; [|done|congruence| |].
  - rewrite Hp2, Hp, Ht. destruct rec; [done|]. rewrite list_to_set_app_L. set_solver.
  - intros m Hm. rewrite Ht, not_elem_of_app, not_elem_of_cons in Hm. destruct Hm as (Hm & Hne & _).
    rewrite Hd, Hv, !blk_insert_ne by congruence. by apply Hoth.
  - intros j c Hj Hc. rewrite Hd, Hv. destruct (decide (Z.of_nat j = i)) as [E|Hne].
    + replace (Z.to_nat i) with j in Hb by lia. simplify_eq. by rewrite !blk_insert_eq.
    + assert (b ≠ c).
      { intros <-. pose proof (NoDup_lookup _ _ _ _ (tx_nodup _ Htx) Hb Hc). lia. }
      rewrite !blk_insert_ne by done. apply Hhome; [lia|done].
Qed.

Lemma install_trans_cwp (P : blocks → Prop) (rec : bool) bl s a :
  txn bl → lg_is bl (a_log a) → repr s a → a_held a = ∅ → (size (a_pins a) < NBUF)%nat →
  (if rec then a_pins a = ∅ else ∀ b, b ∈ bl → b ∈ a_pins a) →
  (∀ n, in_log n → (n ∉ a_pins a) ∧ blk (a_view a) n = blk (a_disk a) n) →
  (∀ d, (∀ m, m ∉ bl → blk d m = blk (a_disk a) m) → P d) →
  cwp (install_trans (B := crashy) rec)
    (fun _ s' => ∃ a', installed rec a bl (Z.of_nat (length bl)) a' ∧ repr s' a') (crashed P) s.
Proof.
  intros Htx Hlg Hs Hh Hp Hbl Hlogp HP. unfold install_trans. pose proof (tx_start _ Htx) as Hst.
  pose proof (tx_len _ Htx) as Hlen. unfold NBUF, LOGSIZE, MAXOPBLOCKS in Hlen, Hst.
  apply cwp_bind, cwp_pure. eapply wp_mono; [by apply log_spec|]. intros lg s1 [-> Hs1].
  rewrite (lg_n _ _ Hlg), Nat2Z.id.
  eapply cwp_mono; [apply (cwp_for (fun i s => ∃ a', installed rec a bl i a' ∧ repr s a'))|].
  3:{ intros [] s' H. exact H. }
  2:{ exists a. split; [|done]. split; [|done|done|done|lia]. destruct rec; [done|]. cbn. set_solver. }
  intros i s2 Hi (a2 & Hin & Hs2). pose proof Hin as [Hp2 Hh2 Hl2 Hoth Hhome].
  destruct (lookup_lt_is_Some_2 bl (Z.to_nat i) ltac:(lia)) as [b Hb].
  pose proof (list_elem_of_lookup_2 _ _ _ Hb) as Hbin. pose proof (tx_out _ Htx b Hbin) as [Hbr Hbo].
  assert (Hnl : in_log (start + i + 1)) by (apply in_log_data; unfold LOGSIZE, MAXOPBLOCKS; lia).
  assert (Hnt : start + i + 1 ∉ take (Z.to_nat i) bl).
  { intros Hx. apply (tx_out _ Htx (start + i + 1)); [by eapply in_take|done]. }
  assert (Hps : (size (a_pins a2) < NBUF)%nat).
  { rewrite Hp2. destruct rec; [done|]. eapply Nat.le_lt_trans; [|exact Hp]. apply subseteq_size. set_solver. }
  assert (Hbp : b ∈ a_pins a2 ∨ a_pins a2 = ∅).
  { rewrite Hp2. destruct rec; [by right|left]. apply elem_of_difference. split; [by apply Hbl|].
    rewrite elem_of_list_to_set. by apply not_in_take; [apply Htx|]. }
  apply cwp_bind, cwp_pure. eapply wp_mono; [by apply log_spec|]. intros lg s3 [-> Hs3].
  rewrite Hl2, (lg_dev _ _ Hlg), (lg_start _ _ Hlg), (lg_lookup _ _ _ _ Hlg Hb).
  replace (u32 (start + i + 1)) with (start + i + 1) by (symmetry; apply wrap_small; lia).
  apply cwp_bind, cwp_pure. eapply wp_mono; [apply (read_spec (start + i + 1) s3 a2); [done|lia| |]|].
  { intros x. by rewrite Hh2, lookup_empty. } { right. by apply refs_none. }
  intros lbuf s4 [_ Hs4]. apply cwp_bind, cwp_ret.
  replace (u32 b) with b by (symmetry; apply wrap_small; lia).
  set (a4 := a2 <| a_held ::= <[lbuf := start + i + 1]> |>) in *.
  assert (Hne : start + i + 1 ≠ b) by (by intros <-).
  apply cwp_bind, cwp_pure. eapply wp_mono; [apply (read_spec b s4 a4); [done|lia| |]|].
  { intros x. cbn. rewrite Hh2. destruct (decide (x = lbuf)) as [->|]; [rewrite lookup_insert_eq; congruence|].
    by rewrite lookup_insert_ne. }
  { destruct Hbp as [Hbp|Hbp]; [by left|right]. unfold a_refs. cbn. rewrite Hbp, Hh2, union_empty_l_L.
    change (<[lbuf:=start + i + 1]> ∅) with ({[lbuf:=start + i + 1]} : gmap nat Z).
    rewrite map_img_singleton_L, size_singleton. unfold NBUF. lia. }
  intros dbuf s5 [Hdb Hs5]. set (a5 := a4 <| a_held ::= <[dbuf := b]> |>) in *.
  assert (Hft : dbuf ≠ lbuf) by (intros ->; cbn in Hdb; by rewrite lookup_insert_eq in Hdb).
  assert (Hlb : a_held a5 !! lbuf = Some (start + i + 1)) by (cbn; by rewrite lookup_insert_ne, lookup_insert_eq).
  assert (Hdb5 : a_held a5 !! dbuf = Some b) by (cbn; by rewrite lookup_insert_eq).
  apply cwp_bind, cwp_pure. eapply wp_mono; [by apply (data_spec lbuf (start + i + 1))|].
  intros d s6 [-> Hs6]. pose proof (size_spec _ _ (start + i + 1) Hs6) as Hsz.
  change (a_view a5) with (a_view a2) in *. pose proof (Hoth _ Hnt) as [Hd1 Hv1].
  destruct (Hlogp _ Hnl) as [_ Hcl]. rewrite Hv1, Hcl in *. set (d := blk (a_disk a) (start + i + 1)) in *.
  apply cwp_bind, cwp_pure. eapply wp_mono; [by apply (set_data_spec dbuf b)|].
  intros [] s7 Hs7. set (a7 := a5 <| a_view ::= <[b := d]> |>) in *.
  apply cwp_bind, cwp_write.
  { exists a7. split; [done|]. apply HP. intros m Hm. apply Hoth. intros Hx. by apply in_take in Hx. }
  eapply wp_mono; [by apply (write_spec dbuf b)|]. intros [] s8 Hs8.
  change (a_view a7) with (<[b := d]> (a_view a2)) in Hs8. rewrite blk_insert_eq in Hs8.
  set (a8 := a7 <| a_disk ::= <[b:=d]> |>) in *. apply cwp_bind.
  apply (cwp_mono _ (fun _ s' => repr s' (a8 <| a_pins ::= fun p => if rec then p else p ∖ {[b]} |>))).
  { destruct rec; [apply cwp_ret; by destruct a8|]. apply cwp_pure. apply (unpin_spec dbuf b); [done|done|].
    destruct Hbp as [|Hbp]; [done|]. exfalso. specialize (Hbl b Hbin). rewrite Hp2 in Hbp.
    assert (Hx : b ∈ list_to_set (C := gset Z) (take (Z.to_nat i) bl)) by set_solver.
    rewrite elem_of_list_to_set in Hx. by eapply not_in_take; [apply Htx| |]. }
  intros [] s9 Hs9. set (a9 := a8 <| a_pins ::= _ |>) in *.
  apply cwp_bind, cwp_pure. eapply wp_mono; [apply (relse_spec lbuf (start + i + 1)); [exact Hs9|done|]|].
  { right. cbn. rewrite !blk_insert_ne by done. rewrite Hv1, Hd1. done. }
  intros [] s10 Hs10. apply cwp_pure. eapply wp_mono; [apply (relse_spec dbuf b); [exact Hs10| |]|].
  { cbn. by rewrite lookup_delete_ne, lookup_insert_eq. }
  { right. cbn. by rewrite !blk_insert_eq. }
  intros [] s11 Hs11. eexists. split; [|exact Hs11].
  apply (installed_step rec a bl i a2 _ b); try done.
  - lia.
  - cbn. rewrite Hh2. apply map_eq. intros x. rewrite lookup_empty.
    destruct (decide (x = dbuf)) as [->|]; [by rewrite lookup_delete_eq|]. rewrite lookup_delete_ne by done.
    destruct (decide (x = lbuf)) as [->|]; [by rewrite lookup_delete_eq|]. rewrite lookup_delete_ne by done.
    by rewrite !lookup_insert_ne by done.
Qed.

(** What recovery makes of disk [d]: the blocks its header names get their logged copies. *)
Definition log_entries (d : blocks) : list (Z * list Z) :=
  (fun i : nat => (word_at (blk d start) (1 + i), blk d (start + Z.of_nat i + 1)))
    <$> seq 0 (Z.to_nat (word_at (blk d start) 0)).
Definition recovered (d : blocks) : blocks := list_to_map (log_entries d) ∪ d.

(** Equal on everything but the log's own blocks. *)
Definition same_files (d d' : blocks) : Prop := ∀ m, ¬ in_log m → blk d m = blk d' m.

Lemma entries_fst d bl : hdr_is (blk d start) bl → (log_entries d).*1 = bl.
Proof.
  intros [Hn Hw]. unfold log_entries. rewrite Hn, Nat2Z.id, <- list_fmap_compose. apply list_eq. intros i.
  rewrite list_lookup_fmap. destruct (decide (i < length bl)%nat) as [Hi|Hi].
  - rewrite lookup_seq_lt by done. cbn. destruct (lookup_lt_is_Some_2 bl i Hi) as [b Hb]. rewrite Hb. f_equal.
    by apply Hw.
  - rewrite lookup_seq_ge by lia. by rewrite lookup_ge_None_2 by lia.
Qed.

Lemma recovered_blk d bl m : hdr_is (blk d start) bl → NoDup bl →
  (m ∉ bl → blk (recovered d) m = blk d m) ∧
  (∀ j, bl !! j = Some m → blk (recovered d) m = blk d (start + Z.of_nat j + 1)).
Proof.
  intros Hh Hnd. pose proof (entries_fst d bl Hh) as Hf. unfold recovered, blk. split.
  - intros Hm. rewrite lookup_union_r; [done|]. apply not_elem_of_list_to_map. by rewrite Hf.
  - intros j Hj. rewrite (lookup_union_Some_l _ _ _ (blk d (start + Z.of_nat j + 1))); [done|].
    apply elem_of_list_to_map; [by rewrite Hf|]. apply list_elem_of_fmap. exists j.
    destruct Hh as [Hn Hw]. pose proof (Hw j m Hj) as ->. split; [done|]. apply elem_of_seq.
    apply lookup_lt_Some in Hj. lia.
Qed.

(** Nothing logged: recovery changes nothing. *)
Lemma recovered_none d d' : hdr_is (blk d start) [] → same_files d d' → same_files (recovered d) d'.
Proof.
  intros Hh Hs m Hm. destruct (recovered_blk d [] m Hh ltac:(constructor)) as [H _].
  rewrite H by set_solver. by apply Hs.
Qed.

(** Everything logged: recovery gives the new contents, however far installation came. *)
Lemma recovered_all d bl (new : blocks) :
  txn bl → hdr_is (blk d start) bl →
  (∀ j b, bl !! j = Some b → blk d (start + Z.of_nat j + 1) = blk new b) →
  (∀ m, ¬ in_log m → m ∉ bl → blk d m = blk new m) → same_files (recovered d) new.
Proof.
  intros Htx Hh Hlog Hoth m Hm. destruct (recovered_blk d bl m Hh (tx_nodup _ Htx)) as [H1 H2].
  destruct (decide (m ∈ bl)) as [Hin|Hout]; [|rewrite H1 by done; by apply Hoth].
  apply list_elem_of_lookup in Hin as [j Hj]. rewrite (H2 j Hj). by apply Hlog.
Qed.

Lemma txn_nil bl : txn bl → txn [].
Proof. intros Htx. split; [apply Htx|simpl; unfold NBUF; lia|constructor|set_solver]. Qed.

Lemma lg_is_nil bl lg : lg_is bl lg → lg_is [] (lg <| lh_n := 0 |>).
Proof. intros [H1 H2 H3 H4 H5]. by split. Qed.

Lemma start_in_log bl : txn bl → start ∉ bl.
Proof. intros Htx Hin. apply (tx_out _ Htx start Hin). unfold in_log, LOGSIZE, MAXOPBLOCKS. lia. Qed.

Lemma data_in_log bl j b : txn bl → bl !! j = Some b → in_log (start + Z.of_nat j + 1).
Proof.
  intros Htx Hj. apply in_log_data. apply lookup_lt_Some in Hj. pose proof (tx_len _ Htx).
  unfold NBUF, LOGSIZE, MAXOPBLOCKS in *. lia.
Qed.

(** Install the logged blocks, then clear the header: the second half of [commit], and
    of [recover_from_log]. *)
Lemma finish_cwp (P : blocks → Prop) (rec : bool) bl (new : blocks) s a :
  txn bl → lg_is bl (a_log a) → repr s a → a_held a = ∅ →
  a_pins a = (if rec then ∅ else list_to_set bl) →
  (∀ n, in_log n → blk (a_view a) n = blk (a_disk a) n) →
  hdr_is (blk (a_disk a) start) bl →
  (∀ j b, bl !! j = Some b → blk (a_disk a) (start + Z.of_nat j + 1) = blk new b) →
  (∀ m, ¬ in_log m → m ∉ bl → blk (a_disk a) m = blk new m ∧ blk (a_view a) m = blk new m) →
  (∀ d, hdr_is (blk d start) bl → same_files (recovered d) new → P d) →
  cwp (install_trans (B := crashy) rec ;;; bl_upd_log (Blocks := crashy) (fun r => r <| lh_n := 0 |>) ;;; write_head (B := crashy))
    (fun _ s' => ∃ a', repr s' a' ∧ a_held a' = ∅ ∧ a_pins a' = ∅ ∧ lg_is [] (a_log a') ∧
       hdr_is (blk (a_disk a') start) [] ∧ same_files (a_disk a') new ∧ same_files (a_view a') new ∧
       (∀ m, in_log m → blk (a_view a') m = blk (a_disk a') m))
    (crashed P) s.
Proof.
  intros Htx Hlg Hs Hh Hp Hclean Hhdr Hlog Hoth HP.
  assert (Hsz : (size (a_pins a) < NBUF)%nat).
  { rewrite Hp. destruct rec; [rewrite size_empty; unfold NBUF; lia|].
    rewrite size_list_to_set by apply Htx. apply Htx. }
  assert (Hpd : ∀ d, (∀ m, m ∉ bl → blk d m = blk (a_disk a) m) → P d).
  { intros d Hd. assert (Hhd : hdr_is (blk d start) bl) by (by rewrite Hd by (by apply start_in_log)).
    apply HP, (recovered_all d bl); [done|done|done| |].
    - intros j b Hj. rewrite Hd; [by apply Hlog|]. intros Hin. apply (tx_out _ Htx _ Hin). by eapply data_in_log.
    - intros m Hm Hn. rewrite Hd by done. by apply Hoth. }
  apply cwp_bind. eapply cwp_mono; [apply (install_trans_cwp P rec bl); try done|].
  { rewrite Hp. destruct rec; [done|]. intros b. by rewrite elem_of_list_to_set. }
  { intros n Hn. split; [|by apply Hclean]. rewrite Hp. destruct rec; [set_solver|].
    rewrite elem_of_list_to_set. intros Hin. by apply (tx_out _ Htx n Hin). }
  intros [] s1 (a1 & Hin & Hs1). destruct Hin as [Hp1 Hh1 Hl1 Ho1 Hho1]. rewrite Nat2Z.id in *.
  rewrite take_ge in Ho1, Hp1 by lia.
  assert (Hp1' : a_pins a1 = ∅) by (rewrite Hp1, Hp; destruct rec; [done|]; set_solver).
  assert (Hd1 : same_files (a_disk a1) new ∧ same_files (a_view a1) new).
  { split; intros m Hm; destruct (decide (m ∈ bl)) as [Hmb|Hmb].
    - apply list_elem_of_lookup in Hmb as [j Hj]. pose proof (lookup_lt_Some _ _ _ Hj).
      rewrite (proj1 (Hho1 j m ltac:(lia) Hj)). by apply Hlog.
    - rewrite (proj1 (Ho1 m Hmb)). by apply Hoth.
    - apply list_elem_of_lookup in Hmb as [j Hj]. pose proof (lookup_lt_Some _ _ _ Hj).
      rewrite (proj2 (Hho1 j m ltac:(lia) Hj)). by apply Hlog.
    - rewrite (proj2 (Ho1 m Hmb)). by apply Hoth. }
  apply cwp_bind, cwp_pure. eapply wp_mono; [by apply upd_log_spec|]. intros [] s2 Hs2.
  eapply cwp_mono; [eapply (write_head_cwp P []); [by eapply txn_nil| |exact Hs2|done| |]|].
  - cbn. rewrite Hl1. by eapply lg_is_nil.
  - cbn. rewrite Hp1', size_empty. unfold NBUF. lia.
  - apply Hpd. intros m Hm. cbn. by apply Ho1.
  - intros [] s3 (h & a3 & Hh3 & (Hd3 & Hv3 & Hp3 & He3 & Hl3) & Hs3). exists a3. cbn in Hd3, Hv3, Hp3, Hl3.
    assert (Hns : ∀ m, ¬ in_log m → start ≠ m) by (intros m Hm <-; apply Hm; unfold in_log, LOGSIZE, MAXOPBLOCKS; lia).
    split_and!; [done|done|congruence| | | | |].
    + rewrite Hl3, Hl1. by eapply lg_is_nil.
    + by rewrite Hd3, blk_insert_eq.
    + intros m Hm. rewrite Hd3, blk_insert_ne by (by apply Hns). by apply Hd1.
    + intros m Hm. rewrite Hv3, blk_insert_ne by (by apply Hns). by apply Hd1.
    + intros m Hm. rewrite Hd3, Hv3, !blk_insert. case_decide; [done|].
      destruct (Ho1 m) as [-> ->]; [|by apply Hclean]. intros Hin. by apply (tx_out _ Htx m Hin).
Qed.

(** A log that recovery can read. *)
Definition valid_log (d : blocks) : Prop := ∃ bl, txn bl ∧ hdr_is (blk d start) bl.

(** A transaction ready to commit: its blocks are exactly the pinned ones, every other
    block is clean, and the header on disk is empty. *)
Record open_txn (bl : list Z) (a : cache) : Prop := {
  ot_txn : txn bl;
  ot_log : lg_is bl (a_log a);
  ot_held : a_held a = ∅;
  ot_pins : a_pins a = list_to_set bl;
  ot_clean m : m ∉ bl → blk (a_view a) m = blk (a_disk a) m;
  ot_hdr : hdr_is (blk (a_disk a) start) []
}.

Lemma commit_cwp bl s a :
  repr s a → open_txn bl a →
  cwp (commit (B := crashy)) (fun _ s' => ∃ a', repr s' a' ∧ open_txn [] a' ∧
         same_files (a_disk a') (a_view a) ∧ same_files (a_view a') (a_view a))
    (crashed (fun d => valid_log d ∧
       (same_files (recovered d) (a_disk a) ∨ same_files (recovered d) (a_view a)))) s.
Proof.
  intros Hs [Htx Hlg Hh Hp Hcl Hhdr]. set (P := fun d => valid_log d ∧ _). unfold commit.
  apply cwp_bind, cwp_pure. eapply wp_mono; [by apply log_spec|]. intros lg s1 [-> Hs1]. rewrite (lg_n _ _ Hlg).
  destruct (Z.ltb_spec 0 (Z.of_nat (length bl))) as [Hn|Hn].
  2:{ destruct bl; [|simpl in Hn; lia]. apply cwp_ret. exists a. split_and!; [done|by split| |done].
      intros m Hm. symmetry. apply Hcl. set_solver. }
  assert (Hsz : (size (a_pins a) < NBUF)%nat) by (rewrite Hp, size_list_to_set by apply Htx; apply Htx).
  assert (Hout : ∀ n, in_log n → n ∉ bl) by (intros n Hn' Hin; by apply (tx_out _ Htx n Hin)).
  assert (HP1 : ∀ d, (∀ m, ¬ data_area m → blk d m = blk (a_disk a) m) → P d).
  { intros d Hd. assert (Hhd : hdr_is (blk d start) []) by (rewrite Hd; [done|]; unfold data_area; lia).
    split; [exists []; split; [by eapply txn_nil|done]|]. left. apply recovered_none; [done|].
    intros m Hm. apply Hd. unfold data_area, in_log in *. lia. }
  apply cwp_bind. eapply cwp_mono; [apply (write_log_cwp P bl); try done|].
  { intros b. by rewrite Hp, elem_of_list_to_set. } { intros n Hi. rewrite Hp, elem_of_list_to_set. by apply Hout. }
  { intros m Hm. apply Hcl, Hout. unfold in_log, data_area in *. lia. }
  intros [] s2 (a2 & (Hp2 & Hh2 & Hl2 & Ho2 & Hcl2 & Hin2) & Hs2).
  apply cwp_bind. eapply cwp_mono; [apply (write_head_cwp P bl s2 a2); try done|].
  { by rewrite Hl2. } { by rewrite Hp2. } { apply HP1. intros m Hm. by apply Ho2. }
  intros [] s3 (h & a3 & Hhdr3 & (Hd3 & Hv3 & Hp3 & Hh3 & Hl3) & Hs3).
  assert (Hdat : ∀ j b, bl !! j = Some b → blk (a_disk a3) (start + Z.of_nat j + 1) = blk (a_view a) b ∧
     blk (a_view a3) (start + Z.of_nat j + 1) = blk (a_view a) b).
  { intros j b Hj. rewrite Hd3, Hv3, !blk_insert_ne by lia. apply Hin2; [|done]. apply lookup_lt_Some in Hj. lia. }
  assert (Hrest : ∀ m, ¬ data_area m → start ≠ m →
    blk (a_disk a3) m = blk (a_disk a) m ∧ blk (a_view a3) m = blk (a_view a) m).
  { intros m Hm Hne. rewrite Hd3, Hv3, !blk_insert_ne by done. by apply Ho2. }
  assert (Hnl : ∀ m, ¬ in_log m → ¬ data_area m ∧ start ≠ m)
    by (intros m Hm; unfold in_log, data_area, LOGSIZE, MAXOPBLOCKS in *; lia).
  eapply cwp_mono; [apply (finish_cwp P false bl (a_view a) s3 a3); try done|].
  - by rewrite Hl3, Hl2.
  - by rewrite Hp3, Hp2.
  - intros n Hn'. rewrite Hd3, Hv3, !blk_insert. case_decide; [done|]. apply Hcl2.
    unfold in_log, data_area in *. lia.
  - by rewrite Hd3, blk_insert_eq.
  - intros j b Hj. by apply Hdat.
  - intros m [H1 H2]%Hnl Hmb. destruct (Hrest m H1 H2) as [-> ->]. by rewrite (Hcl m Hmb).
  - intros d Hhd Hd. split; [by exists bl|]. by right.
  - intros [] s4 (a4 & Hs4 & Hh4 & Hp4 & Hl4 & Hhdr4 & Hf4 & Hv4 & Hc4). exists a4. split_and!; [done| |done|done].
    split; try done; [by eapply txn_nil|]. intros m _.
    destruct (decide (start ≤ m < start + LOGSIZE)) as [Hm|Hm]; [by apply Hc4|]. by rewrite Hf4, Hv4.
Qed.

Lemma read_head_cwp (P : blocks → Prop) bl s a :
  txn bl → repr s a → a_held a = ∅ → a_pins a = ∅ → l_start (a_log a) = start → u32 (l_dev (a_log a)) = bs_dev →
  length (lh_block (a_log a)) = Z.to_nat LOGSIZE →
  blk (a_view a) start = blk (a_disk a) start → hdr_is (blk (a_disk a) start) bl →
  cwp (read_head (B := crashy)) (fun _ s' => ∃ lg, lg_is bl lg ∧ repr s' (a <| a_log := lg |>)) (crashed P) s.
Proof.
  intros Htx Hs Hh Hp Hst Hdev Hbl Hcl [Hn Hw]. unfold read_head. pose proof (tx_start _ Htx) as Hr.
  pose proof (tx_len _ Htx) as Hlen. unfold NBUF, LOGSIZE, MAXOPBLOCKS in Hlen, Hr, Hbl.
  apply cwp_bind, cwp_pure. eapply wp_mono; [by apply log_spec|]. intros lg s1 [-> Hs1].
  rewrite Hdev, Hst. replace (u32 start) with start by (symmetry; apply wrap_small; lia).
  apply cwp_bind, cwp_pure. eapply wp_mono; [apply (read_spec start); [done|lia| |]|].
  { intros b. by rewrite Hh, lookup_empty. } { right. apply refs_none; [rewrite Hp, size_empty; unfold NBUF; lia|done]. }
  intros b s2 [_ Hs2]. set (a2 := a <| a_held ::= <[b := start]> |>) in *.
  assert (Hb2 : a_held a2 !! b = Some start) by (cbn; by rewrite lookup_insert_eq).
  apply cwp_bind, cwp_pure. eapply wp_mono; [by apply (data_spec b start)|]. intros h s3 [-> Hs3].
  change (a_view a2) with (a_view a). rewrite Hcl, Hn.
  apply cwp_bind, cwp_pure. eapply wp_mono; [by apply upd_log_spec|]. intros [] s4 Hs4.
  apply cwp_bind, cwp_pure. eapply wp_mono; [by apply log_spec|]. intros lg s5 [-> Hs5].
  set (lg1 := (a_log a) <| lh_n := Z.of_nat (length bl) |>).
  change (a_log (a2 <| a_log ::= λ r : log, r <| lh_n := Z.of_nat (length bl) |> |>)) with lg1.
  change (lh_n lg1) with (Z.of_nat (length bl)). change (lh_block lg1) with (lh_block (a_log a)). rewrite Nat2Z.id.
  apply cwp_bind. eapply cwp_mono; [apply (cwp_for (fun i s => ∃ bs, repr s (a2 <| a_log := lg1 <| lh_block := bs |> |>) ∧
    length bs = 30%nat ∧ ∀ j c, Z.of_nat j < i → bl !! j = Some c → bs !! j = Some c))|].
  - intros i s6 Hi (bs & Hs6 & Hl & Hbs). rewrite Hbl. change (Z.of_nat (Z.to_nat (10 * 3))) with 30.
    rewrite (proj2 (Z.leb_gt _ _)) by lia. apply cwp_pure. eapply wp_mono; [by apply upd_log_spec|].
    intros [] s7 Hs7. exists (<[Z.to_nat i := word_at (blk (a_disk a) start) (1 + Z.to_nat i)]> bs).
    split; [exact Hs7|]. split; [by rewrite length_insert|].
    intros j c Hj Hc. destruct (decide (j = Z.to_nat i)) as [->|Hne].
    + rewrite list_lookup_insert_eq by lia. f_equal. by apply (Hw (Z.to_nat i)).
    + rewrite list_lookup_insert_ne by done. apply Hbs; [lia|done].
  - exists (lh_block (a_log a)). split; [|split; [done|lia]]. by destruct a as [? ? ? ? []].
  - intros [] s6 (bs & Hs6 & Hl & Hbs). apply cwp_pure.
    eapply wp_mono; [apply (relse_spec b start); [exact Hs6|done|by right]|].
    intros [] s7 Hs7. exists (lg1 <| lh_block := bs |>). split.
    + split; try done. cbn. apply list_eq. intros j. destruct (decide (j < length bl)%nat) as [Hj|Hj].
      * rewrite lookup_take_lt by done. destruct (lookup_lt_is_Some_2 bl j Hj) as [c Hc]. rewrite Hc.
        apply Hbs; [lia|done].
      * rewrite lookup_take_ge by lia. by rewrite lookup_ge_None_2 by lia.
    + assert (E : delete b (<[b := start]> (a_held a)) = a_held a)
        by (rewrite Hh; by apply delete_insert_id).
      unfold a2 in Hs7. cbv [set_field cache_settable] in Hs7 |- *. cbn in Hs7 |- *. by rewrite E in Hs7.
Qed.

(** The state after a reboot: an empty cache over disk [d], the log not yet read. *)
Record rebooted (d : blocks) (a : cache) : Prop := {
  bt_disk : a_disk a = d;
  bt_view : a_view a = d;
  bt_pins : a_pins a = ∅;
  bt_held : a_held a = ∅;
  bt_start : l_start (a_log a) = start;
  bt_dev : u32 (l_dev (a_log a)) = bs_dev;
  bt_blocks : length (lh_block (a_log a)) = Z.to_nat LOGSIZE
}.

Lemma recover_cwp d s a :
  repr s a → rebooted d a → valid_log d →
  cwp (recover_from_log (B := crashy)) (fun _ s' => ∃ a', repr s' a' ∧ open_txn [] a' ∧
         same_files (a_disk a') (recovered d) ∧ same_files (a_view a') (recovered d))
    (crashed (fun d' => valid_log d' ∧ same_files (recovered d') (recovered d))) s.
Proof.
  intros Hs [<- Hv Hp Hh Hst Hdev Hbl] (bl & Htx & Hhdr). unfold recover_from_log.
  apply cwp_bind. eapply cwp_mono; [by apply (read_head_cwp _ bl s a); try done; rewrite Hv|].
  intros [] s1 (lg & Hlg & Hs1).
  pose proof (fun m => recovered_blk (a_disk a) bl m Hhdr (tx_nodup _ Htx)) as Hrec.
  eapply cwp_mono; [apply (finish_cwp _ true bl (recovered (a_disk a)) s1 (a <| a_log := lg |>)); try done|].
  - intros n _. cbn. by rewrite Hv.
  - intros j b Hj. cbn. symmetry. by apply Hrec.
  - intros m _ Hm. cbn. rewrite Hv. split; symmetry; by apply Hrec.
  - intros d Hhd Hd. split; [by exists bl|done].
  - intros [] s4 (a4 & Hs4 & Hh4 & Hp4 & Hl4 & Hhdr4 & Hf4 & Hv4 & Hc4). exists a4. split_and!; [done| |done|done].
    split; try done; [by eapply txn_nil|]. intros m _.
    destruct (decide (start ≤ m < start + LOGSIZE)) as [Hm|Hm]; [by apply Hc4|]. by rewrite Hf4, Hv4.
Qed.

(** The disk after any number of recoveries of [d] that lost power themselves. *)
Inductive reboots : blocks → blocks → Prop :=
  | reboots_none d : reboots d d
  | reboots_crash d t b n t' n' b' d' :
      repr t b → rebooted d b → recover_from_log (B := crashy) (t, n) = Hang (t', n') →
      repr t' b' → reboots (a_disk b') d' → reboots d d'.

Lemma reboots_keep d d' :
  reboots d d' → valid_log d → valid_log d' ∧ same_files (recovered d') (recovered d).
Proof.
  induction 1 as [d|d t b n t' n' b' d' Ht Hb Hrun Ht' _ IH]; intros Hv; [by split|].
  pose proof (recover_cwp d t b Ht Hb Hv n) as H. unfold crash_post in H. rewrite Hrun in H.
  destruct H as (_ & a & Ha & Hva & Hsame). rewrite (disk_det _ _ _ Ha Ht') in *.
  destruct (IH Hva) as [Hv' Hs']. split; [done|]. intros m Hm. rewrite Hs' by done. by apply Hsame.
Qed.
End commit.

(** ** A cache that meets the contract

    The executable reference: one handle per locked buffer, a buffer that is neither
    locked nor pinned is evicted at once, and a full cache panics as [bget] does. *)
Definition ref_read (dev n : Z) : M cache nat := fun a =>
  if decide (n ∈ map_img (SA := gset Z) (a_held a)) then Hang a else
  if decide (n ∈ a_pins a ∨ (size (a_refs a) < NBUF)%nat) then
    let b := fresh (dom (a_held a)) in Ok b (a <| a_held ::= <[b := n]> |>)
  else Panic "bget: no buffers" a.
Definition on_held {A} (b : nat) (f : Z → cache → res cache A) : M cache A := fun a =>
  match a_held a !! b with Some n => f n a | None => Undef a end.

Definition ref_blocks : Blocks cache := {|
  bl_read := ref_read;
  bl_write b := on_held b (fun n a => Ok tt (a <| a_disk ::= <[n := blk (a_view a) n]> |>));
  bl_relse b := on_held b (fun n a => Ok tt (a <| a_held ::= delete b |>
    <| a_view ::= fun v => if decide (n ∈ a_pins a ∨ blk v n = blk (a_disk a) n) then v else <[n := blk (a_disk a) n]> v |>));
  bl_unpin b := on_held b (fun n a => Ok tt (a <| a_pins ::= fun p => p ∖ {[n]} |>));
  bl_data b := on_held b (fun n a => Ok (blk (a_view a) n) a);
  bl_set_data b d := on_held b (fun n a => Ok tt (a <| a_view ::= <[n := d]> |>));
  bl_log := gets a_log;
  bl_upd_log f := modify (fun a => a <| a_log ::= f |>)
|}.

Definition sized (m : blocks) : Prop := ∀ n, length (blk m n) = Z.to_nat BSIZE.

Lemma sized_insert m n d : sized m → length d = Z.to_nat BSIZE → sized (<[n := d]> m).
Proof. intros H Hd x. rewrite blk_insert. by case_decide. Qed.

#[export] Instance ref_spec : BlocksSpec ref_blocks.
Proof.
  refine (Build_BlocksSpec _ ref_blocks 1 (fun s a => s = a ∧ sized (a_view a)) _ _ _ _ _ _ _ _ _ _).
  - intros n s a [-> Hsz] Hn Hh Hr. cbn. unfold wp, ref_read. rewrite decide_False.
    + rewrite decide_True by done. split; [|done]. apply not_elem_of_dom, is_fresh.
    + rewrite elem_of_map_img. intros [b Hb]. by apply (Hh b).
  - intros b n s a [-> Hsz] Hb. cbn. unfold wp, on_held. by rewrite Hb.
  - intros b n d s a [-> Hsz] Hb Hd. cbn. unfold wp, on_held. rewrite Hb. split; [done|]. by apply sized_insert.
  - intros b n s a [-> Hsz] Hb. cbn. unfold wp, on_held. by rewrite Hb.
  - intros b n s a [-> Hsz] Hb Hd. unfold wp, bl_relse, ref_blocks, on_held. rewrite Hb. split; [|done].
    unfold set_field. cbv beta. rewrite decide_True by done. by destruct a.
  - intros b n s a [-> Hsz] Hb Hd. cbn. unfold wp, on_held. by rewrite Hb.
  - intros s a [-> Hsz]. done.
  - intros f s a [-> Hsz]. done.
  - intros s a n [-> Hsz]. apply Hsz.
  - by intros s a a' [-> _] [-> _].
Defined.

(** ** Theorems *)

Section theorems.
Context {S : Type} {B : Blocks S} {SP : BlocksSpec B} (start : Z).

(** C2: Committing a transaction is atomic: without power loss [commit] returns with the
    new contents of every file block on the disk, the log empty and nothing pinned; if
    the power fails before any of its writes, the disk has a readable log and recovery
    of it gives every file block its old contents, or every file block its new ones. *)
Theorem commit_crash_atomic (bl : list Z) (s : S) (a : cache) (n : option nat) :
  repr s a → open_txn start bl a →
  crash_post (commit (B := crashy))
    (fun _ s' => ∃ a', repr s' a' ∧ open_txn start [] a' ∧
       same_files start (a_disk a') (a_view a) ∧ same_files start (a_view a') (a_view a))
    (fun s' => ∃ a', repr s' a' ∧ valid_log start (a_disk a') ∧
       (same_files start (recovered start (a_disk a')) (a_disk a) ∨
        same_files start (recovered start (a_disk a')) (a_view a))) s n.
Proof. intros Hs Hot. exact (commit_cwp start bl s a Hs Hot n). Qed.

(** [recover_from_log] on a rebooted machine with a readable log returns with exactly
    the logged blocks installed and the log empty; if the power fails during it, the
    log is still readable and means the same. *)
Theorem recovery_correct (d : blocks) (t : S) (b : cache) (n : option nat) :
  repr t b → rebooted start d b → valid_log start d →
  crash_post (recover_from_log (B := crashy))
    (fun _ t' => ∃ b', repr t' b' ∧ open_txn start [] b' ∧ same_files start (a_disk b') (recovered start d))
    (fun t' => ∃ b', repr t' b' ∧ valid_log start (a_disk b') ∧
       same_files start (recovered start (a_disk b')) (recovered start d)) t n.
Proof.
  intros Ht Hb Hv. refine (cwp_mono _ _ _ _ _ (recover_cwp start d t b Ht Hb Hv) _ n).
  intros [] t' (b' & H1 & H2 & H3 & _). eauto.
Qed.

(** C7: All or nothing across crashes: if the power fails inside [commit], and again
    during any number of recoveries, the recovery that finally completes leaves on the
    disk the files as they were before the transaction or as the transaction made them. *)
Theorem crash_recovery_all_or_nothing (bl : list Z) (s s' : S) (a a' : cache) n n' d t b :
  repr s a → open_txn start bl a →
  commit (B := crashy) (s, n) = Hang (s', n') → repr s' a' →
  reboots start (a_disk a') d → repr t b → rebooted start d b →
  ∃ t' b', recover_from_log (B := crashy) (t, None) = Ok tt (t', None) ∧ repr t' b' ∧
    (same_files start (a_disk b') (a_disk a) ∨ same_files start (a_disk b') (a_view a)).
Proof.
  intros Hs Hot Hrun Hs' Hre Ht Hb. pose proof (commit_cwp start bl s a Hs Hot n) as H.
  unfold crash_post in H. rewrite Hrun in H. destruct H as (_ & a1 & Ha1 & Hv & Hor).
  rewrite (disk_det _ _ _ Ha1 Hs') in *. destruct (reboots_keep start _ _ Hre Hv) as [Hv' Hd].
  pose proof (recover_cwp start d t b Ht Hb Hv' None) as H. unfold crash_post in H.
  destruct (recover_from_log _) as [[] [t' n2]| | |[t' n2]|]; try done; [|by destruct H].
  destruct H as (Hn & b' & Hb' & _ & Hf & _). rewrite (Hn eq_refl). exists t', b'. split_and!; [done..|].
  destruct Hor as [Hor|Hor]; [left|right]; intros m Hm; rewrite Hf, Hd by done; by apply Hor.
Qed.
End theorems.

(** ** Witnesses: two logged blocks on the reference cache *)

Definition demo_new : list Z := replicate (Z.to_nat BSIZE) 7.
Definition demo_log : log := mklog 2 30 0 1 1 2 (40 :: 45 :: replicate 28 0).
Definition demo_txn : cache := mkcache ∅ {[40 := demo_new; 45 := demo_new]} {[40; 45]} ∅ demo_log.

Lemma demo_txn_repr : repr (BlocksSpec := ref_spec) demo_txn demo_txn.
Proof. split; [done|]. apply sized_insert; [apply sized_insert|]; done. Qed.

Lemma demo_txn_open : open_txn (SP := ref_spec) 2 [40; 45] demo_txn.
Proof.
  assert (Htx : txn 2 [40; 45]).
  { split; [unfold LOGSIZE, MAXOPBLOCKS; lia|simpl; unfold NBUF; lia| |].
    - repeat constructor; set_solver.
    - intros b Hb. unfold in_log, LOGSIZE, MAXOPBLOCKS. rewrite !elem_of_cons, elem_of_nil in Hb. lia. }
  split; [done|by split|done|by apply set_eq|..].
  - intros m Hm. rewrite !not_elem_of_cons in Hm. unfold demo_txn, blk. cbn [a_view a_disk].
    destruct Hm as (? & ? & _). by rewrite lookup_insert_ne, lookup_singleton_ne by congruence.
  - split; [by vm_compute|]. intros i b. by rewrite lookup_nil.
Qed.

Lemma commit_crash_atomic_witness :
  crash_post (commit (B := crashy (B := ref_blocks)))
    (fun _ s' => same_files 2 (a_disk s') (a_view demo_txn)) (fun _ => True) demo_txn (Some 3%nat).
Proof.
  pose proof (commit_crash_atomic (SP := ref_spec) 2 [40; 45] demo_txn demo_txn (Some 3%nat)
    demo_txn_repr demo_txn_open) as H. unfold crash_post in *.
  destruct (commit _) as [[] [s' n]| | |[s' n]|]; try done.
  destruct H as (Hn & a' & [-> _] & _ & H & _). by split.
Defined.

(** The power fails after the header is written, before the second block is installed. *)
Definition demo_crash : cache :=
  match commit (B := crashy (B := ref_blocks)) (demo_txn, Some 4%nat) with Hang (s, _) => s | _ => demo_txn end.
Definition demo_boot : cache :=
  mkcache (a_disk demo_crash) (a_disk demo_crash) ∅ ∅ (mklog 2 30 0 0 1 0 (replicate 30 0)).

Lemma demo_crash_run :
  commit (B := crashy (B := ref_blocks)) (demo_txn, Some 4%nat) = Hang (demo_crash, Some 0%nat).
Proof. by vm_compute. Qed.

Lemma sized_map (m : blocks) : map_Forall (fun _ d => length d = Z.to_nat BSIZE) m → sized m.
Proof.
  intros H n. unfold blk. destruct (m !! n) eqn:E; [by apply (H n)|]. cbn [default]. by rewrite length_replicate.
Qed.

Lemma demo_crash_repr : repr (BlocksSpec := ref_spec) demo_crash demo_crash.
Proof.
  pose proof (commit_cwp (SP := ref_spec) 2 [40; 45] demo_txn demo_txn demo_txn_repr demo_txn_open (Some 4%nat)) as H.
  unfold crash_post in H. rewrite demo_crash_run in H. destruct H as (_ & a & [-> Ha] & _). by split.
Qed.

Lemma demo_crash_valid : valid_log 2 (a_disk demo_crash).
Proof.
  pose proof (commit_cwp (SP := ref_spec) 2 [40; 45] demo_txn demo_txn demo_txn_repr demo_txn_open (Some 4%nat)) as H.
  unfold crash_post in H. rewrite demo_crash_run in H. by destruct H as (_ & a & [-> Ha] & H & _).
Qed.

Lemma demo_boot_repr : repr (BlocksSpec := ref_spec) demo_boot demo_boot.
Proof. split; [done|]. apply sized_map. apply (bool_decide_eq_true_1 _). by vm_compute. Qed.

Lemma demo_boot_rebooted : rebooted (SP := ref_spec) 2 (a_disk demo_crash) demo_boot.
Proof. by split. Qed.

Lemma recovery_correct_witness :
  crash_post (recover_from_log (B := crashy (B := ref_blocks)))
    (fun _ t' => same_files 2 (a_disk t') (recovered 2 (a_disk demo_crash))) (fun _ => False) demo_boot None.
Proof.
  pose proof (recovery_correct (SP := ref_spec) 2 (a_disk demo_crash) demo_boot demo_boot None
    demo_boot_repr demo_boot_rebooted demo_crash_valid) as H. unfold crash_post in *.
  destruct (recover_from_log _) as [[] [s' n]| | |[s' n]|]; try done; [|by destruct H].
  destruct H as (Hn & a' & [-> _] & _ & H). by split.
Defined.

Lemma crash_recovery_all_or_nothing_witness :
  ∃ t' b', recover_from_log (B := crashy (B := ref_blocks)) (demo_boot, None) = Ok tt (t', None) ∧ t' = b' ∧
    (same_files 2 (a_disk b') (a_disk demo_txn) ∨ same_files 2 (a_disk b') (a_view demo_txn)).
Proof.
  destruct (crash_recovery_all_or_nothing (SP := ref_spec) 2 [40; 45] demo_txn demo_crash demo_txn demo_crash
    (Some 4%nat) (Some 0%nat) (a_disk demo_crash) demo_boot demo_boot demo_txn_repr demo_txn_open demo_crash_run
    demo_crash_repr (reboots_none (SP := ref_spec) 2 _) demo_boot_repr demo_boot_rebooted) as (t' & b' & E & [-> _] & H).
  exists b', b'. split; [exact E|]. split; [reflexivity|exact H].
Defined.
