(* ===== verification/Bioproof.v ===== *)
(** * The buffer cache meets its contract

    The doubly linked list of bio.c is a ring through all buffers ([ring]); [bget]
    walks it from the most recently used end for a cached block and from the other end
    for a free buffer, and [brelse] moves a buffer nobody uses to the front.  With a
    disk that does what it is asked, the operations [bread], [bwrite], [brelse] and
    [bunpin] implement the contract [BlocksSpec] that the log is verified against. *)

From S2P Require Import Prelude Mem CString Kernel Spinlock Kalloc Vm Proc Procproof Bio Log Logproof.

(** ** Doubly linked rings, as a pair of functions *)

Definition upd (f : nat → nat) (x v : nat) : nat → nat := fun y => if decide (x = y) then v else f y.

Lemma upd_eq f x v : upd f x v x = v.
Proof. unfold upd. by rewrite decide_True. Qed.
Lemma upd_ne f x v y : x ≠ y → upd f x v y = f y.
Proof. intros. unfold upd. by rewrite decide_False. Qed.

(** From [p] the nodes [l] in order, then [n]. *)
Fixpoint seg (nx pv : nat → nat) (p : nat) (l : list nat) (n : nat) : Prop :=
  match l with
  | [] => nx p = n ∧ pv n = p
  | x :: l => nx p = x ∧ pv x = p ∧ seg nx pv x l n
  end.

Lemma seg_app nx pv p l1 b l2 n : seg nx pv p (l1 ++ b :: l2) n ↔ seg nx pv p l1 b ∧ seg nx pv b l2 n.
Proof. revert p. induction l1 as [|x l1 IH]; intros p; simpl; [|rewrite IH]; tauto. Qed.

Lemma seg_frame nx pv nx' pv' p l n :
  seg nx pv p l n → (∀ x, x ∈ p :: l → nx' x = nx x) → (∀ x, x ∈ l ++ [n] → pv' x = pv x) → seg nx' pv' p l n.
Proof.
  revert p. induction l as [|x l IH]; intros p; simpl.
  - intros [Hn Hp] H1 H2. rewrite H1, H2 by set_solver. done.
  - intros (Hn & Hp & Hs) H1 H2. rewrite H1, H2 by set_solver. split_and!; [done|done|].
    apply IH; [done|intros y Hy; apply H1; set_solver|intros y Hy; apply H2; set_solver].
Qed.

Definition last_of (p : nat) (l : list nat) : nat := default p (last l).
Definition first_of (l : list nat) (n : nat) : nat := default n (head l).

Lemma last_of_cons p x l : last_of p (x :: l) = last_of x l.
Proof. unfold last_of. rewrite last_cons. by destruct (last l). Qed.

Lemma seg_last nx pv p l n : seg nx pv p l n → nx (last_of p l) = n ∧ pv n = last_of p l.
Proof.
  revert p. induction l as [|x l IH]; intros p; simpl; [done|]. intros (_ & _ & Hs).
  rewrite last_of_cons. by apply IH.
Qed.
Lemma seg_first nx pv p l n : seg nx pv p l n → nx p = first_of l n ∧ pv (first_of l n) = p.
Proof. destruct l; simpl; tauto. Qed.

Lemma last_of_in p l : last_of p l ∈ p :: l.
Proof. unfold last_of. destruct (last l) as [x|] eqn:E; [|set_solver]. apply last_Some_elem_of in E. set_solver. Qed.
Lemma first_of_in l n : first_of l n ∈ l ++ [n].
Proof. destruct l; set_solver. Qed.

(** Redirecting the end of a segment. *)
Lemma seg_retarget nx pv p l b n :
  NoDup (p :: l) → b ∉ l → n ∉ l → seg nx pv p l b →
  seg (upd nx (last_of p l) n) (upd pv n (last_of p l)) p l n.
Proof.
  revert p. induction l as [|x l IH]; intros p; simpl; intros Hnd Hb Hn Hs.
  - unfold last_of. simpl. by rewrite !upd_eq.
  - destruct Hs as (Hnx & Hpv & Hs). apply NoDup_cons in Hnd as [Hp Hnd].
    rewrite last_of_cons. pose proof (last_of_in x l) as Hin.
    rewrite upd_ne by (intros <-; set_solver). rewrite upd_ne by set_solver.
    split_and!; [done|done|]. apply IH; [done|set_solver|set_solver|done].
Qed.

Lemma unlink_seg nx pv h l1 b l2 :
  NoDup (h :: l1 ++ b :: l2) → seg nx pv h (l1 ++ b :: l2) h →
  seg (upd nx (pv b) (nx b)) (upd pv (nx b) (pv b)) h (l1 ++ l2) h.
Proof.
  intros Hnd [H1 H2]%seg_app. apply NoDup_cons in Hnd as [Hh Hnd]. apply NoDup_app in Hnd as (Hn1 & Hd & Hn2).
  apply NoDup_cons in Hn2 as [Hb2 Hn2].
  destruct (seg_last _ _ _ _ _ H1) as [_ Hp]. destruct (seg_first _ _ _ _ _ H2) as [Hn _]. rewrite Hp, Hn.
  assert (Hseg1 : seg (upd nx (last_of h l1) (first_of l2 h)) (upd pv (first_of l2 h) (last_of h l1)) h l1 (first_of l2 h)).
  { apply (seg_retarget _ _ _ _ b); [apply NoDup_cons; split; [set_solver|done]|set_solver| |done].
    intros Hx. pose proof (first_of_in l2 h) as Hf. rewrite elem_of_app, list_elem_of_singleton in Hf.
    destruct Hf as [Hf|Hf]; [by apply (Hd _ Hx); right|]. rewrite Hf in Hx. set_solver. }
  destruct l2 as [|y l2]; [by rewrite app_nil_r|]. apply seg_app. split; [exact Hseg1|]. simpl in H2.
  destruct H2 as (_ & Hy & H2). apply (seg_frame _ _ _ _ _ _ _ H2).
  - intros x Hx. apply upd_ne. intros <-. pose proof (last_of_in h l1) as Hl.
    rewrite elem_of_cons in Hl. destruct Hl as [E|Hl]; [rewrite E in Hx; set_solver|]. apply (Hd _ Hl). by right.
  - intros x Hx. apply upd_ne. simpl. intros <-. apply NoDup_cons in Hn2 as [Hn2 _].
    rewrite elem_of_app, list_elem_of_singleton in Hx. destruct Hx as [Hx|Hx]; [done|].
    change (y = h) in Hx. subst y. set_solver.
Qed.

Lemma push_seg nx pv h b l :
  NoDup (h :: b :: l) → seg nx pv h l h →
  let nx1 := upd nx b (nx h) in let pv1 := upd pv b h in
  seg (upd nx1 h b) (upd pv1 (nx1 h) b) h (b :: l) h.
Proof.
  intros Hnd Hs nx1 pv1. apply NoDup_cons in Hnd as [Hh Hnd]. apply NoDup_cons in Hnd as [Hb Hnd].
  assert (Hhb : h ≠ b) by set_solver. destruct (seg_first _ _ _ _ _ Hs) as [Hf Hpf].
  assert (E1 : nx1 h = first_of l h) by (unfold nx1; by rewrite upd_ne). rewrite E1. pose proof (first_of_in l h) as Hin.
  assert (Hne : first_of l h ≠ b) by (intros E; rewrite E in Hin; set_solver). simpl.
  split; [apply upd_eq|]. split; [rewrite upd_ne by done; apply upd_eq|].
  destruct l as [|y l]; simpl in *.
  - rewrite upd_ne by done. unfold nx1. by rewrite !upd_eq.
  - destruct Hs as (_ & _ & Hs). split; [rewrite upd_ne by done; unfold nx1; by rewrite upd_eq|].
    split; [apply upd_eq|]. apply NoDup_cons in Hnd as [Hy Hnd]. apply (seg_frame _ _ _ _ _ _ _ Hs).
    + intros x Hx. unfold nx1. rewrite !upd_ne; [done|set_solver..].
    + intros x Hx. unfold pv1. rewrite !upd_ne; [done|set_solver..].
Qed.

Lemma seg_snoc nx pv p l x n : seg nx pv p l x → nx x = n → pv n = x → seg nx pv p (l ++ [x]) n.
Proof. intros H1 H2 H3. apply seg_app. by split. Qed.

Lemma seg_reverse nx pv p l n : seg nx pv p l n → seg pv nx n (reverse l) p.
Proof.
  revert p. induction l as [|x l IH]; intros p; simpl; [tauto|]. intros (H1 & H2 & Hs).
  rewrite reverse_cons. by apply seg_snoc; [apply IH|..].
Qed.

Lemma seg_lookup nx pv p l n i x : seg nx pv p l n → l !! i = Some x → nx x = default n (l !! S i).
Proof.
  revert p i. induction l as [|y l IH]; intros p i; [done|]. simpl. intros (_ & _ & Hs). destruct i as [|i]; simpl.
  - intros [= ->]. apply seg_first in Hs as [-> _]. by destruct l.
  - intros Hx. by apply (IH y i).
Qed.

(** ** The ring of buffers *)

Definition nxt (bs : list buf) (x : nat) : nat := default 0%nat (b_next <$> bs !! x).
Definition prv (bs : list buf) (x : nat) : nat := default 0%nat (b_prev <$> bs !! x).

Record ring (bs : list buf) (order : list nat) : Prop := {
  rg_len : length bs = S NBUF;
  rg_perm : order ≡ₚ seq 0 NBUF;
  rg_seg : seg (nxt bs) (prv bs) HEAD order HEAD
}.

Lemma rg_in bs order x : ring bs order → x ∈ order ↔ (x < NBUF)%nat.
Proof. intros [_ Hp _]. rewrite Hp, elem_of_seq. lia. Qed.

Lemma rg_nodup bs order : ring bs order → NoDup (HEAD :: order).
Proof.
  intros Hr. apply NoDup_cons. split; [rewrite (rg_in _ _ _ Hr); unfold HEAD; lia|].
  rewrite (rg_perm _ _ Hr). apply NoDup_seq.
Qed.

Lemma rg_buf bs order x : ring bs order → (x ≤ NBUF)%nat → ∃ r, bs !! x = Some r.
Proof. intros Hr Hx. apply lookup_lt_is_Some_2. rewrite (rg_len _ _ Hr). lia. Qed.

(** What of a buffer is not the list. *)
Definition core (r : buf) : buf := r <| b_prev := 0%nat |> <| b_next := 0%nat |>.

Lemma nxt_set_next bs x v y : (x < length bs)%nat → nxt (alter (fun r => r <| b_next := v |>) x bs) y = upd (nxt bs) x v y.
Proof.
  intros Hx. unfold nxt, upd. case_decide as E; [subst y|by rewrite list_lookup_alter_ne].
  rewrite list_lookup_alter_eq. by destruct (lookup_lt_is_Some_2 bs x Hx) as [r ->].
Qed.
Lemma prv_set_prev bs x v y : (x < length bs)%nat → prv (alter (fun r => r <| b_prev := v |>) x bs) y = upd (prv bs) x v y.
Proof.
  intros Hx. unfold prv, upd. case_decide as E; [subst y|by rewrite list_lookup_alter_ne].
  rewrite list_lookup_alter_eq. by destruct (lookup_lt_is_Some_2 bs x Hx) as [r ->].
Qed.
Lemma nxt_alter bs f x y : (∀ r, b_next (f r) = b_next r) → nxt (alter f x bs) y = nxt bs y.
Proof.
  intros Hf. unfold nxt. destruct (decide (x = y)) as [->|]; [|by rewrite list_lookup_alter_ne].
  rewrite list_lookup_alter_eq. destruct (bs !! y); [|done]. cbn. by rewrite Hf.
Qed.
Lemma prv_alter bs f x y : (∀ r, b_prev (f r) = b_prev r) → prv (alter f x bs) y = prv bs y.
Proof.
  intros Hf. unfold prv. destruct (decide (x = y)) as [->|]; [|by rewrite list_lookup_alter_ne].
  rewrite list_lookup_alter_eq. destruct (bs !! y); [|done]. cbn. by rewrite Hf.
Qed.
Lemma core_alter (bs : list buf) f (x : nat) : (∀ r, core (f r) = core r) → core <$> alter f x bs = core <$> bs.
Proof.
  intros Hf. apply list_eq. intros y. rewrite !list_lookup_fmap. destruct (decide (x = y)) as [->|].
  - rewrite list_lookup_alter_eq. destruct (bs !! y); [|done]. cbn. by rewrite Hf.
  - by rewrite list_lookup_alter_ne.
Qed.
Lemma core_alter_in (bs : list buf) f g (x : nat) : (∀ r, core (f r) = g (core r)) → core <$> alter f x bs = alter g x (core <$> bs).
Proof.
  intros Hf. apply list_eq. intros y. rewrite !list_lookup_fmap. destruct (decide (x = y)) as [->|].
  - rewrite !list_lookup_alter_eq, list_lookup_fmap. destruct (bs !! y); [|done]. cbn. by rewrite Hf.
  - by rewrite !list_lookup_alter_ne, list_lookup_fmap by done.
Qed.

(** Updates that leave the links alone keep the ring. *)
Lemma ring_alter bs order f x :
  (∀ r, b_next (f r) = b_next r) → (∀ r, b_prev (f r) = b_prev r) → ring bs order → ring (alter f x bs) order.
Proof.
  intros H1 H2 [Hl Hp Hs]. split; [by rewrite length_alter|done|].
  apply (seg_frame _ _ _ _ _ _ _ Hs); intros y _; [by apply nxt_alter|by apply prv_alter].
Qed.

Lemma wp_get_buf b r (Q : buf → kst → Prop) k : k_bufs k !! b = Some r → Q r k → wp (get_buf b) Q k.
Proof. intros H HQ. unfold get_buf, wp, bind, get, of_option. by rewrite H. Qed.
Lemma wp_upd_buf b f (Q : unit → kst → Prop) k : Q tt (k <| k_bufs ::= alter f b |>) → wp (upd_buf b f) Q k.
Proof. done. Qed.

Definition dec_ref (r : buf) : buf := r <| b_refcnt ::= fun n => u32 (n - 1) |>.
Definition inc_ref (r : buf) : buf := r <| b_refcnt ::= fun n => u32 (n + 1) |>.

(** The list after [brelse]: an unused buffer goes to the front. *)
Definition released (b : nat) (unused : bool) (order : list nat) : list nat :=
  if unused then b :: filter (fun x => x ≠ b) order else order.

Lemma filter_notin (b : nat) (l : list nat) : b ∉ l → filter (fun x => x ≠ b) l = l.
Proof.
  induction l as [|x l IH]; [done|]. rewrite not_elem_of_cons. intros [Hx Hl].
  rewrite filter_cons, decide_True by done. by rewrite IH.
Qed.

Lemma filter_ne_app (b : nat) (l1 l2 : list nat) :
  NoDup (l1 ++ b :: l2) → filter (fun x => x ≠ b) (l1 ++ b :: l2) = l1 ++ l2.
Proof.
  intros (Hn1 & Hd & Hn2)%NoDup_app. apply NoDup_cons in Hn2 as [Hb Hn2].
  rewrite filter_app, filter_cons, decide_False by naive_solver.
  f_equal; apply filter_notin; [|done]. intros Hx. apply (Hd b Hx). by left.
Qed.

Lemma ring_push bs order b :
  length bs = S NBUF → NoDup (HEAD :: b :: order) → (∀ x, x ∈ HEAD :: b :: order → (x < length bs)%nat) →
  seg (nxt bs) (prv bs) HEAD order HEAD →
  let bs3 := alter (fun x => x <| b_next := nxt bs HEAD |> <| b_prev := HEAD |>) b bs in
  let bs4 := alter (fun x => x <| b_prev := b |>) (nxt bs3 HEAD) bs3 in
  let bs5 := alter (fun x => x <| b_next := b |>) HEAD bs4 in
  length bs5 = S NBUF ∧ seg (nxt bs5) (prv bs5) HEAD (b :: order) HEAD.
Proof.
  intros Hlen Hnd Hin Hs bs3 bs4 bs5.
  assert (Hn3 : ∀ y, nxt bs3 y = upd (nxt bs) b (nxt bs HEAD) y).
  { intros y. unfold bs3, nxt at 1, upd. case_decide as E; [subst y|by rewrite list_lookup_alter_ne].
    rewrite list_lookup_alter_eq. by destruct (lookup_lt_is_Some_2 bs b) as [r ->]; [apply Hin; set_solver|]. }
  assert (Hp3 : ∀ y, prv bs3 y = upd (prv bs) b HEAD y).
  { intros y. unfold bs3, prv at 1, upd. case_decide as E; [subst y|by rewrite list_lookup_alter_ne].
    rewrite list_lookup_alter_eq. by destruct (lookup_lt_is_Some_2 bs b) as [r ->]; [apply Hin; set_solver|]. }
  assert (Hlen3 : length bs3 = length bs) by (unfold bs3; by rewrite length_alter).
  assert (HnH : (nxt bs3 HEAD < length bs3)%nat).
  { rewrite Hn3, upd_ne, Hlen3 by (intros E; apply NoDup_cons in Hnd; set_solver).
    destruct (seg_first _ _ _ _ _ Hs) as [-> _]. apply Hin. pose proof (first_of_in order HEAD). set_solver. }
  pose proof (push_seg (nxt bs) (prv bs) HEAD b order Hnd Hs) as Hpush. cbv zeta in Hpush.
  split; [unfold bs5, bs4; by rewrite !length_alter, Hlen3|].
  apply (seg_frame _ _ _ _ _ _ _ Hpush); intros y _; unfold bs5.
  - rewrite nxt_set_next by (unfold bs4; rewrite length_alter, Hlen3; apply Hin; set_solver).
    unfold upd at 1 2. case_decide; [done|]. unfold bs4. rewrite nxt_alter by done. apply Hn3.
  - rewrite prv_alter by done. unfold bs4. rewrite prv_set_prev by done. rewrite Hn3. unfold upd at 1 3.
    case_decide; [done|]. apply Hp3.
Qed.

Lemma ring_released bs order b l1 l2 :
  ring bs order → order = l1 ++ b :: l2 →
  let bs1 := alter (fun x => x <| b_prev := prv bs b |>) (nxt bs b) bs in
  let bs2 := alter (fun x => x <| b_next := nxt bs b |>) (prv bs b) bs1 in
  let bs3 := alter (fun x => x <| b_next := nxt bs2 HEAD |> <| b_prev := HEAD |>) b bs2 in
  let bs4 := alter (fun x => x <| b_prev := b |>) (nxt bs3 HEAD) bs3 in
  ring (alter (fun x => x <| b_next := b |>) HEAD bs4) (b :: l1 ++ l2).
Proof.
  intros Hr -> bs1 bs2 bs3 bs4. pose proof (rg_nodup _ _ Hr) as Hnd. pose proof (rg_len _ _ Hr) as Hlen.
  assert (Hin : ∀ x, x ∈ HEAD :: l1 ++ b :: l2 → (x < length bs)%nat).
  { intros x. rewrite elem_of_cons, (rg_in _ _ x Hr), Hlen. unfold HEAD. lia. }
  pose proof (rg_seg _ _ Hr) as Hs. pose proof Hs as [Hs1 Hs2]%seg_app.
  destruct (seg_last _ _ _ _ _ Hs1) as [_ Hpb]. destruct (seg_first _ _ _ _ _ Hs2) as [Hnb _].
  pose proof (last_of_in HEAD l1) as Hli. pose proof (first_of_in l2 HEAD) as Hfi.
  assert (Hl1 : (prv bs b < length bs)%nat) by (apply Hin; rewrite Hpb; set_solver).
  assert (Hl2 : (nxt bs b < length bs)%nat) by (apply Hin; rewrite Hnb; set_solver).
  assert (Hl3 : (b < length bs)%nat) by (apply Hin; set_solver).
  assert (HlH : (HEAD < length bs)%nat) by (apply Hin; set_solver).
  assert (Hnd' : NoDup (HEAD :: b :: l1 ++ l2)).
  { by rewrite (Permutation_middle l1 l2 b). }
  pose proof (unlink_seg _ _ _ _ _ _ Hnd Hs) as Hu.
  assert (Hn2 : ∀ y, nxt bs2 y = upd (nxt bs) (prv bs b) (nxt bs b) y).
  { intros y. unfold bs2. rewrite nxt_set_next by (unfold bs1; by rewrite length_alter).
    unfold upd. case_decide; [done|]. unfold bs1. by apply nxt_alter. }
  assert (Hp2 : ∀ y, prv bs2 y = upd (prv bs) (nxt bs b) (prv bs b) y).
  { intros y. unfold bs2. rewrite prv_alter by done. unfold bs1. by apply prv_set_prev. }
  assert (Hs2' : seg (nxt bs2) (prv bs2) HEAD (l1 ++ l2) HEAD)
    by (apply (seg_frame _ _ _ _ _ _ _ Hu); intros; [apply Hn2|apply Hp2]).
  assert (Hlen2 : length bs2 = length bs) by (unfold bs2, bs1; by rewrite !length_alter).
  destruct (ring_push bs2 (l1 ++ l2) b) as [Hl5 Hs5]; [lia|done| |done|].
  { intros x Hx. rewrite Hlen2. apply Hin. set_solver. }
  split; [exact Hl5| |exact Hs5]. rewrite <- (rg_perm _ _ Hr). by rewrite Permutation_middle.
Qed.

Lemma brelse_unlink_wp b r k order (Q : unit → kst → Prop) :
  ring (k_bufs k) order → (b < NBUF)%nat → k_bufs k !! b = Some r →
  (∀ bs, ring bs (released b (u32 (b_refcnt r - 1) =? 0) order) →
     core <$> bs = alter dec_ref b (core <$> k_bufs k) → Q tt (k <| k_bufs := bs |>)) →
  wp (brelse_unlink b) Q k.
Proof.
  intros Hr Hb Hrb HQ. unfold brelse_unlink. apply wp_bind, wp_upd_buf.
  set (bs0 := alter dec_ref b (k_bufs k)).
  change (k <| k_bufs ::= alter (λ r : buf, r <| b_refcnt ::= λ n : Z, u32 (n - 1) |>) b |>) with (k <| k_bufs := bs0 |>).
  assert (Hr0 : ring bs0 order) by (by apply ring_alter).
  assert (Hc0 : core <$> bs0 = alter dec_ref b (core <$> k_bufs k)) by (by apply core_alter_in).
  assert (Hb0 : bs0 !! b = Some (dec_ref r)) by (unfold bs0; by rewrite list_lookup_alter_eq, Hrb).
  apply wp_bind, (wp_get_buf b (dec_ref r)); [done|].
  change (b_refcnt (dec_ref r)) with (u32 (b_refcnt r - 1)).
  destruct (u32 (b_refcnt r - 1) =? 0); [|by apply wp_ret, HQ].
  pose proof (proj2 (rg_in _ _ b Hr0) Hb) as Hin. apply list_elem_of_split in Hin as (l1 & l2 & Hord).
  assert (Hn0 : nxt bs0 b = b_next (dec_ref r)) by (unfold nxt; by rewrite Hb0).
  assert (Hp0 : prv bs0 b = b_prev (dec_ref r)) by (unfold prv; by rewrite Hb0).
  assert (Hne : nxt bs0 b ≠ b).
  { pose proof (rg_seg _ _ Hr0) as Hs. rewrite Hord in Hs. apply seg_app in Hs as [_ Hs].
    destruct (seg_first _ _ _ _ _ Hs) as [-> _]. pose proof (rg_nodup _ _ Hr0) as Hnd. rewrite Hord in Hnd.
    apply NoDup_cons in Hnd as [Hh Hnd]. apply NoDup_app in Hnd as (_ & _ & Hnd). apply NoDup_cons in Hnd as [Hnb _].
    pose proof (first_of_in l2 HEAD) as Hf. intros E. rewrite E in Hf. set_solver. }
  rewrite <- Hn0, <- Hp0.
  apply wp_bind, wp_upd_buf. set (bs1 := alter (λ x : buf, x <| b_prev := prv bs0 b |>) (nxt bs0 b) bs0).
  change (k <| k_bufs := bs0 |> <| k_bufs ::= _ |>) with (k <| k_bufs := bs1 |>).
  apply wp_bind, (wp_get_buf b (dec_ref r)); [unfold bs1; cbn; by rewrite list_lookup_alter_ne|].
  rewrite <- Hn0, <- Hp0.
  apply wp_bind, wp_upd_buf. set (bs2 := alter (λ x : buf, x <| b_next := nxt bs0 b |>) (prv bs0 b) bs1).
  change (k <| k_bufs := bs1 |> <| k_bufs ::= _ |>) with (k <| k_bufs := bs2 |>).
  assert (Hlen2 : length bs2 = S NBUF) by (unfold bs2, bs1; rewrite !length_alter; apply Hr0).
  destruct (lookup_lt_is_Some_2 bs2 HEAD ltac:(rewrite Hlen2; unfold HEAD; lia)) as [h Hh].
  apply wp_bind, (wp_get_buf HEAD h); [done|].
  assert (Hnh : b_next h = nxt bs2 HEAD) by (unfold nxt; by rewrite Hh). rewrite Hnh.
  apply wp_bind, wp_upd_buf.
  set (bs3 := alter (λ x : buf, x <| b_next := nxt bs2 HEAD |> <| b_prev := HEAD |>) b bs2).
  change (k <| k_bufs := bs2 |> <| k_bufs ::= _ |>) with (k <| k_bufs := bs3 |>).
  destruct (lookup_lt_is_Some_2 bs3 HEAD ltac:(unfold bs3; rewrite length_alter, Hlen2; unfold HEAD; lia)) as [h3 Hh3].
  apply wp_bind, (wp_get_buf HEAD h3); [done|].
  assert (Hnh3 : b_next h3 = nxt bs3 HEAD) by (unfold nxt; by rewrite Hh3). rewrite Hnh3.
  apply wp_bind, wp_upd_buf, wp_upd_buf.
  pose proof (ring_released bs0 order b l1 l2 Hr0 Hord) as Hring. cbv zeta in Hring. fold bs1 bs2 bs3 in Hring.
  apply (HQ (alter (λ x : buf, x <| b_next := b |>) HEAD (alter (λ x : buf, x <| b_prev := b |>) (nxt bs3 HEAD) bs3))).
  - unfold released. rewrite Hord, filter_ne_app; [exact Hring|]. rewrite <- Hord.
    pose proof (rg_nodup _ _ Hr0) as Hnd. by apply NoDup_cons in Hnd as [_ Hnd].
  - unfold bs3, bs2, bs1. rewrite !core_alter by done. exact Hc0.
Qed.

(** ** Walking the ring *)

(** The two loops of [bget]: visit the buffers [l] until one passes the test. *)
Lemma walk_wp (test : buf → bool) (act : nat → kst → kst) (step : buf → nat) body (l : list nat) k :
  (∀ b s, body b s = (if decide (b = HEAD) then Ok (inr None) s else
     match k_bufs s !! b with
     | None => Undef s
     | Some r => if test r then Ok (inr (Some b)) (act b s) else Ok (inl (step r)) s
     end)) →
  (∀ x, x ∈ l → x ≠ HEAD ∧ ∃ r, k_bufs k !! x = Some r) →
  (∀ i x r, l !! i = Some x → k_bufs k !! x = Some r → step r = default HEAD (l !! S i)) →
  ∀ fuel, (length l < fuel)%nat →
  wp (loop fuel body (default HEAD (l !! 0%nat))) (fun o k' =>
    match o with
    | Some x => ∃ r, x ∈ l ∧ k_bufs k !! x = Some r ∧ test r = true ∧ k' = act x k
    | None => k' = k ∧ ∀ x r, x ∈ l → k_bufs k !! x = Some r → test r = false
    end) k.
Proof.
  intros Hbody. induction l as [|x l IH]; intros Hl Hstep fuel Hf.
  - destruct fuel as [|fuel]; [simpl in Hf; lia|]. cbn [loop]. unfold wp, bind. rewrite Hbody. simpl. set_solver.
  - destruct fuel as [|fuel]; [simpl in Hf; lia|]. cbn [loop]. unfold wp, bind. rewrite Hbody.
    destruct (Hl x ltac:(set_solver)) as (Hx & r & Hr). cbn [lookup list_lookup default from_option id].
    rewrite decide_False, Hr by done. destruct (test r) eqn:Ht.
    + exists r. split_and!; [set_solver|done|done|done].
    + rewrite (Hstep 0%nat x r eq_refl Hr).
      change ((x :: l) !! 1%nat) with (l !! 0%nat).
      assert (IH' := IH ltac:(set_solver) (fun i => Hstep (S i)) fuel ltac:(simpl in Hf; lia)).
      unfold wp in IH'. destruct (loop fuel body (default HEAD (l !! 0%nat)) k) as [[y|] k'| | | |]; try done.
      * destruct IH' as (r' & ? & ? & ? & ?). exists r'. split_and!; [set_solver|done..].
      * destruct IH' as [-> Hno]. split; [done|]. intros y r' [->|Hy]%elem_of_cons Hr'; [by simplify_eq|by eapply Hno].
Qed.

(** ** What the buffers of a kernel say about the abstract cache *)

Section contract.
Context (dev : Z) (p : nat) (pid : Z).

Definition pin_count (a : cache) (r : buf) : Z :=
  if decide (b_dev r = dev ∧ b_blockno r ∈ a_pins a) then 1 else 0.
Definition held_count (a : cache) (b : nat) : Z := match a_held a !! b with Some _ => 1 | None => 0 end.

(** [r] is the buffer of block [n], locked by the calling process. *)
Definition locked_for (n : Z) (r : buf) : Prop :=
  b_dev r = dev ∧ b_blockno r = n ∧ sl_locked (b_lock r) = 1 ∧ sl_pid (b_lock r) = pid.

Record bufs_ok (a : cache) (cs : list buf) : Prop := {
  bo_len : length cs = S NBUF;
  bo_ref b r : (b < NBUF)%nat → cs !! b = Some r → b_refcnt r = held_count a b + pin_count a r;
  bo_held b n : a_held a !! b = Some n → ∃ r, (b < NBUF)%nat ∧ cs !! b = Some r ∧ locked_for n r;
  bo_free b r : (b < NBUF)%nat → cs !! b = Some r → a_held a !! b = None → sl_locked (b_lock r) = 0;
  bo_pin n : n ∈ a_pins a → ∃ b r, (b < NBUF)%nat ∧ cs !! b = Some r ∧ b_dev r = dev ∧ b_blockno r = n;
  bo_uniq b b' r r' : (b < NBUF)%nat → (b' < NBUF)%nat → cs !! b = Some r → cs !! b' = Some r' →
    b_dev r = dev → b_dev r' = dev → b_blockno r = b_blockno r' → b = b';
  bo_data b r : (b < NBUF)%nat → cs !! b = Some r → b_dev r = dev →
    b_valid r ≠ 0 ∧ b_data r = blk (a_view a) (b_blockno r);
  bo_clean n : n ∉ a_refs a → blk (a_view a) n = blk (a_disk a) n;
  bo_sized : sized (a_view a)
}.

Lemma held_in_refs a b n : a_held a !! b = Some n → n ∈ a_refs a.
Proof. intros H. unfold a_refs. apply elem_of_union_r, elem_of_map_img. eauto. Qed.

(** A buffer nobody references: its block is clean. *)
Lemma unreferenced a cs b r :
  bufs_ok a cs → (b < NBUF)%nat → cs !! b = Some r → b_refcnt r = 0 →
  a_held a !! b = None ∧ (b_dev r = dev → b_blockno r ∉ a_refs a).
Proof.
  intros H Hb Hr H0. pose proof (bo_ref _ _ H b r Hb Hr) as Hc. rewrite H0 in Hc.
  assert (Hn : a_held a !! b = None).
  { unfold held_count, pin_count in Hc. destruct (a_held a !! b); [case_decide; lia|done]. }
  split; [done|]. intros Hd Hin. unfold a_refs in Hin. apply elem_of_union in Hin as [Hin|Hin].
  - unfold held_count, pin_count in Hc. rewrite Hn, decide_True in Hc by done. lia.
  - apply elem_of_map_img in Hin as [b' Hb']. destruct (bo_held _ _ H b' _ Hb') as (r' & Hlt & Hr' & Hd' & Hn' & _).
    assert (b = b') by (by eapply (bo_uniq _ _ H)). subst b'. congruence.
Qed.

(** [bread]: buffer [x] now holds block [n], locked by the caller; before, it held the
    same block, or nobody used it and no buffer held the block. *)
Lemma bufs_take a cs x r r' n :
  bufs_ok a cs → (x < NBUF)%nat → cs !! x = Some r → (∀ b, a_held a !! b ≠ Some n) →
  locked_for n r' → b_valid r' ≠ 0 → b_data r' = blk (a_view a) n →
  b_refcnt r' = 1 + (if decide (n ∈ a_pins a) then 1 else 0) →
  (b_dev r = dev ∧ b_blockno r = n) ∨
    (b_refcnt r = 0 ∧ ∀ b s, (b < NBUF)%nat → cs !! b = Some s → b_dev s = dev → b_blockno s ≠ n) →
  bufs_ok (a <| a_held ::= <[x := n]> |>) (<[x := r']> cs) ∧ a_held a !! x = None.
Proof.
  intros H Hx Hr Hnh Hlk Hv Hd Hcnt Hcase. destruct Hlk as (Hd' & Hn' & Hl' & Hp').
  assert (Hxl : (x < length cs)%nat) by (by eapply lookup_lt_Some).
  assert (Hfree : a_held a !! x = None).
  { destruct Hcase as [[Hdv Hbn]|[H0 _]]; [|by eapply unreferenced].
    destruct (a_held a !! x) as [m|] eqn:E; [|done]. destruct (bo_held _ _ H x m E) as (r2 & _ & Hr2 & _ & Hm & _).
    exfalso. apply (Hnh x). congruence. }
  (* the block that buffer [x] gives up *)
  assert (Hpins : ∀ m, m ∈ a_pins a → ∃ b s, (b < NBUF)%nat ∧ <[x := r']> cs !! b = Some s ∧ b_dev s = dev ∧ b_blockno s = m).
  { intros m Hm. destruct (bo_pin _ _ H m Hm) as (b & s & Hb & Hs & Hds & Hms).
    destruct (decide (b = x)) as [->|Hne]; [|exists b, s; by rewrite list_lookup_insert_ne].
    assert (s = r) as -> by congruence. destruct Hcase as [[_ Hbn]|[H0 _]].
    - exists x, r'. rewrite list_lookup_insert_eq by done. by subst.
    - destruct (unreferenced a cs x r H Hx Hr H0) as [_ Hno]. destruct (Hno Hds).
      unfold a_refs. apply elem_of_union_l. by rewrite Hms. }
  assert (Huq : ∀ b s, (b < NBUF)%nat → cs !! b = Some s → b ≠ x → b_dev s = dev → b_blockno s ≠ n).
  { intros b s Hb Hs Hne Hds Hbn. destruct Hcase as [[Hdv Hbn']|[_ Hno]]; [|by eapply Hno].
    apply Hne. eapply (bo_uniq _ _ H b x); try done. by rewrite Hbn, Hbn'. }
  split; [|done]. split; cbn.
  - by rewrite length_insert, (bo_len _ _ H).
  - intros b s Hb Hs. unfold held_count. cbn. destruct (decide (b = x)) as [->|Hne].
    + rewrite list_lookup_insert_eq in Hs by done. injection Hs as <-. rewrite lookup_insert_eq, Hcnt.
      unfold pin_count. cbn. f_equal. rewrite Hd', Hn'. repeat case_decide; naive_solver.
    + rewrite list_lookup_insert_ne in Hs by done. rewrite lookup_insert_ne by done. by apply (bo_ref _ _ H b s).
  - intros b m Hm. destruct (decide (b = x)) as [->|Hne].
    + rewrite lookup_insert_eq in Hm. injection Hm as <-. exists r'. by rewrite list_lookup_insert_eq.
    + rewrite lookup_insert_ne in Hm by done. destruct (bo_held _ _ H b m Hm) as (s & ? & ? & ?).
      exists s. by rewrite list_lookup_insert_ne.
  - intros b s Hb Hs Hn. destruct (decide (b = x)) as [->|Hne]; [by rewrite lookup_insert_eq in Hn|].
    rewrite list_lookup_insert_ne in Hs by done. rewrite lookup_insert_ne in Hn by done. by eapply (bo_free _ _ H b s).
  - exact Hpins.
  - intros b b' s s' Hb Hb' Hs Hs' Hds Hds' Heq.
    destruct (decide (b = x)) as [->|Hne], (decide (b' = x)) as [->|Hne']; [done|..].
    + rewrite list_lookup_insert_eq in Hs by done. rewrite list_lookup_insert_ne in Hs' by done. injection Hs as <-.
      destruct (Huq b' s'); congruence.
    + rewrite list_lookup_insert_eq in Hs' by done. rewrite list_lookup_insert_ne in Hs by done. injection Hs' as <-.
      destruct (Huq b s); congruence.
    + rewrite list_lookup_insert_ne in Hs, Hs' by done. by eapply (bo_uniq _ _ H b b').
  - intros b s Hb Hs Hds. destruct (decide (b = x)) as [->|Hne].
    + rewrite list_lookup_insert_eq in Hs by done. injection Hs as <-. by rewrite Hn'.
    + rewrite list_lookup_insert_ne in Hs by done. by eapply (bo_data _ _ H b s).
  - intros m Hm. apply (bo_clean _ _ H). intros Hin. apply Hm. unfold a_refs in *. cbn.
    apply elem_of_union in Hin as [Hin|Hin]; [by apply elem_of_union_l|]. apply elem_of_union_r.
    apply elem_of_map_img in Hin as [b Hb]. apply elem_of_map_img. exists b. by rewrite lookup_insert_ne by congruence.
  - apply H.
Qed.

(** Every other operation works on a buffer the caller has locked. *)
Lemma bufs_held_upd a a' cs b n r r' :
  bufs_ok a cs → a_held a !! b = Some n → cs !! b = Some r →
  b_dev r' = dev → b_blockno r' = n → b_valid r' ≠ 0 → b_data r' = blk (a_view a') n →
  b_refcnt r' = held_count a' b + pin_count a' r' →
  match a_held a' !! b with Some m => m = n ∧ locked_for n r' | None => sl_locked (b_lock r') = 0 end →
  (∀ b', b' ≠ b → a_held a' !! b' = a_held a !! b') →
  (∀ m, m ≠ n → (m ∈ a_pins a' ↔ m ∈ a_pins a) ∧ blk (a_view a') m = blk (a_view a) m ∧
     blk (a_disk a') m = blk (a_disk a) m) →
  (n ∉ a_refs a' → blk (a_view a') n = blk (a_disk a') n) → sized (a_view a') →
  bufs_ok a' (<[b := r']> cs).
Proof.
  intros H Hh Hr Hdev Hbn Hval Hdat Hcnt Hlk Hoth Hm Hcl Hsz.
  destruct (bo_held _ _ H b n Hh) as (r0 & Hb & Hr0 & Hd0 & Hn0 & _). assert (r0 = r) as -> by congruence.
  assert (Hbl : (b < length cs)%nat) by (by eapply lookup_lt_Some).
  assert (Hne : ∀ b' s, (b' < NBUF)%nat → cs !! b' = Some s → b' ≠ b → b_dev s = dev → b_blockno s ≠ n).
  { intros b' s Hb' Hs Hne Hds E. apply Hne. eapply (bo_uniq _ _ H b' b); try done. congruence. }
  split.
  - by rewrite length_insert, (bo_len _ _ H).
  - intros b' s Hb' Hs. destruct (decide (b' = b)) as [->|Hne'].
    + rewrite list_lookup_insert_eq in Hs by done. injection Hs as <-. done.
    + rewrite list_lookup_insert_ne in Hs by done. rewrite (bo_ref _ _ H b' s Hb' Hs).
      unfold held_count, pin_count. rewrite Hoth by done. f_equal.
      destruct (decide (b_dev s = dev)) as [Hds|]; [|rewrite !decide_False by naive_solver; done].
      destruct (Hm (b_blockno s) (Hne b' s Hb' Hs Hne' Hds)) as [Hp _]. repeat case_decide; naive_solver.
  - intros b' m Hb'. destruct (decide (b' = b)) as [->|Hne'].
    + rewrite Hb' in Hlk. destruct Hlk as [-> Hlk]. exists r'. by rewrite list_lookup_insert_eq.
    + rewrite Hoth in Hb' by done. destruct (bo_held _ _ H b' m Hb') as (s & ? & ? & ?).
      exists s. by rewrite list_lookup_insert_ne.
  - intros b' s Hb' Hs Hn. destruct (decide (b' = b)) as [->|Hne'].
    + rewrite list_lookup_insert_eq in Hs by done. injection Hs as <-. by rewrite Hn in Hlk.
    + rewrite list_lookup_insert_ne in Hs by done. rewrite Hoth in Hn by done. by eapply (bo_free _ _ H b' s).
  - intros m Hmp. destruct (decide (m = n)) as [->|Hmn]; [exists b, r'; by rewrite list_lookup_insert_eq|].
    apply (Hm m Hmn) in Hmp. destruct (bo_pin _ _ H m Hmp) as (b' & s & Hb' & Hs & Hds & Hms).
    exists b', s. rewrite list_lookup_insert_ne; [done|]. intros ->. congruence.
  - intros b1 b2 s1 s2 Hb1 Hb2 Hs1 Hs2 Hd1 Hd2 Heq.
    destruct (decide (b1 = b)) as [->|Hne1], (decide (b2 = b)) as [->|Hne2]; [done|..].
    + rewrite list_lookup_insert_eq in Hs1 by done. rewrite list_lookup_insert_ne in Hs2 by done. injection Hs1 as <-.
      destruct (Hne b2 s2); congruence.
    + rewrite list_lookup_insert_eq in Hs2 by done. rewrite list_lookup_insert_ne in Hs1 by done. injection Hs2 as <-.
      destruct (Hne b1 s1); congruence.
    + rewrite list_lookup_insert_ne in Hs1, Hs2 by done. by eapply (bo_uniq _ _ H b1 b2).
  - intros b' s Hb' Hs Hds. destruct (decide (b' = b)) as [->|Hne'].
    + rewrite list_lookup_insert_eq in Hs by done. injection Hs as <-. by rewrite Hbn.
    + rewrite list_lookup_insert_ne in Hs by done. destruct (Hm _ (Hne b' s Hb' Hs Hne' Hds)) as (_ & -> & _).
      by eapply (bo_data _ _ H b' s).
  - intros m Hmr. destruct (decide (m = n)) as [->|Hmn]; [by apply Hcl|].
    destruct (Hm m Hmn) as (Hp & -> & ->). apply (bo_clean _ _ H). intros Hin. apply Hmr. unfold a_refs in *.
    apply elem_of_union in Hin as [Hin|Hin]; [by apply elem_of_union_l, Hp|]. apply elem_of_union_r.
    apply elem_of_map_img in Hin as [b' Hb']. apply elem_of_map_img. exists b'. rewrite Hoth; [done|].
    intros ->. congruence.
  - done.
Qed.

(** ** Sleep locks of buffers, without contention *)

Definition lock_buf (r : buf) : buf := r <| b_lock ::= fun l => l <| sl_locked := 1 |> <| sl_pid := pid |> |>.
Definition unlock_buf (r : buf) : buf := r <| b_lock ::= fun l => l <| sl_locked := 0 |> <| sl_pid := 0 |> |>.

(** The calling process, with no lock of the cache or the process table held. *)
Record caller (k : kst) : Prop := {
  ca_ready : ready k;
  ca_cur : current k = Some p;
  ca_procs : length (k_procs k) = NPROC;
  ca_pid : p_pid <$> k_procs k !! p = Some pid;
  ca_cache : unlocked LBcache k;
  ca_log : unlocked LLog k;
  ca_buf b : (b < NBUF)%nat → unlocked (LBuf b) k;
  ca_proc j : (j < NPROC)%nat → unlocked (LProc j) k
}.

Lemma caller_settle k : caller k → caller (settle k).
Proof.
  intros [Hr Hc Hp Hpid Hl Hlg Hb Hj]. split; try done; [klock|by rewrite current_settle].
Qed.

Lemma caller_bufs k f : caller k → caller (k <| k_bufs ::= f |>).
Proof. intros [Hr Hc Hp Hpid Hl Hlg Hb Hj]. by split. Qed.

Lemma caller_disk k f : caller k → caller (k <| k_disk ::= f |>).
Proof. intros [Hr Hc Hp Hpid Hl Hlg Hb Hj]. by split. Qed.

Lemma caller_log k f : caller k → caller (k <| k_log ::= f |>).
Proof. intros [Hr Hc Hp Hpid Hl Hlg Hb Hj]. by split. Qed.

Lemma current_enter lk k : current (enter lk k) = current k.
Proof.
  unfold current. cbn. rewrite list_lookup_alter_eq. destruct (k_cpus k !! k_hart k) as [c|]; [|done].
  cbn. unfold cpu_push. by destruct (noff c =? 0).
Qed.

Lemma caller_woken k ch : caller k → caller (k <| k_procs := imap (woken (Some ch) (Some p) NPROC) (k_procs k) |>).
Proof.
  intros [Hr Hc Hp Hpid Hl Hlg Hb Hj]. split; try done; cbn.
  - by rewrite length_imap.
  - rewrite list_lookup_imap. destruct (k_procs k !! p); [|done]. cbn in *. rewrite <- Hpid. f_equal.
    unfold woken. by case_decide.
Qed.

(** [curproc] and the pid inside a critical section. *)
Lemma wp_caller_pid lk k (Q : nat → kst → Prop) :
  held lk k → ready k → current k = Some p → Q p k → wp curproc Q k.
Proof.
  intros Hh Hr Hc HQ. apply wp_bind, wp_myproc'; [done|]. rewrite Hc, (settle_held lk k Hh). done.
Qed.

Lemma acquiresleep_buf b r k e (Q : unit → kst * list (kst → kst) → Prop) :
  caller k → (b < NBUF)%nat → k_bufs k !! b = Some r → sl_locked (b_lock r) = 0 →
  Q tt (settle k <| k_bufs ::= alter lock_buf b |>, e) → wp (acquiresleep (buf_lock b)) Q (k, e).
Proof.
  intros Hca Hb Hr H0 HQ. pose proof (ca_ready _ Hca) as Hre. pose proof (ca_buf _ Hca b Hb) as Hu.
  unfold acquiresleep. cbn [sl_id buf_lock sl_get sl_upd]. apply wp_bind, wp_lift, wp_acquire; [done..|]. apply wp_bind.
  unfold sleep_loop.
  apply (wp_loop (fun _ s => s = (enter (LBuf b) k, e)) (fun _ => 0%nat)); [|done|lia].
  intros [] s ->. apply wp_bind, wp_lift, wp_bind, (wp_get_buf b r); [done|]. apply wp_ret.
  rewrite H0. cbn [Z.eqb negb]. apply wp_ret.
  apply wp_bind, wp_lift, wp_upd_buf.
  destruct (k_procs k !! p) as [pr|] eqn:Hp; [|by pose proof (ca_pid _ Hca) as Hx; rewrite Hp in Hx].
  assert (p_pid pr = pid) as Hpid by (pose proof (ca_pid _ Hca) as Hx; rewrite Hp in Hx; by injection Hx).
  apply wp_bind, wp_lift, (wp_caller_pid (LBuf b)); [klock|klock| |].
  { change (current (enter (LBuf b) k) = Some p). rewrite current_enter. apply Hca. }
  apply wp_bind, wp_lift, (wp_get_proc p pr); [done|]. rewrite Hpid.
  apply wp_bind, wp_lift, wp_upd_buf. apply wp_lift, wp_release; [klock|].
  match goal with |- Q tt (?x, e) => assert (x = settle k <| k_bufs ::= alter lock_buf b |>) as ->; [|done] end.
  rewrite !leave_set, leave_enter by done.
  transitivity (settle k <| k_bufs := alter lock_buf b (k_bufs k) |>); [|done].
  change (lock_buf) with (fun r => (fun r : buf => r <| b_lock ::= fun l => l <| sl_pid := pid |> |>)
    ((fun r : buf => r <| b_lock ::= fun l => l <| sl_locked := 1 |> |>) r)).
  by rewrite <- (list_alter_alter (fun r : buf => r <| b_lock ::= fun l => l <| sl_pid := pid |> |>)).
Qed.

Lemma holdingsleep_buf b r k (Q : bool → kst → Prop) :
  caller k → (b < NBUF)%nat → k_bufs k !! b = Some r → sl_locked (b_lock r) = 1 → sl_pid (b_lock r) = pid →
  Q true (settle k) → wp (holdingsleep (buf_lock b)) Q k.
Proof.
  intros Hca Hb Hr H1 H2 HQ. pose proof (ca_ready _ Hca) as Hre. pose proof (ca_buf _ Hca b Hb) as Hu.
  unfold holdingsleep. cbn [sl_id buf_lock sl_get sl_upd]. apply wp_bind, wp_acquire; [done..|].
  apply wp_bind, wp_bind, (wp_get_buf b r); [done|]. apply wp_ret. rewrite H1. cbn [Z.eqb].
  destruct (k_procs k !! p) as [pr|] eqn:Hp; [|by pose proof (ca_pid _ Hca) as Hx; rewrite Hp in Hx].
  assert (p_pid pr = pid) as Hpid by (pose proof (ca_pid _ Hca) as Hx; rewrite Hp in Hx; by injection Hx).
  apply wp_bind, wp_bind, (wp_caller_pid (LBuf b)); [klock|klock| |].
  { rewrite current_enter. apply Hca. }
  apply wp_bind, (wp_get_proc p pr); [done|]. apply wp_ret. rewrite H2, Hpid, Z.eqb_refl.
  apply wp_bind, wp_release; [klock|]. rewrite leave_enter by done. by apply wp_ret.
Qed.

Lemma releasesleep_buf b k (Q : unit → kst → Prop) :
  caller k → (b < NBUF)%nat →
  Q tt (settle k <| k_bufs ::= alter unlock_buf b |>
          <| k_procs := imap (woken (Some (ChBufLock b)) (Some p) NPROC) (k_procs k) |>) →
  wp (releasesleep (buf_lock b)) Q k.
Proof.
  intros Hca Hb HQ. pose proof (ca_ready _ Hca) as Hre. pose proof (ca_buf _ Hca b Hb) as Hu.
  unfold releasesleep. cbn [sl_id buf_lock sl_get sl_upd sl_chan]. apply wp_bind, wp_acquire; [done..|].
  apply wp_bind, wp_upd_buf. apply wp_bind, (wp_wakeup (LBuf b)); [klock|klock|by apply Hca| |].
  { intros j Hj _. rewrite unlocked_set. apply unlocked_enter; [done|by apply Hca]. }
  apply wp_release; [klock|]. rewrite !leave_set, leave_enter by done.
  change (current (enter (LBuf b) k <| k_bufs ::= _ |>)) with (current (enter (LBuf b) k)).
  rewrite current_enter, (ca_cur _ Hca). exact HQ.
Qed.

(** ** bget *)

Definition recycle (n : Z) (r : buf) : buf :=
  r <| b_dev := dev |> <| b_blockno := n |> <| b_valid := 0 |> <| b_refcnt := 1 |>.

Lemma core_lookup (bs : list buf) b r : bs !! b = Some r → (core <$> bs) !! b = Some (core r).
Proof. intros H. by rewrite list_lookup_fmap, H. Qed.

(** When every buffer is referenced, the references name NBUF blocks. *)
Lemma all_referenced a cs :
  bufs_ok a cs → (∀ b r, (b < NBUF)%nat → cs !! b = Some r → b_refcnt r ≠ 0) → (NBUF ≤ size (a_refs a))%nat.
Proof.
  intros H Hall.
  assert (Hcs : ∀ b r, (b < NBUF)%nat → cs !! b = Some r → b_dev r = dev ∧ b_blockno r ∈ a_refs a).
  { intros b r Hb Hr. pose proof (Hall b r Hb Hr) as Hnz. rewrite (bo_ref _ _ H b r Hb Hr) in Hnz.
    unfold held_count, pin_count in Hnz. destruct (a_held a !! b) as [m|] eqn:E.
    - destruct (bo_held _ _ H b m E) as (r' & _ & Hr' & Hd & Hm & _). assert (r' = r) as -> by congruence.
      split; [done|]. rewrite Hm. by eapply held_in_refs.
    - case_decide as Hp; [|lia]. split; [apply Hp|]. unfold a_refs. apply elem_of_union_l, Hp. }
  set (L := b_blockno <$> take NBUF cs).
  assert (Hlen : length L = NBUF) by (unfold L; rewrite length_fmap, length_take, (bo_len _ _ H); lia).
  assert (Hlk : ∀ i m, L !! i = Some m → ∃ r, (i < NBUF)%nat ∧ cs !! i = Some r ∧ b_blockno r = m).
  { intros i m Hi. unfold L in Hi. rewrite list_lookup_fmap in Hi. apply fmap_Some in Hi as (r & Hr & ->).
    apply lookup_take_Some in Hr as [Hr Hlt]. eauto. }
  rewrite <- Hlen, <- (size_list_to_set (C := gset Z) L).
  - apply subseteq_size. intros m. rewrite elem_of_list_to_set. intros [i Hi]%list_elem_of_lookup.
    destruct (Hlk i m Hi) as (r & Hlt & Hr & <-). by eapply Hcs.
  - apply NoDup_alt. intros i j m Hi Hj. destruct (Hlk i m Hi) as (r & Hi' & Hr & E1).
    destruct (Hlk j m Hj) as (s & Hj' & Hs & E2).
    apply (bo_uniq _ _ H i j r s); try done; [by apply (Hcs i r)|by apply (Hcs j s)|congruence].
Qed.

Lemma ring_walk bs order i x r :
  ring bs order → order !! i = Some x → bs !! x = Some r → b_next r = default HEAD (order !! S i).
Proof.
  intros Hr Hi Hx. rewrite <- (seg_lookup _ _ _ _ _ _ _ (rg_seg _ _ Hr) Hi). unfold nxt. by rewrite Hx.
Qed.
Lemma ring_walk_back bs order i x r :
  ring bs order → reverse order !! i = Some x → bs !! x = Some r → b_prev r = default HEAD (reverse order !! S i).
Proof.
  intros Hr Hi Hx. rewrite <- (seg_lookup _ _ _ _ _ _ _ (seg_reverse _ _ _ _ _ (rg_seg _ _ Hr)) Hi).
  unfold prv. by rewrite Hx.
Qed.
Lemma ring_head bs order h :
  ring bs order → bs !! HEAD = Some h →
  b_next h = default HEAD (order !! 0%nat) ∧ b_prev h = default HEAD (reverse order !! 0%nat).
Proof.
  intros Hr Hh. split.
  - destruct (seg_first _ _ _ _ _ (rg_seg _ _ Hr)) as [E _]. unfold nxt in E. rewrite Hh in E. cbn in E. rewrite E.
    by destruct order.
  - destruct (seg_first _ _ _ _ _ (seg_reverse _ _ _ _ _ (rg_seg _ _ Hr))) as [E _]. unfold prv in E. rewrite Hh in E.
    cbn in E. rewrite E. by destruct (reverse order).
Qed.

Lemma bget_lookup_wp n a k order (Q : nat → kst → Prop) :
  caller k → ring (k_bufs k) order → bufs_ok a (core <$> k_bufs k) →
  n ∈ a_pins a ∨ (size (a_refs a) < NBUF)%nat →
  (∀ x r, (x < NBUF)%nat → k_bufs k !! x = Some r → b_dev r = dev → b_blockno r = n →
     Q x (settle k <| k_bufs ::= alter inc_ref x |>)) →
  (∀ x r, (x < NBUF)%nat → k_bufs k !! x = Some r → b_refcnt r = 0 →
     (∀ b s, (b < NBUF)%nat → (core <$> k_bufs k) !! b = Some s → b_dev s = dev → b_blockno s ≠ n) →
     Q x (settle k <| k_bufs ::= alter (recycle n) x |>)) →
  wp (bget_lookup dev n) Q k.
Proof.
  intros Hca Hrg Hok Hroom HQ1 HQ2. pose proof (ca_ready _ Hca) as Hre. pose proof (ca_cache _ Hca) as Hu.
  unfold bget_lookup. apply wp_bind, wp_acquire; [done..|].
  destruct (rg_buf _ _ HEAD Hrg ltac:(unfold HEAD; lia)) as [h Hh].
  destruct (ring_head _ _ _ Hrg Hh) as [Hn Hp]. pose proof (rg_perm _ _ Hrg) as Hperm.
  assert (Hlen : length order = NBUF) by (rewrite Hperm; apply length_seq).
  assert (Hnode : ∀ x, x ∈ order → x ≠ HEAD ∧ ∃ r, k_bufs (enter LBcache k) !! x = Some r).
  { intros x Hx%(rg_in _ _ x Hrg). split; [unfold HEAD; lia|]. apply (rg_buf _ _ x Hrg). lia. }
  apply wp_bind, (wp_get_buf HEAD h); [done|]. rewrite Hn. apply wp_bind.
  eapply wp_mono; [apply (walk_wp (fun r => (b_dev r =? dev) && (b_blockno r =? n))
    (fun b s => s <| k_bufs ::= alter inc_ref b |>) b_next _ order)|].
  { intros b s. unfold bget_cached, get_buf, bind, get, of_option. case_decide; [done|].
    destruct (k_bufs s !! b) as [r|]; [|done]. cbn. by destruct (_ && _). }
  { done. } { intros i x r Hi Hx. by eapply ring_walk. } { lia. }
  intros [x|] k1.
  { intros (r & Hx & Hr & Ht & ->). apply andb_true_iff in Ht as [Ht1%Z.eqb_eq Ht2%Z.eqb_eq].
    apply wp_bind, wp_release; [klock|]. rewrite leave_set, leave_enter by done. apply wp_ret.
    eapply HQ1; [by apply (rg_in _ _ x Hrg)|done..]. }
  intros [-> Hno]. apply wp_bind, (wp_get_buf HEAD h); [done|]. rewrite Hp. apply wp_bind.
  assert (Hnone : ∀ b s, (b < NBUF)%nat → (core <$> k_bufs k) !! b = Some s → b_dev s = dev → b_blockno s ≠ n).
  { intros b s Hb Hs Hd Hbn. rewrite list_lookup_fmap in Hs. apply fmap_Some in Hs as (r & Hr & ->).
    pose proof (Hno b r (proj2 (rg_in _ _ b Hrg) Hb) Hr) as Hx. apply andb_false_iff in Hx as [Hx|Hx].
    - apply Z.eqb_neq in Hx. done. - apply Z.eqb_neq in Hx. done. }
  eapply wp_mono; [apply (walk_wp (fun r => b_refcnt r =? 0)
    (fun b s => s <| k_bufs ::= alter (recycle n) b |>) b_prev _ (reverse order))|].
  { intros b s. unfold bget_recycle, get_buf, bind, get, of_option. case_decide; [done|].
    destruct (k_bufs s !! b) as [r|]; [|done]. cbn. by destruct (_ =? 0). }
  { intros x Hx. apply Hnode. by rewrite <- (reverse_Permutation order). }
  { intros i x r Hi Hx. by eapply ring_walk_back. } { rewrite length_reverse. lia. }
  intros [x|] k1.
  { intros (r & Hx & Hr & Ht%Z.eqb_eq & ->). rewrite reverse_Permutation in Hx.
    apply wp_bind, wp_release; [klock|]. rewrite leave_set, leave_enter by done. apply wp_ret.
    eapply HQ2; [by apply (rg_in _ _ x Hrg)|done..]. }
  intros [_ Hall]. exfalso. destruct Hroom as [Hpin|Hsz].
  - destruct (bo_pin _ _ Hok n Hpin) as (b & r & Hb & Hr & Hd & Hbn). by apply (Hnone b r).
  - apply (Nat.lt_irrefl NBUF). eapply Nat.le_lt_trans; [|exact Hsz]. apply (all_referenced a (core <$> k_bufs k)); [done|].
    intros b s Hb Hs. rewrite list_lookup_fmap in Hs. apply fmap_Some in Hs as (r & Hr & ->).
    apply Z.eqb_neq. apply (Hall b r); [|done]. rewrite reverse_Permutation. by apply (rg_in _ _ b Hrg).
Qed.

(** ** The contract *)

Record krepr (s : kst * list (kst → kst)) (a : cache) : Prop := {
  kr_caller : caller (fst s);
  kr_ring : ∃ order, ring (k_bufs (fst s)) order;
  kr_bufs : bufs_ok a (core <$> k_bufs (fst s));
  kr_disk : k_disk (fst s) = a_disk a;
  kr_log : k_log (fst s) = a_log a
}.

Lemma core_update (bs : list buf) f x r :
  bs !! x = Some r → core <$> alter f x bs = <[x := core (f r)]> (core <$> bs).
Proof.
  intros Hr. pose proof (lookup_lt_Some _ _ _ Hr) as Hlt. apply list_eq. intros y.
  rewrite list_lookup_fmap. destruct (decide (x = y)) as [->|].
  - rewrite list_lookup_alter_eq, Hr, list_lookup_insert_eq by (by rewrite length_fmap). done.
  - by rewrite list_lookup_alter_ne, list_lookup_insert_ne, list_lookup_fmap by done.
Qed.

Lemma not_held_locked a cs b r :
  bufs_ok a cs → (b < NBUF)%nat → cs !! b = Some r → a_held a !! b = None →
  sl_locked (b_lock r) = 0 ∧ b_refcnt r = pin_count a r.
Proof.
  intros H Hb Hr Hn. split; [by eapply (bo_free _ _ H b)|]. rewrite (bo_ref _ _ H b r Hb Hr).
  unfold held_count. by rewrite Hn.
Qed.

(** [bread] when the block is cached. *)
Lemma bread_hit n x r k e a order :
  caller k → ring (k_bufs k) order → bufs_ok a (core <$> k_bufs k) → k_disk k = a_disk a → k_log k = a_log a →
  (∀ b, a_held a !! b ≠ Some n) → (x < NBUF)%nat → k_bufs k !! x = Some r → b_dev r = dev → b_blockno r = n →
  a_held a !! x = None ∧ sl_locked (b_lock r) = 0 ∧ b_valid r ≠ 0 ∧
  krepr (settle (settle k <| k_bufs ::= alter inc_ref x |>) <| k_bufs ::= alter lock_buf x |>, e)
    (a <| a_held ::= <[x := n]> |>).
Proof.
  intros Hca Hrg Hok Hdk Hlg Hnh Hx Hr Hd Hbn.
  assert (Hn : a_held a !! x = None).
  { destruct (a_held a !! x) as [m|] eqn:E; [|done]. destruct (bo_held _ _ Hok x m E) as (s & _ & Hs & _ & Hm & _).
    rewrite (core_lookup _ _ _ Hr) in Hs. injection Hs as <-. cbn in Hm. exfalso. apply (Hnh x). congruence. }
  pose proof (core_lookup _ _ _ Hr) as Hcr.
  destruct (not_held_locked a _ x _ Hok Hx Hcr Hn) as [Hl0 Hrc].
  destruct (bo_data _ _ Hok x _ Hx Hcr Hd) as [Hval Hdat].
  split_and!; [done|done|done|]. split; cbn [fst].
  - by apply caller_bufs, caller_settle, caller_bufs, caller_settle.
  - exists order. cbn. by apply ring_alter, ring_alter.
  - change (bufs_ok (a <| a_held ::= <[x:=n]> |>) (core <$> alter lock_buf x (alter inc_ref x (k_bufs k)))).
    rewrite list_alter_alter, (core_update _ _ _ r Hr).
    apply (bufs_take a _ x (core r)); try done.
    + rewrite <- Hbn. exact Hdat.
    + change (b_refcnt (core (lock_buf (inc_ref r)))) with (u32 (b_refcnt r + 1)).
      change (b_refcnt (core r)) with (b_refcnt r) in Hrc. rewrite Hrc. unfold pin_count. cbn.
      unfold u32. rewrite wrap_small by (case_decide; lia). rewrite Z.add_comm. f_equal. repeat case_decide; naive_solver.
    + by left.
  - done.
  - done.
Qed.

(** [bread] when a buffer is recycled for the block. *)
Lemma bread_miss n x r k e a order :
  caller k → ring (k_bufs k) order → bufs_ok a (core <$> k_bufs k) → k_disk k = a_disk a → k_log k = a_log a →
  (∀ b, a_held a !! b ≠ Some n) → (x < NBUF)%nat → k_bufs k !! x = Some r → b_refcnt r = 0 →
  (∀ b s, (b < NBUF)%nat → (core <$> k_bufs k) !! b = Some s → b_dev s = dev → b_blockno s ≠ n) →
  let k1 := settle (settle k <| k_bufs ::= alter (recycle n) x |>) <| k_bufs ::= alter lock_buf x |> in
  let k2 := k1 <| k_bufs ::= alter (fun r => r <| b_data := blk (k_disk k) n |>) x |> in
  a_held a !! x = None ∧ sl_locked (b_lock r) = 0 ∧
  krepr (k2 <| k_bufs ::= alter (fun r => r <| b_valid := 1 |>) x |>, e) (a <| a_held ::= <[x := n]> |>).
Proof.
  intros Hca Hrg Hok Hdk Hlg Hnh Hx Hr H0 Hnone k1 k2. pose proof (core_lookup _ _ _ Hr) as Hcr.
  destruct (unreferenced a _ x _ Hok Hx Hcr H0) as [Hn _].
  destruct (not_held_locked a _ x _ Hok Hx Hcr Hn) as [Hl0 _].
  assert (Hnp : n ∉ a_pins a).
  { intros Hp. destruct (bo_pin _ _ Hok n Hp) as (b & s & Hb & Hs & Hds & Hbn). by apply (Hnone b s). }
  assert (Hcl : blk (a_view a) n = blk (k_disk k) n).
  { rewrite Hdk. apply (bo_clean _ _ Hok). unfold a_refs. intros [Hin|Hin]%elem_of_union; [done|].
    apply elem_of_map_img in Hin as [b Hb]. by apply (Hnh b). }
  split_and!; [done|done|]. split; cbn [fst].
  - by apply caller_bufs, caller_bufs, caller_bufs, caller_settle, caller_bufs, caller_settle.
  - exists order. cbn. by do 4 (apply ring_alter; [done|done|]).
  - change (bufs_ok (a <| a_held ::= <[x:=n]> |>) (core <$> alter (fun r => r <| b_valid := 1 |>) x
      (alter (fun r => r <| b_data := blk (k_disk k) n |>) x (alter lock_buf x (alter (recycle n) x (k_bufs k)))))).
    rewrite !list_alter_alter, (core_update _ _ _ r Hr).
    apply (bufs_take a _ x (core r)); try done.
    + cbn. by rewrite decide_False.
    + by right.
  - done.
  - done.
Qed.

#[local] Existing Instance ideal_disk.

Lemma bread_krepr n s a :
  krepr s a → (∀ b, a_held a !! b ≠ Some n) → n ∈ a_pins a ∨ (size (a_refs a) < NBUF)%nat →
  wp (bread dev n) (fun b s' => a_held a !! b = None ∧ krepr s' (a <| a_held ::= <[b := n]> |>)) s.
Proof.
  destruct s as [k e]. intros [Hca [order Hrg] Hok Hdk Hlg] Hnh Hroom. cbn [fst] in *.
  unfold bread, bget. apply wp_bind, wp_bind, wp_lift, (bget_lookup_wp n a k order); try done.
  - intros x r Hx Hr Hd Hbn.
    destruct (bread_hit n x r k e a order Hca Hrg Hok Hdk Hlg Hnh Hx Hr Hd Hbn) as (Hn & Hl0 & Hval & Hkr).
    apply wp_bind, (acquiresleep_buf x (inc_ref r)); [by apply caller_bufs, caller_settle|done| |done|].
    { change (alter inc_ref x (k_bufs k) !! x = Some (inc_ref r)). by rewrite list_lookup_alter_eq, Hr. }
    apply wp_ret. apply wp_bind, wp_lift, (wp_get_buf x (lock_buf (inc_ref r))).
    { change (alter lock_buf x (alter inc_ref x (k_bufs k)) !! x = Some (lock_buf (inc_ref r))).
      by rewrite !list_lookup_alter_eq, Hr. }
    change (b_valid (lock_buf (inc_ref r))) with (b_valid r). rewrite (proj2 (Z.eqb_neq _ _) Hval).
    apply wp_bind, wp_ret, wp_ret. done.
  - intros x r Hx Hr H0 Hnone.
    destruct (bread_miss n x r k e a order Hca Hrg Hok Hdk Hlg Hnh Hx Hr H0 Hnone) as (Hn & Hl0 & Hkr).
    apply wp_bind, (acquiresleep_buf x (recycle n r)); [by apply caller_bufs, caller_settle|done| |done|].
    { change (alter (recycle n) x (k_bufs k) !! x = Some (recycle n r)). by rewrite list_lookup_alter_eq, Hr. }
    assert (Hg : alter lock_buf x (alter (recycle n) x (k_bufs k)) !! x = Some (lock_buf (recycle n r)))
      by (by rewrite !list_lookup_alter_eq, Hr).
    apply wp_ret. apply wp_bind, wp_lift, (wp_get_buf x (lock_buf (recycle n r))); [exact Hg|].
    change (b_valid (lock_buf (recycle n r))) with 0. cbn [Z.eqb].
    apply wp_bind, wp_bind. unfold disk_rw, ideal_disk. apply wp_lift. unfold ideal_rw.
    apply wp_bind, (wp_get_buf x (lock_buf (recycle n r))); [exact Hg|].
    apply wp_bind. unfold get, wp at 1. apply wp_upd_buf. apply wp_lift, wp_upd_buf, wp_ret. done.
Qed.

Lemma held_lookup a bs b n :
  bufs_ok a (core <$> bs) → a_held a !! b = Some n →
  ∃ r, (b < NBUF)%nat ∧ bs !! b = Some r ∧ locked_for n r ∧ b_valid r ≠ 0 ∧ b_data r = blk (a_view a) n ∧
    b_refcnt r = 1 + (if decide (n ∈ a_pins a) then 1 else 0).
Proof.
  intros H Hh. destruct (bo_held _ _ H b n Hh) as (c & Hb & Hc & Hlk). rewrite list_lookup_fmap in Hc.
  apply fmap_Some in Hc as (r & Hr & ->). pose proof Hlk as (Hd & Hn & _). pose proof (core_lookup _ _ _ Hr) as Hcr.
  destruct (bo_data _ _ H b _ Hb Hcr Hd) as [Hv Hdat].
  exists r. split_and!; [done|done|done|done|by rewrite <- Hn|]. change (b_refcnt r) with (b_refcnt (core r)).
  rewrite (bo_ref _ _ H b _ Hb Hcr). unfold held_count, pin_count. rewrite Hh. f_equal. rewrite Hn.
  repeat case_decide; naive_solver.
Qed.

Lemma data_krepr b n s a :
  krepr s a → a_held a !! b = Some n →
  wp (bl_data (Blocks := kernel_blocks) b) (fun d s' => d = blk (a_view a) n ∧ krepr s' a) s.
Proof.
  destruct s as [k e]. intros Hk Hh. pose proof (kr_bufs _ _ Hk) as Hok. cbn [fst] in Hok.
  destruct (held_lookup a _ b n Hok Hh) as (r & Hb & Hr & _ & _ & Hd & _).
  cbn. apply wp_lift, wp_bind, (wp_get_buf b r); [done|]. by apply wp_ret.
Qed.

Lemma set_data_krepr b n d s a :
  krepr s a → a_held a !! b = Some n → length d = Z.to_nat BSIZE →
  wp (bl_set_data (Blocks := kernel_blocks) b d) (fun _ s' => krepr s' (a <| a_view ::= <[n := d]> |>)) s.
Proof.
  destruct s as [k e]. intros [Hca [order Hrg] Hok Hdk Hlg] Hh Hd. cbn [fst] in *.
  destruct (held_lookup a _ b n Hok Hh) as (r & Hb & Hr & Hlk & Hv & Hdat & Hrc).
  unfold bl_set_data, kernel_blocks. apply wp_lift, wp_upd_buf. split; cbn [fst].
  - by apply caller_bufs.
  - exists order. by apply ring_alter.
  - change (bufs_ok (a <| a_view ::= <[n:=d]> |>) (core <$> alter (fun r => r <| b_data := d |>) b (k_bufs k))).
    rewrite (core_update _ _ _ r Hr). pose proof Hlk as (H1 & H2 & H3 & H4).
    apply (bufs_held_upd a _ _ b n (core r)); try done.
    + by apply core_lookup.
    + cbn. by rewrite blk_insert_eq.
    + change (b_refcnt (core (r <| b_data := d |>))) with (b_refcnt r). rewrite Hrc.
      unfold held_count, pin_count. cbn. rewrite Hh, H1, H2. f_equal. repeat case_decide; naive_solver.
    + cbn. by rewrite Hh.
    + intros m Hm. cbn. by rewrite blk_insert_ne.
    + intros Hno. exfalso. apply Hno. by eapply (held_in_refs (a <| a_view ::= <[n:=d]> |>)).
    + apply sized_insert; [apply Hok|done].
  - done.
  - done.
Qed.

Lemma bwrite_krepr b n s a :
  krepr s a → a_held a !! b = Some n →
  wp (bwrite b) (fun _ s' => krepr s' (a <| a_disk ::= <[n := blk (a_view a) n]> |>)) s.
Proof.
  destruct s as [k e]. intros [Hca [order Hrg] Hok Hdk Hlg] Hh. cbn [fst] in *.
  destruct (held_lookup a _ b n Hok Hh) as (r & Hb & Hr & (H1 & H2 & H3 & H4) & Hv & Hdat & Hrc).
  unfold bwrite. apply wp_bind, wp_lift, (holdingsleep_buf b r); try done. cbn [negb].
  unfold disk_rw, ideal_disk. apply wp_lift. unfold ideal_rw. apply wp_bind, (wp_get_buf b r); [done|].
  unfold modify, wp. rewrite H2, Hdat. split; cbn [fst].
  - by apply caller_disk, caller_settle.
  - by exists order.
  - change (bufs_ok (a <| a_disk ::= <[n := blk (a_view a) n]> |>) (core <$> k_bufs k)).
    pose proof (core_lookup _ _ _ Hr) as Hcr. rewrite <- (list_insert_id (core <$> k_bufs k) b (core r) Hcr).
    apply (bufs_held_upd a _ _ b n (core r)); try done.
    + change (b_refcnt (core r)) with (b_refcnt r). rewrite Hrc.
      unfold held_count, pin_count. cbn. rewrite Hh, H1, H2. f_equal. repeat case_decide; naive_solver.
    + cbn. by rewrite Hh.
    + intros m Hm. cbn. by rewrite blk_insert_ne.
    + intros _. cbn. by rewrite blk_insert_eq.
    + apply Hok.
  - cbn. by rewrite Hdk.
  - done.
Qed.

Lemma brelse_krepr b n s a :
  krepr s a → a_held a !! b = Some n → n ∈ a_pins a ∨ blk (a_view a) n = blk (a_disk a) n →
  wp (⇑ (brelse b)) (fun _ s' => krepr s' (a <| a_held ::= delete b |>)) s.
Proof.
  destruct s as [k e]. intros [Hca [order Hrg] Hok Hdk Hlg] Hh Hcl. cbn [fst] in *.
  destruct (held_lookup a _ b n Hok Hh) as (r & Hb & Hr & (H1 & H2 & H3 & H4) & Hv & Hdat & Hrc).
  unfold brelse. apply wp_lift, wp_bind, (holdingsleep_buf b r); try done. cbn [negb].
  pose proof (caller_settle _ Hca) as Hca1.
  apply wp_bind, (releasesleep_buf b); [done|done|].
  set (k1 := settle (settle k) <| k_bufs ::= alter unlock_buf b |>
               <| k_procs := imap (woken (Some (ChBufLock b)) (Some p) NPROC) (k_procs (settle k)) |>).
  assert (Hca2 : caller k1).
  { pose proof (caller_woken _ (ChBufLock b) (caller_bufs _ (alter unlock_buf b) (caller_settle _ Hca1))) as Hx. exact Hx. }
  apply wp_bind, wp_acquire; [apply Hca2|apply Hca2|].
  assert (Hr1 : k_bufs (enter LBcache k1) !! b = Some (unlock_buf r)).
  { change (alter unlock_buf b (k_bufs k) !! b = Some (unlock_buf r)). by rewrite list_lookup_alter_eq, Hr. }
  assert (Hrg1 : ring (k_bufs (enter LBcache k1)) order) by (by apply ring_alter).
  apply wp_bind, (brelse_unlink_wp b (unlock_buf r) _ order); try done.
  intros bs Hrg2 Hcs. apply wp_release; [rewrite held_set; apply held_enter; apply Hca2|].
  rewrite leave_set, leave_enter by apply Hca2. split; cbn [fst].
  - apply caller_bufs. by apply caller_settle.
  - eexists. exact Hrg2.
  - change (bufs_ok (a <| a_held ::= delete b |>) (core <$> bs)). rewrite Hcs.
    change (k_bufs (enter LBcache k1)) with (alter unlock_buf b (k_bufs k)).
    rewrite <- (core_alter_in _ dec_ref dec_ref) by done.
    rewrite list_alter_alter, (core_update _ _ _ r Hr).
    apply (bufs_held_upd a _ _ b n (core r)); try done.
    + by apply core_lookup.
    + change (u32 (b_refcnt r - 1) = held_count (a <| a_held ::= delete b |>) b +
        pin_count (a <| a_held ::= delete b |>) (core (dec_ref (unlock_buf r)))).
      rewrite Hrc. unfold held_count, pin_count. cbn. rewrite lookup_delete_eq, H1, H2.
      unfold u32. rewrite wrap_small by (case_decide; lia). repeat case_decide; naive_solver lia.
    + cbn. by rewrite lookup_delete_eq.
    + intros b' Hb'. cbn. by rewrite lookup_delete_ne.
    + intros Hno. cbn. destruct Hcl as [Hcl|Hcl]; [|done]. exfalso. apply Hno. unfold a_refs. cbn.
      by apply elem_of_union_l.
    + apply Hok.
  - done.
  - done.
Qed.

Lemma bunpin_krepr b n s a :
  krepr s a → a_held a !! b = Some n → n ∈ a_pins a →
  wp (⇑ (bunpin b)) (fun _ s' => krepr s' (a <| a_pins ::= fun q => q ∖ {[n]} |>)) s.
Proof.
  destruct s as [k e]. intros [Hca [order Hrg] Hok Hdk Hlg] Hh Hp. cbn [fst] in *.
  destruct (held_lookup a _ b n Hok Hh) as (r & Hb & Hr & (H1 & H2 & H3 & H4) & Hv & Hdat & Hrc).
  pose proof (ca_ready _ Hca) as Hre. pose proof (ca_cache _ Hca) as Hu.
  unfold bunpin. apply wp_lift, wp_bind, wp_acquire; [done..|]. apply wp_bind, wp_upd_buf.
  apply wp_release; [klock|]. rewrite leave_set, leave_enter by done. split; cbn [fst].
  - by apply caller_bufs, caller_settle.
  - exists order. by apply ring_alter.
  - change (bufs_ok (a <| a_pins ::= fun q => q ∖ {[n]} |>) (core <$> alter dec_ref b (k_bufs k))).
    rewrite (core_update _ _ _ r Hr). apply (bufs_held_upd a _ _ b n (core r)); try done.
    + by apply core_lookup.
    + change (u32 (b_refcnt r - 1) = held_count (a <| a_pins ::= fun q => q ∖ {[n]} |>) b +
        pin_count (a <| a_pins ::= fun q => q ∖ {[n]} |>) (core (dec_ref r))).
      rewrite Hrc, decide_True by done. unfold held_count, pin_count. cbn. rewrite Hh, H1, H2.
      rewrite decide_False by set_solver. done.
    + cbn. by rewrite Hh.
    + intros m Hm. cbn. split; [set_solver|done].
    + intros Hno. exfalso. apply Hno. by eapply (held_in_refs (a <| a_pins ::= _ |>)).
    + apply Hok.
  - done.
  - done.
Qed.

(** The kernel's buffer cache over a disk that obeys implements the contract. *)
Definition kernel_spec : BlocksSpec (kernel_blocks (D := ideal_disk)).
Proof.
  refine (Build_BlocksSpec _ kernel_blocks dev krepr _ _ _ _ _ _ _ _ _ _).
  - intros n s a Hk _. by apply bread_krepr.
  - intros b n s a. apply data_krepr.
  - intros b n d s a. apply set_data_krepr.
  - intros b n s a. apply bwrite_krepr.
  - intros b n s a. apply brelse_krepr.
  - intros b n s a. apply bunpin_krepr.
  - intros [k e] a Hk. unfold bl_log, kernel_blocks. apply wp_lift. unfold get_log, gets, wp. split; [apply Hk|done].
  - intros f [k e] a [Hca Hrg Hok Hdk Hlg]. unfold bl_upd_log, kernel_blocks. apply wp_lift. unfold upd_log, modify, wp.
    split; cbn [fst] in *; [by apply caller_log|done| |done|cbn; by rewrite Hlg].
    destruct Hok. by split.
  - intros s a n Hk. apply (bo_sized _ _ (kr_bufs _ _ Hk)).
  - intros s a a' Hk Hk'. by rewrite <- (kr_disk _ _ Hk), <- (kr_disk _ _ Hk').
Defined.
End contract.


(** ** binit *)

(** The buffers after the first [n] rounds of [binit]. *)
Definition buf_init (r : buf) : buf :=
  r <| b_lock ::= fun l => l <| sl_name := "buffer" |> <| sl_locked := 0 |> <| sl_pid := 0 |> |>.
Definition binit_locks (n : nat) (m : gmap lockid spinlock) : gmap lockid spinlock :=
  foldr (fun i => <[LBuf i := mkspinlock 0 "sleep lock" None]>) m (reverse (seq 0 n)).

Definition binited (k : kst) (n : nat) (k' : kst) : Prop :=
  ∃ bs, k' = k <| k_bufs := bs |> <| k_locks := binit_locks n (<[LBcache := mkspinlock 0 "bcache" None]> (k_locks k)) |> ∧
    length bs = S NBUF ∧ seg (nxt bs) (prv bs) HEAD (reverse (seq 0 n)) HEAD ∧
    (∀ b r, k_bufs k !! b = Some r → ∃ r', bs !! b = Some r' ∧
       core r' = core (if decide (b < n)%nat then buf_init r else r)).

Lemma binit_locks_S n m : binit_locks (S n) m = <[LBuf n := mkspinlock 0 "sleep lock" None]> (binit_locks n m).
Proof. unfold binit_locks. rewrite seq_S, reverse_app. done. Qed.

Lemma binit_wp k : length (k_bufs k) = S NBUF → wp binit (fun _ k' => binited k NBUF k') k.
Proof.
  intros Hlen. unfold binit. apply wp_bind. unfold initlock, modify, wp at 1. apply wp_bind, wp_upd_buf.
  eapply wp_mono; [apply (wp_for (fun i k' => binited k (Z.to_nat i) k'))|]; [| |intros [] k' H; exact H].
  - intros i k' Hi (bs & -> & Hl & Hs & Hc). set (n := Z.to_nat i) in *. replace (Z.to_nat (i + 1)) with (S n) by lia.
    assert (Hn : (n < NBUF)%nat) by (unfold n; lia).
    assert (HH : (HEAD < length bs)%nat) by (rewrite Hl; unfold HEAD; lia).
    destruct (lookup_lt_is_Some_2 bs HEAD HH) as [h Hh].
    apply wp_bind, (wp_get_buf HEAD h); [done|].
    assert (Hnh : b_next h = nxt bs HEAD) by (unfold nxt; by rewrite Hh). rewrite Hnh.
    apply wp_bind, wp_upd_buf. apply wp_bind. unfold initsleeplock. cbn [sl_id buf_lock sl_upd].
    apply wp_bind. unfold initlock, modify, wp at 1. apply wp_upd_buf.
    set (bs3 := alter (λ r : buf, r <| b_next := nxt bs HEAD |> <| b_prev := HEAD |>) n bs).
    set (bs3' := alter buf_init n bs3).
    match goal with |- wp _ _ ?s => change s with (k <| k_bufs := bs3' |> <| k_locks :=
      <[LBuf n := mkspinlock 0 "sleep lock" None]> (binit_locks n (<[LBcache := mkspinlock 0 "bcache" None]> (k_locks k))) |>) end.
    assert (HH3 : (HEAD < length bs3')%nat) by (unfold bs3', bs3; by rewrite !length_alter).
    destruct (lookup_lt_is_Some_2 bs3' HEAD HH3) as [h3 Hh3].
    apply wp_bind, (wp_get_buf HEAD h3); [done|].
    assert (Hnh3 : b_next h3 = nxt bs3' HEAD) by (unfold nxt; by rewrite Hh3). rewrite Hnh3.
    apply wp_bind, wp_upd_buf, wp_upd_buf. rewrite <- binit_locks_S.
    set (bs0 := alter buf_init n bs).
    assert (E3 : alter (λ r : buf, r <| b_next := nxt bs0 HEAD |> <| b_prev := HEAD |>) n bs0 = bs3').
    { unfold bs3', bs3, bs0. rewrite !list_alter_alter. apply list_alter_ext; [|done]. intros x _.
      by rewrite nxt_alter by done. }
    destruct (ring_push bs0 (reverse (seq 0 n)) n) as [Hl5 Hs5].
    + unfold bs0. by rewrite length_alter.
    + rewrite !NoDup_cons. split_and!.
      * rewrite not_elem_of_cons. split; [unfold HEAD; lia|]. rewrite elem_of_reverse, elem_of_seq. unfold HEAD. lia.
      * rewrite elem_of_reverse, elem_of_seq. lia.
      * rewrite reverse_Permutation. apply NoDup_seq.
    + intros x. unfold bs0. rewrite length_alter, Hl, !elem_of_cons, elem_of_reverse, elem_of_seq. unfold HEAD. lia.
    + apply (seg_frame _ _ _ _ _ _ _ Hs); intros x _; unfold bs0; [by apply nxt_alter|by apply prv_alter].
    + rewrite E3 in Hl5, Hs5. eexists. split; [reflexivity|]. split; [exact Hl5|]. rewrite seq_S, reverse_snoc.
      split; [exact Hs5|]. intros b r Hr. destruct (Hc b r Hr) as (r' & Hr' & Hcr).
      assert (Hcore : (core <$> alter (λ x : buf, x <| b_next := n |>) HEAD
        (alter (λ x : buf, x <| b_prev := n |>) (nxt bs3' HEAD) bs3')) = alter buf_init n (core <$> bs)).
      { rewrite !core_alter by done. unfold bs3'. rewrite (core_alter_in _ _ buf_init) by done.
        unfold bs3. by rewrite core_alter by done. }
      destruct (lookup_lt_is_Some_2 (alter (λ x : buf, x <| b_next := n |>) HEAD
        (alter (λ x : buf, x <| b_prev := n |>) (nxt bs3' HEAD) bs3')) b) as [r2 Hr2].
      { rewrite Hl5. apply lookup_lt_Some in Hr. lia. }
      exists r2. split; [exact Hr2|]. apply (f_equal (.!! b)) in Hcore. rewrite list_lookup_fmap, Hr2 in Hcore.
      destruct (decide (b = n)) as [->|Hne].
      * rewrite list_lookup_alter_eq, list_lookup_fmap, Hr' in Hcore. apply (inj Some) in Hcore. rewrite Hcore. clear Hcore.
        rewrite decide_False in Hcr by lia. rewrite decide_True by lia.
        change (core (buf_init r)) with (buf_init (core r)). by rewrite <- Hcr.
      * rewrite list_lookup_alter_ne, list_lookup_fmap, Hr' in Hcore by done. apply (inj Some) in Hcore. rewrite Hcore. clear Hcore.
        rewrite Hcr. destruct (decide (b < n)%nat); [rewrite decide_True by lia|rewrite decide_False by lia]; done.
  - exists (alter (fun r => r <| b_prev := HEAD |> <| b_next := HEAD |>) HEAD (k_bufs k)).
    split; [reflexivity|]. split; [by rewrite length_alter|]. split.
    + change (reverse (seq 0 (Z.to_nat 0))) with (@nil nat). cbn [seg]. unfold nxt, prv. rewrite !list_lookup_alter_eq.
      by destruct (lookup_lt_is_Some_2 (k_bufs k) HEAD ltac:(rewrite Hlen; unfold HEAD; lia)) as [h ->].
    + intros b r Hr. rewrite decide_False by (unfold Z.to_nat; lia). destruct (decide (b = HEAD)) as [->|Hne].
      * eexists. by rewrite list_lookup_alter_eq, Hr.
      * exists r. by rewrite list_lookup_alter_ne.
Qed.

Lemma binit_ring k k' : length (k_bufs k) = S NBUF → binit k = Ok tt k' → ring (k_bufs k') (reverse (seq 0 NBUF)).
Proof.
  intros Hlen E. pose proof (binit_wp k Hlen) as H. unfold wp in H. rewrite E in H.
  destruct H as (bs & -> & Hl & Hs & _). split; [exact Hl|apply reverse_Permutation|exact Hs].
Qed.

(** ** Theorems *)

(** [binit] links all NBUF buffers into one ring around the head, the last buffer
    first, with every sleep lock free and its spin lock initialised; block contents
    and reference counts are untouched. *)
Theorem binit_correct (k : kst) :
  length (k_bufs k) = S NBUF →
  ∃ k', binit k = Ok tt k' ∧ ring (k_bufs k') (reverse (seq 0 NBUF)) ∧
    k_locks k' = binit_locks NBUF (<[LBcache := mkspinlock 0 "bcache" None]> (k_locks k)) ∧
    ∀ b r, (b < NBUF)%nat → k_bufs k !! b = Some r → ∃ r', k_bufs k' !! b = Some r' ∧ core r' = core (buf_init r).
Proof.
  intros Hlen. destruct (proj1 (wp_Ok _ _ _) (binit_wp k Hlen)) as ([] & k' & E & bs & -> & Hl & Hs & Hc).
  eexists. split; [exact E|]. split; [|split; [done|]].
  - split; [exact Hl|apply reverse_Permutation|exact Hs].
  - intros b r Hb Hr. destruct (Hc b r Hr) as (r' & Hr' & Hcr). rewrite decide_True in Hcr by done. eauto.
Qed.

(** [brelse]'s list surgery: dropping the last reference moves the buffer to the front
    of the ring, keeping the order of the others; otherwise the list is unchanged. The
    ring stays a ring of all buffers and only the reference count changes besides it. *)
Theorem brelse_moves_to_front (b : nat) (r : buf) (k : kst) (order : list nat) :
  ring (k_bufs k) order → (b < NBUF)%nat → k_bufs k !! b = Some r →
  ∃ bs, brelse_unlink b k = Ok tt (k <| k_bufs := bs |>) ∧
    ring bs (if u32 (b_refcnt r - 1) =? 0 then b :: filter (fun x => x ≠ b) order else order) ∧
    core <$> bs = alter dec_ref b (core <$> k_bufs k).
Proof.
  intros Hr Hb Hrb.
  assert (H : wp (brelse_unlink b) (fun _ k' => ∃ bs, k' = k <| k_bufs := bs |> ∧
    ring bs (released b (u32 (b_refcnt r - 1) =? 0) order) ∧ core <$> bs = alter dec_ref b (core <$> k_bufs k)) k).
  { apply (brelse_unlink_wp b r k order); [done..|]. intros bs H1 H2. by exists bs. }
  apply wp_Ok in H as ([] & k' & E & bs & -> & H1 & H2). by exists bs.
Qed.

(** C15: [bread] returns a locked buffer with the current contents of the block, whether it
    was cached or a buffer had to be recycled, as long as fewer than NBUF blocks are
    referenced; no other block's contents, on disk or cached, change. *)
Theorem bread_correct (dev : Z) (p : nat) (pid n : Z) (s : kst * list (kst → kst)) (a : cache) :
  krepr dev p pid s a → (∀ b, a_held a !! b ≠ Some n) → n ∈ a_pins a ∨ (size (a_refs a) < NBUF)%nat →
  ∃ b s' r, bread (D := ideal_disk) dev n s = Ok b s' ∧ krepr dev p pid s' (a <| a_held ::= <[b := n]> |>) ∧
    k_bufs (fst s') !! b = Some r ∧ b_data r = blk (a_view a) n ∧ sl_locked (b_lock r) = 1 ∧ sl_pid (b_lock r) = pid.
Proof.
  intros Hk Hnh Hroom.
  destruct (proj1 (wp_Ok _ _ _) (bread_krepr dev p pid n s a Hk Hnh Hroom)) as (b & s' & E & Hn & Hk').
  destruct (held_lookup dev pid _ _ b n (kr_bufs _ _ _ _ _ Hk')) as (r & Hb & Hr & (H1 & H2 & H3 & H4) & _ & Hd & _).
  { cbn. by rewrite lookup_insert_eq. }
  exists b, s', r. by split_and!.
Qed.

(** ** Witnesses: the kernel after [binit], process 0 running *)

Definition demo_bio0 : kst :=
  demo_procs <| k_procs ::= <[0%nat := proc0 <| p_state := RUNNING |> <| p_pid := 1 |>]> |>
    <| k_cpus ::= <[0%nat := mkcpu (Some 0%nat) context0 0 0]> |>
    <| k_locks ::= <[LLog := mkspinlock 0 "log" None]> |>
    <| k_log := mklog 2 30 1 0 1 0 (replicate 30 0) |>.
Definition demo_bio : kst := match binit demo_bio0 with Ok _ k => k | _ => demo_bio0 end.

Lemma demo_bio_run : binit demo_bio0 = Ok tt demo_bio.
Proof.
  destruct (proj1 (wp_Ok _ _ _) (binit_wp demo_bio0 eq_refl)) as ([] & k' & E & _).
  unfold demo_bio. rewrite E. reflexivity.
Qed.

Definition demo_cache : cache := mkcache ∅ ∅ ∅ ∅ (mklog 2 30 1 0 1 0 (replicate 30 0)).

Lemma binit_correct_witness :
  ∃ k', binit demo_bio0 = Ok tt k' ∧ ring (k_bufs k') (reverse (seq 0 NBUF)).
Proof. destruct (binit_correct demo_bio0 eq_refl) as (k' & E & H & _). exists k'. split; [exact E|exact H]. Defined.

Lemma demo_bio_ring : ring (k_bufs demo_bio) (reverse (seq 0 NBUF)).
Proof. exact (binit_ring demo_bio0 demo_bio eq_refl demo_bio_run). Qed.

(** The cores of the buffers after [binit]: all alike. *)
Definition demo_core : buf := buf0 <| b_lock := mksleeplock 0 "buffer" 0 |>.

Lemma demo_bio_cores : core <$> k_bufs demo_bio = replicate NBUF demo_core ++ [buf0].
Proof. by vm_compute. Qed.

(** The same over any disk: no block is cached yet. *)
Lemma demo_bio_ok_disk (d : blocks) :
  sized d → bufs_ok 1 1 (demo_cache <| a_disk := d |> <| a_view := d |>) (core <$> k_bufs demo_bio).
Proof.
  intros Hd. rewrite demo_bio_cores.
  assert (Hlk : ∀ b r, (b < NBUF)%nat → (replicate NBUF demo_core ++ [buf0]) !! b = Some r → r = demo_core).
  { intros b r Hb. rewrite lookup_app_l by (by rewrite length_replicate). by intros [-> _]%lookup_replicate. }
  split; try done.
  - intros b r Hb Hr. by rewrite (Hlk b r Hb Hr).
  - intros b r Hb Hr _. by rewrite (Hlk b r Hb Hr).
  - intros b b' r r' Hb _ Hr _ Hdev. by rewrite (Hlk b r Hb Hr) in Hdev.
  - intros b r Hb Hr Hdev. by rewrite (Hlk b r Hb Hr) in Hdev.
Qed.

Lemma demo_bio_ok : bufs_ok 1 1 demo_cache (core <$> k_bufs demo_bio).
Proof. exact (demo_bio_ok_disk ∅ ltac:(by intros m)). Qed.

Lemma demo_bio_caller : caller 0 1 demo_bio.
Proof.
  split.
  - exists (mkcpu (Some 0%nat) context0 0 0). by vm_compute.
  - by vm_compute.
  - by vm_compute.
  - by vm_compute.
  - eexists. by vm_compute.
  - eexists. by vm_compute.
  - intros b Hb. exists (mkspinlock 0 "sleep lock" None). split; [|done].
    apply (bool_decide_eq_true_1 _).
    assert (H : forallb (fun b => bool_decide (k_locks demo_bio !! LBuf b = Some (mkspinlock 0 "sleep lock" None))) (seq 0 NBUF) = true)
      by (by vm_compute).
    rewrite forallb_forall in H. apply H, in_seq. lia.
  - intros j Hj. exists (mkspinlock 0 "proc" None). split; [|done].
    apply (bool_decide_eq_true_1 _).
    assert (H : forallb (fun b => bool_decide (k_locks demo_bio !! LProc b = Some (mkspinlock 0 "proc" None))) (seq 0 NPROC) = true)
      by (by vm_compute).
    rewrite forallb_forall in H. apply H, in_seq. lia.
Qed.

Lemma demo_bio_krepr e : krepr 1 0 1 (demo_bio, e) demo_cache.
Proof.
  split; cbn [fst]; [apply demo_bio_caller|by eexists; apply demo_bio_ring|apply demo_bio_ok|by vm_compute|by vm_compute].
Qed.

Lemma brelse_moves_to_front_witness :
  ∃ bs, brelse_unlink 7 demo_bio = Ok tt (demo_bio <| k_bufs := bs |>) ∧ length bs = S NBUF.
Proof.
  assert (Hr : ∃ r, k_bufs demo_bio !! 7%nat = Some r) by (apply lookup_lt_is_Some_2; rewrite (rg_len _ _ demo_bio_ring); unfold NBUF; lia).
  destruct Hr as [r Hr].
  destruct (brelse_moves_to_front 7 r demo_bio _ demo_bio_ring ltac:(unfold NBUF; lia) Hr) as (bs & E & H & _).
  exists bs. split; [exact E|]. apply H.
Defined.

Lemma bread_correct_witness :
  ∃ b s' r, bread (D := ideal_disk) 1 45 (demo_bio, []) = Ok b s' ∧ k_bufs (fst s') !! b = Some r ∧
    b_data r = blk ∅ 45.
Proof.
  destruct (bread_correct 1 0 1 45 (demo_bio, []) demo_cache (demo_bio_krepr [])) as (b & s' & r & E & _ & Hr & Hd & _).
  - intros b. cbn. by rewrite lookup_empty.
  - right. unfold a_refs. cbn. rewrite map_img_empty_L, union_empty_l_L, size_empty. unfold NBUF. lia.
  - exists b, s', r. split; [exact E|]. split; [exact Hr|exact Hd].
Defined.
