(* ===== verification/Frame.v ===== *)
(** * What calls leave alone

    [keeps P m]: when [m] returns, its states are related by the preorder [P].  With
    [on π R] the relation is about the part [π] of the kernel's state; [on_env π R] says
    so of a run in which the caller never has to sleep.  [Frame π] says that [π] does not
    look at the registers, locks, processes, buffers and disk, which most calls change:
    [k_log], [k_sb] and the inode table with its locks and memory are such parts. *)

From Stdlib Require Import FunctionalExtensionality.
From S2P Require Import Prelude Mem CString Kernel Spinlock Kalloc Vm Proc Bio Log.

Section keeps.
Context {S : Type} (P : S → S → Prop) `{!PreOrder P}.

Definition keeps {A} (m : M S A) : Prop := ∀ s a s', m s = Ok a s' → P s s'.

Lemma keeps_ret {A} (a : A) : keeps (ret a).
Proof. by intros s b s' [= <- <-]. Qed.
Lemma keeps_bind {A B} (m : M S A) (f : A → M S B) : keeps m → (∀ a, keeps (f a)) → keeps (bind m f).
Proof.
  intros Hm Hf s b s'. unfold bind. destruct (m s) as [a s1| | | |] eqn:E; try done.
  intros H. etrans; [by eapply Hm|by eapply Hf].
Qed.
Lemma keeps_if {A} (c : bool) (m m' : M S A) : keeps m → keeps m' → keeps (if c then m else m').
Proof. by destruct c. Qed.
Lemma keeps_decide {A} (Q : Prop) `{!Decision Q} (m m' : M S A) : keeps m → keeps m' → keeps (if decide Q then m else m').
Proof. by case_decide. Qed.
Lemma keeps_match {A B} (o : option A) (f : A → M S B) (m : M S B) :
  (∀ a, keeps (f a)) → keeps m → keeps (match o with Some a => f a | None => m end).
Proof. by destruct o. Qed.
Lemma keeps_get : keeps get.
Proof. by intros s a s' [= <- <-]. Qed.
Lemma keeps_gets {A} (f : S → A) : keeps (gets f).
Proof. by intros s a s' [= <- <-]. Qed.
Lemma keeps_modify f : (∀ s, P s (f s)) → keeps (modify f).
Proof. intros H s a s' [= <- <-]. apply H. Qed.
Lemma keeps_panic {A} msg : keeps (A := A) (panic msg).
Proof. done. Qed.
Lemma keeps_hang {A} : keeps (A := A) hang.
Proof. done. Qed.
Lemma keeps_option {A} (o : option A) : keeps (of_option o).
Proof. destruct o; [apply keeps_ret|done]. Qed.
Lemma keeps_for lo n body : (∀ i, keeps (body i)) → keeps (for_ lo n body).
Proof.
  intros H. revert lo. induction n as [|n IH]; intros lo; simpl; [apply keeps_ret|].
  apply keeps_bind; [done|]. intros []. apply IH.
Qed.
Lemma keeps_loop {A B} n (body : A → M S (A + B)) a : (∀ a, keeps (body a)) → keeps (loop n body a).
Proof.
  intros H. revert a. induction n as [|n IH]; intros a; simpl; [done|].
  apply keeps_bind; [done|]. intros [a'|b]; [apply IH|apply keeps_ret].
Qed.
End keeps.

(** The locks of the inode table and of inodes. *)
Definition inode_lockid (lk : lockid) : bool := match lk with LItable | LInode _ => true | _ => false end.

Class Frame {X} (π : kst → X) := {
  fr_csr f k : π (k <| k_csr ::= f |>) = π k;
  fr_cpus f k : π (k <| k_cpus ::= f |>) = π k;
  fr_locks lk f k : inode_lockid lk = false → π (k <| k_locks ::= alter f lk |>) = π k;
  fr_procs i f k : (∀ r, p_pagetable (f r) = p_pagetable r) → π (k <| k_procs ::= alter f i |>) = π k;
  fr_bufs f k : π (k <| k_bufs ::= f |>) = π k;
  fr_disk f k : π (k <| k_disk ::= f |>) = π k
}.
Class FrameLog {X} (π : kst → X) := fr_log f k : π (k <| k_log ::= f |>) = π k.

#[export] Instance frame_log : Frame k_log.
Proof. by split. Qed.
#[export] Instance frame_sb : Frame k_sb.
Proof. by split. Qed.
(** The inode table, the locks in it, memory, and the page tables of the processes. *)
Definition rest : Type := list inode * ((lockid → option spinlock) * mem * list Z).
Definition itable (k : kst) : rest :=
  (k_inodes k, (fun lk => if inode_lockid lk then k_locks k !! lk else None, k_mem k, p_pagetable <$> k_procs k)).
#[export] Instance frame_itable : Frame itable.
Proof.
  split; try done.
  - intros lk f k Hlk. unfold itable. do 3 f_equal. apply functional_extensionality. intros lk'.
    destruct (inode_lockid lk') eqn:E; [|done]. cbn [k_locks set_field]. apply lookup_alter_ne. by intros ->; rewrite E in Hlk.
  - intros i f k Hf. unfold itable. do 2 f_equal. cbn [k_procs set_field]. apply list_eq. intros j. rewrite !list_lookup_fmap.
    destruct (decide (i = j)) as [->|]; [|by rewrite list_lookup_alter_ne]. rewrite list_lookup_alter_eq.
    change (k_procs (k <| k_procs ::= _ |>)) with (k_procs k). destruct (k_procs k !! j); [|done]. cbn. by rewrite Hf.
Qed.
#[export] Instance frame_log_itable : FrameLog itable.
Proof. by intros f k. Qed.
#[export] Instance frame_log_sb : FrameLog k_sb.
Proof. by intros f k. Qed.

Section on.
Context {X : Type} (π : kst → X) (R : X → X → Prop) `{!PreOrder R}.

Definition on (k k' : kst) : Prop := R (π k) (π k').
Definition on_env (s s' : kst * list (kst → kst)) : Prop :=
  snd s = [] → snd s' = [] ∧ R (π (fst s)) (π (fst s')).

#[export] Instance on_pre : PreOrder on.
Proof. split; [intros ?; unfold on; reflexivity|]. intros x y z. unfold on. by etrans. Qed.
#[export] Instance on_env_pre : PreOrder on_env.
Proof.
  split; [done|]. intros x y z H1 H2 Hx. destruct (H1 Hx) as [Hy E1]. destruct (H2 Hy) as [Hz E2].
  split; [done|]. by etrans.
Qed.

Lemma keeps_kmodify f : (∀ k, π (f k) = π k) → keeps on (modify f).
Proof. intros H. apply keeps_modify. intros k. unfold on. by rewrite H. Qed.
Lemma keeps_lift {A} (m : K A) : keeps on m → keeps on_env (lift m).
Proof.
  intros H [k e] a [k' e']. unfold lift. destruct (m k) as [b k1| | | |] eqn:E; try done.
  intros [= <- <- <-] He. split; [done|]. by eapply H.
Qed.
Lemma keeps_env_step : keeps on_env env_step.
Proof. intros [k [|f e]] a s'; [done|]. by intros _ ?. Qed.
Lemma keeps_sleep_loop {A B} (body : A → KM (A + B)) a : (∀ a, keeps on_env (body a)) → keeps on_env (sleep_loop body a).
Proof. intros H s b s'. unfold sleep_loop. apply (keeps_loop _ _ body a H). Qed.
End on.
#[export] Existing Instances on_pre on_env_pre.

Create HintDb keeps discriminated.
#[export] Hint Constants Opaque : keeps.
#[export] Hint Extern 0 (∀ r, p_pagetable _ = p_pagetable r) => intros ?; reflexivity : keeps.
#[export] Hint Extern 0 (inode_lockid _ = false) => first [assumption|reflexivity] : keeps.

Ltac frame_eq := first [apply fr_csr|apply fr_cpus|apply fr_locks; assumption|apply fr_locks; reflexivity|apply fr_procs; assumption|apply fr_procs; reflexivity|apply fr_bufs|apply fr_disk|apply fr_log].

(** Follow the text of a call; what it calls is looked up in the hints. *)
Ltac keeps_step :=
  lazymatch goal with
  | |- keeps _ (bind _ _) => apply keeps_bind; [typeclasses eauto| |intros ?]
  | |- keeps _ (ret _) => apply keeps_ret; typeclasses eauto
  | |- keeps _ (if decide _ then _ else _) => apply keeps_decide
  | |- keeps _ (match ?x with _ => _ end) => destruct x
  | |- keeps _ get => apply keeps_get; typeclasses eauto
  | |- keeps _ (gets _) => apply keeps_gets; typeclasses eauto
  | |- keeps _ (modify _) => apply keeps_kmodify; [typeclasses eauto|intros ?; frame_eq]
  | |- keeps _ (panic _) => apply keeps_panic
  | |- keeps _ hang => apply keeps_hang
  | |- keeps _ undef => done
  | |- keeps _ (of_option _) => apply keeps_option; typeclasses eauto
  | |- keeps _ (for_ _ _ _) => apply keeps_for; [typeclasses eauto|intros ?]
  | |- keeps _ (loop _ _ _) => apply keeps_loop; [typeclasses eauto|intros ?]
  | |- keeps _ (sleep_loop _ _) => apply keeps_sleep_loop; [typeclasses eauto|intros ?]
  | |- keeps _ (lift _) => apply keeps_lift
  | |- keeps _ _ => solve [auto with keeps]
  end.
Ltac keeps := repeat keeps_step.


Section calls.
Context {X : Type} (π : kst → X) (R : X → X → Prop) `{!PreOrder R} `{!Frame π}.
#[local] Abbreviation kcall := (keeps (on π R)).
#[local] Abbreviation kenv := (keeps (on_env π R)).

Lemma keeps_acquire lk : inode_lockid lk = false → kcall (acquire lk).
Proof.
  intros Hlk. unfold acquire, push_off, acquire_check, holding, sync_lock_test_and_set, set_owner, get_lock, upd_lock, mycpu, cpuid,
    get_cpu, upd_cpu, intr_get, intr_off, upd_csr. keeps.
Qed.
Lemma keeps_release lk : inode_lockid lk = false → kcall (release lk).
Proof.
  intros Hlk. unfold release, pop_off, release_check, holding, clear_owner, sync_lock_release, get_lock, upd_lock, mycpu, cpuid,
    get_cpu, upd_cpu, intr_get, intr_on, upd_csr. keeps.
Qed.
Lemma keeps_myproc : kcall myproc.
Proof.
  unfold myproc, push_off, pop_off, mycpu, cpuid, get_cpu, upd_cpu, intr_get, intr_on, intr_off, upd_csr. keeps.
Qed.
Lemma keeps_get_proc p : kcall (get_proc p).
Proof. unfold get_proc. keeps. Qed.
Lemma keeps_upd_proc p f : (∀ r, p_pagetable (f r) = p_pagetable r) → kcall (upd_proc p f).
Proof. intros Hf. unfold upd_proc. keeps. Qed.
Lemma keeps_get_buf b : kcall (get_buf b).
Proof. unfold get_buf. keeps. Qed.
Lemma keeps_upd_buf b f : kcall (upd_buf b f).
Proof. unfold upd_buf. keeps. Qed.
#[local] Hint Resolve keeps_acquire keeps_release keeps_myproc keeps_get_proc keeps_upd_proc keeps_get_buf keeps_upd_buf : keeps.
Lemma keeps_curproc : kcall curproc.
Proof. unfold curproc. keeps. Qed.
Lemma keeps_wakeup ch : kcall (wakeup ch).
Proof. unfold wakeup, wakeup_ptr, for_procs. keeps. Qed.
#[local] Hint Resolve keeps_curproc keeps_wakeup : keeps.
Lemma keeps_sched : kenv sched.
Proof. unfold sched, holding, get_lock, get_cpu, upd_cpu, mycpu, cpuid, intr_get. keeps. apply keeps_env_step. Qed.
#[local] Hint Resolve keeps_sched : keeps.
Lemma keeps_sleep ch lk : inode_lockid lk = false → kenv (sleep ch lk).
Proof. intros Hlk. unfold sleep. keeps. Qed.
#[local] Hint Resolve keeps_sleep : keeps.
Lemma keeps_acquiresleep b : kenv (acquiresleep (buf_lock b)).
Proof. unfold acquiresleep, sl_get, sl_upd, buf_lock. keeps. Qed.
Lemma keeps_releasesleep b : kcall (releasesleep (buf_lock b)).
Proof. unfold releasesleep, sl_upd, buf_lock. keeps. Qed.
Lemma keeps_holdingsleep b : kcall (holdingsleep (buf_lock b)).
Proof. unfold holdingsleep, sl_get, buf_lock. keeps. Qed.
#[local] Hint Resolve keeps_acquiresleep keeps_releasesleep keeps_holdingsleep : keeps.
Lemma keeps_ideal_rw b w : kcall (ideal_rw b w).
Proof. unfold ideal_rw. keeps. Qed.
#[local] Hint Resolve keeps_ideal_rw : keeps.
Lemma keeps_bread dev n : kenv (bread (D := ideal_disk) dev n).
Proof. unfold bread, bget, bget_lookup, bget_cached, bget_recycle, disk_rw, ideal_disk. keeps. Qed.
Lemma keeps_bwrite b : kenv (bwrite (D := ideal_disk) b).
Proof. unfold bwrite, disk_rw, ideal_disk. keeps. Qed.
Lemma keeps_brelse b : kcall (brelse b).
Proof. unfold brelse, brelse_unlink. keeps. Qed.
Lemma keeps_bpin b : kcall (bpin b).
Proof. unfold bpin. keeps. Qed.
Lemma keeps_bunpin b : kcall (bunpin b).
Proof. unfold bunpin. keeps. Qed.
#[local] Hint Resolve keeps_bread keeps_bwrite keeps_brelse keeps_bpin keeps_bunpin : keeps.

#[local] Abbreviation KL := (kernel_blocks (D := ideal_disk)).
Lemma keeps_write_log : kenv (write_log (B := KL)).
Proof. unfold write_log. cbn [bl_log bl_read bl_write bl_relse bl_data bl_set_data kernel_blocks]. unfold get_log. keeps. Qed.
Lemma keeps_write_head : kenv (write_head (B := KL)).
Proof. unfold write_head. cbn [bl_log bl_read bl_write bl_relse bl_data bl_set_data kernel_blocks]. unfold get_log. keeps. Qed.
Lemma keeps_install rec : kenv (install_trans (B := KL) rec).
Proof.
  unfold install_trans. cbn [bl_log bl_read bl_write bl_relse bl_unpin bl_data bl_set_data kernel_blocks].
  unfold get_log. keeps.
Qed.

Context `{!FrameLog π}.
Lemma keeps_log_write b : kcall (log_write b).
Proof. unfold log_write, get_log, upd_log. keeps. Qed.
End calls.
#[export] Hint Extern 0 (PreOrder _) => typeclasses eauto : keeps.
#[export] Hint Extern 0 (Frame _) => typeclasses eauto : keeps.
#[export] Hint Resolve keeps_acquire keeps_release keeps_wakeup keeps_bpin keeps_get_buf
  keeps_write_log keeps_write_head keeps_install : keeps.

