(* ===== verification/Logkernel.v ===== *)
(** * The log on the kernel: log_write, commit and the reservations of begin_op

    [log_write] adds a block to the running transaction; with the buffer cache of bio.c
    under the code of log.c, committing is crash safe on the kernel itself; and the
    space [begin_op] reserves is what keeps [log_write] from running out of log. *)

From S2P Require Import Prelude Mem CString Kernel Spinlock Kalloc Vm Proc Procproof Bio Log Logproof Bioproof Frame.

Section kernel_log.
Context (dev : Z) (p : nat) (pid start : Z).
#[local] Existing Instance ideal_disk.
#[local] Instance KB : Blocks (kst * list (kst → kst)) := kernel_blocks (D := ideal_disk).
#[local] Instance KS : BlocksSpec KB := kernel_spec dev p pid.

(** The transaction after a write to block [n]. *)
Definition logged (bl : list Z) (n : Z) : list Z := if decide (n ∈ bl) then bl else bl ++ [n].

Lemma absorb_spec (blocks bl : list Z) (n : Z) :
  take (length bl) blocks = bl → NoDup bl → (∀ m, m ∈ bl → 0 ≤ m < 2 ^ 32) →
  (n ∈ bl → bl !! absorb blocks (length bl) n = Some n) ∧
  (n ∉ bl → absorb blocks (length bl) n = length bl).
Proof.
  revert blocks. induction bl as [|x bl IH]; intros blocks Ht Hnd Hr.
  { split; [set_solver|]. by destruct blocks. }
  destruct blocks as [|y blocks]; [done|]. cbn [length take absorb] in *. injection Ht as -> Ht.
  apply NoDup_cons in Hnd as [Hx Hnd].
  destruct (IH blocks Ht Hnd ltac:(set_solver)) as [H1 H2].
  assert (Hu : u32 x = x) by (apply wrap_small, Hr; set_solver). rewrite Hu.
  destruct (Z.eqb_spec x n) as [->|Hne].
  - split; [done|]. set_solver.
  - split; intros Hn.
    + cbn. apply H1. set_solver.
    + f_equal. apply H2. set_solver.
Qed.

(** Writing the slot that [absorb] chose. *)
Lemma lg_is_write bl lg n :
  lg_is start bl lg → NoDup bl → (∀ m, m ∈ bl → 0 ≤ m < 2 ^ 31) → 0 ≤ n < 2 ^ 31 →
  Z.of_nat (length bl) < LOGSIZE →
  let i := absorb (lh_block lg) (length bl) n in
  let lg1 := lg <| lh_block ::= <[i := s32 n]> |> in
  if decide (n ∈ bl) then i ≠ length bl ∧ lg_is start bl lg1
  else i = length bl ∧ lg_is start (bl ++ [n]) (lg1 <| lh_n ::= Z.add 1 |>).
Proof.
  intros Hlg Hnd Hr Hn Hlen i lg1. pose proof Hlg as [H1 H2 H3 H4 H5].
  assert (Hs : s32 n = n) by (apply (sgn_small 32); lia).
  destruct (absorb_spec (lh_block lg) bl n H4 Hnd) as [Ha Hb].
  { intros m Hm. pose proof (Hr m Hm). lia. }
  unfold lg1. rewrite Hs. case_decide as Hin.
  - specialize (Ha Hin). pose proof (lookup_lt_Some _ _ _ Ha) as Hlt. split; [unfold i; lia|].
    assert (Hsame : <[i := n]> (lh_block lg) = lh_block lg).
    { apply list_insert_id. by apply (lg_lookup start bl lg). }
    split; try done; cbn; [by rewrite Hsame|by rewrite Hsame].
  - specialize (Hb Hin). fold i in Hb. rewrite Hb. split; [done|].
    split; try done; cbn.
    + rewrite H3, length_app. simpl. lia.
    + rewrite length_app. simpl. rewrite Nat.add_1_r.
      rewrite (take_S_r _ _ n) by (rewrite list_lookup_insert_eq; [done|]; unfold LOGSIZE, MAXOPBLOCKS in *; lia).
      by rewrite take_insert_ge by lia; rewrite H4.
    + by rewrite length_insert.
Qed.

Lemma bpin_wp b k (Q : unit → kst → Prop) :
  ready k → unlocked LBcache k → Q tt (settle k <| k_bufs ::= alter inc_ref b |>) → wp (bpin b) Q k.
Proof.
  intros Hr Hu HQ. unfold bpin. apply wp_bind, wp_acquire; [done..|]. apply wp_bind, wp_upd_buf.
  apply wp_release; [klock|]. by rewrite leave_set, leave_enter.
Qed.

(** What [log_write] checks and what it may assume of the transaction. *)
Record can_log (bl : list Z) (n : Z) (a : cache) : Prop := {
  cl_log : lg_is start bl (a_log a);
  cl_nodup : NoDup bl;
  cl_range m : m ∈ n :: bl → 0 ≤ m < 2 ^ 31;
  cl_pins m : m ∈ bl ↔ m ∈ a_pins a;
  cl_open : 1 ≤ l_outstanding (a_log a);
  cl_room : Z.of_nat (length bl) < LOGSIZE ∧ Z.of_nat (length bl) < l_size (a_log a) - 1
}.

Lemma log_write_wp b n bl s a :
  krepr dev p pid s a → a_held a !! b = Some n → can_log bl n a →
  wp (⇑ (log_write b)) (fun _ s' => ∃ lg, lg_is start (logged bl n) lg ∧
    l_outstanding lg = l_outstanding (a_log a) ∧ l_size lg = l_size (a_log a) ∧ l_committing lg = l_committing (a_log a) ∧
    krepr dev p pid s' (a <| a_log := lg |> <| a_pins ::= union {[n]} |>)) s.
Proof.
  destruct s as [k e]. intros [Hca [order Hrg] Hok Hdk Hlg] Hh [Hl Hnd Hrng Hpins Hout [Hr1 Hr2]]. cbn [fst] in *.
  destruct (held_lookup dev pid a _ b n Hok Hh) as (r & Hb & Hr & (H1 & H2 & H3 & H4) & Hv & Hdat & Hrc).
  pose proof (ca_ready _ _ _ Hca) as Hre. pose proof (ca_log _ _ _ Hca) as Hu. pose proof (ca_cache _ _ _ Hca) as Hu2.
  unfold log_write. apply wp_lift, wp_bind, wp_acquire; [done..|].
  apply wp_bind. unfold get_log, gets, wp at 1. change (k_log (enter LLog k)) with (k_log k). rewrite Hlg.
  rewrite (lg_n _ _ _ Hl). rewrite (proj2 (Z.leb_gt LOGSIZE _)), (proj2 (Z.leb_gt (l_size _ - 1) _)) by done. cbn [orb].
  rewrite (proj2 (Z.ltb_ge _ _)) by done. apply wp_bind, (wp_get_buf b r); [done|]. rewrite H2, Nat2Z.id.
  pose proof (lg_is_write bl (a_log a) n Hl Hnd ltac:(intros m Hm; apply Hrng; by right) ltac:(apply Hrng; by left) Hr1) as Hw.
  cbv zeta in Hw. set (i := absorb (lh_block (a_log a)) (length bl) n) in *.
  apply wp_bind. unfold upd_log at 1, modify, wp at 1. unfold logged.
  destruct (decide (n ∈ bl)) as [Hin|Hin]; destruct Hw as [Hi Hlg1].
  - rewrite decide_False by lia. apply wp_bind, wp_ret, wp_release; [klock|].
    rewrite leave_set, leave_enter by done. eexists. split; [exact Hlg1|]. split_and!; [done..|].
    assert (Ep : {[n]} ∪ a_pins a = a_pins a) by (apply Hpins in Hin; set_solver).
    split; cbn [fst].
    + by apply caller_log, caller_settle.
    + by exists order.
    + replace (a <| a_log := _ |> <| a_pins ::= union {[n]} |>)
        with (a <| a_log := (a_log a) <| lh_block ::= <[i := s32 n]> |> |>)
        by (destruct a; cbv [set_field cache_settable]; cbn in *; by rewrite Ep).
      destruct Hok. by split.
    + done.
    + cbn. by rewrite Hlg.
  - rewrite decide_True by lia. apply wp_bind, wp_bind, bpin_wp; [klock| |].
    { rewrite unlocked_set. by apply unlocked_enter. }
    rewrite (settle_held LLog) by klock. unfold upd_log, modify, wp at 1. apply wp_release; [klock|].
    rewrite !leave_set, leave_enter by done. eexists. split; [exact Hlg1|]. split_and!; [done..|].
    assert (Hnp : n ∉ a_pins a) by (by rewrite <- Hpins).
    split; cbn [fst].
    + by apply caller_log, caller_bufs, caller_log, caller_settle.
    + exists order. by apply ring_alter.
    + set (a' := a <| a_log := _ |> <| a_pins ::= _ |>).
      change (bufs_ok dev pid a' (core <$> alter inc_ref b (k_bufs k))).
      rewrite (core_update _ _ _ r Hr). apply (bufs_held_upd dev pid a _ _ b n (core r)); try done.
      * by apply core_lookup.
      * change (b_refcnt (core (inc_ref r))) with (u32 (b_refcnt r + 1)). rewrite Hrc, decide_False by done.
        unfold held_count, pin_count, a'. cbn. rewrite Hh, H1, H2. rewrite decide_True by set_solver. done.
      * unfold a'. cbn. by rewrite Hh.
      * intros m Hm. unfold a'. cbn. split; [set_solver|done].
      * intros Hno. exfalso. apply Hno. by eapply (held_in_refs a').
      * apply Hok.
    + done.
    + cbn. by rewrite Hlg.
Qed.

(** ** The entry points on the kernel *)

(** [m'] does on a machine whose power does not fail what [m] does. *)
Definition runs {S A} (m : M S A) (m' : M (S * option nat) A) : Prop := ∀ s, m' (s, None) = with_budget m (s, None).

Lemma runs_budget {S A} (m : M S A) : runs m (with_budget m).
Proof. done. Qed.
Lemma runs_ret {S A} (a : A) : runs (S := S) (ret a) (ret a).
Proof. done. Qed.
Lemma runs_bind {S A C} (m : M S A) m' (f : A → M S C) f' :
  runs m m' → (∀ a, runs (f a) (f' a)) → runs (bind m f) (bind m' f').
Proof.
  intros Hm Hf s. unfold bind, with_budget. rewrite Hm. unfold with_budget.
  destruct (m s); try done. apply Hf.
Qed.
Lemma runs_for {S} lo n (body : Z → M S unit) body' :
  (∀ i, runs (body i) (body' i)) → runs (for_ lo n body) (for_ lo n body').
Proof.
  intros H. revert lo. induction n as [|n IH]; intros lo; simpl; [apply runs_ret|].
  by apply runs_bind.
Qed.
Lemma runs_option {S A} (o : option A) : runs (S := S) (of_option o) (of_option o).
Proof. by destruct o. Qed.

Lemma commit_runs {S} (B : Blocks S) : runs (commit (B := B)) (commit (B := crashy)).
Proof.
  unfold commit, write_log, write_head, install_trans.
  repeat first [apply runs_budget|apply runs_ret|apply runs_option|apply runs_bind; [|intros ?]|apply runs_for; intros ?
    |case_match|done].
Qed.

Lemma krepr_log_upd f k e a : krepr dev p pid (k, e) a → krepr dev p pid (k <| k_log ::= f |>, e) (a <| a_log ::= f |>).
Proof.
  intros [Hca Hrg [] Hdk Hlg]. cbn [fst] in *. split; cbn [fst]; [by apply caller_log|done|by split|done|].
  cbn. by rewrite Hlg.
Qed.
Lemma krepr_settle k e a : krepr dev p pid (k, e) a → krepr dev p pid (settle k, e) a.
Proof. intros [Hca Hrg Hok Hdk Hlg]. split; try done. by apply caller_settle. Qed.
Lemma krepr_woken ch k e a :
  krepr dev p pid (k, e) a →
  krepr dev p pid (k <| k_procs := imap (woken (Some ch) (Some p) NPROC) (k_procs k) |>, e) a.
Proof. intros [Hca Hrg Hok Hdk Hlg]. split; try done. by apply caller_woken. Qed.

Lemma begin_op_wp s a :
  krepr dev p pid s a → l_committing (a_log a) = 0 →
  lh_n (a_log a) + (l_outstanding (a_log a) + 1) * MAXOPBLOCKS ≤ LOGSIZE →
  wp begin_op (fun _ s' => krepr dev p pid s' (a <| a_log ::= set_field l_outstanding (Z.add 1) |>)) s.
Proof.
  destruct s as [k e]. intros Hk Hc Hr. pose proof Hk as [Hca _ _ _ Hlg]. cbn [fst] in *.
  pose proof (ca_ready _ _ _ Hca) as Hre. pose proof (ca_log _ _ _ Hca) as Hu. unfold begin_op. apply wp_bind, wp_lift, wp_acquire; [apply Hca..|]. unfold sleep_loop. cbn [loop].
  apply wp_bind, wp_bind, wp_lift. unfold get_log, gets, wp at 1. change (k_log (enter LLog k)) with (k_log k).
  rewrite Hlg, Hc. cbn [negb Z.eqb]. rewrite (proj2 (Z.ltb_ge _ _)) by done.
  apply wp_bind, wp_lift. unfold upd_log, modify, wp at 1. apply wp_bind, wp_lift, wp_release; [klock|].
  rewrite leave_set, leave_enter by done. apply wp_ret. cbn beta. apply wp_ret.
  by apply krepr_log_upd, krepr_settle.
Qed.

Lemma wp_relift {A} (m1 m2 : K unit) (m3 : K A) (Q : A → kst * list (kst → kst) → Prop) k e :
  wp (m1 ;;; m2 ;;; m3) (fun a k' => Q a (k', e)) k → wp (⇑ m1 ;;; ⇑ m2 ;;; ⇑ m3) Q (k, e).
Proof.
  unfold wp, bind, lift. destruct (m1 k) as [? k1| | | |]; try done. destruct (m2 k1) as [? k2| | | |]; try done.
  by destruct (m3 k2).
Qed.

(** Under the log's lock: [f] on the log, then [wakeup(&log)]. *)
Lemma log_wakeup_wp k (Q : unit → kst → Prop) f :
  caller p pid k →
  Q tt (settle k <| k_log ::= f |> <| k_procs := imap (woken (Some ChLog) (Some p) NPROC) (k_procs k) |>) →
  wp (upd_log f ;;; wakeup ChLog ;;; release LLog) Q (enter LLog k).
Proof.
  intros Hca HQ. pose proof (ca_ready _ _ _ Hca) as Hre. pose proof (ca_log _ _ _ Hca) as Hu.
  apply wp_bind. unfold upd_log, modify, wp at 1. apply wp_bind, (wp_wakeup LLog); [klock|klock|by apply Hca| |].
  { intros j Hj _. rewrite unlocked_set. apply unlocked_enter; [done|by apply Hca]. }
  apply wp_release; [klock|]. rewrite !leave_set, leave_enter by done.
  change (current (enter LLog k <| k_log ::= f |>)) with (current (enter LLog k)).
  rewrite current_enter, (ca_cur _ _ _ Hca). exact HQ.
Qed.

Lemma commit_wp bl s a :
  krepr dev p pid s a → open_txn start bl a →
  wp (commit (B := KB)) (fun _ s' => ∃ a', krepr dev p pid s' a' ∧ open_txn start [] a' ∧
    same_files start (a_disk a') (a_view a) ∧ same_files start (a_view a') (a_view a)) s.
Proof.
  intros Hk Hot. pose proof (commit_cwp start bl _ _ Hk Hot None) as H. unfold crash_post in H.
  rewrite commit_runs in H. unfold with_budget in H. unfold wp.
  destruct (commit (B := KB) s) as [[] s2| | | |]; [|by destruct H..]. by destruct H as [_ H].
Qed.

Lemma end_op_wp bl s a :
  krepr dev p pid s a → open_txn start bl a → l_committing (a_log a) = 0 → l_outstanding (a_log a) = 1 →
  wp (end_op (D := ideal_disk)) (fun _ s' => ∃ a', krepr dev p pid s' a' ∧ open_txn start [] a' ∧
    same_files start (a_disk a') (a_view a) ∧ same_files start (a_view a') (a_view a)) s.
Proof.
  destruct s as [k e]. intros Hk Hot Hc Ho. pose proof Hk as [Hca _ _ _ Hlg]. cbn [fst] in *.
  pose proof (ca_ready _ _ _ Hca) as Hre. pose proof (ca_log _ _ _ Hca) as Hu.
  unfold end_op, end_op_enter. apply wp_bind, wp_lift, wp_bind, wp_acquire; [done..|].
  apply wp_bind. unfold upd_log at 1, modify, wp at 1. apply wp_bind. unfold get_log at 1, gets, wp at 1.
  change (k_log (enter LLog k <| k_log ::= ?f |>)) with (f (k_log k)). rewrite Hlg.
  change (l_committing (a_log a <| l_outstanding ::= Z.pred |>)) with (l_committing (a_log a)). rewrite Hc.
  change (l_outstanding (a_log a <| l_outstanding ::= Z.pred |>)) with (Z.pred (l_outstanding (a_log a))). rewrite Ho.
  cbn [negb Z.eqb Z.pred Z.add Z.pos_sub]. apply wp_bind, wp_bind. unfold upd_log at 1, modify, wp at 1. apply wp_ret.
  apply wp_bind, wp_release; [klock|]. rewrite !leave_set, leave_enter by done. apply wp_ret.
  apply krepr_settle, (krepr_log_upd (set_field l_outstanding Z.pred)), (krepr_log_upd (set_field l_committing (fun _ => 1))) in Hk.
  set (a1 := a <| a_log ::= _ |> <| a_log ::= _ |>) in Hk.
  assert (Hot1 : open_txn start bl a1) by (destruct Hot as [? [] ? ? ? ?]; by split).
  unfold end_op_commit. apply wp_bind.
  eapply wp_mono; [exact (commit_wp bl _ a1 Hk Hot1)|]. intros [] [k2 e2] (a2 & Hk2 & Hot2 & Hd2 & Hv2).
  pose proof (kr_caller _ _ _ _ _ Hk2) as Hca2. cbn [fst] in Hca2.
  apply wp_bind, wp_lift, wp_acquire; [apply Hca2..|].
  apply wp_relift, (log_wakeup_wp k2); [done|]. eexists. split.
  { exact (krepr_woken ChLog _ _ _ (krepr_log_upd (set_field l_committing (fun _ => 0)) _ _ _ (krepr_settle _ _ _ Hk2))). }
  split; [|done]. destruct Hot2 as [? [] ? ? ? ?]. by split.
Qed.

(** The file system's way to change a block: read it, change the buffer, log it, let go. *)
Definition update_block (n : Z) (d : list Z) : KM unit :=
  let! b := bread (D := ideal_disk) dev n in
  ⇑ (upd_buf b (fun r => r <| b_data := d |>)) ;;;
  ⇑ (log_write b) ;;;
  ⇑ (brelse b).

Lemma logged_length bl n : (length bl ≤ length (logged bl n) ≤ S (length bl))%nat.
Proof. unfold logged. case_decide; rewrite ?length_app; simpl; lia. Qed.

Lemma elem_of_logged bl n m : m ∈ logged bl n ↔ m = n ∨ m ∈ bl.
Proof. unfold logged. case_decide; set_solver. Qed.

(** What one more block costs a transaction: room in the header and in the cache. *)
Definition room (bl : list Z) (n : Z) (a : cache) : Prop :=
  0 ≤ n < 2 ^ 31 ∧ ¬ in_log start n ∧ (length (logged bl n) < NBUF)%nat ∧
  1 ≤ l_outstanding (a_log a) ∧ Z.of_nat (length bl) < l_size (a_log a) - 1.

(** A transaction that has also changed block [n] to [d]. *)
Record updated (n : Z) (d bl : list Z) (a a' : cache) : Prop := {
  up_open : open_txn start (logged bl n) a';
  up_disk : a_disk a' = a_disk a;
  up_view : a_view a' = <[n := d]> (a_view a);
  up_out : l_outstanding (a_log a') = l_outstanding (a_log a);
  up_size : l_size (a_log a') = l_size (a_log a);
  up_com : l_committing (a_log a') = l_committing (a_log a)
}.

(** [a], in which no buffer is held, with the buffers [H] held. *)
Definition hold (H : gmap nat Z) (a : cache) : cache := a <| a_held := H |>.

Lemma hold_none bl a : open_txn start bl a → hold ∅ a = a.
Proof. intros [_ _ Hh _ _ _]. unfold hold. destruct a. cbv [set_field cache_settable]. cbn in *. by subst. Qed.
Lemma hold_one bl a b n : open_txn start bl a → a <| a_held ::= <[b := n]> |> = hold (<[b := n]> ∅) a.
Proof. intros [_ _ Hh _ _ _]. unfold hold. destruct a. cbv [set_field cache_settable]. cbn in *. by subst. Qed.

Lemma size_map_img_le (m : gmap nat Z) : (size (map_img (SA := gset Z) m) ≤ size m)%nat.
Proof.
  induction m as [|i x m Hi IH] using map_ind; [by rewrite map_img_empty_L, size_empty, map_size_empty|].
  rewrite map_img_insert_notin_L by done. rewrite map_size_insert_None by done.
  rewrite size_union_alt, size_singleton. pose proof (subseteq_size (map_img (SA := gset Z) m ∖ {[x]}) (map_img m) ltac:(set_solver)). lia.
Qed.

Lemma refs_hold bl H a : open_txn start bl a → (size (a_refs (hold H a)) ≤ length bl + size H)%nat.
Proof.
  intros [Htx _ _ Hp _ _]. unfold a_refs. change (a_pins (hold H a)) with (a_pins a). change (a_held (hold H a)) with H.
  pose proof (size_union_alt (a_pins a) (map_img (SA := gset Z) H)) as E. rewrite E. rewrite Hp, size_list_to_set by apply Htx.
  pose proof (subseteq_size (map_img (SA := gset Z) H ∖ list_to_set bl) (map_img H) ltac:(set_solver)).
  pose proof (size_map_img_le H). lia.
Qed.

Lemma bread_hold_wp n bl H s a :
  krepr dev p pid s (hold H a) → open_txn start bl a → (length bl + size H < NBUF)%nat → (∀ b, H !! b ≠ Some n) →
  wp (bread (D := ideal_disk) dev n) (fun b s' => H !! b = None ∧ krepr dev p pid s' (hold (<[b := n]> H) a)) s.
Proof.
  intros Hk Hot Hlen Hn. apply (bread_krepr dev p pid n s (hold H a) Hk Hn). right. pose proof (refs_hold bl H a Hot). lia.
Qed.

(** The held buffer [b] gets [d] and is logged. *)
Lemma log_hold_wp b n d bl H s a :
  krepr dev p pid s (hold H a) → H !! b = Some n → open_txn start bl a → room bl n a → length d = Z.to_nat BSIZE →
  wp (⇑ (upd_buf b (fun r => r <| b_data := d |>)) ;;; ⇑ (log_write b))
    (fun _ s' => ∃ a', krepr dev p pid s' (hold H a') ∧ updated n d bl a a') s.
Proof.
  intros Hk1 Hb [Htx Hlg Hh Hp Hcl Hhdr] (Hn & Hin & Hlen & Ho & Hsz) Hd. pose proof (logged_length bl n) as Hle.
  assert (Hpin : ∀ m, m ∈ bl ↔ m ∈ a_pins a) by (intros m; rewrite Hp; set_solver).
  apply wp_bind. eapply wp_mono; [by apply (set_data_krepr dev p pid b n d s _ Hk1)|].
  intros [] s2 Hk2. set (a2 := hold H a <| a_view ::= _ |>) in Hk2.
  eapply wp_mono; [apply (log_write_wp b n bl s2 a2 Hk2 Hb)|].
  { split; try done; [apply Htx| |].
    - intros m [->|Hm]%elem_of_cons; [done|]. by apply Htx.
    - split; [|done]. unfold NBUF, LOGSIZE, MAXOPBLOCKS in *. lia. }
  intros [] s3 (lg & Hlg3 & Ho3 & Hs3 & Hc3 & Hk3).
  exists (a <| a_view ::= <[n := d]> |> <| a_log := lg |> <| a_pins ::= union {[n]} |>). split; [exact Hk3|]. split; [|done..].
  split; cbn.
  - destruct Htx as [H1 H2 H3 H4]. split; [done|done| |].
    + unfold logged. case_decide; [done|]. apply NoDup_app. split_and!; [done| |apply NoDup_singleton]. set_solver.
    + intros m [->|Hm]%elem_of_logged; [done|by apply H4].
  - done.
  - done.
  - rewrite Hp. apply set_eq. intros m. rewrite elem_of_union, elem_of_singleton, !elem_of_list_to_set. by rewrite elem_of_logged.
  - intros m Hm. rewrite elem_of_logged in Hm. rewrite <- Hcl by tauto. unfold blk. rewrite lookup_insert_ne; [done|]. intros ->. tauto.
  - done.
Qed.

(** A held buffer is released. *)
Lemma brelse_hold_wp b n bl H s a :
  krepr dev p pid s (hold (<[b := n]> H) a) → H !! b = None → open_txn start bl a →
  wp (⇑ (brelse b)) (fun _ s' => krepr dev p pid s' (hold H a)) s.
Proof.
  intros Hk Hb [_ _ _ Hp Hcl _]. eapply wp_mono; [apply (brelse_krepr dev p pid b n s _ Hk)|].
  - cbn. by rewrite lookup_insert_eq.
  - cbn. destruct (decide (n ∈ bl)) as [Hn|Hn]; [left; rewrite Hp; set_solver|right; by apply Hcl].
  - intros [] s' Hk'. change (hold (<[b := n]> H) a <| a_held ::= delete b |>) with (hold (delete b (<[b := n]> H)) a) in Hk'.
    by rewrite delete_insert_id in Hk'.
Qed.

(** The end of every update: the held buffer [b] gets [d], is logged and released. *)
Lemma log_block_hold_wp b n d bl H s a :
  krepr dev p pid s (hold (<[b := n]> H) a) → H !! b = None → open_txn start bl a → room bl n a → length d = Z.to_nat BSIZE →
  wp (⇑ (upd_buf b (fun r => r <| b_data := d |>)) ;;; ⇑ (log_write b) ;;; ⇑ (brelse b))
    (fun _ s' => ∃ a', krepr dev p pid s' (hold H a') ∧ updated n d bl a a') s.
Proof.
  intros Hk Hb Hot Hro Hd. pose proof (log_hold_wp b n d bl _ s a Hk (lookup_insert_eq _ _ _) Hot Hro Hd) as Hw.
  unfold wp, bind in Hw |- *. destruct (⇑ (upd_buf b _) s) as [u1 s1| | | |]; try done. destruct (⇑ (log_write b) s1) as [u2 s2| | | |]; try done.
  destruct Hw as (a' & Hk' & Hu). eapply wp_mono; [by apply (brelse_hold_wp b n _ H s2 a' Hk' Hb (up_open _ _ _ _ _ Hu))|].
  intros [] s3 Hk3. by exists a'.
Qed.

Lemma bread_open_wp n bl s a :
  krepr dev p pid s a → open_txn start bl a → (length bl < NBUF)%nat →
  wp (bread (D := ideal_disk) dev n) (fun b s' => krepr dev p pid s' (a <| a_held ::= <[b := n]> |>)) s.
Proof.
  intros Hk Hot Hlen. rewrite <-(hold_none bl a Hot) in Hk. eapply wp_mono; [apply (bread_hold_wp n bl ∅ s a Hk Hot); [rewrite map_size_empty; lia|done]|].
  intros b s' [_ Hk']. by rewrite (hold_one bl).
Qed.

Lemma log_block_wp b n d bl s a :
  krepr dev p pid s (a <| a_held ::= <[b := n]> |>) → open_txn start bl a → room bl n a → length d = Z.to_nat BSIZE →
  wp (⇑ (upd_buf b (fun r => r <| b_data := d |>)) ;;; ⇑ (log_write b) ;;; ⇑ (brelse b))
    (fun _ s' => ∃ a', krepr dev p pid s' a' ∧ updated n d bl a a') s.
Proof.
  intros Hk Hot Hro Hd. rewrite (hold_one bl) in Hk by done. eapply wp_mono; [by apply (log_block_hold_wp b n d bl ∅ s a Hk)|].
  intros [] s' (a' & Hk' & Hu). exists a'. split; [|done]. by rewrite (hold_none _ a' (up_open _ _ _ _ _ Hu)) in Hk'.
Qed.

Lemma update_block_wp n d bl s a :
  krepr dev p pid s a → open_txn start bl a → room bl n a → length d = Z.to_nat BSIZE →
  wp (update_block n d) (fun _ s' => ∃ a', krepr dev p pid s' a' ∧ updated n d bl a a') s.
Proof.
  intros Hk Hot Hro Hd. unfold update_block. apply wp_bind.
  eapply wp_mono; [apply (bread_open_wp n bl s a Hk Hot)|].
  { pose proof (logged_length bl n). destruct Hro as (_ & _ & Hlen & _). lia. }
  intros b s1 Hk1. by apply log_block_wp.
Qed.

Fixpoint update_blocks (ups : list (Z * list Z)) : KM unit :=
  match ups with [] => ret tt | (n, d) :: ups => update_block n d ;;; update_blocks ups end.

(** A file-system operation that changes the blocks [ups]. *)
Definition transaction (ups : list (Z * list Z)) : KM unit :=
  begin_op ;;; update_blocks ups ;;; end_op (D := ideal_disk).

Definition apply_ups (ups : list (Z * list Z)) (v : blocks) : blocks := foldl (fun v u => <[u.1 := u.2]> v) v ups.
Definition ups_ok (ups : list (Z * list Z)) : Prop :=
  Forall (fun u => 0 ≤ u.1 < 2 ^ 31 ∧ ¬ in_log start u.1 ∧ length u.2 = Z.to_nat BSIZE) ups.

Lemma update_blocks_wp ups : ∀ bl s a,
  krepr dev p pid s a → open_txn start bl a → ups_ok ups → (length bl + length ups ≤ Z.to_nat MAXOPBLOCKS)%nat →
  1 ≤ l_outstanding (a_log a) → MAXOPBLOCKS < l_size (a_log a) →
  wp (update_blocks ups) (fun _ s' => ∃ bl' a', krepr dev p pid s' a' ∧ open_txn start bl' a' ∧
    a_disk a' = a_disk a ∧ a_view a' = apply_ups ups (a_view a) ∧
    l_outstanding (a_log a') = l_outstanding (a_log a) ∧ l_committing (a_log a') = l_committing (a_log a)) s.
Proof.
  induction ups as [|[n d] ups IH]; intros bl s a Hk Hot Hok Hlen Ho Hsz; simpl.
  { apply wp_ret. by exists bl, a. }
  apply Forall_cons in Hok as [(Hn & Hin & Hd) Hok]. simpl in *.
  pose proof (logged_length bl n) as Hl. unfold MAXOPBLOCKS in *.
  apply wp_bind. eapply wp_mono; [apply (update_block_wp n d bl s a Hk Hot); [|done]|].
  { split_and!; try done; unfold NBUF; lia. }
  intros [] s1 (a1 & Hk1 & [Hot1 Hd1 Hv1 Ho1 Hs1 Hc1]).
  eapply wp_mono; [apply (IH _ s1 a1 Hk1 Hot1 Hok); rewrite ?Ho1, ?Hs1; try done; lia|].
  intros [] s2 (bl2 & a2 & Hk2 & Hot2 & Hd2 & Hv2 & Ho2 & Hc2). exists bl2, a2.
  rewrite <- Hd1, <- Ho1, <- Hc1. split_and!; try done. by rewrite Hv2, Hv1.
Qed.

Lemma transaction_wp ups s a :
  krepr dev p pid s a → open_txn start [] a → l_outstanding (a_log a) = 0 → l_committing (a_log a) = 0 →
  MAXOPBLOCKS < l_size (a_log a) → ups_ok ups → (length ups ≤ Z.to_nat MAXOPBLOCKS)%nat →
  wp (transaction ups) (fun _ s' => ∃ a', krepr dev p pid s' a' ∧ open_txn start [] a' ∧
    same_files start (a_disk a') (apply_ups ups (a_view a)) ∧ same_files start (a_view a') (apply_ups ups (a_view a))) s.
Proof.
  intros Hk Hot Ho Hc Hsz Hok Hlen. unfold transaction. apply wp_bind.
  eapply wp_mono; [apply (begin_op_wp s a Hk Hc)|].
  { rewrite (lg_n _ _ _ (ot_log _ _ _ Hot)), Ho. done. }
  intros [] s1 Hk1. set (a1 := a <| a_log ::= _ |>) in Hk1.
  assert (Hot1 : open_txn start [] a1) by (destruct Hot as [? [] ? ? ? ?]; by split).
  assert (Ho1 : l_outstanding (a_log a1) = 1) by (cbn; by rewrite Ho).
  apply wp_bind. eapply wp_mono; [apply (update_blocks_wp ups [] s1 a1 Hk1 Hot1 Hok); [done|lia|done]|].
  intros [] s2 (bl & a2 & Hk2 & Hot2 & _ & Hv2 & Ho2 & Hc2).
  eapply wp_mono; [apply (end_op_wp bl s2 a2 Hk2 Hot2); [by rewrite Hc2|by rewrite Ho2]|].
  rewrite Hv2. done.
Qed.
End kernel_log.

(** ** Reservations

    Several processes between [begin_op] and [end_op]; each step is one call of the
    code (or the end of a commit), in any order.  [ops] counts the [log_write] calls of
    every open operation. *)

Module Reserve.

#[local] Abbreviation ops := (gmap nat Z).

Inductive step : kst * ops → kst * ops → Prop :=
  | st_begin k k' o i :
      o !! i = None → begin_op (k, []) = Ok tt (k', []) → step (k, o) (k', <[i := 0]> o)
  | st_write k k' o i u b :
      o !! i = Some u → u < MAXOPBLOCKS → log_write b k = Ok tt k' → step (k, o) (k', <[i := u + 1]> o)
  | st_end k k' o i u c :
      o !! i = Some u → end_op_enter k = Ok c k' → step (k, o) (k', delete i o)
  | st_commit k k' o :
      l_committing (k_log k) ≠ 0 → end_op_commit (D := ideal_disk) (k, []) = Ok tt (k', []) → step (k, o) (k', o)
  | st_other k k' o : k_log k' = k_log k → step (k, o) (k', o).

Definition initial (s : kst * ops) : Prop :=
  lh_n (k_log (fst s)) = 0 ∧ l_outstanding (k_log (fst s)) = 0 ∧ l_committing (k_log (fst s)) = 0 ∧ snd s = ∅.

Definition reachable (s : kst * ops) : Prop := ∃ s0, initial s0 ∧ rtc step s0 s.

(** Log blocks still reserved by the open operations. *)
Definition reserved (o : ops) : Z := map_fold (fun _ u x => MAXOPBLOCKS - u + x) 0 o.

Record inv (s : kst * ops) : Prop := {
  inv_n : 0 ≤ lh_n (k_log (fst s));
  inv_room : lh_n (k_log (fst s)) + reserved (snd s) ≤ LOGSIZE;
  inv_out : l_outstanding (k_log (fst s)) = Z.of_nat (size (snd s));
  inv_used i u : snd s !! i = Some u → 0 ≤ u ≤ MAXOPBLOCKS;
  inv_commit : l_committing (k_log (fst s)) ≠ 0 → snd s = ∅
}.

Lemma reserved_insert o i u : o !! i = None → reserved (<[i := u]> o) = MAXOPBLOCKS - u + reserved o.
Proof.
  intros H. unfold reserved.
  apply (map_fold_insert_L (M := gmap nat) (fun (_ : nat) u x => MAXOPBLOCKS - u + x) 0 i u o); [|done].
  intros. lia.
Qed.

Lemma reserved_delete o i u : o !! i = Some u → reserved o = MAXOPBLOCKS - u + reserved (delete i o).
Proof. intros H. rewrite <- (reserved_insert _ i) by apply lookup_delete_eq. by rewrite insert_delete_id. Qed.

Lemma reserved_bounds o :
  (∀ i u, o !! i = Some u → 0 ≤ u ≤ MAXOPBLOCKS) → 0 ≤ reserved o ≤ Z.of_nat (size o) * MAXOPBLOCKS.
Proof.
  induction o as [|i u o Hi IH] using map_ind; intros H; [done|].
  rewrite reserved_insert, map_size_insert_None by done.
  pose proof (H i u ltac:(by rewrite lookup_insert_eq)). assert (0 ≤ reserved o ≤ Z.of_nat (size o) * MAXOPBLOCKS).
  { apply IH. intros j v Hj. apply (H j). rewrite lookup_insert_ne; [done|]. congruence. }
  unfold MAXOPBLOCKS in *. lia.
Qed.

(** *** What each call does to the log when it returns *)

Lemma wlp_lift {A} (m : K A) Q k e : wlp m (fun a k' => Q a (k', e)) k → wlp (⇑ m) Q (k, e).
Proof. unfold wlp, lift. intros H a s'. destruct (m k); naive_solver. Qed.

Lemma wlp_any_lift {A B} (m : K A) (f : A → KM B) Q k e :
  (∀ a k', wlp (f a) Q (k', e)) → wlp (bind (⇑ m) f) Q (k, e).
Proof. intros H. apply wlp_bind, wlp_lift. intros a k' _. apply H. Qed.

(** A call that leaves the log alone, before [f]. *)
Lemma wlp_same {A B} (m : K A) (f : A → K B) Q k :
  keeps (on k_log eq) m → (∀ a k', k_log k' = k_log k → wlp (f a) Q k') → wlp (bind m f) Q k.
Proof. intros Hm H. apply wlp_bind. intros a k' E. apply H. symmetry. by eapply Hm. Qed.

Lemma wlp_same_last {A} (m : K A) (Q : A → kst → Prop) k :
  keeps (on k_log eq) m → (∀ a k', k_log k' = k_log k → Q a k') → wlp m Q k.
Proof. intros Hm H a k' E. apply H. symmetry. by eapply Hm. Qed.

Lemma sched_alone Q k : wlp sched Q (k, []).
Proof.
  unfold sched.
  repeat first [apply wlp_any_lift; intros ? ? | case_match; [done|] | case_decide; [done|]].
  apply wlp_bind. done.
Qed.

(** Nobody wakes a process that sleeps alone. *)
Lemma sleep_alone ch lk Q k : wlp (sleep ch lk) Q (k, []).
Proof. unfold sleep. repeat (apply wlp_any_lift; intros ? ?). apply wlp_bind, sched_alone. Qed.

Lemma wlp_unit {S} (m : M S unit) (P : S → Prop) s : wlp m (fun _ => P) s → ∀ s', m s = Ok tt s' → P s'.
Proof. intros H s' E. exact (H _ _ E). Qed.

Lemma begin_op_log k s' :
  begin_op (k, []) = Ok tt s' →
  l_committing (k_log k) = 0 ∧
  lh_n (k_log k) + (l_outstanding (k_log k) + 1) * MAXOPBLOCKS ≤ LOGSIZE ∧
  k_log s'.1 = k_log k <| l_outstanding ::= Z.add 1 |> ∧ s'.2 = [].
Proof.
  revert s'. apply wlp_unit. unfold begin_op. apply wlp_bind, wlp_lift, wlp_same_last; [auto with keeps|].
  intros [] k1 <-. unfold sleep_loop.
  apply (wlp_loop (fun _ s => s = (k1, []))); [|done]. intros [] s ->.
  apply wlp_bind, wlp_lift. intros lg k2 [= <- <-].
  destruct (Z.eqb_spec (l_committing (k_log k1)) 0) as [E1|_]; cbn [negb]; [|apply wlp_bind, sleep_alone].
  destruct (Z.ltb_spec LOGSIZE (lh_n (k_log k1) + (l_outstanding (k_log k1) + 1) * MAXOPBLOCKS)); [apply wlp_bind, sleep_alone|].
  apply wlp_bind, wlp_lift. intros [] k2 [= <-].
  apply wlp_bind, wlp_lift, wlp_same_last; [auto with keeps|].
  intros [] k3 E. apply wlp_ret. split_and!; [done|done| |done]. cbn. by rewrite E.
Qed.

Lemma log_write_log b k k' :
  log_write b k = Ok tt k' →
  (lh_n (k_log k') = lh_n (k_log k) ∨ lh_n (k_log k') = lh_n (k_log k) + 1) ∧
  l_outstanding (k_log k') = l_outstanding (k_log k) ∧ l_committing (k_log k') = l_committing (k_log k) ∧
  l_size (k_log k') = l_size (k_log k).
Proof.
  revert k'. apply wlp_unit. unfold log_write. apply wlp_same; [auto with keeps|]. intros [] k1 <-.
  apply wlp_bind. intros lg k2 [= <- <-]. case_match; [done|]. case_match; [done|].
  apply wlp_same; [auto with keeps|]. intros r k2 E2. apply wlp_bind. intros [] k3 [= <-].
  apply wlp_bind. case_decide.
  - apply wlp_same; [auto with keeps|]. intros [] k3 E3. intros [] k4 [= <-].
    apply wlp_same_last; [auto with keeps|]. intros [] k5 E5. rewrite E5. cbn. rewrite E3. cbn. rewrite E2. cbn. lia.
  - intros [] k3 [= <-]. apply wlp_same_last; [auto with keeps|]. intros [] k5 E5. rewrite E5. cbn. rewrite E2. auto.
Qed.

Lemma end_op_enter_log c k k' :
  end_op_enter k = Ok c k' →
  l_committing (k_log k) = 0 ∧
  k_log k' = k_log k <| l_outstanding ::= Z.pred |>
    <| l_committing := if l_outstanding (k_log k) - 1 =? 0 then 1 else 0 |>.
Proof.
  revert c k'. change (wlp end_op_enter (fun _ k' => l_committing (k_log k) = 0 ∧
    k_log k' = k_log k <| l_outstanding ::= Z.pred |>
      <| l_committing := if l_outstanding (k_log k) - 1 =? 0 then 1 else 0 |>) k).
  unfold end_op_enter. apply wlp_same; [auto with keeps|]. intros [] k1 <-.
  apply wlp_bind. intros [] k2 [= <-]. apply wlp_bind. intros lg k3 [= <- <-]. cbn.
  destruct (Z.eqb_spec (l_committing (k_log k1)) 0) as [E1|_]; cbn [negb]; [|done].
  change (Z.pred ?x) with (x - 1). apply wlp_bind. case_match.
  - apply wlp_bind. intros [] k3 [= <-]. apply wlp_ret. apply wlp_same; [auto with keeps|]. intros [] k4 E4.
    apply wlp_ret. split; [done|]. by rewrite E4.
  - apply wlp_same; [apply (keeps_wakeup k_log eq)|]. intros [] k3 E3. apply wlp_ret.
    apply wlp_same; [auto with keeps|]. intros [] k4 E4. apply wlp_ret. split; [done|]. rewrite E4, E3. cbn.
    by destruct (k_log k1); cbn in *; subst.
Qed.

Lemma wlp_same_env {A B} (m : KM A) (f : A → KM B) Q k :
  keeps (on_env k_log eq) m → (∀ a k', k_log k' = k_log k → wlp (f a) Q (k', [])) → wlp (bind m f) Q (k, []).
Proof. intros Hm H. apply wlp_bind. intros a [k' e'] E. destruct (Hm _ _ _ E eq_refl) as [? ?]. simpl in *. subst. by apply H. Qed.

Lemma commit_log k (f : unit → KM unit) Q :
  0 ≤ lh_n (k_log k) →
  (∀ k', k_log k' = k_log k <| lh_n := 0 |> → wlp (f tt) Q (k', [])) →
  wlp (bind (commit (B := kernel_blocks (D := ideal_disk))) f) Q (k, []).
Proof.
  intros Hn H. apply wlp_bind. unfold commit. apply wlp_bind, wlp_lift. intros lg k1 [= <- <-].
  destruct (Z.ltb_spec 0 (lh_n (k_log k))).
  - apply wlp_same_env; [auto with keeps|]. intros [] k1 E1. apply wlp_same_env; [auto with keeps|]. intros [] k2 E2.
    apply wlp_same_env; [auto with keeps|]. intros [] k3 E3. apply wlp_bind, wlp_lift. intros [] k4 [= <-].
    intros [] [k5 e] E. destruct (keeps_write_head k_log eq _ _ _ E eq_refl) as [He E5]. simpl in He. subst e.
    apply H. simpl in E5. rewrite <- E5. cbn. by rewrite E3, E2, E1.
  - apply wlp_ret. apply H. destruct (k_log k); cbn in *. by replace lh_n with 0 by lia.
Qed.

Lemma end_op_commit_log k s' :
  0 ≤ lh_n (k_log k) → end_op_commit (D := ideal_disk) (k, []) = Ok tt s' →
  k_log s'.1 = k_log k <| lh_n := 0 |> <| l_committing := 0 |>.
Proof.
  intros Hn. revert s'. apply wlp_unit. unfold end_op_commit. apply commit_log; [done|]. intros k1 E1.
  apply wlp_bind, wlp_lift, wlp_same_last; [auto with keeps|]. intros [] k2 E2.
  apply wlp_bind, wlp_lift. intros [] k3 [= <-].
  apply wlp_bind, wlp_lift, wlp_same_last; [auto with keeps|]. intros [] k4 E4.
  apply wlp_lift, wlp_same_last; [auto with keeps|]. intros [] k5 E5. cbn. rewrite E5, E4. cbn. by rewrite E2, E1.
Qed.

(** *** The invariant *)

Lemma reserve_step s s' : step s s' → inv s → inv s'.
Proof.
  intros Hst [Hn Hroom Hout Hused Hcom]. destruct Hst as [k k' o i Hi E|k k' o i u b Hi Hu E|k k' o i u c Hi E|k k' o Hc E|k k' o E];
    cbn [fst snd] in *.
  - apply begin_op_log in E as (Hc & Hr & E & _). cbn in E. pose proof (reserved_bounds o Hused) as Hb.
    split; cbn [fst snd]; rewrite ?E; cbn.
    + done.
    + rewrite reserved_insert by done. rewrite Hout in Hr. unfold MAXOPBLOCKS in *. lia.
    + rewrite map_size_insert_None by done. lia.
    + intros j v. rewrite lookup_insert_Some. intros [[<- <-]|[_ Hj]]; [unfold MAXOPBLOCKS; lia|by eapply Hused].
    + done.
  - apply log_write_log in E as (Hlh & E1 & E2 & _). pose proof (reserved_delete o i u Hi) as Hd.
    split; cbn [fst snd].
    + lia.
    + rewrite <- (insert_delete_eq o), reserved_insert by apply lookup_delete_eq. lia.
    + rewrite map_size_insert_Some; [by rewrite E1|by eexists].
    + intros j v. rewrite lookup_insert_Some. intros [[<- <-]|[_ Hj]]; [|by eapply Hused].
      specialize (Hused i u Hi). lia.
    + rewrite E2. intros Hc. rewrite (Hcom Hc) in Hi. done.
  - apply end_op_enter_log in E as [Hc E]. pose proof (reserved_delete o i u Hi) as Hd. pose proof (Hused i u Hi).
    assert (Hsz : size o = Datatypes.S (size (delete i o))).
    { rewrite <- (insert_delete_id o i u Hi) at 1. apply map_size_insert_None, lookup_delete_eq. }
    split; cbn [fst snd]; rewrite ?E; cbn.
    + done.
    + lia.
    + lia.
    + intros j v [_ Hj]%lookup_delete_Some. by eapply Hused.
    + destruct (Z.eqb_spec (l_outstanding (k_log k) - 1) 0); [|done]. intros _. apply map_size_empty_inv. lia.
  - apply end_op_commit_log in E; [|done]. cbn in E. rewrite (Hcom Hc) in *.
    split; cbn [fst snd]; rewrite ?E; cbn; try done. 
  - split; cbn [fst snd]; rewrite ?E; done.
Qed.

Lemma reserve_initial s : initial s → inv s.
Proof.
  intros (Hn & Ho & Hc & He). split; rewrite ?Hn, ?Ho, ?Hc, ?He; try done.
Qed.

Lemma reachable_inv s : reachable s → inv s.
Proof.
  intros (s0 & H0 & Hst). apply reserve_initial in H0. induction Hst as [|s1 s2 s3 H12 _ IH]; [done|].
  by apply IH, (reserve_step s1).
Qed.

(** An operation that has not used up its reservation finds room in the header. *)
Lemma reachable_room k o i u :
  reachable (k, o) → o !! i = Some u → u < MAXOPBLOCKS → lh_n (k_log k) < LOGSIZE ∧ 1 ≤ l_outstanding (k_log k).
Proof.
  intros Hr Hi Hu. apply reachable_inv in Hr as [Hn Hroom Hout Hused _]. cbn [fst snd] in *.
  pose proof (reserved_delete o i u Hi) as Hd.
  assert (Hb : 0 ≤ reserved (delete i o)).
  { apply reserved_bounds. intros j v [_ Hj]%lookup_delete_Some. by eapply Hused. }
  split; [lia|]. rewrite Hout.
  assert (size o ≠ 0%nat); [|lia]. intros ->%map_size_empty_inv. done.
Qed.

(** Running a script of [begin_op]s and [log_write]s. *)
Inductive cmd := CBegin (i : nat) | CWrite (i b : nat).
Definition exec (s : kst * ops) (c : cmd) : option (kst * ops) :=
  match c with
  | CBegin i =>
      match s.2 !! i, begin_op (s.1, []) with None, Ok _ (k', []) => Some (k', <[i := 0]> s.2) | _, _ => None end
  | CWrite i b =>
      match s.2 !! i, log_write b s.1 with
      | Some u, Ok _ k' => if u <? MAXOPBLOCKS then Some (k', <[i := u + 1]> s.2) else None
      | _, _ => None
      end
  end.
Fixpoint execs (s : kst * ops) (cs : list cmd) : option (kst * ops) :=
  match cs with [] => Some s | c :: cs => match exec s c with Some s' => execs s' cs | None => None end end.

Lemma exec_step s c s' : exec s c = Some s' → step s s'.
Proof.
  destruct s as [k o]. destruct c as [i|i b]; cbn; intros H; repeat case_match; simplify_eq.
  - lazymatch goal with H : begin_op _ = Ok ?u _ |- _ => destruct u end. by apply st_begin.
  - lazymatch goal with H : log_write _ _ = Ok ?u _ |- _ => destruct u end. eapply st_write; [done| |done]. by apply Z.ltb_lt.
Qed.
Lemma execs_reachable s cs s' : initial s → execs s cs = Some s' → reachable s'.
Proof.
  intros H0 H. exists s. split; [done|]. clear H0. revert s H.
  induction cs as [|c cs IH]; intros s H; simpl in H; [by simplify_eq|].
  destruct (exec s c) as [s1|] eqn:E; [|done]. eapply rtc_l; [by eapply exec_step|by apply IH].
Qed.
End Reserve.

(** ** Theorems *)

Section theorems.
Context (dev : Z) (p : nat) (pid start : Z).
#[local] Abbreviation kr := (krepr dev p pid).
#[local] Existing Instance KB.
#[local] Instance KSP : BlocksSpec KB := KS dev p pid.

(** C6: A whole file-system operation on the kernel ([begin_op], then read, change, log and
    release each of at most MAXOPBLOCKS blocks, then [end_op]) returns; afterwards the
    changes are on the disk and in the cache, no other file block has changed, the log
    is empty and no buffer is held or pinned. *)
Theorem transaction_durable (ups : list (Z * list Z)) (s : kst * list (kst → kst)) (a : cache) :
  kr s a → open_txn start [] a → l_outstanding (a_log a) = 0 → l_committing (a_log a) = 0 →
  MAXOPBLOCKS < l_size (a_log a) → ups_ok start ups → (length ups ≤ Z.to_nat MAXOPBLOCKS)%nat →
  ∃ s' a', transaction dev ups s = Ok tt s' ∧ kr s' a' ∧ open_txn start [] a' ∧
    same_files start (a_disk a') (apply_ups ups (a_view a)) ∧ same_files start (a_view a') (apply_ups ups (a_view a)).
Proof.
  intros Hk Hot Ho Hc Hsz Hok Hlen.
  destruct (proj1 (wp_Ok _ _ _) (transaction_wp dev p pid start ups s a Hk Hot Ho Hc Hsz Hok Hlen))
    as ([] & s' & E & a' & H). by exists s', a'.
Qed.

(** [log_write] on a held buffer: the panics when the transaction is full or none is
    open, and otherwise the block is in the transaction once (a second write of it is
    absorbed) and its buffer is pinned in the cache. *)
Theorem log_write_correct (b : nat) (n : Z) (bl : list Z) (k : kst) (a : cache) :
  kr (k, []) a → a_held a !! b = Some n → lg_is start bl (a_log a) → NoDup bl →
  (∀ m, m ∈ n :: bl → 0 ≤ m < 2 ^ 31) → (∀ m, m ∈ bl ↔ m ∈ a_pins a) →
  let len := Z.of_nat (length bl) in
  if (LOGSIZE <=? len) || (l_size (a_log a) - 1 <=? len) then
    log_write b k = Panic "too big a transaction" (enter LLog k)
  else if l_outstanding (a_log a) <? 1 then
    log_write b k = Panic "log_write outside of trans" (enter LLog k)
  else ∃ k' lg, log_write b k = Ok tt k' ∧ lg_is start (logged bl n) lg ∧
    kr (k', []) (a <| a_log := lg |> <| a_pins ::= union {[n]} |>).
Proof.
  intros Hk Hh Hlg Hnd Hr Hp len. pose proof (kr_caller _ _ _ _ _ Hk) as Hca. cbn [fst] in Hca.
  assert (Hgl : k_log (enter LLog k) = a_log a) by apply (kr_log _ _ _ _ _ Hk).
  case_match eqn:E1; [|case_match eqn:E2].
  1,2: unfold log_write; erewrite bind_Ok by (apply acquire_eq; apply Hca);
    unfold bind at 1, get_log, gets; rewrite Hgl, (lg_n _ _ _ Hlg); fold len; by rewrite E1, ?E2.
  apply orb_false_iff in E1 as [E1%Z.leb_gt E3%Z.leb_gt]. apply Z.ltb_ge in E2.
  destruct (proj1 (wp_Ok _ _ _) (log_write_wp dev p pid start b n bl (k, []) a Hk Hh ltac:(by split)))
    as ([] & [k' e] & E & lg & Hl & _ & _ & _ & Hk'). unfold lift in E.
  destruct (log_write b k) as [[] k1| | | |]; try done. simplify_eq. by exists k', lg.
Qed.

(** C16: The space [begin_op] reserves is enough: in every state reached by any interleaving
    of [begin_op], [log_write] (at most MAXOPBLOCKS per operation), [end_op] and commits,
    the blocks in the header plus those still reserved fit in LOGSIZE, [outstanding]
    counts the open operations, and none is open while a commit runs. *)
Theorem reservation_invariant (k : kst) (o : gmap nat Z) :
  Reserve.reachable (k, o) →
  lh_n (k_log k) + Reserve.reserved o ≤ LOGSIZE ∧ l_outstanding (k_log k) = Z.of_nat (size o) ∧
  (l_committing (k_log k) ≠ 0 → o = ∅).
Proof. intros [_ H1 H2 _ H3]%Reserve.reachable_inv. done. Qed.

(** So [log_write] by an operation within its reservation cannot fail, on a disk whose
    log has room for LOGSIZE blocks besides its header. *)
Theorem reserved_log_write_succeeds (b : nat) (n : Z) (bl : list Z) (k : kst) (a : cache) (o : gmap nat Z) i u :
  Reserve.reachable (k, o) → o !! i = Some u → u < MAXOPBLOCKS → LOGSIZE < l_size (k_log k) →
  kr (k, []) a → a_held a !! b = Some n → lg_is start bl (a_log a) → NoDup bl →
  (∀ m, m ∈ n :: bl → 0 ≤ m < 2 ^ 31) → (∀ m, m ∈ bl ↔ m ∈ a_pins a) →
  ∃ k' lg, log_write b k = Ok tt k' ∧ lg_is start (logged bl n) lg ∧ Reserve.reachable (k', <[i := u + 1]> o).
Proof.
  intros Hr Hi Hu Hsz Hk Hh Hlg Hnd Hrng Hp.
  destruct (Reserve.reachable_room k o i u Hr Hi Hu) as [H1 H2]. pose proof (kr_log _ _ _ _ _ Hk) as E. cbn [fst] in E.
  rewrite E, (lg_n _ _ _ Hlg) in H1. rewrite E in H2, Hsz.
  destruct (proj1 (wp_Ok _ _ _) (log_write_wp dev p pid start b n bl (k, []) a Hk Hh ltac:(split; try done; lia)))
    as ([] & [k' e] & Ew & lg & Hl & _). unfold lift in Ew.
  destruct (log_write b k) as [[] k1| | | |] eqn:Er; try done. simplify_eq. exists k', lg. split_and!; [done..|].
  destruct Hr as (s0 & H0 & Hst). exists s0. split; [done|]. eapply rtc_r; [done|]. by eapply Reserve.st_write.
Qed.
End theorems.

(** ** Witnesses: the kernel after [binit], no operation open *)

Definition demo_idle (size : Z) : kst := demo_bio <| k_log ::= fun l => l <| l_outstanding := 0 |> <| l_size := size |> |>.
Definition demo_idle_cache (size : Z) : cache :=
  demo_cache <| a_log ::= fun l => l <| l_outstanding := 0 |> <| l_size := size |> |>.

#[local] Opaque demo_bio.

Lemma demo_idle_krepr size : krepr 1 0 1 (demo_idle size, []) (demo_idle_cache size).
Proof. exact (krepr_log_upd 1 0 1 _ demo_bio [] demo_cache (demo_bio_krepr [])). Qed.

Lemma demo_idle_open size : open_txn (SP := KS 1 0 1) 2 [] (demo_idle_cache size).
Proof.
  split; try done.
  - split; [unfold LOGSIZE, MAXOPBLOCKS; lia|unfold NBUF; simpl; lia|apply NoDup_nil_2|set_solver].
Qed.

Lemma demo_idle_log size : k_log (demo_idle size) = a_log (demo_idle_cache size).
Proof. apply (kr_log _ _ _ _ _ (demo_idle_krepr size)). Qed.

Lemma demo_idle_initial size : Reserve.initial (demo_idle size, ∅).
Proof. unfold Reserve.initial. cbn [fst snd]. by rewrite demo_idle_log. Qed.

(** Two blocks updated in one operation. *)
Lemma transaction_durable_witness :
  ∃ s' a', transaction 1 [(45, replicate 1024 7); (46, replicate 1024 8)] (demo_idle 30, []) = Ok tt s' ∧
    krepr 1 0 1 s' a' ∧ blk (a_disk a') 45 = replicate 1024 7 ∧ blk (a_disk a') 46 = replicate 1024 8.
Proof.
  assert (Hok : ups_ok 2 [(45, replicate 1024 7); (46, replicate 1024 8)]).
  { repeat (apply Forall_cons_2 || apply Forall_nil_2); (split_and!; cbn [fst snd]; [lia|lia| |by rewrite length_replicate]);
      unfold in_log, LOGSIZE, MAXOPBLOCKS; lia. }
  destruct (transaction_durable 1 0 1 2 _ (demo_idle 30, []) (demo_idle_cache 30) (demo_idle_krepr 30) (demo_idle_open 30)
    eq_refl eq_refl eq_refl Hok ltac:(unfold MAXOPBLOCKS; simpl; lia)) as (s' & a' & E & Hk & _ & Hd & _).
  exists s', a'. split; [exact E|]. split; [exact Hk|].
  split; (rewrite Hd; [reflexivity|unfold in_log, LOGSIZE, MAXOPBLOCKS; lia]).
Defined.

(** One operation open from an idle state; buffer [b] holds block [n]. *)
Lemma start_logging dev p pid start n k a :
  krepr dev p pid (k, []) a → open_txn (SP := KS dev p pid) start [] a → Reserve.initial (k, ∅) →
  ∃ b k' a', Reserve.reachable (k', <[0%nat := 0]> ∅) ∧ krepr dev p pid (k', []) a' ∧ a_held a' !! b = Some n ∧
    lg_is (SP := KS dev p pid) start [] (a_log a') ∧ a_pins a' = ∅ ∧ l_size (a_log a') = l_size (a_log a) ∧
    l_outstanding (a_log a') = 1.
Proof.
  intros Hk [Htx Hlg Hh Hp _ _] Hi. pose proof Hi as (Hn & Ho & Hc & _). pose proof (kr_log _ _ _ _ _ Hk) as El.
  cbn [fst] in *. rewrite El in Hn, Ho, Hc.
  destruct (proj1 (wp_Ok _ _ _) (begin_op_wp dev p pid _ _ Hk Hc ltac:(by rewrite Hn, Ho))) as ([] & [k1 e1] & E1 & Hk1).
  pose proof (Reserve.begin_op_log _ _ E1) as (_ & _ & _ & He). cbn in He. subst e1.
  set (a1 := a <| a_log ::= _ |>) in Hk1.
  destruct (proj1 (wp_Ok _ _ _) (bread_krepr dev p pid n _ _ Hk1
    ltac:(intros b; cbn; by rewrite Hh) ltac:(right; apply refs_none; [cbn; rewrite Hp, size_list_to_set by apply Htx; unfold NBUF; simpl; lia|done])))
    as (b & [k2 e2] & E2 & _ & Hk2).
  destruct (keeps_bread k_log eq dev n _ _ _ E2 eq_refl) as [He Hl]. cbn in He, Hl. subst e2.
  exists b, k2, (a1 <| a_held ::= <[b := n]> |>). split_and!; try done.
  - exists (k, ∅). split; [done|].
    eapply rtc_l; [by apply (Reserve.st_begin _ k1 ∅ 0)|]. apply rtc_once. by apply Reserve.st_other.
  - cbn. by rewrite lookup_insert_eq.
  - by destruct Hlg.
  - cbn. by rewrite Ho.
Qed.

Lemma demo_logging size :
  ∃ b k a, Reserve.reachable (k, <[0%nat := 0]> ∅) ∧ krepr 1 0 1 (k, []) a ∧ a_held a !! b = Some 45 ∧
    lg_is (SP := KS 1 0 1) 2 [] (a_log a) ∧ a_pins a = ∅ ∧ l_size (a_log a) = size ∧ l_outstanding (a_log a) = 1.
Proof. exact (start_logging 1 0 1 2 45 _ _ (demo_idle_krepr size) (demo_idle_open size) (demo_idle_initial size)). Qed.

Lemma log_write_correct_witness :
  ∃ b k k', log_write b k = Ok tt k' ∧ lh_n (k_log k') = 1.
Proof.
  destruct (demo_logging 30) as (b & k & a & _ & Hk & Hh & Hlg & Hp & Hs & Ho).
  pose proof (log_write_correct 1 0 1 2 b 45 [] k a Hk Hh Hlg) as H. cbv zeta in H.
  rewrite Hs, Ho in H. destruct H as (k' & lg & E & Hl & Hk').
  - apply NoDup_nil_2.
  - intros m Hm. apply list_elem_of_singleton in Hm as ->. lia.
  - intros m. rewrite Hp. set_solver.
  - exists b, k, k'. split; [exact E|]. pose proof (kr_log _ _ _ _ _ Hk') as El. cbn in El. rewrite El. apply Hl.
Defined.

Lemma reservation_invariant_witness :
  ∃ k, lh_n (k_log k) + Reserve.reserved (<[0%nat := 0]> ∅) ≤ LOGSIZE ∧ l_outstanding (k_log k) = 1.
Proof.
  destruct (demo_logging 30) as (b & k & a & Hr & _).
  destruct (reservation_invariant k (<[0%nat := 0]> ∅) Hr) as (H1 & H2 & _). exists k. split; [exact H1|exact H2].
Defined.

Lemma reserved_log_write_succeeds_witness : ∃ b k k', log_write b k = Ok tt k' ∧ l_size (k_log k) = 31.
Proof.
  destruct (demo_logging 31) as (b & k & a & Hr & Hk & Hh & Hlg & Hp & Hs & Ho).
  pose proof (kr_log _ _ _ _ _ Hk) as El. cbn [fst] in El.
  destruct (reserved_log_write_succeeds 1 0 1 2 b 45 [] k a (<[0%nat := 0]> ∅) 0 0 Hr) as (k' & lg & E & _ & _); try done.
  - rewrite El, Hs. reflexivity.
  - apply NoDup_nil_2.
  - intros m Hm. apply list_elem_of_singleton in Hm as ->. lia.
  - intros m. rewrite Hp. set_solver.
  - exists b, k, k'. split; [exact E|]. by rewrite El.
Defined.

(** ** A log of nlog = LOGSIZE blocks *)

(** Thirty cached blocks. *)
Definition demo_full : kst := demo_idle LOGSIZE <| k_bufs ::= imap (fun i r => r <| b_blockno := 100 + Z.of_nat i |>) |>.
Lemma demo_full_initial : Reserve.initial (demo_full, ∅).
Proof.
  assert (Hb : ∀ k f, k_log (k <| k_bufs ::= f |>) = k_log k) by done.
  unfold Reserve.initial, demo_full. cbn [fst snd]. by rewrite Hb, demo_idle_log.
Qed.
#[local] Transparent demo_bio.

Definition full_script : list Reserve.cmd :=
  map Reserve.CBegin [0; 1; 2]%nat ++ map (fun b => Reserve.CWrite (b / 10) b) (seq 0 29).

(** After the script, [log_write] of one more block fails. *)
Definition full_check (r : option (kst * gmap nat Z)) : bool :=
  match r with
  | Some (k, o) =>
      bool_decide (o !! 2%nat = Some 9) && (l_size (k_log k) =? LOGSIZE) &&
      match log_write 29 k with Panic msg _ => bool_decide (msg = "too big a transaction"%string) | _ => false end
  | None => false
  end.

(** C17: mkfs makes the log LOGSIZE blocks including its header, one less than [begin_op]
    reserves: there is a reachable state in which an operation that has written nine of
    its ten blocks makes [log_write] panic. *)
Theorem log_one_block_short :
  ∃ k o i b k', Reserve.reachable (k, o) ∧ l_size (k_log k) = LOGSIZE ∧ o !! i = Some 9 ∧ 9 < MAXOPBLOCKS ∧
    log_write b k = Panic "too big a transaction" k'.
Proof.
  assert (H : full_check (Reserve.execs (demo_full, ∅) full_script) = true) by (vm_compute; reflexivity).
  pose proof (Reserve.execs_reachable (demo_full, ∅) full_script) as Hr.
  destruct (Reserve.execs (demo_full, ∅) full_script) as [[k o]|]; [|discriminate H]. simpl in H.
  apply andb_true_iff in H as [[Ho%bool_decide_eq_true_1 Hs%Z.eqb_eq]%andb_true_iff H].
  destruct (log_write 29 k) as [|msg k'| | |] eqn:Ew; try discriminate H. apply bool_decide_eq_true_1 in H. subst msg.
  exists k, o, 2%nat, 29%nat, k'. split_and!; [|done..]. exact (Hr _ demo_full_initial eq_refl).
Qed.
