(* ===== verification/Fs.v ===== *)
(** * The file system: blocks, inodes, directories, paths (fs.c)

    Structures on disk are read from and written to the bytes of a buffer: words of
    an indirect block, [struct dinode] (64 bytes), [struct dirent] (16 bytes),
    [struct superblock].  A kernel address that [readi] or [writei] gets is either a
    physical page ([ToKernel]) or a local structure, whose bytes are returned
    ([ToLocal]) or given ([FromLocal]). *)

From S2P Require Import Prelude Mem CString Kernel Spinlock Kalloc Vm Proc Uart Printf Bio Log.

Definition ROOTINO : Z := 1.
Definition FSMAGIC : Z := 0x10203040.
Definition NDIRECT : Z := 12.
Definition NINDIRECT : Z := BSIZE / 4.
Definition MAXFILE : Z := NDIRECT + NINDIRECT.
Definition DINODE_SIZE : Z := 64.
Definition IPB : Z := BSIZE / DINODE_SIZE.
Definition IBLOCK (i : Z) (sb : superblock) : Z := u32 (i / IPB + sb_inodestart sb).
Definition BPB : Z := BSIZE * 8.
Definition BBLOCK (b : Z) (sb : superblock) : Z := u32 (b / BPB + sb_bmapstart sb).
Definition DIRSIZ : Z := 14.
Definition DIRENT_SIZE : Z := 16.
Definition T_DIR : Z := 1.
Definition T_FILE : Z := 2.
Definition T_DEVICE : Z := 3.

(** Fields of structures inside a block. *)
Definition field (d : list Z) (off n : nat) : Z := le_val (take n (drop off d)).
Definition set_bytes (d : list Z) (off : nat) (bs : list Z) : list Z :=
  take off d ++ bs ++ drop (off + length bs) d.

Record dinode := mkdinode {
  di_type : Z; di_major : Z; di_minor : Z; di_nlink : Z; di_size : Z; di_addrs : list Z
}.
Definition read_dinode (d : list Z) (off : nat) : dinode :=
  mkdinode (s16 (field d off 2)) (s16 (field d (off + 2) 2)) (s16 (field d (off + 4) 2))
    (s16 (field d (off + 6) 2)) (field d (off + 8) 4)
    (map (fun i => field d (off + 12 + 4 * i) 4) (seq 0 13)).
Definition dinode_bytes (di : dinode) : list Z :=
  le_bytes 2 (di_type di) ++ le_bytes 2 (di_major di) ++ le_bytes 2 (di_minor di) ++
  le_bytes 2 (di_nlink di) ++ le_bytes 4 (di_size di) ++ flat_map (le_bytes 4) (di_addrs di).
Definition dinode_off (inum : Z) : nat := Z.to_nat (inum mod IPB * DINODE_SIZE).

Record dirent := mkdirent { de_inum : Z; de_name : list Z }.
Definition read_dirent (d : list Z) : dirent := mkdirent (field d 0 2) (take 14 (drop 2 d)).
Definition dirent_bytes (de : dirent) : list Z := le_bytes 2 (de_inum de) ++ de_name de.

Definition read_superblock (d : list Z) : superblock :=
  mksb (field d 0 4) (field d 4 4) (field d 8 4) (field d 12 4) (field d 16 4) (field d 20 4)
    (field d 24 4) (field d 28 4).

Definition get_data (b : nat) : K (list Z) := let! r := get_buf b in ret (b_data r).
Definition set_data (b : nat) (d : list Z) : K unit := upd_buf b (fun r => r <| b_data := d |>).
Definition get_sb : K superblock := gets k_sb.

Section fs.
Context {D : Disk}.

Definition readsb (dev : Z) : KM superblock :=
  let! bp := bread (u32 dev) 1 in
  let! d := ⇑ (get_data bp) in
  ⇑ (brelse bp) ;;;
  ret (read_superblock d).

Definition fsinit (dev : Z) : KM unit :=
  let! sb := readsb dev in
  ⇑ (modify (fun k => k <| k_sb := sb |>)) ;;;
  if negb (sb_magic sb =? FSMAGIC) then panic "invalid file system" else
  initlog dev sb.

Definition bzero (dev bno : Z) : KM unit :=
  let! bp := bread (u32 dev) (u32 bno) in
  ⇑ (set_data bp (replicate (Z.to_nat BSIZE) 0)) ;;;
  ⇑ (log_write bp) ;;;
  ⇑ (brelse bp).

(** [bp->data[bi/8] & (1 << (bi % 8))] *)
Definition bit_mask (bi : Z) : Z := Z.shiftl 1 (bi mod 8).
Definition bit_set (d : list Z) (bi : Z) : bool :=
  negb (Z.land (default 0 (d !! Z.to_nat (bi / 8))) (bit_mask bi) =? 0).
Definition set_bit (d : list Z) (bi : Z) : list Z :=
  alter (fun x => u8 (Z.lor x (bit_mask bi))) (Z.to_nat (bi / 8)) d.
Definition clear_bit (d : list Z) (bi : Z) : list Z :=
  alter (fun x => u8 (Z.land x (Z.lnot (bit_mask bi)))) (Z.to_nat (bi / 8)) d.

(** The inner loop of [balloc]: the first clear bit of a bitmap block. *)
Fixpoint first_clear (d : list Z) (bi : Z) (n : nat) : option Z :=
  match n with
  | O => None
  | S n => if bit_set d bi then first_clear d (bi + 1) n else Some bi
  end.

Definition balloc_body (dev : Z) (b : Z) : KM (Z + Z) :=
  let! sb := ⇑ get_sb in
  if negb (b <? sb_size sb) then
    ⇑ (printf ("balloc: out of blocks" ++ NL) []) ;;; ret (inr 0)
  else
  let! bp := bread dev (BBLOCK b sb) in
  let! d := ⇑ (get_data bp) in
  match first_clear d 0 (Z.to_nat (Z.min BPB (sb_size sb - b))) with
  | Some bi =>
      ⇑ (set_data bp (set_bit d bi)) ;;;
      ⇑ (log_write bp) ;;;
      ⇑ (brelse bp) ;;;
      bzero dev (b + bi) ;;;
      ret (inr (b + bi))
  | None => ⇑ (brelse bp) ;;; ret (inl (b + BPB))
  end.
Definition balloc (dev : Z) : KM Z :=
  let! sb := ⇑ get_sb in
  loop (Z.to_nat (sb_size sb / BPB + 2)) (balloc_body dev) 0.

Definition bfree (dev b : Z) : KM unit :=
  let! sb := ⇑ get_sb in
  let! bp := bread (u32 dev) (BBLOCK b sb) in
  let bi := b mod BPB in
  let! d := ⇑ (get_data bp) in
  if negb (bit_set d bi) then panic "freeing free block" else
  ⇑ (set_data bp (clear_bit d bi)) ;;;
  ⇑ (log_write bp) ;;;
  ⇑ (brelse bp).

(** ** Inodes *)

Definition iinit : K unit :=
  initlock LItable "itable" ;;;
  for_ 0 NINODE (fun i => initsleeplock (inode_lock (Z.to_nat i)) "inode").

(** The scan of [iget]: a match, or the first empty slot. *)
Fixpoint iget_scan (l : list inode) (i : nat) (dev inum : Z) (empty : option nat) : option nat * option nat :=
  match l with
  | [] => (None, empty)
  | ip :: l =>
      if (0 <? i_ref ip) && (i_dev ip =? dev) && (i_inum ip =? inum) then (Some i, empty)
      else iget_scan l (S i) dev inum
             (match empty with None => if i_ref ip =? 0 then Some i else None | e => e end)
  end.

Definition iget (dev inum : Z) : K nat :=
  acquire LItable ;;;
  let! k := get in
  match iget_scan (k_inodes k) 0 dev inum None with
  | (Some ip, _) =>
      upd_inode ip (fun r => r <| i_ref ::= Z.add 1 |>) ;;;
      release LItable ;;;
      ret ip
  | (None, None) => panic "iget: no inodes"
  | (None, Some ip) =>
      upd_inode ip (fun r => r <| i_dev := dev |> <| i_inum := inum |> <| i_ref := 1 |> <| i_valid := 0 |>) ;;;
      release LItable ;;;
      ret ip
  end.

Definition ialloc_body (dev type : Z) (inum : Z) : KM (Z + option nat) :=
  let! sb := ⇑ get_sb in
  if negb (inum <? sb_ninodes sb) then
    ⇑ (printf ("ialloc: no inodes" ++ NL) []) ;;; ret (inr None)
  else
  let! bp := bread dev (IBLOCK inum sb) in
  let! d := ⇑ (get_data bp) in
  if di_type (read_dinode d (dinode_off inum)) =? 0 then
    ⇑ (set_data bp (set_bytes d (dinode_off inum) (dinode_bytes (mkdinode type 0 0 0 0 (replicate 13 0))))) ;;;
    ⇑ (log_write bp) ;;;
    ⇑ (brelse bp) ;;;
    let! ip := ⇑ (iget dev inum) in
    ret (inr (Some ip))
  else ⇑ (brelse bp) ;;; ret (inl (inum + 1)).
Definition ialloc (dev type : Z) : KM (option nat) :=
  let! sb := ⇑ get_sb in
  loop (S (Z.to_nat (sb_ninodes sb))) (ialloc_body dev type) 1.

Definition iupdate (ip : nat) : KM unit :=
  let! r := ⇑ (get_inode ip) in
  let! sb := ⇑ get_sb in
  let! bp := bread (i_dev r) (IBLOCK (i_inum r) sb) in
  let! d := ⇑ (get_data bp) in
  ⇑ (set_data bp (set_bytes d (dinode_off (i_inum r))
       (dinode_bytes (mkdinode (i_type r) (i_major r) (i_minor r) (i_nlink r) (i_size r) (i_addrs r))))) ;;;
  ⇑ (log_write bp) ;;;
  ⇑ (brelse bp).

Definition idup (ip : nat) : K nat :=
  acquire LItable ;;;
  upd_inode ip (fun r => r <| i_ref ::= Z.add 1 |>) ;;;
  release LItable ;;;
  ret ip.

Definition ilock (ip : option nat) : KM unit :=
  match ip with
  | None => panic "ilock"
  | Some ip =>
      let! r := ⇑ (get_inode ip) in
      if i_ref r <? 1 then panic "ilock" else
      acquiresleep (inode_lock ip) ;;;
      let! r := ⇑ (get_inode ip) in
      if negb (i_valid r =? 0) then ret tt else
      let! sb := ⇑ get_sb in
      let! bp := bread (i_dev r) (IBLOCK (i_inum r) sb) in
      let! d := ⇑ (get_data bp) in
      let dip := read_dinode d (dinode_off (i_inum r)) in
      ⇑ (upd_inode ip (fun r => r <| i_type := di_type dip |> <| i_major := di_major dip |>
           <| i_minor := di_minor dip |> <| i_nlink := di_nlink dip |> <| i_size := di_size dip |>
           <| i_addrs := di_addrs dip |>)) ;;;
      ⇑ (brelse bp) ;;;
      ⇑ (upd_inode ip (fun r => r <| i_valid := 1 |>)) ;;;
      if di_type dip =? 0 then panic "ilock: no type" else ret tt
  end.

Definition iunlock (ip : option nat) : K unit :=
  match ip with
  | None => panic "iunlock"
  | Some ip =>
      let! h := holdingsleep (inode_lock ip) in
      if negb h then panic "iunlock" else
      let! r := get_inode ip in
      if i_ref r <? 1 then panic "iunlock" else
      releasesleep (inode_lock ip)
  end.

(** ** Inode content *)

Definition uword (d : list Z) (i : Z) : Z := field d (Z.to_nat (4 * i)) 4.
Definition addr_of (r : inode) (i : Z) : Z := default 0 (i_addrs r !! Z.to_nat i).
Definition set_addr (ip : nat) (i v : Z) : K unit :=
  upd_inode ip (fun r => r <| i_addrs ::= <[Z.to_nat i := v]> |>).

Definition bmap (ip : nat) (bn : Z) : KM Z :=
  let! r := ⇑ (get_inode ip) in
  if bn <? NDIRECT then
    let addr := addr_of r bn in
    if addr =? 0 then
      let! addr := balloc (i_dev r) in
      if addr =? 0 then ret 0 else
      ⇑ (set_addr ip bn addr) ;;; ret addr
    else ret addr
  else
  let bn := bn - NDIRECT in
  if bn <? NINDIRECT then
    let! addr :=
      (if addr_of r NDIRECT =? 0 then
         let! addr := balloc (i_dev r) in
         if addr =? 0 then ret 0 else ⇑ (set_addr ip NDIRECT addr) ;;; ret addr
       else ret (addr_of r NDIRECT)) in
    if addr =? 0 then ret 0 else
    let! bp := bread (i_dev r) addr in
    let! a := ⇑ (get_data bp) in
    let! addr :=
      (if uword a bn =? 0 then
         let! addr := balloc (i_dev r) in
         (if addr =? 0 then ret tt else
          let! a := ⇑ (get_data bp) in
          ⇑ (set_data bp (set_bytes a (Z.to_nat (4 * bn)) (le_bytes 4 addr))) ;;;
          ⇑ (log_write bp)) ;;;
         ret addr
       else ret (uword a bn)) in
    ⇑ (brelse bp) ;;;
    ret addr
  else panic "bmap: out of range".

Definition itrunc (ip : nat) : KM unit :=
  for_ 0 (Z.to_nat NDIRECT) (fun i =>
    let! r := ⇑ (get_inode ip) in
    if addr_of r i =? 0 then ret tt else
    bfree (i_dev r) (addr_of r i) ;;;
    ⇑ (set_addr ip i 0)) ;;;
  let! r := ⇑ (get_inode ip) in
  (if addr_of r NDIRECT =? 0 then ret tt else
     let! bp := bread (i_dev r) (addr_of r NDIRECT) in
     for_ 0 (Z.to_nat NINDIRECT) (fun j =>
       let! a := ⇑ (get_data bp) in
       if uword a j =? 0 then ret tt else bfree (i_dev r) (uword a j)) ;;;
     ⇑ (brelse bp) ;;;
     bfree (i_dev r) (addr_of r NDIRECT) ;;;
     ⇑ (set_addr ip NDIRECT 0)) ;;;
  ⇑ (upd_inode ip (fun r => r <| i_size := 0 |>)) ;;;
  iupdate ip.

Definition iput (ip : nat) : KM unit :=
  ⇑ (acquire LItable) ;;;
  let! r := ⇑ (get_inode ip) in
  (if (i_ref r =? 1) && negb (i_valid r =? 0) && (i_nlink r =? 0) then
     acquiresleep (inode_lock ip) ;;;
     ⇑ (release LItable) ;;;
     itrunc ip ;;;
     ⇑ (upd_inode ip (fun r => r <| i_type := 0 |>)) ;;;
     iupdate ip ;;;
     ⇑ (upd_inode ip (fun r => r <| i_valid := 0 |>)) ;;;
     ⇑ (releasesleep (inode_lock ip)) ;;;
     ⇑ (acquire LItable)
   else ret tt) ;;;
  ⇑ (upd_inode ip (fun r => r <| i_ref ::= Z.pred |>)) ;;;
  ⇑ (release LItable).

Definition iunlockput (ip : nat) : KM unit :=
  ⇑ (iunlock (Some ip)) ;;;
  iput ip.

Record stat := mkstat { st_dev : Z; st_ino : Z; st_type : Z; st_nlink : Z; st_size : Z }.
Definition stati (ip : nat) : K stat :=
  let! r := get_inode ip in
  ret (mkstat (s32 (i_dev r)) (i_inum r) (i_type r) (i_nlink r) (i_size r)).

(** Where [readi] copies to and [writei] copies from. *)
Inductive rdst := ToUser (dst : Z) | ToKernel (dst : Z) | ToLocal.
Inductive wsrc := FromUser (src : Z) | FromLocal (bs : list Z).

Definition copy_to (d : rdst) (tot : Z) (bs acc : list Z) : K (Z * list Z) :=
  match d with
  | ToUser dst => let! r := either_copyout true (u64 (dst + tot)) bs in ret (r, acc)
  | ToKernel dst => let! r := either_copyout false (u64 (dst + tot)) bs in ret (r, acc)
  | ToLocal => let! _ := myproc in ret (0, acc ++ bs)
  end.
Definition copy_from (s : wsrc) (tot m : Z) : K (Z * list Z) :=
  match s with
  | FromUser src => either_copyin true (u64 (src + tot)) m
  | FromLocal bs => let! _ := myproc in ret (0, take (Z.to_nat m) (drop (Z.to_nat tot) bs))
  end.

(** The loop state is [(tot, off, bytes for a local)]. *)
Definition readi_body (ip : nat) (d : rdst) (n : Z) (st : Z * Z * list Z) : KM ((Z * Z * list Z) + (Z * list Z)) :=
  let '(tot, off, acc) := st in
  if negb (tot <? n) then ret (inr (tot, acc)) else
  let! addr := bmap ip (off / BSIZE) in
  if addr =? 0 then ret (inr (tot, acc)) else
  let! r := ⇑ (get_inode ip) in
  let! bp := bread (i_dev r) addr in
  let m := Z.min (n - tot) (BSIZE - off mod BSIZE) in
  let! data := ⇑ (get_data bp) in
  let! (c, acc) := ⇑ (copy_to d tot (take (Z.to_nat m) (drop (Z.to_nat (off mod BSIZE)) data)) acc) in
  if c =? -1 then ⇑ (brelse bp) ;;; ret (inr (-1, acc)) else
  ⇑ (brelse bp) ;;;
  ret (inl (tot + m, off + m, acc)).

(** The result is the [int] returned, and the bytes stored for [ToLocal]. *)
Definition readi (ip : nat) (d : rdst) (off n : Z) : KM (Z * list Z) :=
  let! r := ⇑ (get_inode ip) in
  if (i_size r <? off) || (u32 (off + n) <? off) then ret (0, []) else
  let n := if i_size r <? u32 (off + n) then i_size r - off else n in
  loop (S (Z.to_nat n)) (readi_body ip d n) (0, off, []).

Definition writei_body (ip : nat) (s : wsrc) (n : Z) (st : Z * Z) : KM ((Z * Z) + (Z * Z)) :=
  let '(tot, off) := st in
  if negb (tot <? n) then ret (inr (tot, off)) else
  let! addr := bmap ip (off / BSIZE) in
  if addr =? 0 then ret (inr (tot, off)) else
  let! r := ⇑ (get_inode ip) in
  let! bp := bread (i_dev r) addr in
  let m := Z.min (n - tot) (BSIZE - off mod BSIZE) in
  let! (c, bs) := ⇑ (copy_from s tot m) in
  let! data := ⇑ (get_data bp) in
  ⇑ (set_data bp (set_bytes data (Z.to_nat (off mod BSIZE)) bs)) ;;;
  if c =? -1 then ⇑ (brelse bp) ;;; ret (inr (tot, off)) else
  ⇑ (log_write bp) ;;;
  ⇑ (brelse bp) ;;;
  ret (inl (tot + m, off + m)).

Definition writei (ip : nat) (s : wsrc) (off n : Z) : KM Z :=
  let! r := ⇑ (get_inode ip) in
  if (i_size r <? off) || (u32 (off + n) <? off) then ret (-1) else
  if MAXFILE * BSIZE <? u32 (off + n) then ret (-1) else
  let! (tot, off) := loop (S (Z.to_nat n)) (writei_body ip s n) (0, off) in
  let! r := ⇑ (get_inode ip) in
  (if i_size r <? off then ⇑ (upd_inode ip (fun r => r <| i_size := off |>)) else ret tt) ;;;
  iupdate ip ;;;
  ret tot.

(** ** Directories *)

(** [strncmp] on byte strings whose end counts as a null byte. *)
Fixpoint strncmp_list (n : nat) (p q : list Z) : Z :=
  match n with
  | O => 0
  | S n =>
      let a := default 0 (p !! 0%nat) in
      let b := default 0 (q !! 0%nat) in
      if negb (a =? 0) && (a =? b) then strncmp_list n (drop 1 p) (drop 1 q) else a - b
  end.
Definition namecmp (s t : list Z) : Z := strncmp_list (Z.to_nat DIRSIZ) s t.

(** [strncpy(de.name, name, DIRSIZ)] *)
Definition dirname (name : list Z) : list Z := padded name (Z.to_nat DIRSIZ).

Definition dirlookup_body (dp : nat) (name : list Z) (off : Z) : KM (Z + option (nat * Z)) :=
  let! r := ⇑ (get_inode dp) in
  if negb (off <? i_size r) then ret (inr None) else
  let! (n, bs) := readi dp ToLocal off DIRENT_SIZE in
  if negb (n =? DIRENT_SIZE) then panic "dirlookup read" else
  let de := read_dirent bs in
  if de_inum de =? 0 then ret (inl (off + DIRENT_SIZE)) else
  if namecmp name (de_name de) =? 0 then
    let! ip := ⇑ (iget (i_dev r) (de_inum de)) in
    ret (inr (Some (ip, off)))
  else ret (inl (off + DIRENT_SIZE)).

(** The inode of the entry, and the offset stored to [*poff]. *)
Definition dirlookup (dp : nat) (name : list Z) : KM (option (nat * Z)) :=
  let! r := ⇑ (get_inode dp) in
  if negb (i_type r =? T_DIR) then panic "dirlookup not DIR" else
  loop (S (Z.to_nat (i_size r))) (dirlookup_body dp name) 0.

Definition dirlink_body (dp : nat) (st : Z * list Z) : KM ((Z * list Z) + (Z * list Z)) :=
  let '(off, old) := st in
  let! r := ⇑ (get_inode dp) in
  if negb (off <? i_size r) then ret (inr (off, old)) else
  let! (n, bs) := readi dp ToLocal off DIRENT_SIZE in
  if negb (n =? DIRENT_SIZE) then panic "dirlink read" else
  if de_inum (read_dirent bs) =? 0 then ret (inr (off, bs)) else
  ret (inl (off + DIRENT_SIZE, bs)).

Definition dirlink (dp : nat) (name : list Z) (inum : Z) : KM Z :=
  let! ip := dirlookup dp name in
  match ip with
  | Some (ip, _) => iput ip ;;; ret (-1)
  | None =>
      let! r := ⇑ (get_inode dp) in
      let! (off, _) := loop (S (Z.to_nat (i_size r))) (dirlink_body dp) (0, []) in
      let! n := writei dp (FromLocal (dirent_bytes (mkdirent (u16 inum) (dirname name)))) off DIRENT_SIZE in
      if negb (n =? DIRENT_SIZE) then ret (-1) else ret 0
  end.

(** ** Paths: byte strings without their terminating null *)

Definition SLASH : Z := 47.
Fixpoint skip_slashes (path : list Z) : list Z :=
  match path with
  | c :: p => if c =? SLASH then skip_slashes p else path
  | [] => []
  end.
Fixpoint take_elem (path : list Z) : list Z * list Z :=
  match path with
  | c :: p => if c =? SLASH then ([], path) else let '(e, r) := take_elem p in (c :: e, r)
  | [] => ([], [])
  end.

(** [None] is the null pointer; otherwise the element as the [name] buffer holds it
    (cut at DIRSIZ bytes) and the rest of the path. *)
Definition skipelem (path : list Z) : option (list Z * list Z) :=
  match skip_slashes path with
  | [] => None
  | path => let '(s, path) := take_elem path in Some (take (Z.to_nat DIRSIZ) s, skip_slashes path)
  end.

Definition namex_body (nameiparent : bool) (st : list Z * nat * list Z) :
    KM ((list Z * nat * list Z) + option (nat * list Z)) :=
  let '(path, ip, name) := st in
  match skipelem path with
  | None =>
      if nameiparent then iput ip ;;; ret (inr None) else ret (inr (Some (ip, name)))
  | Some (name, path) =>
      ilock (Some ip) ;;;
      let! r := ⇑ (get_inode ip) in
      if negb (i_type r =? T_DIR) then iunlockput ip ;;; ret (inr None) else
      if nameiparent && bool_decide (path = []) then
        ⇑ (iunlock (Some ip)) ;;; ret (inr (Some (ip, name)))
      else
      let! next := dirlookup ip name in
      match next with
      | None => iunlockput ip ;;; ret (inr None)
      | Some (next, _) => iunlockput ip ;;; ret (inl (path, next, name))
      end
  end.

Definition namex (path : list Z) (nameiparent : bool) : KM (option (nat * list Z)) :=
  let! ip :=
    (if default 0 (path !! 0%nat) =? SLASH then ⇑ (iget ROOTDEV ROOTINO) else
     let! p := ⇑ curproc in
     let! pr := ⇑ (get_proc p) in
     let! cwd := ⇑ (of_option (p_cwd pr)) in
     ⇑ (idup cwd)) in
  loop (S (length path)) (namex_body nameiparent) (path, ip, []).

Definition namei (path : list Z) : KM (option nat) :=
  let! r := namex path false in ret (fst <$> r).
Definition nameiparent (path : list Z) : KM (option (nat * list Z)) := namex path true.
End fs.
