(* ===== verification/Fsproof.v ===== *)
(** * Properties of the file system: block allocation, disk structures, paths *)

From S2P Require Import Prelude Mem CString Kernel Spinlock Kalloc Vm Proc Procproof Uart Printf Bio Log Logproof Bioproof Frame Logkernel Fs.

(** ** The bitmap *)

Lemma land_mask x m : 0 ≤ m → negb (Z.land x (Z.shiftl 1 m) =? 0) = Z.testbit x m.
Proof.
  intros Hm. rewrite Z.shiftl_1_l. destruct (Z.testbit x m) eqn:E.
  - destruct (Z.eqb_spec (Z.land x (2 ^ m)) 0) as [H|]; [|done]. exfalso.
    apply (f_equal (fun z => Z.testbit z m)) in H. rewrite Z.land_spec, Z.pow2_bits_true, E, Z.bits_0 in H by lia. done.
  - replace (Z.land x (2 ^ m)) with 0; [done|]. symmetry. apply Z.bits_inj'. intros j Hj.
    rewrite Z.land_spec, Z.bits_0. destruct (decide (j = m)) as [->|Hne].
    + by rewrite E.
    + rewrite Z.pow2_bits_false by lia. apply andb_false_r.
Qed.

Lemma bit_set_testbit d bi : bit_set d bi = Z.testbit (default 0 (d !! Z.to_nat (bi / 8))) (bi mod 8).
Proof. unfold bit_set, bit_mask. apply land_mask. apply Z.mod_pos_bound. lia. Qed.

(** The bits of a byte stay apart under an update of one of them. *)
Lemma bit_set_alter (f : Z → Z) d bi bj :
  0 ≤ bi → 0 ≤ bj → (Z.to_nat (bi / 8) < length d)%nat →
  (∀ x m, 0 ≤ m < 8 → m ≠ bi mod 8 → Z.testbit (f x) m = Z.testbit x m) →
  bit_set (alter f (Z.to_nat (bi / 8)) d) bj =
    if decide (bi = bj) then Z.testbit (f (default 0 (d !! Z.to_nat (bi / 8)))) (bi mod 8) else bit_set d bj.
Proof.
  intros Hi Hj Hlen Hf. rewrite !bit_set_testbit.
  pose proof (Z.div_mod bi 8 ltac:(lia)). pose proof (Z.div_mod bj 8 ltac:(lia)).
  pose proof (Z.mod_pos_bound bi 8 ltac:(lia)). pose proof (Z.mod_pos_bound bj 8 ltac:(lia)).
  destruct (lookup_lt_is_Some_2 d _ Hlen) as [x Hx].
  destruct (decide (bi / 8 = bj / 8)) as [E|E].
  - rewrite <- E, list_lookup_alter_eq, Hx. cbn [fmap option_fmap option_map default].
    case_decide as Eb; [by subst|]. apply Hf; lia.
  - rewrite list_lookup_alter_ne by (pose proof (Z.div_pos bi 8); pose proof (Z.div_pos bj 8); lia).
    rewrite decide_False by congruence. done.
Qed.

Lemma testbit_u8 x m : 0 ≤ m < 8 → Z.testbit (u8 x) m = Z.testbit x m.
Proof. intros Hm. unfold u8, wrap. apply Z.mod_pow2_bits_low. lia. Qed.

Lemma testbit_mask bi m : 0 ≤ m < 8 → Z.testbit (bit_mask bi) m = bool_decide (m = bi mod 8).
Proof.
  intros Hm. unfold bit_mask. rewrite Z.shiftl_1_l. pose proof (Z.mod_pos_bound bi 8 ltac:(lia)).
  case_bool_decide as E; [rewrite E; apply Z.pow2_bits_true; lia|]. apply Z.pow2_bits_false. lia.
Qed.

Lemma bit_set_set_bit d bi bj :
  0 ≤ bi → 0 ≤ bj → (Z.to_nat (bi / 8) < length d)%nat → bit_set (set_bit d bi) bj = bool_decide (bi = bj) || bit_set d bj.
Proof.
  intros Hi Hj Hlen. pose proof (Z.mod_pos_bound bi 8 ltac:(lia)). unfold set_bit. rewrite bit_set_alter; try done.
  - case_decide; [|rewrite bool_decide_eq_false_2 by done; done]. rewrite bool_decide_eq_true_2 by done.
    rewrite testbit_u8, Z.lor_spec, testbit_mask, bool_decide_eq_true_2 by done. apply orb_true_r.
  - intros x m Hm Hne. rewrite testbit_u8, Z.lor_spec, testbit_mask, bool_decide_eq_false_2 by done. apply orb_false_r.
Qed.

Lemma bit_set_clear_bit d bi bj :
  0 ≤ bi → 0 ≤ bj → (Z.to_nat (bi / 8) < length d)%nat →
  bit_set (clear_bit d bi) bj = negb (bool_decide (bi = bj)) && bit_set d bj.
Proof.
  intros Hi Hj Hlen. pose proof (Z.mod_pos_bound bi 8 ltac:(lia)). unfold clear_bit. rewrite bit_set_alter; try done.
  - case_decide; [|rewrite bool_decide_eq_false_2 by done; done]. rewrite bool_decide_eq_true_2 by done.
    rewrite testbit_u8, Z.land_spec, Z.lnot_spec, testbit_mask, bool_decide_eq_true_2 by lia. apply andb_false_r.
  - intros x m Hm Hne. rewrite testbit_u8, Z.land_spec, Z.lnot_spec, testbit_mask, bool_decide_eq_false_2 by lia.
    apply andb_true_r.
Qed.

(** [first_clear] finds the least clear bit. *)
Lemma first_clear_Some d lo n b :
  lo ≤ b < lo + Z.of_nat n → bit_set d b = false → (∀ j, lo ≤ j < b → bit_set d j = true) → first_clear d lo n = Some b.
Proof.
  revert lo. induction n as [|n IH]; intros lo Hb Hc Hs; [lia|]. simpl.
  destruct (decide (lo = b)) as [->|Hne]; [by rewrite Hc|]. rewrite Hs by lia. apply IH; [lia|done|].
  intros j Hj. apply Hs. lia.
Qed.

Lemma first_clear_None d lo n : (∀ j, lo ≤ j < lo + Z.of_nat n → bit_set d j = true) → first_clear d lo n = None.
Proof.
  revert lo. induction n as [|n IH]; intros lo Hs; [done|]. simpl. rewrite Hs by lia. apply IH.
  intros j Hj. apply Hs. lia.
Qed.

(** ** Block allocation inside a transaction *)

Lemma wp_keeps {S A} (P : S → S → Prop) (m : M S A) Q s :
  keeps P m → wp m Q s → wp m (fun a s' => Q a s' ∧ P s s') s.
Proof. unfold wp. intros Hk H. destruct (m s) eqn:E; try done. split; [done|]. by eapply Hk. Qed.

Lemma wp_seq3 {S A} (m1 m2 m3 : M S unit) (m4 : M S A) Q s :
  wp (m1 ;;; m2 ;;; m3) (fun _ s' => wp m4 Q s') s → wp (m1 ;;; m2 ;;; m3 ;;; m4) Q s.
Proof.
  unfold wp, bind. destruct (m1 s) as [? s1| | | |]; try done. destruct (m2 s1) as [? s2| | | |]; try done.
  by destruct (m3 s2).
Qed.

Section alloc.
Context (dev : Z) (p : nat) (pid start : Z) (sb : superblock).
#[local] Existing Instance ideal_disk.
#[local] Existing Instance KB.
#[local] Instance KS' : BlocksSpec KB := KS dev p pid.

(** The kernel with superblock [sb]; the caller does not have to sleep. *)
Record fsr (s : kst * list (kst → kst)) (a : cache) : Prop := {
  fs_krepr : krepr dev p pid s a;
  fs_env : snd s = [];
  fs_sb : k_sb (fst s) = sb
}.

Lemma fsr_wp {A} (m : KM A) (Q Q' : A → kst * list (kst → kst) → Prop) s a :
  fsr s a → keeps (on_env k_sb eq) m → wp m Q s →
  (∀ x s', Q x s' → snd s' = [] → k_sb (fst s') = sb → Q' x s') → wp m Q' s.
Proof.
  intros [_ He Hs] Hk H HQ. eapply wp_mono; [exact (wp_keeps _ _ _ _ Hk H)|].
  intros x s' [Hx Hp]. destruct (Hp He) as [He' Hs']. apply HQ; [done|done|congruence].
Qed.

Lemma fs_get_sb Q s a : fsr s a → Q sb s → wp (⇑ get_sb) Q s.
Proof. destruct s as [k e]. intros [_ _ Hs] HQ. apply wp_lift. unfold get_sb, gets, wp. cbn in Hs. by rewrite Hs. Qed.

(** The same, with what the file system below does not touch: the inode table, memory and
    page tables are [t]. *)
Definition fsx (t : rest) (s : kst * list (kst → kst)) (a : cache) : Prop := fsr s a ∧ itable (fst s) = t.

Lemma fsx_wp {A} (m : KM A) (Q Q' : A → kst * list (kst → kst) → Prop) t s a :
  fsx t s a → (∀ X (π : kst → X), Frame π → FrameLog π → keeps (on_env π eq) m) → wp m Q s →
  (∀ x s', Q x s' → snd s' = [] → k_sb (fst s') = sb → itable (fst s') = t → Q' x s') → wp m Q' s.
Proof.
  intros [Hf Ht] Hk H HQ. apply (fsr_wp m (fun x s' => Q x s' ∧ on_env itable eq s s') Q' s a Hf).
  - apply Hk; typeclasses eauto.
  - apply wp_keeps; [|done]. apply Hk; typeclasses eauto.
  - intros x s' [Hx Hp] He Hs. destruct (Hp (fs_env _ _ Hf)) as [_ Ht']. apply HQ; [done|done|done|congruence].
Qed.

Lemma fsx_self s a : fsr s a → fsx (itable (fst s)) s a.
Proof. by intros. Qed.
Lemma fsx_get_sb Q t s a : fsx t s a → Q sb s → wp (⇑ get_sb) Q s.
Proof. intros [Hf _]. by apply (fs_get_sb Q s a). Qed.
Lemma fsx_data b n t s a : fsx t s a → a_held a !! b = Some n → wp (⇑ (get_data b)) (fun d s' => d = blk (a_view a) n ∧ fsx t s' a) s.
Proof.
  intros Hf Hb. eapply (fsx_wp _ _ _ t s a Hf); [intros X π ? ?; apply keeps_lift; unfold get_data; keeps; apply keeps_get_buf; typeclasses eauto| |].
  - exact (data_krepr dev p pid b n s a (fs_krepr _ _ (proj1 Hf)) Hb).
  - intros d s' [Hd Hk] He Hs Ht. split; [done|]. split; [by split|done].
Qed.

(** The same with other buffers [H] held. *)
Lemma fs_bread_hold n bl H t s a :
  fsx t s (hold H a) → open_txn start bl a → (length bl + size H < NBUF)%nat → (∀ b, H !! b ≠ Some n) →
  wp (bread dev n) (fun b s' => H !! b = None ∧ fsx t s' (hold (<[b := n]> H) a)) s.
Proof.
  intros Hf Hot Hl Hn. eapply (fsx_wp _ _ _ t s _ Hf); [intros X π ? ?; apply keeps_bread; typeclasses eauto| |].
  - by apply (bread_hold_wp dev p pid start n bl H s a (fs_krepr _ _ (proj1 Hf))).
  - intros b s' [Hb Hk] He Hs Ht. split; [done|]. split; [by split|done].
Qed.

Lemma fs_bread n bl s a :
  fsr s a → open_txn start bl a → (length bl < NBUF)%nat →
  wp (bread dev n) (fun b s' => fsr s' (a <| a_held ::= <[b := n]> |>)) s.
Proof.
  intros Hf Hot Hl. eapply wp_mono; [apply (fs_bread_hold n bl ∅ (itable (fst s)) s a); [rewrite (hold_none dev p pid start bl) by done; by apply fsx_self|done|rewrite map_size_empty; lia|done]|].
  intros b s' [_ [Hf' _]]. by rewrite (hold_one dev p pid start bl).
Qed.

Lemma fs_data b n s a : fsr s a → a_held a !! b = Some n → wp (⇑ (get_data b)) (fun d s' => d = blk (a_view a) n ∧ fsr s' a) s.
Proof.
  intros Hf Hb. eapply (fsr_wp _ _ _ s a Hf); [apply keeps_lift; unfold get_data; keeps; apply keeps_get_buf; typeclasses eauto| |].
  - exact (data_krepr dev p pid b n s a (fs_krepr _ _ Hf) Hb).
  - intros d s' [Hd Hk] He Hs. split; [done|]. by split.
Qed.

Lemma keeps_log_block b d X (π : kst → X) : Frame π → FrameLog π → keeps (on_env π eq) (⇑ (set_data b d) ;;; ⇑ (log_write b)).
Proof. intros ? ?. unfold set_data. keeps; [apply keeps_upd_buf; typeclasses eauto|apply keeps_log_write; typeclasses eauto]. Qed.

Lemma fs_log_hold b n d bl H t s a :
  fsx t s (hold H a) → H !! b = Some n → open_txn start bl a → room start bl n a → length d = Z.to_nat BSIZE →
  wp (⇑ (set_data b d) ;;; ⇑ (log_write b)) (fun _ s' => ∃ a', fsx t s' (hold H a') ∧ updated dev p pid start n d bl a a') s.
Proof.
  intros Hf Hb Hot Hro Hd. eapply (fsx_wp _ _ _ t s _ Hf); [intros X π ? ?; by apply keeps_log_block| |].
  - exact (log_hold_wp dev p pid start b n d bl H s a (fs_krepr _ _ (proj1 Hf)) Hb Hot Hro Hd).
  - intros [] s' (a' & Hk & Hu) He Hs Ht. exists a'. split; [split; [by split|done]|done].
Qed.

(** Releasing a block that was only read, or logged. *)
Lemma fs_brelse_hold b n bl H t s a :
  fsx t s (hold (<[b := n]> H) a) → H !! b = None → open_txn start bl a → wp (⇑ (brelse b)) (fun _ s' => fsx t s' (hold H a)) s.
Proof.
  intros Hf Hb Hot. eapply (fsx_wp _ _ _ t s _ Hf); [intros X π ? ?; apply keeps_lift, keeps_brelse; typeclasses eauto| |].
  - exact (brelse_hold_wp dev p pid start b n bl H s a (fs_krepr _ _ (proj1 Hf)) Hb Hot).
  - intros [] s' Hk He Hs Ht. split; [by split|done].
Qed.

Lemma fs_log_block_hold b n d bl H t s a :
  fsx t s (hold (<[b := n]> H) a) → H !! b = None → open_txn start bl a → room start bl n a → length d = Z.to_nat BSIZE →
  wp (⇑ (set_data b d) ;;; ⇑ (log_write b) ;;; ⇑ (brelse b)) (fun _ s' => ∃ a', fsx t s' (hold H a') ∧ updated dev p pid start n d bl a a') s.
Proof.
  intros Hf Hb Hot Hro Hd. pose proof (fs_log_hold b n d bl _ t s a Hf (lookup_insert_eq _ _ _) Hot Hro Hd) as Hw.
  unfold wp, bind in Hw |- *. destruct (⇑ (set_data b _) s) as [u1 s1| | | |]; try done. destruct (⇑ (log_write b) s1) as [u2 s2| | | |]; try done.
  destruct Hw as (a' & Hf' & Hu). eapply wp_mono; [by apply (fs_brelse_hold b n _ H t s2 a' Hf' Hb (up_open _ _ _ _ _ _ _ _ _ Hu))|].
  intros [] s3 Hf3. by exists a'.
Qed.

Lemma fs_log_block b n d bl s a :
  fsr s (a <| a_held ::= <[b := n]> |>) → open_txn start bl a → room start bl n a → length d = Z.to_nat BSIZE →
  wp (⇑ (set_data b d) ;;; ⇑ (log_write b) ;;; ⇑ (brelse b)) (fun _ s' => ∃ a', fsr s' a' ∧ updated dev p pid start n d bl a a') s.
Proof.
  intros Hf Hot Hro Hd. rewrite (hold_one dev p pid start bl) in Hf by done. eapply wp_mono; [by apply (fs_log_block_hold b n d bl ∅ _ s a (fsx_self _ _ Hf))|].
  intros [] s' (a' & [Hf' _] & Hu). exists a'. split; [|done]. by rewrite (hold_none dev p pid start _ a' (up_open _ _ _ _ _ _ _ _ _ Hu)) in Hf'.
Qed.

Lemma fs_brelse b n bl s a :
  fsr s (a <| a_held ::= <[b := n]> |>) → open_txn start bl a → wp (⇑ (brelse b)) (fun _ s' => fsr s' a) s.
Proof.
  intros Hf Hot. rewrite (hold_one dev p pid start bl) in Hf by done. eapply wp_mono; [by apply (fs_brelse_hold b n bl ∅ _ s a (fsx_self _ _ Hf))|].
  intros [] s' [Hf' _]. by rewrite (hold_none dev p pid start bl) in Hf'.
Qed.

Lemma fs_bzero n bl H t s a :
  u32 dev = dev → fsx t s (hold H a) → open_txn start bl a → room start bl n a → (length bl + size H < NBUF)%nat → (∀ b, H !! b ≠ Some n) →
  wp (bzero dev n) (fun _ s' => ∃ a', fsx t s' (hold H a') ∧ updated dev p pid start n (replicate (Z.to_nat BSIZE) 0) bl a a') s.
Proof.
  intros Hdev Hf Hot Hro Hlen Hn. unfold bzero. rewrite Hdev.
  replace (u32 n) with n by (symmetry; apply wrap_small; destruct Hro as (? & _); lia).
  apply wp_bind. eapply wp_mono; [by apply (fs_bread_hold n bl H t s a Hf Hot)|].
  intros b s1 [Hb Hf1]. by apply (fs_log_block_hold b n _ bl H t s1 a Hf1 Hb Hot Hro).
Qed.

(** Block [i] is marked in the bitmap of [v]. *)
Definition used (v : blocks) (i : Z) : bool := bit_set (blk v (BBLOCK i sb)) (i mod BPB).

(** The bitmap lies on the disk outside the log. *)
Record layout : Prop := {
  la_size : 0 ≤ sb_size sb < 2 ^ 31;
  la_bmap : 0 ≤ sb_bmapstart sb ∧ sb_bmapstart sb + sb_size sb / BPB < 2 ^ 31;
  la_log i : 0 ≤ i < sb_size sb → ¬ in_log start (BBLOCK i sb)
}.
(** The log and the bitmap are marked in the bitmap. *)
Definition meta_used (v : blocks) : Prop :=
  ∀ m i, 0 ≤ m < sb_size sb → 0 ≤ i < sb_size sb → in_log start m ∨ m = BBLOCK i sb → used v m = true.

Lemma BBLOCK_eq i : layout → 0 ≤ i < sb_size sb → BBLOCK i sb = i / BPB + sb_bmapstart sb.
Proof.
  intros [Hs Hb _] Hi. unfold BBLOCK. apply wrap_small.
  pose proof (Z.div_pos i BPB). pose proof (Z.div_le_mono i (sb_size sb) BPB). unfold BPB, BSIZE in *. lia.
Qed.

Lemma BBLOCK_range i : layout → 0 ≤ i < sb_size sb → 0 ≤ BBLOCK i sb < 2 ^ 31.
Proof.
  intros Hl Hi. rewrite BBLOCK_eq by done. destruct Hl as [Hs Hb _].
  pose proof (Z.div_pos i BPB). pose proof (Z.div_le_mono i (sb_size sb) BPB). unfold BPB, BSIZE in *. lia.
Qed.

(** Bit [j] of the bitmap block of [q * BPB] is block [q * BPB + j]. *)
Lemma used_bit v q j :
  layout → 0 ≤ q → 0 ≤ j < BPB → q * BPB + j < sb_size sb →
  bit_set (blk v (BBLOCK (q * BPB) sb)) j = used v (q * BPB + j).
Proof.
  intros Hl Hq Hj Hlt. unfold used.
  assert (E1 : (q * BPB + j) / BPB = q) by (symmetry; apply (Z.div_unique_pos _ _ _ j); lia).
  assert (E2 : (q * BPB + j) mod BPB = j) by (symmetry; apply (Z.mod_unique_pos _ _ q); lia).
  rewrite E2, !BBLOCK_eq, E1, Z.div_mul by (done || unfold BPB, BSIZE in *; lia). done.
Qed.

(** Buffers that [balloc] does not need: of blocks in use, none of the bitmap. *)
Definition spared (v : blocks) (H : gmap nat Z) : Prop := ∀ b x, H !! b = Some x → used v x = true ∧ ∀ i, 0 ≤ i < sb_size sb → x ≠ BBLOCK i sb.

(** [balloc] at bitmap block [q] when all of its blocks are in use. *)
Lemma balloc_body_full q bl H t s a :
  layout → fsx t s (hold H a) → open_txn start bl a → (length bl + size H < NBUF)%nat → spared (a_view a) H → 0 ≤ q → q * BPB + BPB ≤ sb_size sb →
  (∀ i, q * BPB ≤ i < q * BPB + BPB → used (a_view a) i = true) →
  wp (balloc_body dev (q * BPB)) (fun r s' => r = inl ((q + 1) * BPB) ∧ fsx t s' (hold H a)) s.
Proof.
  intros Hl Hf Hot Hlen Hsp Hq Hsz Hall. unfold balloc_body. apply wp_bind, (fsx_get_sb _ t s _ Hf).
  assert (0 < BPB) by (unfold BPB, BSIZE; lia). rewrite (proj2 (Z.ltb_lt _ _)) by lia. cbn [negb].
  apply wp_bind. eapply wp_mono; [apply (fs_bread_hold (BBLOCK (q * BPB) sb) bl H t s a Hf Hot Hlen)|].
  { intros b Hb. destruct (Hsp _ _ Hb) as [_ Hx]. apply (Hx (q * BPB)); [unfold BPB, BSIZE in *; lia|done]. }
  intros b s1 [Hb1 Hf1].
  apply wp_bind. eapply wp_mono; [apply (fsx_data b (BBLOCK (q * BPB) sb) t s1 _ Hf1); cbn; by rewrite lookup_insert_eq|].
  intros d s2 [-> Hf2]. change (a_view (hold (<[b := BBLOCK (q * BPB) sb]> H) a)) with (a_view a) in *. rewrite first_clear_None.
  - apply wp_bind. eapply wp_mono; [by apply (fs_brelse_hold b _ bl H t s2 a Hf2)|]. intros [] s3 Hf3. apply wp_ret.
    split; [f_equal; lia|done].
  - intros j Hj. rewrite used_bit by (done || lia). apply Hall. lia.
Qed.

(** The states after [balloc] took block [n]: its bit is set, then the block is zeroed. *)
Definition allocated (n : Z) (bl : list Z) (a a2 : cache) : Prop :=
  ∃ a1, updated dev p pid start (BBLOCK n sb) (set_bit (blk (a_view a) (BBLOCK n sb)) (n mod BPB)) bl a a1 ∧
    updated dev p pid start n (replicate (Z.to_nat BSIZE) 0) (logged bl (BBLOCK n sb)) a1 a2.

(** Room in the cache and in the log for two more blocks. *)
Definition two_more (bl : list Z) (H : gmap nat Z) (a : cache) : Prop :=
  (length bl + size H + 2 < NBUF)%nat ∧ 1 ≤ l_outstanding (a_log a) ∧ Z.of_nat (length bl) + 2 < l_size (a_log a).

Lemma balloc_body_found q j bl H t s a :
  let n := q * BPB + j in
  layout → u32 dev = dev → meta_used (a_view a) → fsx t s (hold H a) → open_txn start bl a → two_more bl H a → spared (a_view a) H →
  0 ≤ q → 0 ≤ j < BPB → n < sb_size sb → used (a_view a) n = false →
  (∀ i, q * BPB ≤ i < n → used (a_view a) i = true) →
  wp (balloc_body dev (q * BPB)) (fun r s' => r = inr n ∧ ∃ a', fsx t s' (hold H a') ∧ allocated n bl a a') s.
Proof.
  intros n Hl Hdev Hmeta Hf Hot (Hlen & Ho & Hsz) Hsp Hq Hj Hn Hfree Hbef.
  assert (0 ≤ n) by (unfold n, BPB, BSIZE in *; lia).
  unfold balloc_body. apply wp_bind, (fsx_get_sb _ t s _ Hf).
  rewrite (proj2 (Z.ltb_lt _ _)) by (unfold n in *; lia). cbn [negb].
  assert (EB : BBLOCK (q * BPB) sb = BBLOCK n sb).
  { rewrite !BBLOCK_eq by (done || unfold n, BPB, BSIZE in *; lia). f_equal. unfold n.
    rewrite Z.div_mul by done. apply (Z.div_unique_pos _ _ _ j); lia. }
  assert (Ej : n mod BPB = j) by (symmetry; apply (Z.mod_unique_pos _ _ q); unfold n; lia).
  assert (HnB : ∀ b, H !! b ≠ Some (BBLOCK n sb)) by (intros b Hb; destruct (Hsp _ _ Hb) as [_ Hx]; by apply (Hx n)).
  assert (Hnn : ∀ b, H !! b ≠ Some n) by (intros b Hb; destruct (Hsp _ _ Hb) as [Hx _]; congruence).
  apply wp_bind. eapply wp_mono; [apply (fs_bread_hold (BBLOCK (q * BPB) sb) bl H t s a Hf Hot); [lia|by rewrite EB]|]. intros b s1 [Hb1 Hf1].
  apply wp_bind. eapply wp_mono; [apply (fsx_data b (BBLOCK (q * BPB) sb) t s1 _ Hf1); cbn; by rewrite lookup_insert_eq|].
  intros d s2 [-> Hf2]. change (a_view (hold (<[b := BBLOCK (q * BPB) sb]> H) a)) with (a_view a) in *.
  rewrite (first_clear_Some _ 0 _ j).
  2:{ unfold n in *. lia. } 2:{ by rewrite used_bit by (done || unfold n in *; lia). }
  2:{ intros i Hi. rewrite used_bit by (done || unfold n in *; lia). apply Hbef. unfold n. lia. }
  rewrite EB in *. rewrite <- Ej at 1. pose proof (logged_length bl (BBLOCK n sb)).
  pose proof (logged_length (logged bl (BBLOCK n sb)) n).
  apply wp_seq3. eapply wp_mono; [apply (fs_log_block_hold b (BBLOCK n sb) _ bl H t s2 a Hf2 Hb1 Hot)|].
  { split_and!; try lia; [by apply BBLOCK_range|by apply BBLOCK_range|apply Hl; lia]. }
  { unfold set_bit. rewrite length_alter. apply (bo_sized _ _ _ _ (kr_bufs _ _ _ _ _ (fs_krepr _ _ (proj1 Hf)))). }
  intros [] s3 (a1 & Hf3 & Hu1).
  apply wp_bind. eapply wp_mono; [apply (fs_bzero (q * BPB + j) (logged bl (BBLOCK n sb)) H t s3 a1 Hdev Hf3 (up_open _ _ _ _ _ _ _ _ _ Hu1))|].
  { fold n. destruct Hu1 as [_ _ _ Ho1 Hs1 _]. rewrite <- Ho1, <- Hs1 in *. pose proof (la_size Hl).
    split_and!; try lia. intros Hin. rewrite (Hmeta n n) in Hfree by (lia || by left). done. }
  { lia. } { done. }
  intros [] s4 (a2 & Hf4 & Hu2). apply wp_ret. split; [done|]. exists a2. split; [done|]. by exists a1.
Qed.

(** The block [balloc] takes: the first one that is free. *)
Definition first_free (v : blocks) (n : Z) : Prop :=
  0 ≤ n < sb_size sb ∧ used v n = false ∧ ∀ i, 0 ≤ i < n → used v i = true.

Lemma balloc_hold_wp n bl H t s a :
  layout → u32 dev = dev → meta_used (a_view a) → fsx t s (hold H a) → open_txn start bl a → two_more bl H a → spared (a_view a) H → first_free (a_view a) n →
  wp (balloc dev) (fun r s' => r = n ∧ ∃ a', fsx t s' (hold H a') ∧ allocated n bl a a') s.
Proof.
  intros Hl Hdev Hmeta Hf Hot Htwo Hsp (Hn & Hfree & Hbef). unfold balloc. apply wp_bind, (fsx_get_sb _ t s _ Hf).
  assert (HB : 0 < BPB) by (unfold BPB, BSIZE; lia).
  pose proof (Z.div_mod n BPB ltac:(lia)) as Hdm. pose proof (Z.mod_pos_bound n BPB HB) as Hmod.
  pose proof (Z.div_pos n BPB ltac:(lia) HB). pose proof (Z.div_le_mono n (sb_size sb) BPB HB ltac:(lia)).
  apply (wp_loop (fun b s' => fsx t s' (hold H a) ∧ ∃ q, b = q * BPB ∧ 0 ≤ q ≤ n / BPB) (fun b => Z.to_nat (n / BPB - b / BPB))).
  2:{ split; [done|]. exists 0. lia. }
  2:{ rewrite Z.div_0_l by lia. lia. }
  intros b s1 [Hf1 (q & -> & Hq)]. rewrite Z.div_mul by lia. destruct (decide (q = n / BPB)) as [->|Hne].
  - eapply wp_mono; [apply (balloc_body_found (n / BPB) (n mod BPB) bl H t s1 a); try done|].
    + lia.
    + by replace (n / BPB * BPB + n mod BPB) with n by lia.
    + intros i Hi. apply Hbef. lia.
    + replace (n / BPB * BPB + n mod BPB) with n by lia. by intros r s2 [-> H2].
  - assert (q * BPB + BPB ≤ n) by nia.
    eapply wp_mono; [apply (balloc_body_full q bl H t s1 a); try done; try lia|].
    + destruct Htwo as (? & _ & _). lia.
    + intros i Hi. apply Hbef. nia.
    + intros r s2 [-> Hf2]. split; [split; [done|]; exists (q + 1); lia|]. rewrite Z.div_mul by lia. lia.
Qed.

Lemma balloc_wp n bl s a :
  layout → u32 dev = dev → meta_used (a_view a) → fsr s a → open_txn start bl a → (length bl + 2 < NBUF)%nat →
  1 ≤ l_outstanding (a_log a) → Z.of_nat (length bl) + 2 < l_size (a_log a) → first_free (a_view a) n →
  wp (balloc dev) (fun r s' => r = n ∧ ∃ a', fsr s' a' ∧ allocated n bl a a') s.
Proof.
  intros Hl Hdev Hmeta Hf Hot Hlen Ho Hsz Hff. eapply wp_mono; [apply (balloc_hold_wp n bl ∅ (itable (fst s)) s a Hl Hdev Hmeta); try done|].
  - rewrite (hold_none dev p pid start bl) by done. by apply fsx_self.
  - split_and!; [rewrite map_size_empty; lia|done|done].
  - intros r s' [-> (a' & [Hf' _] & Hal)]. split; [done|]. exists a'. split; [|done]. destruct Hal as (a1 & _ & Hu).
    by rewrite (hold_none dev p pid start _ a' (up_open _ _ _ _ _ _ _ _ _ Hu)) in Hf'.
Qed.

Definition fsr_sized (a : cache) : Prop := ∀ m, length (blk (a_view a) m) = Z.to_nat BSIZE.


(** What the bitmap and the blocks say after an allocation. *)
Lemma allocated_view n bl a a' :
  layout → fsr_sized a → meta_used (a_view a) → first_free (a_view a) n → allocated n bl a a' →
  a_disk a' = a_disk a ∧ blk (a_view a') n = replicate (Z.to_nat BSIZE) 0 ∧
  (∀ i, 0 ≤ i < sb_size sb → used (a_view a') i = bool_decide (i = n) || used (a_view a) i) ∧
  (∀ m, m ≠ n → m ≠ BBLOCK n sb → blk (a_view a') m = blk (a_view a) m).
Proof.
  intros Hl Hsz Hmeta (Hn & Hfree & _) (a1 & [_ Hd1 Hv1 _ _ _] & [_ Hd2 Hv2 _ _ _]).
  assert (Hne : ∀ i, 0 ≤ i < sb_size sb → BBLOCK i sb ≠ n).
  { intros i Hi E. rewrite (Hmeta n i) in Hfree by (done || by right). done. }
  rewrite Hv2, Hv1. split_and!.
  - congruence.
  - unfold blk. by rewrite lookup_insert_eq.
  - intros i Hi. unfold used. rewrite blk_insert_ne by (by apply not_eq_sym, Hne).
    pose proof (Z.mod_pos_bound i BPB ltac:(done)). pose proof (Z.mod_pos_bound n BPB ltac:(done)).
    pose proof (Z.div_mod i BPB ltac:(done)). pose proof (Z.div_mod n BPB ltac:(done)).
    destruct (decide (BBLOCK n sb = BBLOCK i sb)) as [E|E].
    + rewrite E, blk_insert_eq, bit_set_set_bit; [|lia|lia|rewrite Hsz; apply Z2Nat.inj_lt; [apply Z.div_pos; lia|done|];
        apply Z.div_lt_upper_bound; unfold BPB in *; lia].
      f_equal. rewrite !BBLOCK_eq in E by done. apply bool_decide_ext. split; [|by intros ->]. intros. nia.
    + rewrite blk_insert_ne by done. rewrite bool_decide_eq_false_2; [done|]. by intros ->.
  - intros m H1 H2. by rewrite !blk_insert_ne by (by apply not_eq_sym).
Qed.

Lemma bfree_wp n bl s a :
  layout → u32 dev = dev → fsr_sized a → fsr s a → open_txn start bl a → (length bl + 1 < NBUF)%nat →
  1 ≤ l_outstanding (a_log a) → Z.of_nat (length bl) + 1 < l_size (a_log a) →
  0 ≤ n < sb_size sb → used (a_view a) n = true →
  wp (bfree dev n) (fun _ s' => ∃ a', fsr s' a' ∧
    updated dev p pid start (BBLOCK n sb) (clear_bit (blk (a_view a) (BBLOCK n sb)) (n mod BPB)) bl a a') s.
Proof.
  intros Hl Hdev Hsd Hf Hot Hlen Ho Hsz Hn Hu. unfold bfree. rewrite Hdev. apply wp_bind, (fs_get_sb _ s a Hf).
  apply wp_bind. eapply wp_mono; [apply (fs_bread _ bl s a Hf Hot); lia|]. intros b s1 Hf1.
  apply wp_bind. eapply wp_mono; [apply (fs_data b (BBLOCK n sb) s1 _ Hf1); cbn; by rewrite lookup_insert_eq|].
  intros d s2 [-> Hf2]. change (a_view (a <| a_held ::= _ |>)) with (a_view a). unfold used in Hu. rewrite Hu. cbn [negb].
  apply (fs_log_block b (BBLOCK n sb) _ bl s2 a Hf2 Hot).
  - pose proof (logged_length bl (BBLOCK n sb)). split_and!; try lia; [by apply BBLOCK_range|by apply BBLOCK_range|apply Hl; lia].
  - unfold clear_bit. rewrite length_alter. apply Hsd.
Qed.

(** [bfree] of a block that is not in use. *)
Lemma bfree_panics n bl s a :
  u32 dev = dev → fsr s a → open_txn start bl a → (length bl < NBUF)%nat → used (a_view a) n = false →
  ∃ s', bfree dev n s = Panic "freeing free block" s'.
Proof.
  intros Hdev Hf Hot Hlen Hu. unfold bfree. rewrite Hdev.
  destruct (proj1 (wp_Ok _ _ _) (fs_get_sb (fun r s' => r = sb ∧ s' = s) s a Hf ltac:(done))) as (? & ? & E0 & -> & ->).
  destruct (proj1 (wp_Ok _ _ _) (fs_bread (BBLOCK n sb) bl s a Hf Hot Hlen)) as (b & s1 & E1 & Hf1).
  destruct (proj1 (wp_Ok _ _ _) (fs_data b (BBLOCK n sb) s1 _ Hf1 ltac:(cbn; by rewrite lookup_insert_eq)))
    as (d & s2 & E2 & -> & Hf2).
  rewrite (bind_Ok _ _ _ _ _ E0), (bind_Ok _ _ _ _ _ E1), (bind_Ok _ _ _ _ _ E2).
  change (a_view (a <| a_held ::= _ |>)) with (a_view a). unfold used in Hu. rewrite Hu. by exists s2.
Qed.

Lemma used_cleared n v i :
  layout → (∀ m, length (blk v m) = Z.to_nat BSIZE) → 0 ≤ n < sb_size sb → 0 ≤ i < sb_size sb →
  used (<[BBLOCK n sb := clear_bit (blk v (BBLOCK n sb)) (n mod BPB)]> v) i = negb (bool_decide (n = i)) && used v i.
Proof.
  intros Hl Hsz Hn Hi. unfold used. pose proof (Z.mod_pos_bound i BPB ltac:(done)). pose proof (Z.mod_pos_bound n BPB ltac:(done)).
  pose proof (Z.div_mod i BPB ltac:(done)). pose proof (Z.div_mod n BPB ltac:(done)).
  destruct (decide (BBLOCK n sb = BBLOCK i sb)) as [E|E].
  - rewrite E, blk_insert_eq, bit_set_clear_bit; [|lia|lia|rewrite Hsz; apply Z2Nat.inj_lt; [apply Z.div_pos; lia|done|];
      apply Z.div_lt_upper_bound; unfold BPB in *; lia].
    f_equal. f_equal. rewrite !BBLOCK_eq in E by done. apply bool_decide_ext. split; [|by intros ->]. intros. nia.
  - rewrite blk_insert_ne by done. rewrite bool_decide_eq_false_2; [done|]. by intros ->.
Qed.
End alloc.

(** ** Structures inside blocks *)

Lemma field_app_l (bs rest : list Z) k n : (k + n ≤ length bs)%nat → field (bs ++ rest) k n = field bs k n.
Proof. intros H. unfold field. rewrite drop_app_le by lia. rewrite take_app_le; [done|]. rewrite length_drop. lia. Qed.

Lemma field_app_r (bs rest : list Z) k n : field (bs ++ rest) (length bs + k) n = field rest k n.
Proof. unfold field. by rewrite drop_app_add. Qed.

Lemma field_set_same d off bs k n :
  (off ≤ length d)%nat → (k + n ≤ length bs)%nat → field (set_bytes d off bs) (off + k) n = field bs k n.
Proof.
  intros Hd Hk. unfold set_bytes. replace (off + k)%nat with (length (take off d) + k)%nat by (rewrite length_take_le; lia).
  rewrite field_app_r. by apply field_app_l.
Qed.

Lemma field_set_other d off bs k n :
  (off + length bs ≤ length d)%nat → (k + n ≤ off ∨ off + length bs ≤ k)%nat → field (set_bytes d off bs) k n = field d k n.
Proof.
  intros Hd [Hk|Hk]; unfold field, set_bytes.
  - rewrite drop_app_le by (rewrite length_take; lia). rewrite take_app_le by (rewrite length_drop, length_take; lia).
    rewrite skipn_firstn_comm, take_take. f_equal. f_equal. lia.
  - do 2 f_equal. rewrite drop_app_ge by (rewrite length_take; lia). rewrite length_take_le by lia.
    rewrite drop_app_ge by lia. rewrite drop_drop. f_equal. lia.
Qed.

Lemma field_le n v rest : field (le_bytes n v ++ rest) 0 n = v mod 2 ^ (8 * Z.of_nat n).
Proof.
  rewrite field_app_l by (rewrite length_le_bytes; lia). unfold field. rewrite drop_0, take_ge by (rewrite length_le_bytes; lia).
  apply le_val_bytes.
Qed.

Lemma field_skip n v rest k m : field (le_bytes n v ++ rest) (n + k) m = field rest k m.
Proof. replace (n + k)%nat with (length (le_bytes n v) + k)%nat by (by rewrite length_le_bytes). apply field_app_r. Qed.

(** The values a [struct dinode] can hold. *)
Record dinode_ok (di : dinode) : Prop := {
  ok_type : - 2 ^ 15 ≤ di_type di < 2 ^ 15;
  ok_major : - 2 ^ 15 ≤ di_major di < 2 ^ 15;
  ok_minor : - 2 ^ 15 ≤ di_minor di < 2 ^ 15;
  ok_nlink : - 2 ^ 15 ≤ di_nlink di < 2 ^ 15;
  ok_dsize : 0 ≤ di_size di < 2 ^ 32;
  ok_len : length (di_addrs di) = 13%nat;
  ok_addrs x : x ∈ di_addrs di → 0 ≤ x < 2 ^ 32
}.

Lemma length_flat_le (l : list Z) : length (flat_map (le_bytes 4) l) = (4 * length l)%nat.
Proof. induction l as [|x l IH]; [done|]. cbn [flat_map length]. rewrite length_app, length_le_bytes, IH. lia. Qed.

Lemma length_dinode di : length (di_addrs di) = 13%nat → length (dinode_bytes di) = 64%nat.
Proof. intros H. unfold dinode_bytes. rewrite !length_app, !length_le_bytes, length_flat_le, H. done. Qed.

Lemma field_flat (l : list Z) i x : l !! i = Some x → field (flat_map (le_bytes 4) l) (4 * i) 4 = x mod 2 ^ 32.
Proof.
  revert i. induction l as [|y l IH]; intros i Hi; [done|]. cbn [flat_map]. destruct i as [|i].
  - injection Hi as ->. apply field_le.
  - replace (4 * S i)%nat with (4 + 4 * i)%nat by lia. rewrite field_skip. by apply IH.
Qed.

Lemma s16_mod v : - 2 ^ 15 ≤ v < 2 ^ 15 → s16 (v mod 2 ^ 16) = v.
Proof.
  intros Hv. change (v mod 2 ^ 16) with (wrap 16 v). unfold s16, sgn. rewrite wrap_wrap. apply (sgn_small 16); lia.
Qed.

Lemma dinode_fields di :
  let b := dinode_bytes di in
  field b 0 2 = di_type di mod 2 ^ 16 ∧ field b 2 2 = di_major di mod 2 ^ 16 ∧ field b 4 2 = di_minor di mod 2 ^ 16 ∧
  field b 6 2 = di_nlink di mod 2 ^ 16 ∧ field b 8 4 = di_size di mod 2 ^ 32.
Proof.
  cbv zeta. unfold dinode_bytes. split_and!.
  - apply field_le.
  - rewrite (field_skip 2 _ _ 0). apply field_le.
  - rewrite (field_skip 2 _ _ 2), (field_skip 2 _ _ 0). apply field_le.
  - rewrite (field_skip 2 _ _ 4), (field_skip 2 _ _ 2), (field_skip 2 _ _ 0). apply field_le.
  - rewrite (field_skip 2 _ _ 6), (field_skip 2 _ _ 4), (field_skip 2 _ _ 2), (field_skip 2 _ _ 0). apply field_le.
Qed.

Lemma read_dinode_bytes d off di :
  dinode_ok di → (off + 64 ≤ length d)%nat → read_dinode (set_bytes d off (dinode_bytes di)) off = di.
Proof.
  intros [H1 H2 H3 H4 H5 H6 H7] Hlen. pose proof (length_dinode di H6) as Hb. unfold read_dinode.
  rewrite <- (Nat.add_0_r off) at 2. rewrite !field_set_same by lia.
  assert (Ha : (fun i => field (set_bytes d off (dinode_bytes di)) (off + 12 + 4 * i) 4) <$> seq 0 13 = di_addrs di).
  { apply list_eq. intros i. rewrite list_lookup_fmap. destruct (decide (i < 13)%nat) as [Hi|Hi].
    - rewrite lookup_seq_lt by done. cbn [fmap option_fmap option_map]. destruct (lookup_lt_is_Some_2 (di_addrs di) i) as [x Hx]; [lia|].
      rewrite Hx. f_equal. replace (off + 12 + 4 * (0 + i))%nat with (off + (2 + (2 + (2 + (2 + (4 + 4 * i))))))%nat by lia.
      rewrite field_set_same by lia. unfold dinode_bytes. rewrite !field_skip, (field_flat _ i x Hx). apply Z.mod_small.
      apply H7. by eapply list_elem_of_lookup_2.
    - rewrite lookup_seq_ge by lia. symmetry. apply lookup_ge_None_2. lia. }
  change (map ?f ?l) with (f <$> l). rewrite Ha. unfold dinode_bytes.
  destruct (dinode_fields di) as (E1 & E2 & E3 & E4 & E5). unfold dinode_bytes in E1, E2, E3, E4, E5.
  rewrite E1, E2, E3, E4, E5, !s16_mod, Z.mod_small by done. by destruct di.
Qed.

(** The other inodes of the block. *)
Lemma read_dinode_other d off off' bs :
  length bs = 64%nat → (off + 64 ≤ length d)%nat → (off' + 64 ≤ off ∨ off + 64 ≤ off')%nat →
  read_dinode (set_bytes d off bs) off' = read_dinode d off'.
Proof.
  intros Hb Hd Ho. unfold read_dinode. rewrite !field_set_other by lia. f_equal.
  apply map_ext_in. intros i Hi%in_seq. apply field_set_other; lia.
Qed.
(** ** iupdate *)

(** The bytes of [ip] as iupdate writes them and ilock reads them. *)
Definition dinode_of (r : inode) : dinode :=
  mkdinode (i_type r) (i_major r) (i_minor r) (i_nlink r) (i_size r) (i_addrs r).
Definition disk_inode (sb : superblock) (v : blocks) (inum : Z) : dinode :=
  read_dinode (blk v (IBLOCK inum sb)) (dinode_off inum).

Record inode_area (start : Z) (sb : superblock) : Prop := {
  ia_start : 0 ≤ sb_inodestart sb ∧ sb_inodestart sb + sb_ninodes sb / IPB < 2 ^ 31;
  ia_log i : 0 ≤ i < sb_ninodes sb → ¬ in_log start (IBLOCK i sb)
}.

Lemma IBLOCK_eq start sb i : inode_area start sb → 0 ≤ i < sb_ninodes sb → IBLOCK i sb = i / IPB + sb_inodestart sb.
Proof.
  intros [Hb _] Hi. unfold IBLOCK. apply wrap_small. change IPB with 16 in *.
  pose proof (Z.div_pos i 16). pose proof (Z.div_le_mono i (sb_ninodes sb) 16). lia.
Qed.

Lemma dinode_off_eq i : 0 ≤ i → dinode_off i = (64 * Z.to_nat (i mod 16))%nat ∧ (dinode_off i + 64 ≤ 1024)%nat.
Proof.
  intros Hi. unfold dinode_off. change IPB with 16. change DINODE_SIZE with 64.
  pose proof (Z.mod_pos_bound i 16 ltac:(lia)). lia.
Qed.

(** Writing one inode of the table changes no other. *)
Lemma disk_inode_update start sb v i j bs :
  inode_area start sb → 0 ≤ i < sb_ninodes sb → 0 ≤ j < sb_ninodes sb → i ≠ j → length bs = 64%nat →
  length (blk v (IBLOCK i sb)) = 1024%nat →
  disk_inode sb (<[IBLOCK i sb := set_bytes (blk v (IBLOCK i sb)) (dinode_off i) bs]> v) j = disk_inode sb v j.
Proof.
  intros Hia Hi Hj Hne Hb Hlen. unfold disk_inode. destruct (decide (IBLOCK i sb = IBLOCK j sb)) as [E|E].
  - rewrite <- E, blk_insert_eq. destruct (dinode_off_eq i ltac:(lia)) as [E1 H1]. destruct (dinode_off_eq j ltac:(lia)) as [E2 H2].
    apply read_dinode_other; [done|lia|]. rewrite !(IBLOCK_eq start) in E by done. change IPB with 16 in E.
    pose proof (Z.div_mod i 16 ltac:(lia)). pose proof (Z.div_mod j 16 ltac:(lia)).
    pose proof (Z.mod_pos_bound i 16 ltac:(lia)). pose proof (Z.mod_pos_bound j 16 ltac:(lia)).
    assert (i mod 16 ≠ j mod 16) by lia. rewrite E1, E2. lia.
  - by rewrite blk_insert_ne.
Qed.

(** ** Theorems *)

Section theorems.
Context (dev : Z) (p : nat) (pid start : Z) (sb : superblock).
#[local] Existing Instance ideal_disk.
#[local] Existing Instance KB.
#[local] Instance KSF : BlocksSpec KB := KS dev p pid.

(** What a caller of [balloc] has: a transaction with room for two more blocks. *)
Record can_alloc (bl : list Z) (s : kst * list (kst → kst)) (a : cache) : Prop := {
  ca_dev : u32 dev = dev;
  ca_fsr : fsr dev p pid sb s a;
  ca_open : open_txn start bl a;
  ca_meta : meta_used start sb (a_view a);
  ca_len : (length bl + 3 < NBUF)%nat;
  ca_out : 1 ≤ l_outstanding (a_log a);
  ca_size : Z.of_nat (length bl) + 3 < l_size (a_log a)
}.

Lemma sized_of s a : fsr dev p pid sb s a → fsr_sized a.
Proof. intros Hf. apply (bo_sized _ _ _ _ (kr_bufs _ _ _ _ _ (fs_krepr _ _ _ _ _ _ Hf))). Qed.

(** C22: [balloc] returns the first free block of the disk: it is marked in the bitmap and
    zeroed, as part of the running transaction (nothing is on the disk yet), and no
    other bit and no other block changes. *)
Theorem balloc_correct (n : Z) (bl : list Z) (s : kst * list (kst → kst)) (a : cache) :
  layout start sb → can_alloc bl s a → first_free sb (a_view a) n →
  ∃ s' a', balloc dev s = Ok n s' ∧ krepr dev p pid s' a' ∧
    open_txn start (logged (logged bl (BBLOCK n sb)) n) a' ∧ a_disk a' = a_disk a ∧
    blk (a_view a') n = replicate (Z.to_nat BSIZE) 0 ∧
    (∀ i, 0 ≤ i < sb_size sb → used sb (a_view a') i = bool_decide (i = n) || used sb (a_view a) i) ∧
    (∀ m, m ≠ n → m ≠ BBLOCK n sb → blk (a_view a') m = blk (a_view a) m).
Proof.
  intros Hl [H1 H2 H3 H4 H5 H6 H7] Hff.
  destruct (proj1 (wp_Ok _ _ _) (balloc_wp dev p pid start sb n bl s a Hl H1 H4 H2 H3 ltac:(lia) H6 ltac:(lia) Hff))
    as (r & s' & E & -> & a' & Hf' & Hal).
  exists s', a'. split_and!; [done|apply Hf'|destruct Hal as (a1 & _ & Hu); apply Hu|..];
    by apply (allocated_view dev p pid start sb n bl a a' Hl (sized_of _ _ H2) H4 Hff Hal).
Qed.

(** [bfree] undoes [balloc]: freeing the block just allocated gives back the bitmap
    there was, and freeing it once more panics. *)
Theorem bfree_balloc (n : Z) (bl : list Z) (s : kst * list (kst → kst)) (a : cache) :
  layout start sb → can_alloc bl s a → first_free sb (a_view a) n →
  ∃ s1 s2 a2 s3, balloc dev s = Ok n s1 ∧ bfree dev n s1 = Ok tt s2 ∧ krepr dev p pid s2 a2 ∧
    (∀ i, 0 ≤ i < sb_size sb → used sb (a_view a2) i = used sb (a_view a) i) ∧
    bfree dev n s2 = Panic "freeing free block" s3.
Proof.
  intros Hl [H1 H2 H3 H4 H5 H6 H7] Hff. pose proof Hff as (Hn & Hfree & _).
  destruct (proj1 (wp_Ok _ _ _) (balloc_wp dev p pid start sb n bl s a Hl H1 H4 H2 H3 ltac:(lia) H6 ltac:(lia) Hff))
    as (r & s1 & E1 & -> & a1 & Hf1 & Hal).
  destruct (allocated_view dev p pid start sb n bl a a1 Hl (sized_of _ _ H2) H4 Hff Hal) as (_ & _ & Hus & _).
  pose proof Hal as (a0 & [_ _ _ Ho0 Hs0 _] & [Hot1 _ _ Ho1 Hs1 _]).
  pose proof (logged_length bl (BBLOCK n sb)). pose proof (logged_length (logged bl (BBLOCK n sb)) n).
  destruct (proj1 (wp_Ok _ _ _) (bfree_wp dev p pid start sb n _ s1 a1 Hl H1 (sized_of _ _ Hf1) Hf1 Hot1
    ltac:(lia) ltac:(lia) ltac:(lia) Hn ltac:(by rewrite Hus, bool_decide_eq_true_2))) as ([] & s2 & E2 & a2 & Hf2 & Hu2).
  assert (Hback : ∀ i, 0 ≤ i < sb_size sb → used sb (a_view a2) i = used sb (a_view a) i).
  { intros i Hi. rewrite (up_view _ _ _ _ _ _ _ _ _ Hu2), (used_cleared start sb n) by (done || by apply (sized_of _ _ Hf1)).
    rewrite Hus by done. destruct (decide (n = i)) as [<-|Hne].
    - by rewrite bool_decide_eq_true_2, Hfree.
    - by rewrite !bool_decide_eq_false_2. }
  pose proof (logged_length (logged (logged bl (BBLOCK n sb)) n) (BBLOCK n sb)).
  destruct (bfree_panics dev p pid start sb n _ s2 a2 H1 Hf2 (up_open _ _ _ _ _ _ _ _ _ Hu2) ltac:(lia)
    ltac:(by rewrite Hback)) as [s3 E3].
  exists s1, s2, a2, s3. split_and!; [done|done|apply Hf2|done|done].
Qed.

(** [iupdate] writes the inode through to its place in the inode table: reading the
    table there, as [ilock] does, gives back every field, and every other inode of the
    table, also in the same block, reads as before. *)
Theorem iupdate_correct (ip : nat) (r : inode) (bl : list Z) (s : kst * list (kst → kst)) (a : cache) :
  inode_area start sb → fsr dev p pid sb s a → open_txn start bl a → (length bl + 1 < NBUF)%nat →
  1 ≤ l_outstanding (a_log a) → Z.of_nat (length bl) + 1 < l_size (a_log a) →
  k_inodes (fst s) !! ip = Some r → i_dev r = dev → 0 ≤ i_inum r < sb_ninodes sb → dinode_ok (dinode_of r) →
  ∃ s' a', iupdate ip s = Ok tt s' ∧ krepr dev p pid s' a' ∧ open_txn start (logged bl (IBLOCK (i_inum r) sb)) a' ∧
    disk_inode sb (a_view a') (i_inum r) = dinode_of r ∧
    (∀ j, 0 ≤ j < sb_ninodes sb → j ≠ i_inum r → disk_inode sb (a_view a') j = disk_inode sb (a_view a) j).
Proof.
  intros Hia Hf Hot Hlen Ho Hsz Hr Hdev Hin Hok. pose proof (sized_of _ _ Hf) as Hsd.
  set (n := IBLOCK (i_inum r) sb). destruct (dinode_off_eq (i_inum r) ltac:(lia)) as [_ Hoff].
  assert (Hwp : wp (iupdate ip) (fun _ s' => ∃ a', fsr dev p pid sb s' a' ∧ updated dev p pid start n
    (set_bytes (blk (a_view a) n) (dinode_off (i_inum r)) (dinode_bytes (dinode_of r))) bl a a') s).
  { unfold iupdate. destruct s as [k e]. apply wp_bind, wp_lift. unfold get_inode, bind at 1, get, wp at 1. cbn [fst] in Hr.
    rewrite Hr. cbn [of_option ret]. apply wp_bind, (fs_get_sb dev p pid sb _ (k, e) a Hf). rewrite Hdev. fold n.
    apply wp_bind. eapply wp_mono; [apply (fs_bread dev p pid start sb n bl _ a Hf Hot); lia|]. intros b s1 Hf1.
    apply wp_bind. eapply wp_mono; [apply (fs_data dev p pid sb b n s1 _ Hf1); cbn; by rewrite lookup_insert_eq|].
    intros d s2 [-> Hf2]. apply (fs_log_block dev p pid start sb b n _ bl s2 a Hf2 Hot).
    - pose proof (logged_length bl n). assert (0 ≤ n < 2 ^ 31).
      { unfold n. rewrite (IBLOCK_eq start) by done. destruct (ia_start _ _ Hia). change IPB with 16 in *.
        pose proof (Z.div_pos (i_inum r) 16). pose proof (Z.div_le_mono (i_inum r) (sb_ninodes sb) 16). lia. }
      split_and!; try lia. by apply (ia_log _ _ Hia).
    - cbn [a_view set_field]. unfold set_bytes. rewrite !length_app, length_take, length_drop.
      change (a_view (a <| a_held ::= _ |>)) with (a_view a). rewrite Hsd.
      rewrite length_dinode by apply Hok. change (Z.to_nat BSIZE) with 1024%nat. lia. }
  apply wp_Ok in Hwp as ([] & s' & E & a' & Hf' & [Hot' _ Hv _ _ _]).
  exists s', a'. split_and!; [done|apply Hf'|done|..].
  - unfold disk_inode. rewrite Hv. fold n. rewrite blk_insert_eq. apply read_dinode_bytes; [done|]. rewrite Hsd.
    change (Z.to_nat BSIZE) with 1024%nat. lia.
  - intros j Hj Hne. rewrite Hv. apply (disk_inode_update start); [done|done|done|by apply not_eq_sym|by apply length_dinode, Hok|apply Hsd].
Qed.
End theorems.

(** ** Witnesses: a disk as mkfs makes it, with the blocks up to 46 in use *)

Definition demo_sb : superblock := mksb FSMAGIC 2000 1954 200 30 2 32 45.
Definition demo_bitmap : list Z := replicate 5 255 ++ [127] ++ replicate 1018 0.
Definition demo_fs_disk : blocks := {[45 := demo_bitmap]}.
Definition demo_fs : kst := demo_bio <| k_disk ::= fun _ => demo_fs_disk |> <| k_sb := demo_sb |>.
Definition demo_fs_cache : cache := demo_cache <| a_disk := demo_fs_disk |> <| a_view := demo_fs_disk |>.

Lemma demo_fs_sized m : length (blk demo_fs_disk m) = Z.to_nat BSIZE.
Proof.
  unfold demo_fs_disk. destruct (decide (m = 45)) as [->|Hne].
  - unfold blk. by rewrite lookup_singleton_eq.
  - unfold blk. by rewrite lookup_singleton_ne.
Qed.

(** Another disk and superblock under a cache that holds no block. *)
Lemma krepr_disk k order (d : blocks) sb a :
  caller 0 1 k → ring (k_bufs k) order → bufs_ok 1 1 (a <| a_disk := d |> <| a_view := d |>) (core <$> k_bufs k) →
  k_log k = a_log a →
  krepr 1 0 1 (k <| k_disk ::= fun _ => d |> <| k_sb := sb |>, []) (a <| a_disk := d |> <| a_view := d |>).
Proof.
  intros Hca Hr Hb Hl. split; cbn [fst]; [|by exists order|done|done|done].
  destruct (caller_disk 0 1 k (fun _ => d) Hca). by split.
Qed.

#[local] Opaque demo_bio.
Lemma demo_fs_krepr : krepr 1 0 1 (demo_fs, []) demo_fs_cache.
Proof.
  apply (krepr_disk demo_bio _ demo_fs_disk demo_sb demo_cache demo_bio_caller demo_bio_ring).
  - exact (demo_bio_ok_disk demo_fs_disk demo_fs_sized).
  - exact (kr_log _ _ _ _ _ (demo_bio_krepr [])).
Qed.

(** The bits of the first [n] blocks, computed. *)
Lemma demo_used n : 0 ≤ n < 2000 → used demo_sb demo_fs_disk n = bool_decide (n < 47).
Proof.
  intros Hn.
  assert (H : forallb (fun i => Bool.eqb (used demo_sb demo_fs_disk (Z.of_nat i)) (bool_decide (Z.of_nat i < 47))) (seq 0 2000) = true)
    by (by vm_compute).
  rewrite forallb_forall in H. specialize (H (Z.to_nat n)). rewrite Z2Nat.id in H by lia.
  apply eqb_prop, H, in_seq. lia.
Qed.

Lemma k_sb_set k sb : k_sb (k <| k_sb := sb |>) = sb.
Proof. done. Qed.

Lemma demo_can_alloc : can_alloc 1 0 1 2 demo_sb [] (demo_fs, []) demo_fs_cache.
Proof.
  split; [done|..].
  - split; [apply demo_fs_krepr|reflexivity|]. cbn [fst]. unfold demo_fs. by rewrite k_sb_set.
  - split; try done. split; [unfold LOGSIZE, MAXOPBLOCKS; lia|unfold NBUF; simpl; lia|apply NoDup_nil_2|set_solver].
  - intros m i Hm Hi Hor. change (sb_size demo_sb) with 2000 in *. cbn [a_view demo_fs_cache set_field].
    change (used demo_sb demo_fs_disk m = true). rewrite demo_used by done. apply bool_decide_eq_true_2.
    destruct Hor as [[_ Hm2]| ->]; [unfold LOGSIZE, MAXOPBLOCKS in Hm2; lia|].
    unfold BBLOCK. rewrite Z.div_small by (unfold BPB, BSIZE; lia). done.
  - unfold NBUF. simpl. lia.
  - done.
  - done.
Qed.

Lemma demo_layout : layout 2 demo_sb.
Proof.
  split; try done. intros i Hi [_ H2]. change (sb_size demo_sb) with 2000 in Hi.
  unfold BBLOCK in H2. rewrite Z.div_small in H2 by (unfold BPB, BSIZE; lia). done.
Qed.

Lemma demo_first_free : first_free demo_sb (a_view demo_fs_cache) 47.
Proof.
  change (a_view demo_fs_cache) with demo_fs_disk. split; [done|]. split; [by rewrite demo_used|].
  intros i Hi. rewrite demo_used by lia. apply bool_decide_eq_true_2. lia.
Qed.

Lemma balloc_correct_witness :
  ∃ s' a', balloc (D := ideal_disk) 1 (demo_fs, []) = Ok 47 s' ∧ krepr 1 0 1 s' a' ∧ used demo_sb (a_view a') 47 = true.
Proof.
  destruct (balloc_correct 1 0 1 2 demo_sb 47 [] (demo_fs, []) demo_fs_cache demo_layout demo_can_alloc demo_first_free)
    as (s' & a' & E & Hk & _ & _ & _ & Hu & _).
  exists s', a'. split; [exact E|]. split; [exact Hk|]. rewrite Hu; [reflexivity|]. change (sb_size demo_sb) with 2000. lia.
Defined.

Lemma bfree_balloc_witness :
  ∃ s1 s2 s3, balloc (D := ideal_disk) 1 (demo_fs, []) = Ok 47 s1 ∧ bfree (D := ideal_disk) 1 47 s1 = Ok tt s2 ∧
    bfree (D := ideal_disk) 1 47 s2 = Panic "freeing free block" s3.
Proof.
  destruct (bfree_balloc 1 0 1 2 demo_sb 47 [] (demo_fs, []) demo_fs_cache demo_layout demo_can_alloc demo_first_free)
    as (s1 & s2 & a2 & s3 & E1 & E2 & _ & _ & E3).
  exists s1, s2, s3. split; [exact E1|]. split; [exact E2|exact E3].
Defined.

(** An inode in slot 3 of the inode table. *)
Definition demo_inode : inode := mkinode 1 7 1 sleeplock0 1 T_FILE 0 0 1 2048 ([50; 51] ++ replicate 11 0).
Definition demo_fs_inode : kst := demo_fs <| k_inodes ::= <[3%nat := demo_inode]> |>.

Lemma fsr_inodes dev p pid sb k e a f : fsr dev p pid sb (k, e) a → fsr dev p pid sb (k <| k_inodes ::= f |>, e) a.
Proof. intros [[[] Hr Hb Hd Hl] He Hs]. by split. Qed.

Lemma demo_inode_area : inode_area 2 demo_sb.
Proof.
  split; [done|]. intros i Hi [_ H2]. change (sb_ninodes demo_sb) with 200 in Hi.
  unfold IBLOCK in H2. change IPB with 16 in H2. change (sb_inodestart demo_sb) with 32 in H2. change LOGSIZE with 30 in H2.
  pose proof (Z.div_pos i 16 ltac:(lia)). pose proof (Z.div_lt_upper_bound i 16 13 ltac:(lia) ltac:(lia)).
  unfold u32 in H2. rewrite wrap_small in H2 by lia. lia.
Qed.

Lemma demo_inode_ok : dinode_ok (dinode_of demo_inode).
Proof.
  split; try done. intros x Hx. change (x ∈ [50; 51] ++ replicate 11 0) in Hx.
  apply elem_of_app in Hx as [Hx|[-> _]%elem_of_replicate]; [|done].
  rewrite !elem_of_cons, elem_of_nil in Hx. lia.
Qed.

Lemma lookup_inodes_set (k : kst) (i : nat) r :
  (i < length (k_inodes k))%nat → k_inodes (k <| k_inodes ::= <[i := r]> |>) !! i = Some r.
Proof. intros H. cbn. by apply list_lookup_insert_eq. Qed.

Lemma iupdate_correct_witness :
  ∃ s' a', iupdate (D := ideal_disk) 3 (demo_fs_inode, []) = Ok tt s' ∧ krepr 1 0 1 s' a' ∧
    disk_inode demo_sb (a_view a') 7 = mkdinode T_FILE 0 0 1 2048 ([50; 51] ++ replicate 11 0).
Proof.
  assert (Hf : fsr 1 0 1 demo_sb (demo_fs_inode, []) demo_fs_cache).
  { apply fsr_inodes, (ca_fsr _ _ _ _ _ _ _ _ demo_can_alloc). }
  assert (Hi : k_inodes demo_fs_inode !! 3%nat = Some demo_inode).
  { apply lookup_inodes_set. apply Nat.ltb_lt. vm_compute. reflexivity. }
  destruct (iupdate_correct 1 0 1 2 demo_sb 3 demo_inode [] (demo_fs_inode, []) demo_fs_cache demo_inode_area Hf
    (ca_open _ _ _ _ _ _ _ _ demo_can_alloc) ltac:(unfold NBUF; simpl; lia) ltac:(done) ltac:(done) Hi eq_refl
    ltac:(done) demo_inode_ok) as (s' & a' & E & Hk & _ & Hd & _).
  exists s', a'. split; [exact E|]. split; [exact Hk|exact Hd].
Defined.
