(* ===== verification/Fsread.v ===== *)
(** * Reading files and directories: bmap, readi, iget, ilock, dirlookup

    The contents of a file are a function of the blocks a reader sees and of its inode:
    [readi] returns them, [dirlookup] finds an entry in them, and [ilock] loads the inode. *)

From S2P Require Import Prelude Mem CString Kernel Spinlock Kalloc Vm Vmproof Proc Procproof Uart Printf Bio Log Logproof Bioproof Frame Logkernel Fs Fsproof.

(** ** The contents of a file *)

Definition addr (din : dinode) (i : Z) : Z := default 0 (di_addrs din !! Z.to_nat i).

(** The block in slot [k] of an inode: block [k] of the file, or its indirect block for -1;
    0 when there is none. *)
Definition loc (v : blocks) (din : dinode) (k : Z) : Z :=
  if k <? 0 then addr din NDIRECT
  else if k <? NDIRECT then addr din k
  else if addr din NDIRECT =? 0 then 0
  else field (blk v (addr din NDIRECT)) (Z.to_nat (4 * (k - NDIRECT))) 4.

Definition byte_at (v : blocks) (din : dinode) (b : Z) : Z :=
  default 0 (blk v (loc v din (b / BSIZE)) !! Z.to_nat (b mod BSIZE)).
(** [n] bytes from [off] on, and the first [n] bytes. *)
Definition bytes_at (v : blocks) (din : dinode) (off : Z) (n : nat) : list Z :=
  (fun j => byte_at v din (off + Z.of_nat j)) <$> seq 0 n.
Definition contents (v : blocks) (din : dinode) (n : nat) : list Z := (fun b => byte_at v din (Z.of_nat b)) <$> seq 0 n.

Lemma contents_ext v din v' din' n : (∀ b, 0 ≤ b < Z.of_nat n → byte_at v' din' b = byte_at v din b) → contents v' din' n = contents v din n.
Proof. intros H. apply list_fmap_ext. intros j b Hb%lookup_seq. apply H. lia. Qed.

Lemma loc_addrs v d d' k : di_addrs d' = di_addrs d → loc v d' k = loc v d k.
Proof. intros E. unfold loc, addr. by rewrite E. Qed.

Lemma contents_addrs v d d' n : di_addrs d' = di_addrs d → contents v d' n = contents v d n.
Proof. intros E. apply contents_ext. intros b _. unfold byte_at. by rewrite (loc_addrs v d d'). Qed.

Definition slot (k : Z) : Prop := -1 ≤ k < MAXFILE.

(** [loc] reads the image in the indirect block only. *)
Lemma loc_frame v v' din k : (addr din NDIRECT ≠ 0 → blk v' (addr din NDIRECT) = blk v (addr din NDIRECT)) → loc v' din k = loc v din k.
Proof.
  intros H. unfold loc. destruct (k <? 0), (k <? NDIRECT); try done. destruct (Z.eqb_spec (addr din NDIRECT) 0); [done|]. by rewrite H.
Qed.

Lemma loc_ind v din : loc v din (-1) = addr din NDIRECT.
Proof. done. Qed.

Lemma slot_of k : 0 ≤ k < MAXFILE → slot k.
Proof. unfold slot. lia. Qed.
Lemma slot_ind : slot (-1).
Proof. by vm_compute. Qed.

Lemma length_set_bytes d off bs : (off + length bs ≤ length d)%nat → length (set_bytes d off bs) = length d.
Proof. intros H. unfold set_bytes. rewrite !length_app, length_take, length_drop. lia. Qed.

Lemma set_bytes_lookup d off bs j : (off + length bs ≤ length d)%nat →
  set_bytes d off bs !! j = if decide (off ≤ j < off + length bs)%nat then bs !! (j - off)%nat else d !! j.
Proof.
  intros H. unfold set_bytes. destruct (decide (j < off)%nat).
  - rewrite decide_False by lia. rewrite lookup_app_l by (rewrite length_take; lia). by apply lookup_take_lt.
  - rewrite lookup_app_r by (rewrite length_take; lia). rewrite length_take_le by lia. destruct (decide (j < off + length bs)%nat).
    + rewrite decide_True by lia. by rewrite lookup_app_l by lia.
    + rewrite decide_False by lia. rewrite lookup_app_r by lia. rewrite lookup_drop. f_equal. lia.
Qed.

Lemma contents_bytes v din n : contents v din n = bytes_at v din 0 n.
Proof. done. Qed.

Lemma bytes_at_app v din off n m : bytes_at v din off (n + m) = bytes_at v din off n ++ bytes_at v din (off + Z.of_nat n) m.
Proof.
  unfold bytes_at. rewrite seq_app, fmap_app. f_equal. apply list_eq. intros j. rewrite !list_lookup_fmap.
  destruct (decide (j < m)%nat); [|by rewrite !lookup_seq_ge by lia]. rewrite !lookup_seq_lt by done. cbn. do 2 f_equal. lia.
Qed.

Lemma bytes_at_sub v din n off m c : contents v din n = c → (off + m ≤ n)%nat → bytes_at v din (Z.of_nat off) m = take m (drop off c).
Proof.
  intros <- Hn. replace n with (off + (m + (n - off - m)))%nat by lia. rewrite contents_bytes, !bytes_at_app.
  rewrite drop_app_length' by (unfold bytes_at; by rewrite length_fmap, length_seq).
  rewrite take_app_length' by (unfold bytes_at; by rewrite length_fmap, length_seq). by rewrite Z.add_0_l.
Qed.

(** The bytes of one block. *)
Lemma bytes_at_block v din off m : 0 ≤ off → Z.of_nat m ≤ BSIZE - off mod BSIZE → length (blk v (loc v din (off / BSIZE))) = Z.to_nat BSIZE →
  bytes_at v din off m = take m (drop (Z.to_nat (off mod BSIZE)) (blk v (loc v din (off / BSIZE)))).
Proof.
  intros Hoff Hm Hlen. pose proof (Z.mod_pos_bound off BSIZE ltac:(done)) as Hr. pose proof (Z.div_mod off BSIZE ltac:(done)) as Hdm.
  change BSIZE with 1024 in *. apply list_eq. intros j. unfold bytes_at. rewrite list_lookup_fmap. destruct (decide (j < m)%nat) as [Hj|Hj].
  - rewrite lookup_seq_lt, lookup_take_lt, lookup_drop by done. cbn [fmap option_fmap option_map]. rewrite Nat.add_0_l. unfold byte_at. change BSIZE with 1024.
    assert (E1 : (off + Z.of_nat j) / 1024 = off / 1024) by (symmetry; apply (Z.div_unique _ _ _ (off mod 1024 + Z.of_nat j)); lia).
    assert (E2 : (off + Z.of_nat j) mod 1024 = off mod 1024 + Z.of_nat j) by (symmetry; apply (Z.mod_unique _ _ (off / 1024)); lia).
    rewrite E1, E2. replace (Z.to_nat (off mod 1024 + Z.of_nat j)) with (Z.to_nat (off mod 1024) + j)%nat by lia.
    destruct (lookup_lt_is_Some_2 (blk v (loc v din (off / 1024))) (Z.to_nat (off mod 1024) + j)) as [x ->]; [lia|done].
  - rewrite lookup_seq_ge by lia. cbn. symmetry. apply lookup_ge_None_2. rewrite length_take. lia.
Qed.

Lemma alter_as_insert {A} (f : A → A) i x (l : list A) : l !! i = Some x → alter f i l = <[i := f x]> l.
Proof. revert i. induction l as [|y l IH]; intros [|i] H; cbn in *; [done|done|by injection H as ->|]. f_equal. by apply IH. Qed.

(** ** Calls that only read *)

Section read.
Context (dev : Z) (p : nat) (pid start : Z) (sb : superblock).
#[local] Existing Instance ideal_disk.
#[local] Existing Instance KB.
#[local] Instance KSR : BlocksSpec KB := KS dev p pid.

(** The kernel with the blocks [a] and the inode table [t], in a transaction that has logged
    the blocks [bl]. *)
Record fsi (bl : list Z) (a : cache) (t : rest) (s : kst * list (kst → kst)) : Prop := {
  fi_fsr : fsr dev p pid sb s a;
  fi_open : open_txn start bl a;
  fi_room : (length bl < NBUF)%nat;
  fi_itable : itable (fst s) = t
}.

Section ops.
Context (bl : list Z) (a : cache) (t : rest).

Lemma fsi_wp {A} (m : KM A) (Q Q' : A → kst * list (kst → kst) → Prop) s :
  fsi bl a t s → keeps (on_env itable eq) m → wp m Q s → (∀ x s', Q x s' → itable (fst s') = t → Q' x s') → wp m Q' s.
Proof.
  intros [Hf _ _ Ht] Hk H HQ. eapply wp_mono; [exact (wp_keeps _ _ _ _ Hk H)|]. intros x s' [Hx Hp].
  destruct (Hp (fs_env _ _ _ _ _ _ Hf)) as [_ E]. apply HQ; [done|]. by rewrite <-E.
Qed.

Lemma fi_inode ip r s (Q : inode → kst * list (kst → kst) → Prop) : fsi bl a t s → t.1 !! ip = Some r → Q r s → wp (⇑ (get_inode ip)) Q s.
Proof.
  destruct s as [k e]. intros [_ _ _ Ht] Hr HQ. apply wp_lift. unfold get_inode, bind, get, wp. cbn [fst] in Ht. subst t. cbn [fst itable] in Hr. by rewrite Hr.
Qed.

Lemma fi_sb s (Q : superblock → kst * list (kst → kst) → Prop) : fsi bl a t s → Q sb s → wp (⇑ get_sb) Q s.
Proof. intros Hf. by apply (fs_get_sb dev p pid sb _ s a), Hf. Qed.

(** A buffer that is held for reading. *)
Definition fsb (b : nat) (n : Z) (s : kst * list (kst → kst)) : Prop :=
  fsr dev p pid sb s (a <| a_held ::= <[b := n]> |>) ∧ open_txn start bl a ∧ (length bl < NBUF)%nat ∧ itable (fst s) = t.

Lemma fi_bread n s : fsi bl a t s → wp (bread dev n) (fun b s' => fsb b n s') s.
Proof.
  intros Hf. pose proof Hf as [Hfsr Ho Hl _]. eapply (fsi_wp _ _ _ s Hf); [apply keeps_bread; typeclasses eauto|by apply (fs_bread dev p pid start sb n bl s a)|].
  intros b s' H1 H2. by split.
Qed.

Lemma fsb_wp {A} (m : K A) (Q Q' : A → kst * list (kst → kst) → Prop) b n s :
  fsb b n s → keeps (on itable eq) m → wp (⇑ m) Q s → (∀ x s', Q x s' → itable (fst s') = t → Q' x s') → wp (⇑ m) Q' s.
Proof.
  intros (Hf & _ & _ & Ht) Hk H HQ. eapply wp_mono; [exact (wp_keeps _ _ _ _ (keeps_lift _ _ _ Hk) H)|]. intros x s' [Hx Hp].
  destruct (Hp (fs_env _ _ _ _ _ _ Hf)) as [_ E]. apply HQ; [done|]. by rewrite <-E.
Qed.

Lemma fi_data b n s : fsb b n s → wp (⇑ (get_data b)) (fun d s' => d = blk (a_view a) n ∧ fsb b n s') s.
Proof.
  intros Hf. pose proof Hf as (Hfsr & Ho & Hl & _). eapply (fsb_wp _ _ _ b n s Hf); [unfold get_data; keeps; apply keeps_get_buf; typeclasses eauto| |].
  - apply (fs_data dev p pid sb b n s _ Hfsr). cbn. by rewrite lookup_insert_eq.
  - intros d s' [-> H1] H2. split; [done|]. by split.
Qed.

Lemma fi_brelse b n s : fsb b n s → wp (⇑ (brelse b)) (fun _ s' => fsi bl a t s') s.
Proof.
  intros Hf. pose proof Hf as (Hfsr & Ho & Hl & _). eapply (fsb_wp _ _ _ b n s Hf); [apply keeps_brelse; typeclasses eauto|by apply (fs_brelse dev p pid start sb b n bl s a)|].
  intros [] s' H1 H2. by split.
Qed.

Lemma fi_sized n s : fsi bl a t s → length (blk (a_view a) n) = Z.to_nat BSIZE.
Proof. intros Hf. apply (sized_of dev p pid sb s a), Hf. Qed.

(** [bmap] of a block that is allocated. *)
Lemma bmap_wp ip r bn s : fsi bl a t s → t.1 !! ip = Some r → i_dev r = dev → 0 ≤ bn < MAXFILE → loc (a_view a) (dinode_of r) bn ≠ 0 →
  wp (bmap ip bn) (fun x s' => x = loc (a_view a) (dinode_of r) bn ∧ fsi bl a t s') s.
Proof.
  intros Hf Hr Hd Hbn Hnz. unfold bmap. apply wp_bind, (fi_inode ip r s); [done|done|]. unfold loc in Hnz |- *.
  rewrite (proj2 (Z.ltb_ge bn 0)) in Hnz |- * by lia. change (addr_of r ?i) with (addr (dinode_of r) i). destruct (Z.ltb_spec bn NDIRECT).
  - rewrite (proj2 (Z.eqb_neq _ _) Hnz). by apply wp_ret.
  - rewrite (proj2 (Z.ltb_lt _ _)) by (unfold MAXFILE in Hbn; lia). destruct (Z.eqb_spec (addr (dinode_of r) NDIRECT) 0); [done|].
    apply wp_bind, wp_ret. rewrite (proj2 (Z.eqb_neq _ _)) by done. rewrite Hd. apply wp_bind. eapply wp_mono; [by apply fi_bread|]. intros b s1 H1.
    apply wp_bind. eapply wp_mono; [by apply (fi_data b (addr (dinode_of r) NDIRECT))|]. intros d s2 [-> H2]. unfold uword.
    rewrite (proj2 (Z.eqb_neq _ _) Hnz). apply wp_bind, wp_ret, wp_bind. eapply wp_mono; [by apply (fi_brelse b _ s2 H2)|]. intros [] s3 H3. by apply wp_ret.
Qed.

Lemma fi_myproc b n k e : fsb b n (k, e) → wp myproc (fun q k' => q = Some p ∧ fsb b n (k', e) ∧ k_procs k' = k_procs k) k.
Proof.
  intros (Hf & Ho & Hl & Ht). pose proof (fs_krepr _ _ _ _ _ _ Hf) as Hk. pose proof (kr_caller _ _ _ _ _ Hk) as Hca.
  apply wp_myproc'; [apply (ca_ready _ _ _ Hca)|]. split; [apply (ca_cur _ _ _ Hca)|]. split; [|done].
  split; [|done]. destruct Hf as [_ He Hs]. split; [by apply krepr_settle|done|done].
Qed.

(** All the blocks that hold the bytes are allocated. *)
Definition mapped (din : dinode) (off n : Z) : Prop := ∀ b, off ≤ b < off + n → loc (a_view a) din (b / BSIZE) ≠ 0.

(** A round of the loop of [readi], up to the copy. *)
Lemma readi_body_wp ip r d n tot off acc s (Q : (Z * Z * list Z) + (Z * list Z) → kst * list (kst → kst) → Prop) :
  fsi bl a t s → t.1 !! ip = Some r → i_dev r = dev → 0 ≤ off → 0 ≤ tot < n → off + (n - tot) ≤ MAXFILE * BSIZE → mapped (dinode_of r) off (n - tot) →
  let m := Z.min (n - tot) (BSIZE - off mod BSIZE) in
  (∀ b k e, fsb b (loc (a_view a) (dinode_of r) (off / BSIZE)) (k, e) →
    wp (copy_to d tot (bytes_at (a_view a) (dinode_of r) off (Z.to_nat m)) acc) (fun '(c, acc') k' =>
      wp (⇑ (brelse b)) (fun _ s' => Q (if c =? -1 then inr (-1, acc') else inl (tot + m, off + m, acc')) s') (k', e)) k) →
  wp (readi_body ip d n (tot, off, acc)) Q s.
Proof.
  intros Hf Hr Hd Hoff Htot Hmax Hmap m Hcopy. pose proof (Z.mod_pos_bound off BSIZE ltac:(done)) as Hmod.
  unfold readi_body. rewrite (proj2 (Z.ltb_lt _ _)) by lia. cbn [negb]. specialize (Hmap off ltac:(lia)).
  apply wp_bind. eapply wp_mono; [apply (bmap_wp ip r (off / BSIZE) s Hf Hr Hd); [|done]|].
  { split; [by apply Z.div_pos|]. apply Z.div_lt_upper_bound; [done|]. lia. }
  intros x s1 [-> H1]. rewrite (proj2 (Z.eqb_neq _ _) Hmap). apply wp_bind, (fi_inode ip r s1 _ H1 Hr). rewrite Hd.
  apply wp_bind. eapply wp_mono; [by apply fi_bread|]. intros b s2 H2. fold m.
  apply wp_bind. eapply wp_mono; [by apply (fi_data _ _ s2 H2)|]. intros data s3 [-> H3].
  rewrite <-bytes_at_block by (done || lia || by apply (fi_sized _ s)). apply wp_bind. destruct s3 as [k3 e3]. apply wp_lift.
  eapply wp_mono; [by apply (Hcopy b k3 e3 H3)|]. intros [c acc'] k4 H4. cbv beta iota. destruct (c =? -1); apply wp_bind; (eapply wp_mono; [exact H4|]); intros [] s5 H5; by apply wp_ret.
Qed.

(** [readi] into a local structure: the bytes of the file, as far as it reaches. *)
Lemma readi_local_wp ip r off n s : fsi bl a t s → t.1 !! ip = Some r → i_dev r = dev → 0 ≤ off → 0 ≤ n → off + n ≤ i_size r → i_size r ≤ MAXFILE * BSIZE →
  mapped (dinode_of r) off n →
  wp (readi ip ToLocal off n) (fun x s' => x = (n, bytes_at (a_view a) (dinode_of r) off (Z.to_nat n)) ∧ fsi bl a t s') s.
Proof.
  intros Hf Hr Hd Hoff Hn Hsz Hmax Hmap. unfold readi. apply wp_bind, (fi_inode ip r s _ Hf Hr).
  change (MAXFILE * BSIZE) with 274432 in Hmax. assert (E : u32 (off + n) = off + n) by (apply wrap_small; lia). rewrite E.
  rewrite !(proj2 (Z.ltb_ge _ _)) by lia. cbn [orb].
  apply (wp_loop (fun '(tot, off', acc) s' => fsi bl a t s' ∧ 0 ≤ tot ≤ n ∧ off' = off + tot ∧ acc = bytes_at (a_view a) (dinode_of r) off (Z.to_nat tot))
    (fun '(tot, _, _) => Z.to_nat (n - tot))).
  2:{ split; [done|]. split; [lia|]. split; [lia|done]. } 2:{ lia. }
  intros [[tot off'] acc] s1 (H1 & Ht & -> & ->). destruct (decide (tot = n)) as [->|Hne].
  { unfold readi_body. rewrite Z.ltb_irrefl. cbn [negb]. apply wp_ret. by split. }
  pose proof (Z.mod_pos_bound (off + tot) BSIZE ltac:(done)) as Hmod.
  apply (readi_body_wp ip r); try done; [lia|lia|change (MAXFILE * BSIZE) with 274432; lia|intros b Hb'; apply Hmap; lia|].
  set (m := Z.min (n - tot) (BSIZE - (off + tot) mod BSIZE)). assert (1 ≤ m ≤ n - tot) by lia. intros b k e H2.
  unfold copy_to. apply wp_bind. eapply wp_mono; [by apply (fi_myproc _ _ _ _ H2)|]. intros q k4 (_ & Hp & _). apply wp_ret.
  eapply wp_mono; [by apply (fi_brelse _ _ _ Hp)|]. intros [] s5 H5. change (0 =? -1) with false. cbv iota. split; [|lia].
  split; [done|]. split; [lia|]. split; [lia|]. replace (Z.to_nat (tot + m)) with (Z.to_nat tot + Z.to_nat m)%nat by lia.
  rewrite bytes_at_app. do 2 f_equal. lia.
Qed.

(** ** The inode table *)

Definition free_lock (lk : lockid) : Prop := ∃ l, t.2.1.1 lk = Some l ∧ locked l = 0 ∧ lk_cpu l = None.

Lemma free_unlocked lk s : fsi bl a t s → inode_lockid lk = true → free_lock lk → unlocked lk (fst s).
Proof. intros Hf Hi (l & Hl & H1 & H2). rewrite <-(fi_itable _ _ _ _ Hf) in Hl. unfold itable in Hl. cbn in Hl. rewrite Hi in Hl. by exists l. Qed.
End ops.

Lemma fsi_settle bl a t k e f : fsi bl a t (k, e) → fsi bl a (f t.1, t.2) (settle k <| k_inodes ::= f |>, e).
Proof.
  intros [Hf Ho Hl Ht]. cbn [fst] in Ht. subst t. split; [|done|done|done]. apply fsr_inodes.
  destruct Hf as [Hk He Hs]. split; [by apply krepr_settle|done|done].
Qed.

(** ** Reading into user memory *)

Definition with_mem (t : rest) (m : mem) : rest := (t.1, (t.2.1.1, m, t.2.2)).
Definition user_mem (t : rest) : mem := t.2.1.2.

Lemma copy_to_user bl a t b n pt dst bs k e : fsb bl a t b n (k, e) → t.2.2 !! p = Some pt → 0 ≤ dst → uspace_ok (user_mem t) pt →
  wp (either_copyout true dst bs) (fun r k' => ∃ c m', ustored (user_mem t) pt dst bs c m' ∧ (c ≤ length bs)%nat ∧ fsb bl a (with_mem t m') b n (k', e) ∧
    if decide (c = length bs) then r = 0 else r = -1 ∧ upage true (user_mem t) pt (PGROUNDDOWN (dst + Z.of_nat c)) = None) k.
Proof.
  intros Hf Hpt Hdst Hus. unfold either_copyout. apply wp_bind. eapply wp_mono; [by apply (fi_myproc bl a t b n k e)|]. intros q k1 (-> & Hf1 & _).
  pose proof Hf1 as (Hr1 & Ho & Hl & Ht). cbn [fst] in Ht. subst t. cbn [of_option]. apply wp_bind, wp_ret.
  unfold itable in Hpt. cbn [snd] in Hpt. rewrite list_lookup_fmap in Hpt. apply fmap_Some in Hpt as (pr & Hpr & ->).
  apply wp_bind, (wp_get_proc p pr); [done|]. change (user_mem (itable k1)) with (k_mem k1) in *.
  eapply wp_mono; [by apply copyout_wp|]. intros r k2 (c & m' & Hst & -> & Hc & Hr). exists c, m'. split_and!; try done.
  split; [|done]. destruct Hr1 as [[[] Hrg Hbo Hdk Hlg] He Hs]. by split.
Qed.

(** [readi] into user memory: [c] of the bytes could be stored. *)
Lemma readi_user_wp bl a t ip r pt dst off n s :
  fsi bl a t s → t.1 !! ip = Some r → i_dev r = dev → t.2.2 !! p = Some pt → uspace_ok (user_mem t) pt → 0 ≤ dst → dst + n < 2 ^ 64 →
  0 ≤ off → 0 ≤ n → off + n ≤ i_size r → i_size r ≤ MAXFILE * BSIZE → mapped a (dinode_of r) off n →
  wp (loop (S (Z.to_nat n)) (readi_body ip (ToUser dst) n) (0, off, [])) (fun x s' => ∃ c m',
    ustored (user_mem t) pt dst (bytes_at (a_view a) (dinode_of r) off (Z.to_nat n)) c m' ∧ (c ≤ Z.to_nat n)%nat ∧ fsi bl a (with_mem t m') s' ∧
    if decide (c = Z.to_nat n) then x = (n, []) else x = (-1, []) ∧ upage true (user_mem t) pt (PGROUNDDOWN (dst + Z.of_nat c)) = None) s.
Proof.
  intros Hf Hr Hd Hpt Hus Hdst Hdst2 Hoff Hn Hsz Hmax Hmap. set (all := bytes_at (a_view a) (dinode_of r) off (Z.to_nat n)).
  change (MAXFILE * BSIZE) with 274432 in Hmax.
  apply (wp_loop (fun '(tot, off', acc) s' => ∃ m', ustored (user_mem t) pt dst all (Z.to_nat tot) m' ∧ fsi bl a (with_mem t m') s' ∧
    0 ≤ tot ≤ n ∧ off' = off + tot ∧ acc = []) (fun '(tot, _, _) => Z.to_nat (n - tot))).
  2:{ exists (user_mem t). split; [by apply ustored_0|]. split; [|split_and!; (done || lia)]. destruct t as [t1 [[t2 t3] t4]]. exact Hf. } 2:{ lia. }
  intros [[tot off'] acc] s1 (m1 & Hst1 & H1 & Ht & -> & ->). destruct (decide (tot = n)) as [->|Hne].
  { unfold readi_body. rewrite Z.ltb_irrefl. cbn [negb]. apply wp_ret. exists (Z.to_nat n), m1. split_and!; try done. by rewrite decide_True. }
  pose proof (Z.mod_pos_bound (off + tot) BSIZE ltac:(done)) as Hmod.
  apply (readi_body_wp bl a _ ip r _ _ _ _ _ _ _ H1 Hr Hd); [lia|lia|change (MAXFILE * BSIZE) with 274432; lia|intros b Hb; apply Hmap; lia|].
  set (m := Z.min (n - tot) (BSIZE - (off + tot) mod BSIZE)). assert (Hm : 1 ≤ m ≤ n - tot) by lia. intros b k e H2.
  set (bs := bytes_at (a_view a) (dinode_of r) (off + tot) (Z.to_nat m)).
  assert (Hlen : length bs = Z.to_nat m) by (unfold bs, bytes_at; by rewrite length_fmap, length_seq).
  unfold copy_to. replace (u64 (dst + tot)) with (dst + tot) by (symmetry; apply wrap_small; lia). apply wp_bind.
  eapply wp_mono; [apply (copy_to_user bl a _ b _ pt (dst + tot) bs k e H2 Hpt ltac:(lia) (st_ok _ _ _ _ _ _ Hst1))|].
  rewrite Hlen. intros x k4 (c & m' & Hst & Hc & Hf4 & Hx). change (user_mem (with_mem t m1)) with m1 in *. change (with_mem (with_mem t m1) m') with (with_mem t m') in *.
  assert (Hall : ustored (user_mem t) pt dst all (Z.to_nat tot + c) m').
  { apply (ustored_app _ _ _ _ _ m1 bs); [done|done| |by rewrite Z2Nat.id by lia]. intros i y Hi Hy. unfold all in Hy.
    replace (Z.to_nat n) with (Z.to_nat tot + (Z.to_nat m + Z.to_nat (n - tot - m)))%nat in Hy by lia. rewrite !bytes_at_app in Hy. rewrite Z2Nat.id in Hy by lia. fold bs in Hy.
    assert (Hl0 : length (bytes_at (a_view a) (dinode_of r) off (Z.to_nat tot)) = Z.to_nat tot) by (unfold bytes_at; by rewrite length_fmap, length_seq).
    rewrite lookup_app_r, Hl0, lookup_app_l in Hy by lia. rewrite <-Hy. f_equal. lia. }
  apply wp_ret. eapply wp_mono; [by apply (fi_brelse _ _ _ _ _ _ Hf4)|]. intros [] s5 H5. case_decide as Ec.
  - subst x c. change (0 =? -1) with false. cbv iota. split; [|lia]. exists m'. replace (Z.to_nat (tot + m)) with (Z.to_nat tot + Z.to_nat m)%nat by lia.
    split; [done|]. split; [done|]. split_and!; (done || lia).
  - destruct Hx as [-> Hx]. change (-1 =? -1) with true. cbv iota. exists (Z.to_nat tot + c)%nat, m'. split; [done|]. split; [lia|]. split; [done|].
    rewrite decide_False by lia. split; [done|]. rewrite (st_up _ _ _ _ _ _ Hst1) in Hx by (apply PGROUNDDOWN_nonneg; lia). rewrite <-Hx. do 2 f_equal. lia.
Qed.

(** The slot [iget] takes, and what it does to it. *)
Definition got (inum : Z) (l : list inode) : option (nat * (inode → inode)) :=
  match iget_scan l 0 dev inum None with
  | (Some ip, _) => Some (ip, fun r => r <| i_ref ::= Z.add 1 |>)
  | (None, Some ip) => Some (ip, fun r => r <| i_dev := dev |> <| i_inum := inum |> <| i_ref := 1 |> <| i_valid := 0 |>)
  | (None, None) => None
  end.

(** That slot holds the inode or nothing. *)
Lemma iget_scan_spec inum l : ∀ i0 (e : option nat) x y, iget_scan l i0 dev inum e = (x, y) →
  match x with
  | Some ip => ∃ r, l !! (ip - i0)%nat = Some r ∧ (i0 ≤ ip)%nat ∧ 0 < i_ref r ∧ i_dev r = dev ∧ i_inum r = inum
  | None => match y with
    | Some ip => e = Some ip ∨ ∃ r, l !! (ip - i0)%nat = Some r ∧ (i0 ≤ ip)%nat ∧ i_ref r = 0
    | None => True
    end
  end.
Proof.
  induction l as [|r l IH]; intros i0 e x y E; cbn [iget_scan] in E.
  { injection E as <- <-. destruct e; [by left|done]. }
  destruct ((0 <? i_ref r) && (i_dev r =? dev) && (i_inum r =? inum)) eqn:Et.
  { injection E as <- <-. exists r. rewrite Nat.sub_diag. apply andb_true_iff in Et as [[Et1 Et2]%andb_true_iff Et3].
    split_and!; [done|lia|by apply Z.ltb_lt|by apply Z.eqb_eq|by apply Z.eqb_eq]. }
  specialize (IH _ _ _ _ E). destruct x as [ip|].
  { destruct IH as (r' & Hl & Hi & H). exists r'. replace (ip - i0)%nat with (S (ip - S i0)) by lia. split_and!; try done; lia || apply H. }
  destruct y as [ip|]; [|done]. destruct IH as [He|(r' & Hl & Hi & H)].
  - destruct e as [e|]; [by left|]. right. destruct (Z.eqb_spec (i_ref r) 0); [|done]. injection He as <-. exists r. rewrite Nat.sub_diag. split_and!; try done; lia.
  - right. exists r'. replace (ip - i0)%nat with (S (ip - S i0)) by lia. split_and!; try done; lia.
Qed.

Lemma got_spec inum l ip f : got inum l = Some (ip, f) → ∃ r, l !! ip = Some r ∧ i_dev (f r) = dev ∧ i_inum (f r) = inum ∧ 1 ≤ i_ref (f r) ∧
  i_lock (f r) = i_lock r ∧ (i_valid (f r) = 0 ∨ 0 < i_ref r ∧ i_dev r = dev ∧ i_inum r = inum ∧ i_valid (f r) = i_valid r ∧ dinode_of (f r) = dinode_of r).
Proof.
  unfold got. intros Hg. destruct (iget_scan l 0 dev inum None) as [x y] eqn:E. pose proof (iget_scan_spec inum l 0 None x y E) as H.
  destruct x as [ip'|]; [|destruct y as [ip'|]; [|done]]; injection Hg as -> <-.
  - destruct H as (r & Hl & _ & H1 & H2 & H3). rewrite Nat.sub_0_r in Hl. exists r. split_and!; try done; [cbn; lia|by right].
  - destruct H as [|(r & Hl & _ & H1)]; [done|]. rewrite Nat.sub_0_r in Hl. exists r. split_and!; try done. by left.
Qed.

Lemma iget_wp bl a t inum ip f s : fsi bl a t s → free_lock t LItable → got inum t.1 = Some (ip, f) →
  wp (⇑ (iget dev inum)) (fun x s' => x = ip ∧ fsi bl a (alter f ip t.1, t.2) s') s.
Proof.
  intros Hf Hlk Hg. destruct s as [k e]. pose proof (free_unlocked bl a t LItable _ Hf eq_refl Hlk) as Hu. cbn [fst] in Hu.
  pose proof (kr_caller _ _ _ _ _ (fs_krepr _ _ _ _ _ _ (fi_fsr _ _ _ _ Hf))) as Hca. cbn [fst] in Hca. pose proof (ca_ready _ _ _ Hca) as Hre.
  assert (Hin : k_inodes k = t.1) by (pose proof (fi_itable _ _ _ _ Hf) as Ht; by subst t).
  unfold got in Hg. apply wp_lift. unfold iget. apply wp_bind, wp_acquire; [done|done|]. apply wp_bind. unfold get, wp at 1.
  assert (k_inodes (enter LItable k) = t.1) as -> by done.
  destruct (iget_scan t.1 0 dev inum None) as [[x|] [y|]]; try done; injection Hg as -> <-;
    apply wp_bind; unfold upd_inode, modify, wp at 1; apply wp_bind, wp_release; try klock;
    rewrite leave_set, leave_enter by done; apply wp_ret; (split; [done|]); by apply (fsi_settle bl a t k e).
Qed.

Definition lock_inode (r : inode) : inode := r <| i_lock ::= fun l => l <| sl_locked := 1 |> <| sl_pid := pid |> |>.

Lemma acquiresleep_inode bl a t ip r s : fsi bl a t s → free_lock t (LInode ip) → t.1 !! ip = Some r → sl_locked (i_lock r) = 0 →
  wp (acquiresleep (inode_lock ip)) (fun _ s' => fsi bl a (alter lock_inode ip t.1, t.2) s') s.
Proof.
  intros Hf Hlk Hr H0. destruct s as [k e]. pose proof (free_unlocked bl a t (LInode ip) _ Hf eq_refl Hlk) as Hu. cbn [fst] in Hu.
  pose proof (kr_caller _ _ _ _ _ (fs_krepr _ _ _ _ _ _ (fi_fsr _ _ _ _ Hf))) as Hca. cbn [fst] in Hca. pose proof (ca_ready _ _ _ Hca) as Hre.
  assert (Hin : k_inodes k !! ip = Some r) by (pose proof (fi_itable _ _ _ _ Hf) as Ht; by subst t).
  unfold acquiresleep. cbn [sl_id inode_lock sl_get sl_upd]. apply wp_bind, wp_lift, wp_acquire; [done..|]. apply wp_bind. unfold sleep_loop.
  apply (wp_loop (fun _ s => s = (enter (LInode ip) k, e)) (fun _ => 0%nat)); [|done|lia].
  intros [] s ->. apply wp_bind, wp_lift, wp_bind. unfold get_inode at 1, bind at 1, get at 1, wp at 1.
  assert (k_inodes (enter (LInode ip) k) !! ip = Some r) as -> by done. cbn [of_option ret]. apply wp_ret.
  rewrite H0. cbn [Z.eqb negb]. apply wp_ret. unfold upd_inode.
  apply wp_bind, wp_lift. unfold modify, wp at 1.
  destruct (k_procs k !! p) as [pr|] eqn:Hp; [|by pose proof (ca_pid _ _ _ Hca) as Hx; rewrite Hp in Hx].
  assert (p_pid pr = pid) as Hpid by (pose proof (ca_pid _ _ _ Hca) as Hx; rewrite Hp in Hx; by injection Hx).
  apply wp_bind, wp_lift, (wp_caller_pid p (LInode ip)); [klock|klock| |].
  { change (current (enter (LInode ip) k) = Some p). rewrite current_enter. apply Hca. }
  apply wp_bind, wp_lift, (wp_get_proc p pr); [done|]. rewrite Hpid.
  apply wp_bind, wp_lift. unfold wp at 1. apply wp_lift, wp_release; [klock|]. rewrite !leave_set, leave_enter by done.
  pose proof (fsi_settle bl a t k e (alter lock_inode ip) Hf) as Hs.
  match goal with |- fsi _ _ _ (?x, e) => assert (x = settle k <| k_inodes ::= alter lock_inode ip |>) as ->; [|done] end.
  transitivity (settle k <| k_inodes := alter lock_inode ip (k_inodes k) |>); [|done].
  change lock_inode with (fun r => (fun r : inode => r <| i_lock ::= fun l => l <| sl_pid := pid |> |>)
    ((fun r : inode => r <| i_lock ::= fun l => l <| sl_locked := 1 |> |>) r)).
  by rewrite <- (list_alter_alter (fun r : inode => r <| i_lock ::= fun l => l <| sl_pid := pid |> |>)).
Qed.

Lemma fsb_upd bl a t b n ip f s : fsb bl a t b n s → wp (⇑ (upd_inode ip f)) (fun _ s' => fsb bl a (alter f ip t.1, t.2) b n s') s.
Proof.
  intros (Hf & Ho & Hl & Ht). destruct s as [k e]. apply wp_lift. unfold upd_inode, modify, wp. cbn [fst] in Ht. subst t.
  split; [by apply fsr_inodes|done].
Qed.

Lemma fsi_upd bl a t ip f s : fsi bl a t s → wp (⇑ (upd_inode ip f)) (fun _ s' => fsi bl a (alter f ip t.1, t.2) s') s.
Proof.
  intros [Hf Ho Hl Ht]. destruct s as [k e]. apply wp_lift. unfold upd_inode, modify, wp. cbn [fst] in Ht. subst t.
  split; [by apply fsr_inodes|done..].
Qed.

Definition loaded (dip : dinode) (r : inode) : inode :=
  r <| i_type := di_type dip |> <| i_major := di_major dip |> <| i_minor := di_minor dip |> <| i_nlink := di_nlink dip |>
    <| i_size := di_size dip |> <| i_addrs := di_addrs dip |> <| i_valid := 1 |>.

Lemma dinode_loaded dip r : dinode_of (loaded dip r) = dip.
Proof. by destruct dip. Qed.

(** [ilock]: the inode as it is on the disk, or as it is in memory when that is valid. *)
Definition locked_inode (v : blocks) (r : inode) : inode :=
  if i_valid r =? 0 then loaded (disk_inode sb v (i_inum r)) (lock_inode r) else lock_inode r.

Lemma ilock_wp bl a t ip r s : fsi bl a t s → free_lock t (LInode ip) → t.1 !! ip = Some r → sl_locked (i_lock r) = 0 → i_dev r = dev →
  1 ≤ i_ref r → (i_valid r = 0 → di_type (disk_inode sb (a_view a) (i_inum r)) ≠ 0) →
  wp (ilock (Some ip)) (fun _ s' => fsi bl a (<[ip := locked_inode (a_view a) r]> t.1, t.2) s') s.
Proof.
  intros Hf Hlk Hr H0 Hd Href Hty. unfold ilock. apply wp_bind, (fi_inode bl a t ip r s _ Hf Hr). rewrite (proj2 (Z.ltb_ge _ _)) by lia.
  apply wp_bind. eapply wp_mono; [by apply (acquiresleep_inode bl a t ip r s)|]. intros [] s1 H1.
  assert (Hr1 : (alter lock_inode ip t.1, t.2).1 !! ip = Some (lock_inode r)) by (cbn [fst]; by rewrite list_lookup_alter_eq, Hr).
  apply wp_bind, (fi_inode bl a _ ip _ s1 _ H1 Hr1). change (i_valid (lock_inode r)) with (i_valid r). unfold locked_inode.
  assert (Hins : ∀ g, alter g ip t.1 = <[ip := g r]> t.1) by (intros g; by apply alter_as_insert).
  destruct (Z.eqb_spec (i_valid r) 0) as [Hv|Hv]; cbn [negb]; [|apply wp_ret; by rewrite <-Hins].
  apply wp_bind, (fi_sb bl a _ s1 _ H1). change (i_dev (lock_inode r)) with (i_dev r). change (i_inum (lock_inode r)) with (i_inum r). rewrite Hd.
  apply wp_bind. eapply wp_mono; [by apply (fi_bread bl a _ _ s1 H1)|]. intros b s2 H2.
  apply wp_bind. eapply wp_mono; [by apply (fi_data _ _ _ _ _ s2 H2)|]. intros d s3 [-> H3].
  fold (disk_inode sb (a_view a) (i_inum r)). set (dip := disk_inode sb (a_view a) (i_inum r)) in *.
  apply wp_bind. eapply wp_mono; [by apply (fsb_upd _ _ _ _ _ _ _ _ H3)|]. intros [] s4 H4.
  apply wp_bind. eapply wp_mono; [by apply (fi_brelse _ _ _ _ _ s4 H4)|]. intros [] s5 H5.
  apply wp_bind. eapply wp_mono; [by apply (fsi_upd _ _ _ _ _ _ H5)|]. intros [] s6 H6.
  rewrite (proj2 (Z.eqb_neq _ _) (Hty Hv)). apply wp_ret. cbn [fst snd] in H6. rewrite !list_alter_alter, Hins in H6. exact H6.
Qed.

(** ** Directories *)

Definition dirent_ok (de : dirent) : Prop := 0 ≤ de_inum de < 2 ^ 16 ∧ length (de_name de) = 14%nat.

Lemma read_dirent_bytes de : dirent_ok de → read_dirent (dirent_bytes de) = de.
Proof.
  intros [Hi Hn]. unfold read_dirent, dirent_bytes. rewrite (field_le 2 (de_inum de) (de_name de)). change (drop 2 (le_bytes 2 (de_inum de) ++ de_name de)) with (de_name de).
  rewrite take_ge by lia. destruct de as [i n]. cbn in *. f_equal. apply Z.mod_small. lia.
Qed.

Lemma length_dirent de : dirent_ok de → length (dirent_bytes de) = 16%nat.
Proof. intros [_ Hn]. unfold dirent_bytes. rewrite length_app, Hn. done. Qed.

Lemma flat_entries ents k de : Forall dirent_ok ents → ents !! k = Some de → take 16 (drop (16 * k) (flat_map dirent_bytes ents)) = dirent_bytes de.
Proof.
  revert k. induction ents as [|e ents IH]; intros [|k] Hok Hk; [done|done| |]; apply Forall_cons in Hok as [He Hok]; cbn [flat_map].
  - injection Hk as ->. rewrite Nat.mul_0_r, drop_0. apply take_app_length'. by rewrite length_dirent.
  - replace (16 * S k)%nat with (16 + 16 * k)%nat by lia. rewrite <-drop_drop, drop_app_length' by (by rewrite length_dirent). by apply IH.
Qed.

(** The inode [r] is a directory whose entries are [ents]. *)
Record directory (a : cache) (r : inode) (ents : list dirent) : Prop := {
  dr_type : i_type r = T_DIR;
  dr_max : i_size r ≤ MAXFILE * BSIZE;
  dr_size : 16 * Z.of_nat (length ents) ≤ i_size r;
  dr_map : mapped a (dinode_of r) 0 (16 * Z.of_nat (length ents));
  dr_ok : Forall dirent_ok ents;
  dr_data : contents (a_view a) (dinode_of r) (16 * length ents) = flat_map dirent_bytes ents
}.

(** The entry of a name. *)
Definition entry_of (name : list Z) (de : dirent) : Prop := de_inum de ≠ 0 ∧ namecmp name (de_name de) = 0.
#[global] Instance entry_of_dec name de : Decision (entry_of name de) := _.

Lemma readi_entry bl a t dp r ents k de s : fsi bl a t s → t.1 !! dp = Some r → i_dev r = dev → directory a r ents → ents !! k = Some de →
  wp (readi dp ToLocal (16 * Z.of_nat k) DIRENT_SIZE) (fun x s' => x = (16, dirent_bytes de) ∧ fsi bl a t s') s.
Proof.
  intros Hf Hr Hd [_ Hmax Hsz Hmap Hok Hdata] Hk. pose proof (lookup_lt_Some _ _ _ Hk) as Hlt.
  eapply wp_mono; [apply (readi_local_wp bl a t dp r (16 * Z.of_nat k) DIRENT_SIZE s); try done; try (change DIRENT_SIZE with 16; lia)|].
  { intros b Hb. apply Hmap. change DIRENT_SIZE with 16 in Hb. lia. }
  intros x s' [-> Hs']. split; [|done]. f_equal. change (Z.to_nat DIRENT_SIZE) with 16%nat. replace (16 * Z.of_nat k) with (Z.of_nat (16 * k)) by lia.
  rewrite (bytes_at_sub _ _ (16 * length ents) _ _ _ Hdata) by lia. by apply flat_entries.
Qed.

(** An entry that does not match. *)
Lemma dirlookup_skip bl a t dp r ents name j d s : fsi bl a t s → t.1 !! dp = Some r → i_dev r = dev → directory a r ents →
  ents !! j = Some d → ¬ entry_of name d → wp (dirlookup_body dp name (16 * Z.of_nat j)) (fun x s' => x = inl (16 * Z.of_nat (S j)) ∧ fsi bl a t s') s.
Proof.
  intros Hf Hr Hd Hdir Hj Hnot. pose proof Hdir as [_ _ Hsz _ Hok _]. pose proof (lookup_lt_Some _ _ _ Hj) as Hlt.
  unfold dirlookup_body. apply wp_bind, (fi_inode bl a t dp r s _ Hf Hr). rewrite (proj2 (Z.ltb_lt _ _)) by lia. cbn [negb].
  apply wp_bind. eapply wp_mono; [by apply (readi_entry bl a t dp r ents j d s)|]. intros x s2 [-> H2]. cbv beta iota. change (16 =? DIRENT_SIZE) with true. cbn [negb].
  rewrite read_dirent_bytes by (by apply (Forall_lookup_1 _ _ _ _ Hok Hj)). replace (16 * Z.of_nat (S j)) with (16 * Z.of_nat j + DIRENT_SIZE) by (change DIRENT_SIZE with 16; lia).
  destruct (Z.eqb_spec (de_inum d) 0); [by apply wp_ret|]. destruct (Z.eqb_spec (namecmp name (de_name d)) 0); [by destruct Hnot|]. by apply wp_ret.
Qed.

(** A name that is there: the first entry that matches it. *)
Lemma dirlookup_found bl a t dp r ents name k de ip f s :
  fsi bl a t s → free_lock t LItable → t.1 !! dp = Some r → i_dev r = dev → directory a r ents →
  list_find (entry_of name) ents = Some (k, de) → got (de_inum de) t.1 = Some (ip, f) →
  wp (dirlookup dp name) (fun x s' => x = Some (ip, 16 * Z.of_nat k) ∧ fsi bl a (alter f ip t.1, t.2) s') s.
Proof.
  intros Hf Hlk Hr Hd Hdir Hk Hg. apply list_find_Some in Hk as (Hk & [Hi Hm] & Hbef). pose proof Hdir as [Hty Hmax Hsz _ Hok _].
  pose proof (lookup_lt_Some _ _ _ Hk) as Hlt.
  unfold dirlookup. apply wp_bind, (fi_inode bl a t dp r s _ Hf Hr). rewrite Hty, Z.eqb_refl. cbn [negb].
  apply (wp_loop (fun off s' => fsi bl a t s' ∧ ∃ j : nat, off = 16 * Z.of_nat j ∧ (j ≤ k)%nat) (fun off => Z.to_nat (16 * Z.of_nat k - off))).
  2:{ split; [done|]. exists 0%nat. lia. } 2:{ lia. }
  intros off s1 (H1 & j & -> & Hj). destruct (decide (j = k)) as [->|Hne].
  - unfold dirlookup_body. apply wp_bind, (fi_inode bl a t dp r s1 _ H1 Hr). rewrite (proj2 (Z.ltb_lt _ _)) by lia. cbn [negb].
    apply wp_bind. eapply wp_mono; [by apply (readi_entry bl a t dp r ents k de s1)|]. intros x s2 [-> H2]. cbv beta iota. change (16 =? DIRENT_SIZE) with true. cbn [negb].
    rewrite read_dirent_bytes by (by apply (Forall_lookup_1 _ _ _ _ Hok Hk)). rewrite (proj2 (Z.eqb_neq _ _) Hi), Hm, Hd. cbn [Z.eqb].
    apply wp_bind. eapply wp_mono; [by apply (iget_wp bl a t _ ip f s2)|]. intros y s3 [-> H3]. apply wp_ret. by split.
  - destruct (lookup_lt_is_Some_2 ents j) as [d Hdj]; [lia|]. eapply wp_mono; [apply (dirlookup_skip bl a t dp r ents name j d s1); try done; apply (Hbef j d Hdj); lia|].
    intros x s2 [-> H2]. split; [|lia]. split; [done|]. exists (S j). lia.
Qed.

(** A name that is not there. *)
Lemma dirlookup_missing bl a t dp r ents name s :
  fsi bl a t s → t.1 !! dp = Some r → i_dev r = dev → directory a r ents → i_size r = 16 * Z.of_nat (length ents) →
  list_find (entry_of name) ents = None → wp (dirlookup dp name) (fun x s' => x = None ∧ fsi bl a t s') s.
Proof.
  intros Hf Hr Hd Hdir Hsz Hnone. apply list_find_None in Hnone. pose proof (dr_type _ _ _ Hdir) as Hty.
  unfold dirlookup. apply wp_bind, (fi_inode bl a t dp r s _ Hf Hr). rewrite Hty, Z.eqb_refl. cbn [negb].
  apply (wp_loop (fun off s' => fsi bl a t s' ∧ ∃ j : nat, off = 16 * Z.of_nat j ∧ (j ≤ length ents)%nat) (fun off => Z.to_nat (i_size r - off))).
  2:{ split; [done|]. exists 0%nat. lia. } 2:{ lia. }
  intros off s1 (H1 & j & -> & Hj). destruct (decide (j = length ents)) as [->|Hne].
  - unfold dirlookup_body. apply wp_bind, (fi_inode bl a t dp r s1 _ H1 Hr). rewrite (proj2 (Z.ltb_ge _ _)) by lia. apply wp_ret. by split.
  - destruct (lookup_lt_is_Some_2 ents j) as [d Hdj]; [lia|]. eapply wp_mono; [apply (dirlookup_skip bl a t dp r ents name j d s1); try done; by apply (Forall_lookup_1 _ _ _ _ Hnone Hdj)|].
    intros x s2 [-> H2]. split; [|lia]. split; [done|]. exists (S j). lia.
Qed.
End read.

(** [namecmp] of a name and a padded name. *)
Lemma strncmp_padded n : ∀ q z nm : list Z, 0 ∉ nm → 0 ∉ q → (length nm ≤ n)%nat → (length q ≤ n)%nat → (∀ x, x ∈ z → x = 0) →
  strncmp_list n nm (q ++ z) = 0 ↔ nm = q.
Proof.
  induction n as [|n IH]; intros q z nm Hnm Hq Hl1 Hl2 Hz.
  { destruct nm, q; cbn in *; try lia. done. }
  assert (Hz0 : default 0 (z !! 0%nat) = 0) by (destruct z as [|x z]; [done|]; cbn; apply Hz; left).
  destruct nm as [|x nm], q as [|y q]; cbn [strncmp_list lookup list_lookup default from_option id length app drop] in *.
  - rewrite Hz0. cbn. done.
  - split; [|done]. rewrite elem_of_cons in Hq. intros H. exfalso. apply Hq. left. cbn in H. lia.
  - rewrite Hz0. rewrite elem_of_cons in Hnm. assert (x ≠ 0) by (intros ->; tauto). rewrite (proj2 (Z.eqb_neq x 0)) by done. cbn [negb andb].
    split; [lia|done].
  - rewrite elem_of_cons in Hnm, Hq. assert (x ≠ 0) by (intros ->; tauto). rewrite (proj2 (Z.eqb_neq x 0)) by done. cbn [negb andb].
    destruct (Z.eqb_spec x y) as [->|Hne]; [|split; [lia|congruence]]. rewrite !drop_0. rewrite IH by (tauto || lia || done). split; [by intros ->|congruence].
Qed.

(** Names as they are in directories. *)
Definition name_fits (name : list Z) : Prop := (0 ∉ name) ∧ (length name ≤ 14)%nat.
#[global] Instance name_fits_dec name : Decision (name_fits name) := _.

Lemma namecmp_eq nm q : name_fits nm → name_fits q → namecmp nm (take 14 (q ++ replicate 14 0)) = 0 ↔ nm = q.
Proof.
  intros [H1 H2] [H3 H4]. unfold namecmp. change (Z.to_nat DIRSIZ) with 14%nat. rewrite take_app, (take_ge q) by lia.
  apply strncmp_padded; try done. intros x Hx. apply elem_of_take in Hx as (i & Hi & _). by apply lookup_replicate in Hi as [-> _].
Qed.

(** ** Theorems *)

Section theorems.
Context (dev : Z) (p : nat) (pid start : Z) (sb : superblock) (bl : list Z) (a : cache) (t : rest).
#[local] Existing Instance ideal_disk.

(** The number of bytes that a read of [n] bytes at [off] can deliver. *)
Definition available (r : inode) (off n : Z) : Z := if i_size r <? off then 0 else Z.min n (i_size r - off).

Lemma readi_wp (ip : nat) (r : inode) (pt dst off n : Z) (s : kst * list (kst → kst)) :
  fsi dev p pid start sb bl a t s → t.1 !! ip = Some r → i_dev r = dev → i_size r ≤ MAXFILE * BSIZE → mapped a (dinode_of r) 0 (i_size r) →
  t.2.2 !! p = Some pt → uspace_ok (user_mem t) pt → 0 ≤ dst → dst + n < 2 ^ 64 → 0 ≤ off < 2 ^ 32 → 0 ≤ n < 2 ^ 31 →
  let m := available r off n in
  wp (readi ip (ToUser dst) off n) (fun x s' => ∃ c mem', fsi dev p pid start sb bl a (with_mem t mem') s' ∧
    ustored (user_mem t) pt dst (bytes_at (a_view a) (dinode_of r) off (Z.to_nat m)) c mem' ∧ (c ≤ Z.to_nat m)%nat ∧
    if decide (c = Z.to_nat m) then x = (m, []) else x = (-1, []) ∧ upage true (user_mem t) pt (PGROUNDDOWN (dst + Z.of_nat c)) = None) s.
Proof.
  intros Hf Hr Hd Hmax Hmap Hpt Hus Hdst Hdst2 Hoff Hn m. unfold m, available. clear m. change (MAXFILE * BSIZE) with 274432 in Hmax.
  unfold readi. apply wp_bind, (fi_inode dev p pid start sb bl a t ip r s _ Hf Hr). assert (Hwrap : i_size r < off ∨ off ≤ i_size r ∧ u32 (off + n) = off + n).
  { destruct (Z.lt_ge_cases (i_size r) off); [by left|right]. split; [done|]. apply wrap_small. lia. }
  destruct Hwrap as [Hpast|[Hin Hw]].
  { rewrite (proj2 (Z.ltb_lt _ _)) by done. cbn [orb]. apply wp_ret. exists 0%nat, (user_mem t).
    split; [destruct t as [t1 [[t2 t3] t4]]; exact Hf|]. split; [by apply ustored_0|]. by split. }
  rewrite Hw, !(proj2 (Z.ltb_ge _ _)) by lia. cbn [orb].
  assert (En : (if i_size r <? off + n then i_size r - off else n) = Z.min n (i_size r - off)) by (destruct (Z.ltb_spec (i_size r) (off + n)); lia). rewrite En.
  set (m := Z.min n (i_size r - off)). eapply wp_mono; [apply (readi_user_wp dev p pid start sb bl a t ip r pt dst off m s Hf Hr Hd Hpt Hus Hdst); try lia; [done|intros b Hb; apply Hmap; lia]|].
  intros x s' (c & m' & Hst & Hc & Hf' & Hx). by exists c, m'.
Qed.

(** C25: [readi] into user memory, for [read]: at an offset past the end of the file it returns
    0.  Otherwise it stores the bytes of the file from [off] on, as many as there are up to [n],
    in the caller's memory and returns their number; when it meets a user page that is not
    writable it returns -1 and the bytes before that page are stored.  No other byte of memory,
    no block and no inode changes. *)
Theorem readi_correct (ip : nat) (r : inode) (pt dst off n : Z) (s : kst * list (kst → kst)) :
  fsi dev p pid start sb bl a t s → t.1 !! ip = Some r → i_dev r = dev → i_size r ≤ MAXFILE * BSIZE → mapped a (dinode_of r) 0 (i_size r) →
  t.2.2 !! p = Some pt → uspace_ok (user_mem t) pt → 0 ≤ dst → dst + n < 2 ^ 64 → 0 ≤ off < 2 ^ 32 → 0 ≤ n < 2 ^ 31 →
  let m := available r off n in
  ∃ res c mem' s', readi ip (ToUser dst) off n s = Ok (res, []) s' ∧ fsi dev p pid start sb bl a (with_mem t mem') s' ∧
    ustored (user_mem t) pt dst (bytes_at (a_view a) (dinode_of r) off (Z.to_nat m)) c mem' ∧ (c ≤ Z.to_nat m)%nat ∧
    if decide (c = Z.to_nat m) then res = m else res = -1 ∧ upage true (user_mem t) pt (PGROUNDDOWN (dst + Z.of_nat c)) = None.
Proof.
  intros Hf Hr Hd Hmax Hmap Hpt Hus Hdst Hdst2 Hoff Hn m.
  destruct (proj1 (wp_Ok _ _ _) (readi_wp ip r pt dst off n s Hf Hr Hd Hmax Hmap Hpt Hus Hdst Hdst2 Hoff Hn)) as (x & s' & E & c & m' & Hf' & Hst & Hc & Hx).
  fold m in Hst, Hc, Hx. case_decide as Ec; [subst x|destruct Hx as [-> Hx]]; eexists _, c, m', s'; (split; [exact E|]); split_and!; try done;
    [by rewrite decide_True|by rewrite decide_False].
Qed.

(** C28: [dirlookup] returns the inode and the offset of the first entry of the directory that is in
    use and has the name, with one more reference to that inode, or nothing when there is
    none; it changes nothing else. *)
Theorem dirlookup_correct (dp : nat) (r : inode) (ents : list dirent) (name : list Z) (s : kst * list (kst → kst)) :
  fsi dev p pid start sb bl a t s → free_lock t LItable → t.1 !! dp = Some r → i_dev r = dev → directory a r ents →
  i_size r = 16 * Z.of_nat (length ents) → (∀ inum, is_Some (got dev inum t.1)) →
  ∃ s', match list_find (entry_of name) ents with
    | Some (k, de) => ∃ ip f, got dev (de_inum de) t.1 = Some (ip, f) ∧ dirlookup dp name s = Ok (Some (ip, 16 * Z.of_nat k)) s' ∧
        fsi dev p pid start sb bl a (alter f ip t.1, t.2) s'
    | None => dirlookup dp name s = Ok None s' ∧ fsi dev p pid start sb bl a t s'
    end.
Proof.
  intros Hf Hlk Hr Hd Hdir Hsz Hroom. destruct (list_find (entry_of name) ents) as [[k de]|] eqn:E.
  - destruct (Hroom (de_inum de)) as [[ip f] Hg].
    destruct (proj1 (wp_Ok _ _ _) (dirlookup_found dev p pid start sb bl a t dp r ents name k de ip f s Hf Hlk Hr Hd Hdir E Hg)) as (x & s' & Es & -> & Hf').
    exists s', ip, f. by split_and!.
  - destruct (proj1 (wp_Ok _ _ _) (dirlookup_missing dev p pid start sb bl a t dp r ents name s Hf Hr Hd Hdir Hsz E)) as (x & s' & Es & -> & Hf'). by exists s'.
Qed.
End theorems.
