(* ===== verification/Fsalloc.v ===== *)
(** * Growing files: bmap with allocation

    [bmap] finds the block of a file and, where there is none, takes one from the bitmap with
    [balloc]: a direct block, the indirect block, or a block the indirect block names.  The
    blocks of the file stay its own, in use and apart from the log, the bitmap and the inode
    table ([placed]), and nothing else that is in use changes ([extends]). *)

From S2P Require Import Prelude Mem CString Kernel Spinlock Kalloc Vm Vmproof Proc Procproof Uart Printf Bio Log Logproof Bioproof Frame Logkernel Fs Fsproof Fsread.

Section place.
Context (start : Z) (sb : superblock).

(** Blocks that are no file's: block 0, the log, the bitmap, the inode table. *)
Definition reserved (m : Z) : Prop :=
  m = 0 ∨ in_log start m ∨ (∃ i, 0 ≤ i < sb_size sb ∧ m = BBLOCK i sb) ∨ (∃ i, 0 ≤ i < sb_ninodes sb ∧ m = IBLOCK i sb).
Definition marked (v : blocks) : Prop := ∀ m, 0 ≤ m < sb_size sb → reserved m → used sb v m = true.

(** The blocks of an inode: different from each other, in use, and not reserved. *)
Definition own_blocks (v : blocks) (din : dinode) : Prop :=
  ∀ k m, slot k → slot m → loc v din k ≠ 0 → loc v din k = loc v din m → k = m.
Record placed (v : blocks) (din : dinode) : Prop := {
  pl_own : own_blocks v din;
  pl_loc k : slot k → loc v din k ≠ 0 → 0 ≤ loc v din k < sb_size sb ∧ used sb v (loc v din k) = true ∧ ¬ reserved (loc v din k);
  pl_len : length (di_addrs din) = 13%nat
}.

(** The file [din] in [v] may have got more blocks: those it had stay its own, and every
    other block that was in use, but for the bitmap, is as it was. *)
Record changed (v : blocks) (din : dinode) (v' : blocks) (din' : dinode) : Prop := {
  ch_placed : placed v' din';
  ch_marked : marked v';
  ch_loc j : slot j → loc v' din' j = loc v din j ∨ loc v din j = 0 ∧ loc v' din' j ≠ 0 ∧ used sb v (loc v' din' j) = false;
  ch_used i : 0 ≤ i < sb_size sb → used sb v' i = true ↔ used sb v i = true ∨ ∃ j, slot j ∧ loc v' din' j = i;
  ch_blk m : 0 ≤ m < sb_size sb → used sb v m = true → (∀ i, 0 ≤ i < sb_size sb → m ≠ BBLOCK i sb) → (∀ k, slot k → m ≠ loc v din k) → blk v' m = blk v m
}.

(** The contents of its blocks stay, too. *)
Record extends (v : blocks) (din : dinode) (v' : blocks) (din' : dinode) : Prop := {
  ex_changed : changed v din v' din';
  ex_data k : slot k → 0 ≤ k → loc v din k ≠ 0 → blk v' (loc v din k) = blk v (loc v din k)
}.

Lemma changed_refl v din : placed v din → marked v → changed v din v din.
Proof.
  intros Hp Hm. split; [done|done|by left| |done]. intros i Hi. split; [by left|]. intros [H|(j & Hj & <-)]; [done|].
  destruct (decide (loc v din j = 0)) as [E|E]; [apply Hm; [done|by left]|]. by apply Hp.
Qed.
Lemma extends_refl v din : placed v din → marked v → extends v din v din.
Proof. intros Hp Hm. split; [by apply changed_refl|done]. Qed.

Lemma ch_kept v din v' din' j : changed v din v' din' → slot j → loc v din j ≠ 0 → loc v' din' j = loc v din j.
Proof. intros H Hj Hnz. destruct (ch_loc _ _ _ _ H j Hj) as [E|[E _]]; [done|]. by destruct Hnz. Qed.

Lemma changed_trans v din v1 din1 v2 din2 : marked v →
  changed v din v1 din1 → changed v1 din1 v2 din2 → changed v din v2 din2.
Proof.
  intros Hm H1 H2. pose proof (ch_placed _ _ _ _ H1) as Hp1. pose proof (ch_placed _ _ _ _ H2) as Hp2.
  assert (Hback : ∀ i, 0 ≤ i < sb_size sb → used sb v1 i = false → used sb v i = false).
  { intros i Hi E. destruct (used sb v i) eqn:Eu; [|done]. rewrite (proj2 (ch_used _ _ _ _ H1 i Hi)) in E by (by left). done. }
  split; [done|apply H2|..].
  - intros j Hj. destruct (ch_loc _ _ _ _ H2 j Hj) as [E2|(Z2 & N2 & F2)].
    + rewrite E2. by apply H1.
    + right. destruct (ch_loc _ _ _ _ H1 j Hj) as [E1|(_ & N1 & _)]; [|done]. split; [congruence|]. split; [done|].
      apply Hback; [|done]. by apply (pl_loc _ _ Hp2).
  - intros i Hi. rewrite (ch_used _ _ _ _ H2 i Hi), (ch_used _ _ _ _ H1 i Hi). split.
    + intros [[H|(j & Hj & E)]|H]; [by left| |by right]. destruct (decide (i = 0)) as [->|Hnz]; [left; apply Hm; [done|by left]|].
      right. exists j. split; [done|]. rewrite (ch_kept _ _ _ _ j H2 Hj); congruence.
    + intros [H|H]; [by left; left|by right].
  - intros m Hi Hu Hb Hne. rewrite (ch_blk _ _ _ _ H2 m Hi).
    + by apply H1.
    + apply (ch_used _ _ _ _ H1 m Hi). by left.
    + done.
    + intros k Hk. destruct (ch_loc _ _ _ _ H1 k Hk) as [->|(_ & _ & F)]; [by apply Hne|]. intros ->. congruence.
Qed.

Lemma extends_trans v din v1 din1 v2 din2 : marked v →
  extends v din v1 din1 → extends v1 din1 v2 din2 → extends v din v2 din2.
Proof.
  intros Hm [H1 D1] [H2 D2]. split; [by eapply changed_trans|]. intros k Hk Hk0 Hnz. pose proof (ch_kept _ _ _ _ k H1 Hk Hnz) as E.
  rewrite <-(D1 k Hk Hk0 Hnz), <-E. apply D2; [done|done|congruence].
Qed.

(** A free block is in no file and not reserved. *)
Lemma free_apart v din n : placed v din → marked v → 0 ≤ n < sb_size sb → used sb v n = false →
  n ≠ 0 ∧ ¬ reserved n ∧ ∀ k, slot k → loc v din k ≠ n.
Proof.
  intros Hp Hm Hn Hf. assert (Hr : ¬ reserved n) by (intros H; by rewrite (Hm n Hn H) in Hf).
  assert (Hnz : n ≠ 0) by (intros ->; apply Hr; by left). split_and!; [done|done|].
  intros k Hk E. destruct (pl_loc _ _ Hp k Hk ltac:(congruence)) as (_ & Hu & _). congruence.
Qed.

(** One slot more. *)
Lemma extends_slot v din v' din' k n : placed v din → marked v → slot k → loc v din k = 0 → 0 ≤ n < sb_size sb → used sb v n = false →
  length (di_addrs din') = 13%nat → (∀ j, slot j → loc v' din' j = if decide (j = k) then n else loc v din j) →
  (∀ i, 0 ≤ i < sb_size sb → used sb v' i = bool_decide (i = n) || used sb v i) →
  (∀ m, m ≠ n → (∀ i, 0 ≤ i < sb_size sb → m ≠ BBLOCK i sb) → m ≠ loc v din (-1) → blk v' m = blk v m) →
  extends v din v' din'.
Proof.
  intros Hp Hm Hk Hz Hn Hf Hlen HL HU HB. destruct (free_apart v din n Hp Hm Hn Hf) as (Hnz & Hnr & Hno).
  assert (Hmono : ∀ i, 0 ≤ i < sb_size sb → used sb v i = true → used sb v' i = true) by (intros i Hi H; rewrite HU, H by done; apply orb_true_r).
  split; [split|].
  - split; [| |done].
    + intros j m Hj Hm' Hnz' E. rewrite !HL in E by done. rewrite HL in Hnz' by done.
      destruct (decide (j = k)) as [Ej|Ej], (decide (m = k)) as [Em|Em].
      * congruence.
      * by destruct (Hno m Hm').
      * by destruct (Hno j Hj).
      * by apply (pl_own _ _ Hp).
    + intros j Hj. rewrite HL by done. case_decide as Ej.
      * intros _. split_and!; try done; try lia. by rewrite HU, bool_decide_eq_true_2.
      * intros H. destruct (pl_loc _ _ Hp j Hj H) as (H1 & H2 & H3). split_and!; try done; try lia. by apply Hmono.
  - intros m Hi Hr. apply Hmono; [done|]. by apply Hm.
  - intros j Hj. rewrite HL by done. case_decide as Ej; [|by left]. subst j. by right.
  - intros i Hi. rewrite HU by done. split.
    + intros [H|H]%orb_true_iff; [|by left]. apply bool_decide_eq_true_1 in H. subst i. right. exists k. split; [done|]. by rewrite HL, decide_True.
    + intros [->|(j & Hj & E)]; [apply orb_true_r|]. rewrite HL in E by done. case_decide as Ej; [by rewrite bool_decide_eq_true_2|].
      destruct (decide (i = 0)) as [->|Hi0]; [rewrite (Hm 0) by (done || by left); apply orb_true_r|].
      destruct (pl_loc _ _ Hp j Hj ltac:(congruence)) as (_ & Hu & _). subst i. rewrite Hu. apply orb_true_r.
  - intros m Hi Hu Hb Hne. apply HB; [|done|by apply Hne, slot_ind]. intros ->. congruence.
  - intros j Hj Hj0 Hjz. destruct (pl_loc _ _ Hp j Hj Hjz) as (_ & Hu & Hr). apply HB; [congruence| |].
    + intros i Hi E. apply Hr. right. right. left. by exists i.
    + intros E. apply (pl_own _ _ Hp) in E; [lia|done|apply slot_ind|done].
Qed.

(** What [balloc] does to the blocks. *)
Record took (v v1 : blocks) (n : Z) : Prop := {
  tk_range : 0 ≤ n < sb_size sb;
  tk_free : used sb v n = false;
  tk_zero : blk v1 n = replicate (Z.to_nat BSIZE) 0;
  tk_used i : 0 ≤ i < sb_size sb → used sb v1 i = bool_decide (i = n) || used sb v i;
  tk_blk m : m ≠ n → (∀ i, 0 ≤ i < sb_size sb → m ≠ BBLOCK i sb) → blk v1 m = blk v m
}.

Lemma field_zero k n : field (replicate (Z.to_nat BSIZE) 0) k n = 0.
Proof.
  unfold field. rewrite drop_replicate, take_replicate. generalize (n `min` (Z.to_nat BSIZE - k))%nat. intros j.
  induction j as [|j IH]; [done|]. cbn [replicate le_val]. rewrite IH. done.
Qed.

(** The inode with block [n] in slot [k], a direct one or the indirect block. *)
Definition addr_slot (k : Z) : nat := if k <? 0 then Z.to_nat NDIRECT else Z.to_nat k.
Definition with_addr (din : dinode) (k n : Z) : dinode :=
  mkdinode (di_type din) (di_major din) (di_minor din) (di_nlink din) (di_size din) (<[addr_slot k := n]> (di_addrs din)).

Lemma addr_with_addr din k n j : length (di_addrs din) = 13%nat → -1 ≤ k < NDIRECT → 0 ≤ j ≤ NDIRECT →
  addr (with_addr din k n) j = if decide (j = if k <? 0 then NDIRECT else k) then n else addr din j.
Proof.
  intros Hlen Hk Hj. unfold addr. cbn [with_addr di_addrs]. unfold addr_slot. change NDIRECT with 12 in *. destruct (Z.ltb_spec k 0); case_decide as E.
  - subst j. by rewrite list_lookup_insert_eq by lia.
  - by rewrite list_lookup_insert_ne by lia.
  - subst j. by rewrite list_lookup_insert_eq by lia.
  - by rewrite list_lookup_insert_ne by lia.
Qed.

(** The indirect block is not the one taken, and is not in the bitmap. *)
Lemma took_indirect v v1 din n : placed v din → marked v → took v v1 n → addr din NDIRECT ≠ 0 → blk v1 (addr din NDIRECT) = blk v (addr din NDIRECT).
Proof.
  intros Hp Hm Ht Hnz. destruct (free_apart v din n Hp Hm (tk_range _ _ _ Ht) (tk_free _ _ _ Ht)) as (_ & _ & Hno).
  destruct (pl_loc _ _ Hp (-1) slot_ind Hnz) as (_ & _ & Hr). apply (tk_blk _ _ _ Ht).
  - exact (Hno (-1) slot_ind).
  - intros i Hi E. apply Hr. right. right. left. by exists i.
Qed.

Lemma extends_addr v v1 din k n : placed v din → marked v → -1 ≤ k < NDIRECT → loc v din k = 0 → took v v1 n →
  extends v din v1 (with_addr din k n) ∧ ∀ j, slot j → loc v1 (with_addr din k n) j = if decide (j = k) then n else loc v din j.
Proof.
  intros Hp Hm Hk Hz Ht. pose proof (pl_len _ _ Hp) as Hlen. assert (Hsk : slot k) by (unfold slot, MAXFILE; change NINDIRECT with 256; lia).
  destruct (free_apart v din n Hp Hm (tk_range _ _ _ Ht) (tk_free _ _ _ Ht)) as (Hnz & _ & _).
  assert (HL : ∀ j, slot j → loc v1 (with_addr din k n) j = if decide (j = k) then n else loc v din j).
  { intros j [Hj1 Hj2]. unfold loc at 1. rewrite (addr_with_addr din k n NDIRECT Hlen Hk) by (change NDIRECT with 12; lia).
    destruct (Z.ltb_spec j 0).
    - assert (j = -1) as -> by lia. destruct (Z.ltb_spec k 0).
      + rewrite (decide_True (P := NDIRECT = NDIRECT)) by done. by rewrite decide_True by lia.
      + rewrite decide_False by lia. by rewrite decide_False by lia.
    - destruct (Z.ltb_spec j NDIRECT).
      + rewrite addr_with_addr by (done || lia). unfold loc. rewrite (proj2 (Z.ltb_ge j 0)), (proj2 (Z.ltb_lt j NDIRECT)) by lia.
        destruct (Z.ltb_spec k 0); [by rewrite !decide_False by lia|]. by repeat case_decide.
      + rewrite (decide_False (P := j = k)) by lia. destruct (Z.ltb_spec k 0).
        * rewrite decide_True by done. rewrite (proj2 (Z.eqb_neq n 0) Hnz), (tk_zero _ _ _ Ht), field_zero. assert (k = -1) as -> by lia.
          rewrite loc_ind in Hz. unfold loc. rewrite (proj2 (Z.ltb_ge j 0)), (proj2 (Z.ltb_ge j NDIRECT)), Hz by lia. done.
        * rewrite decide_False by lia. unfold loc. rewrite (proj2 (Z.ltb_ge j 0)), (proj2 (Z.ltb_ge j NDIRECT)) by lia.
          destruct (Z.eqb_spec (addr din NDIRECT) 0); [done|]. by rewrite (took_indirect v v1 din n). }
  split; [|done]. apply (extends_slot v din v1 _ k n); try done; [apply Ht|apply Ht|cbn; by rewrite length_insert|apply Ht|].
  intros m H1 H2 _. by apply Ht.
Qed.

(** Slot [k] named by the indirect block. *)
Lemma extends_indirect v v1 din k n : placed v din → marked v → sized v1 → NDIRECT ≤ k < MAXFILE → loc v din k = 0 → addr din NDIRECT ≠ 0 → took v v1 n → n < 2 ^ 32 →
  let x := addr din NDIRECT in
  let v2 := <[x := set_bytes (blk v1 x) (Z.to_nat (4 * (k - NDIRECT))) (le_bytes 4 n)]> v1 in
  extends v din v2 din ∧ ∀ j, slot j → loc v2 din j = if decide (j = k) then n else loc v din j.
Proof.
  intros Hp Hm Hsz Hk Hz Hx Ht Hn32 x v2. pose proof (tk_range _ _ _ Ht) as Hn. change NDIRECT with 12 in Hk. change MAXFILE with 268 in Hk.
  assert (Hsk : slot k) by (unfold slot; change MAXFILE with 268; lia).
  destruct (pl_loc _ _ Hp (-1) slot_ind Hx) as (Hxr & Hxu & Hxn). rewrite loc_ind in Hxr, Hxu, Hxn. fold x in Hxr, Hxu, Hxn.
  assert (Hxb : ∀ i, 0 ≤ i < sb_size sb → BBLOCK i sb ≠ x) by (intros i Hi E; apply Hxn; right; right; left; by exists i).
  assert (Hbx : blk v1 x = blk v x) by (by apply (took_indirect v v1 din n)).
  assert (HL : ∀ j, slot j → loc v2 din j = if decide (j = k) then n else loc v din j).
  { intros j [Hj1 Hj2]. change MAXFILE with 268 in Hj2. unfold loc. change NDIRECT with 12. fold x. change (addr din 12) with x.
    destruct (Z.ltb_spec j 0); [by rewrite decide_False by lia|]. destruct (Z.ltb_spec j 12); [by rewrite decide_False by lia|].
    rewrite (proj2 (Z.eqb_neq x 0) Hx). unfold v2. rewrite blk_insert_eq. change NDIRECT with 12. case_decide as Ej.
    - subst j. rewrite <-(Nat.add_0_r (Z.to_nat (4 * (k - 12)))) at 2. rewrite field_set_same by (rewrite ?length_le_bytes, ?Hsz; change (Z.to_nat BSIZE) with 1024%nat; lia).
      pose proof (field_le 4 n []) as E. rewrite app_nil_r in E. rewrite E. apply Z.mod_small. change (8 * Z.of_nat 4) with 32. lia.
    - rewrite field_set_other by (rewrite ?length_le_bytes, ?Hsz; change (Z.to_nat BSIZE) with 1024%nat; lia). by rewrite Hbx. }
  split; [|done]. apply (extends_slot v din v2 din k n); try done; [apply Ht|apply Hp|..].
  - intros i Hi. unfold used, v2. rewrite blk_insert_ne by (by apply not_eq_sym, Hxb). by apply Ht.
  - intros m H1 H2 H3. rewrite loc_ind in H3. unfold v2. rewrite blk_insert_ne by (by apply not_eq_sym). by apply Ht.
Qed.

(** ** Free blocks *)

(** At least [k] blocks are free. *)
Definition free_blocks (v : blocks) (k : Z) : Prop :=
  ∃ l : list Z, NoDup l ∧ k ≤ Z.of_nat (length l) ∧ ∀ n, n ∈ l → 0 ≤ n < sb_size sb ∧ used sb v n = false.

Lemma free_blocks_first v k : 1 ≤ k → free_blocks v k → ∃ n, first_free sb v n.
Proof.
  intros Hk (l & _ & Hl & Hin). destruct l as [|n0 l]; [cbn in Hl; lia|]. destruct (Hin n0 ltac:(by left)) as [Hn0 Hf0]. clear Hin Hl.
  assert (Hind : ∀ j : nat, (∃ n, first_free sb v n) ∨ ∀ i, 0 ≤ i < Z.of_nat j → i < sb_size sb → used sb v i = true).
  { induction j as [|j [IH|IH]]; [right; intros i Hi; lia|by left|]. destruct (decide (Z.of_nat j < sb_size sb ∧ used sb v (Z.of_nat j) = false)) as [[H1 H2]|H].
    - left. exists (Z.of_nat j). split_and!; [lia|lia|done|]. intros i Hi. apply IH; lia.
    - right. intros i Hi Hs. destruct (decide (i = Z.of_nat j)) as [->|]; [|apply IH; lia]. destruct (used sb v (Z.of_nat j)) eqn:E; [done|]. by destruct H. }
  destruct (Hind (S (Z.to_nat n0))) as [H|H]; [done|]. rewrite H in Hf0 by lia. done.
Qed.

Lemma free_blocks_took v v1 n k : took v v1 n → free_blocks v k → free_blocks v1 (k - 1).
Proof.
  intros Ht (l & Hnd & Hl & Hin). assert (Hrest : ∃ l', NoDup l' ∧ (n ∉ l') ∧ (∀ m, m ∈ l' → m ∈ l) ∧ (length l ≤ S (length l'))%nat).
  { destruct (decide (n ∈ l)) as [Hn|Hn]; [|exists l; split_and!; (done || lia)]. apply elem_of_Permutation in Hn as [l' Hl'].
    exists l'. rewrite Hl' in Hnd. apply NoDup_cons in Hnd as [H1 H2]. split_and!; [done|done| |rewrite Hl'; cbn; lia].
    intros m Hm. rewrite Hl'. by right. }
  destruct Hrest as (l' & H1 & H2 & H3 & H4). exists l'. split_and!; [done|lia|]. intros m Hm. destruct (Hin m (H3 m Hm)) as [Hr Hf]. split; [done|].
  rewrite (tk_used _ _ _ Ht) by done. rewrite bool_decide_eq_false_2; [done|]. by intros ->.
Qed.

Lemma free_blocks_used v v' k : (∀ i, 0 ≤ i < sb_size sb → used sb v' i = used sb v i) → free_blocks v k → free_blocks v' k.
Proof. intros H (l & H1 & H2 & H3). exists l. split_and!; [done|done|]. intros n Hn. destruct (H3 n Hn) as [Hr Hf]. split; [done|]. by rewrite H. Qed.
End place.

(** ** bmap *)

Section grow.
Context (dev : Z) (p : nat) (pid start : Z) (sb : superblock).
#[local] Existing Instance ideal_disk.
#[local] Existing Instance KB.
#[local] Instance KSA : BlocksSpec KB := KS dev p pid.

(** The rest of the transaction is as it was. *)
Definition same_txn (a a' : cache) : Prop := a_disk a' = a_disk a ∧ l_outstanding (a_log a') = l_outstanding (a_log a) ∧ l_size (a_log a') = l_size (a_log a).

Lemma same_txn_trans a b c : same_txn a b → same_txn b c → same_txn a c.
Proof. unfold same_txn. intros (-> & -> & ->). done. Qed.
Lemma same_txn_updated n d bl a a' : updated dev p pid start n d bl a a' → same_txn a a'.
Proof. intros [_ H1 _ H2 H3 _]. done. Qed.

(** The transaction can log [left] more blocks, and one more buffer can be held. *)
Definition can_log (bl : list Z) (a : cache) (left : Z) : Prop :=
  1 ≤ l_outstanding (a_log a) ∧ Z.of_nat (length bl) + left < l_size (a_log a) ∧ Z.of_nat (length bl) + left + 1 < Z.of_nat NBUF.

Lemma can_log_room bl a left n : can_log bl a left → 1 ≤ left → 0 ≤ n < 2 ^ 31 → ¬ in_log start n → room start bl n a.
Proof. intros (H1 & H2 & H3) Hl Hn Hin. pose proof (logged_length bl n). split_and!; try done; lia. Qed.

Lemma can_log_le bl a left bl' a' left' : can_log bl a left → same_txn a a' →
  Z.of_nat (length bl') + left' ≤ Z.of_nat (length bl) + left → can_log bl' a' left'.
Proof. intros (H1 & H2 & H3) (_ & E1 & E2) Hle. unfold can_log. rewrite E1, E2. split_and!; lia. Qed.

(** What growing a file logs besides its new blocks: the bitmap and the indirect block, each once. *)
Definition cost (bl : list Z) (din : dinode) : Z :=
  (if decide (sb_bmapstart sb ∈ bl) then 0 else 1) + (if decide (addr din NDIRECT ≠ 0 ∧ addr din NDIRECT ∈ bl) then 0 else 1).

Lemma logged_length_eq bl x : Z.of_nat (length (logged bl x)) = Z.of_nat (length bl) + (if decide (x ∈ bl) then 0 else 1).
Proof. unfold logged. case_decide; [lia|]. rewrite length_app. cbn. lia. Qed.

Lemma cost_logged bl x din : let l := logged bl x in
  Z.of_nat (length l) + cost l din ≤ Z.of_nat (length bl) + cost bl din + (if decide (x ∈ bl) then 0 else 1) ∧
  (x = sb_bmapstart sb ∨ x = addr din NDIRECT ∧ x ≠ 0 → Z.of_nat (length l) + cost l din ≤ Z.of_nat (length bl) + cost bl din).
Proof.
  intros l. unfold l, cost. rewrite logged_length_eq.
  assert (H1 : sb_bmapstart sb ∈ logged bl x ↔ sb_bmapstart sb = x ∨ sb_bmapstart sb ∈ bl) by apply elem_of_logged.
  assert (H2 : addr din NDIRECT ∈ logged bl x ↔ addr din NDIRECT = x ∨ addr din NDIRECT ∈ bl) by apply elem_of_logged.
  destruct (decide (x ∈ bl)) as [Hx|Hx].
  - replace (logged bl x) with bl by (unfold logged; by rewrite decide_True). lia.
  - split; [repeat case_decide; try lia; tauto|]. intros [E|[E Hnz]]; repeat case_decide; try lia; subst; tauto.
Qed.

Lemma cost_addrs bl din din' : addr din' NDIRECT = addr din NDIRECT → cost bl din' = cost bl din.
Proof. unfold cost. by intros ->. Qed.
Lemma cost_indirect bl din din' : addr din NDIRECT = 0 → addr din' NDIRECT ≠ 0 → addr din' NDIRECT ∈ bl → cost bl din' = cost bl din - 1.
Proof. unfold cost. intros -> H1 H2. rewrite (decide_True (P := addr din' NDIRECT ≠ 0 ∧ _)) by done. rewrite (decide_False (P := 0 ≠ 0 ∧ _)) by tauto. lia. Qed.
Lemma cost_range bl din : 0 ≤ cost bl din ≤ 2.
Proof. unfold cost. repeat case_decide; lia. Qed.

(** The disk: one block of bitmap, as mkfs makes it. *)
Record small_disk : Prop := {
  sd_layout : layout start sb;
  sd_inodes : inode_area start sb;
  sd_dev : u32 dev = dev;
  sd_one : sb_size sb ≤ BPB;
  sd_istart : 0 < sb_inodestart sb;
  sd_inside i : 0 ≤ i < sb_ninodes sb → 0 ≤ IBLOCK i sb < sb_size sb;
  sd_apart i j : 0 ≤ i < sb_ninodes sb → 0 ≤ j < sb_size sb → IBLOCK i sb ≠ BBLOCK j sb
}.

Lemma BBLOCK_one i : small_disk → 0 ≤ i < sb_size sb → BBLOCK i sb = sb_bmapstart sb.
Proof. intros [Hl _ _ H1 _ _ _] Hi. rewrite (BBLOCK_eq start) by done. rewrite Z.div_small by lia. lia. Qed.

Lemma marked_meta v : marked start sb v → meta_used start sb v.
Proof. intros Hm m i Hm' Hi [H|H]; apply Hm; [done|by right; left|done|]. right. right. left. by exists i. Qed.

(** [balloc], with other buffers held. *)
Lemma alloc_wp din H bl t s a left k :
  small_disk → marked start sb (a_view a) → fsx dev p pid sb t s (hold H a) → open_txn start bl a → can_log bl a (cost bl din + left) → 2 ≤ left →
  (size H ≤ 1)%nat → spared sb (a_view a) H → free_blocks sb (a_view a) k → 1 ≤ k →
  wp (balloc dev) (fun n s' => ∃ bl' a', fsx dev p pid sb t s' (hold H a') ∧ open_txn start bl' a' ∧ same_txn a a' ∧
    took sb (a_view a) (a_view a') n ∧ n ∈ bl' ∧ can_log bl' a' (cost bl' din + left - 1)) s.
Proof.
  intros Hsd Hm Hf Hot Hlog Hleft HH Hsp Hfree Hk. pose proof Hsd as [Hl _ Hdev _ _ _ _]. destruct (free_blocks_first sb _ k Hk Hfree) as [n Hff].
  pose proof (cost_range bl din) as Hcr. pose proof (marked_meta _ Hm) as Hmeta. pose proof Hff as (Hn & Hnf & _).
  eapply wp_mono; [apply (balloc_hold_wp dev p pid start sb n bl H t s a Hl Hdev Hmeta Hf Hot)|]; [|done|done|].
  { destruct Hlog as (H1 & H2 & H3). split_and!; [|done|]; lia. }
  intros n' s' [-> (a' & Hf' & Hal)]. assert (Hszd : fsr_sized a).
  { intros m. exact (bo_sized _ _ _ _ (kr_bufs _ _ _ _ _ (fs_krepr _ _ _ _ _ _ (proj1 Hf))) m). }
  destruct (allocated_view dev p pid start sb n bl a a' Hl Hszd Hmeta Hff Hal) as (_ & Hz & Hu & Hb).
  destruct Hal as (a1 & Hu1 & Hu2). assert (Hs : same_txn a a') by (eapply same_txn_trans; [exact (same_txn_updated _ _ _ _ _ Hu1)|exact (same_txn_updated _ _ _ _ _ Hu2)]).
  rewrite (BBLOCK_one n Hsd Hn) in *. set (bl1 := logged bl (sb_bmapstart sb)) in *. exists (logged bl1 n), a'.
  split; [done|]. split; [apply Hu2|]. split; [done|]. split; [|split].
  - split; [done|done|done|done|]. intros m H1 H2. apply Hb; [done|]. rewrite <-(BBLOCK_one n Hsd Hn). by apply H2.
  - apply elem_of_logged. by left.
  - apply (can_log_le bl a (cost bl din + left)); [done|done|]. destruct (cost_logged bl (sb_bmapstart sb) din) as [_ Hc1].
    destruct (cost_logged bl1 n din) as [Hc2 _]. fold bl1 in Hc1. specialize (Hc1 ltac:(by left)). destruct (decide (n ∈ bl1)); lia.
Qed.

Lemma fsi_fsx bl a t s : fsi dev p pid start sb bl a t s → fsx dev p pid sb t s (hold ∅ a).
Proof. intros [Hf Ho _ Ht]. rewrite (hold_none dev p pid start bl) by done. done. Qed.
Lemma fsx_fsi bl a t s left : fsx dev p pid sb t s (hold ∅ a) → open_txn start bl a → can_log bl a left → 0 ≤ left → fsi dev p pid start sb bl a t s.
Proof. intros [Hf Ht] Ho (_ & _ & Hl) Hleft. rewrite (hold_none dev p pid start bl) in Hf by done. split; [done|done|lia|done]. Qed.

Lemma took_nonzero v v1 din n : placed start sb v din → marked start sb v → took sb v v1 n → n ≠ 0.
Proof. intros Hp Hm Ht. by apply (free_apart start sb v din n Hp Hm (tk_range _ _ _ _ Ht) (tk_free _ _ _ _ Ht)). Qed.

(** The outcome of an allocation for slot [j]. *)
Record grown_to (a : cache) (din : dinode) (j : Z) (bl' : list Z) (a' : cache) (din' : dinode) (n : Z) : Prop := {
  gt_same : same_txn a a';
  gt_ext : extends start sb (a_view a) din (a_view a') din';
  gt_locs m : slot m → loc (a_view a') din' m = if decide (m = j) then n else loc (a_view a) din m;
  gt_nz : n ≠ 0;
  gt_in : n ∈ bl'
}.

(** A block for a direct slot, or the indirect block. *)
Lemma alloc_addr_wp j bl a t ip r left k s : let din := dinode_of r in
  small_disk → fsi dev p pid start sb bl a t s → t.1 !! ip = Some r → -1 ≤ j < NDIRECT → loc (a_view a) din j = 0 →
  placed start sb (a_view a) din → marked start sb (a_view a) → can_log bl a (cost bl din + left) → 2 ≤ left → free_blocks sb (a_view a) k → 1 ≤ k →
  wp (let! x := balloc dev in if x =? 0 then ret 0 else ⇑ (set_addr ip (if j <? 0 then NDIRECT else j) x) ;;; ret x)
    (fun n s' => ∃ bl' a', let r' := r <| i_addrs ::= <[addr_slot j := n]> |> in
      fsi dev p pid start sb bl' a' (<[ip := r']> t.1, t.2) s' ∧ grown_to a din j bl' a' (dinode_of r') n ∧
      can_log bl' a' (cost bl' din + left - 1) ∧ free_blocks sb (a_view a') (k - 1)) s.
Proof.
  intros din Hsd Hf Hr Hj Hz Hp Hm Hlog Hleft Hfree Hk. apply wp_bind.
  eapply wp_mono; [apply (alloc_wp din ∅ bl t s a left k Hsd Hm (fsi_fsx _ _ _ _ Hf) (fi_open _ _ _ _ _ _ _ _ _ Hf) Hlog Hleft)|]; [rewrite map_size_empty; lia|done|done|done|].
  intros n s1 (bl1 & a1 & Hf1 & Ho1 & Hs1 & Ht1 & Hin & Hl1). pose proof (took_nonzero _ _ _ _ Hp Hm Ht1) as Hnz. rewrite (proj2 (Z.eqb_neq n 0) Hnz).
  pose proof (cost_range bl1 din) as Hcr. pose proof (fsx_fsi _ _ _ _ _ Hf1 Ho1 Hl1 ltac:(lia)) as Hf1'. clear Hf1. rename Hf1' into Hf1.
  apply wp_bind. unfold set_addr. eapply wp_mono; [by apply (fsi_upd dev p pid start sb bl1 a1 t ip _ s1 Hf1)|]. intros [] s2 Hf2. apply wp_ret.
  rewrite (alter_as_insert _ ip r) in Hf2 by done. exists bl1, a1.
  assert (Er : Z.to_nat (if j <? 0 then NDIRECT else j) = addr_slot j) by (unfold addr_slot; by destruct (j <? 0)). rewrite Er in Hf2.
  destruct (extends_addr start sb (a_view a) (a_view a1) din j n Hp Hm Hj Hz Ht1) as [Hex Hloc].
  split; [exact Hf2|]. split; [by split|]. split; [done|]. by apply (free_blocks_took sb (a_view a) _ n).
Qed.

(** The buffer of the indirect block is not one that [balloc] needs. *)
Lemma spared_indirect v din b : placed start sb v din → addr din NDIRECT ≠ 0 → spared sb v (<[b := addr din NDIRECT]> ∅).
Proof.
  intros Hp Hx b' x. destruct (decide (b' = b)) as [->|Hne]; [|by rewrite lookup_insert_ne]. rewrite lookup_insert_eq. intros [= <-].
  destruct (pl_loc _ _ _ _ Hp (-1) slot_ind Hx) as (_ & Hu & Hn). rewrite loc_ind in Hu, Hn. split; [done|]. intros i Hi E. apply Hn. right. right. left. by exists i.
Qed.

(** A block for slot [bn], entered in the indirect block. *)
Lemma alloc_entry_wp bn bl a t din left k s : let x := addr din NDIRECT in
  small_disk → fsi dev p pid start sb bl a t s → NDIRECT ≤ bn < MAXFILE → x ≠ 0 → loc (a_view a) din bn = 0 →
  placed start sb (a_view a) din → marked start sb (a_view a) → can_log bl a (cost bl din + left) → 2 ≤ left → free_blocks sb (a_view a) k → 1 ≤ k →
  wp (let! bp := bread dev x in
      let! d := ⇑ (get_data bp) in
      let! ad := (if uword d (bn - NDIRECT) =? 0 then
         let! ad := balloc dev in
         (if ad =? 0 then ret tt else
          let! d := ⇑ (get_data bp) in
          ⇑ (set_data bp (set_bytes d (Z.to_nat (4 * (bn - NDIRECT))) (le_bytes 4 ad))) ;;;
          ⇑ (log_write bp)) ;;;
         ret ad
       else ret (uword d (bn - NDIRECT))) in
      ⇑ (brelse bp) ;;;
      ret ad)
    (fun n s' => ∃ bl' a', fsi dev p pid start sb bl' a' t s' ∧ grown_to a din bn bl' a' din n ∧
      can_log bl' a' (cost bl' din + left - 1) ∧ free_blocks sb (a_view a') (k - 1)) s.
Proof.
  intros x Hsd Hf Hbn Hx Hz Hp Hm Hlog Hleft Hfree Hk. pose proof (fi_open _ _ _ _ _ _ _ _ _ Hf) as Hot. pose proof (cost_range bl din) as Hcr.
  destruct (pl_loc _ _ _ _ Hp (-1) slot_ind Hx) as (Hxr & _ & Hxn). rewrite loc_ind in Hxr, Hxn. fold x in Hxr, Hxn.
  apply wp_bind. eapply wp_mono; [apply (fs_bread_hold dev p pid start sb x bl ∅ t s a (fsi_fsx _ _ _ _ Hf) Hot); [rewrite map_size_empty; destruct Hlog as (_ & _ & ?); lia|done]|].
  intros b s1 [_ Hf1]. set (H := <[b := x]> ∅ : gmap nat Z) in *. assert (Hb : ∀ c, a_held (hold H c) !! b = Some x) by (intros c; cbn; unfold H; by rewrite lookup_insert_eq).
  apply wp_bind. eapply wp_mono; [by apply (fsx_data dev p pid sb b x t s1 _ Hf1)|]. intros d s2 [-> Hf2]. change (a_view (hold H a)) with (a_view a).
  assert (Hw : uword (blk (a_view a) x) (bn - NDIRECT) = 0).
  { unfold loc in Hz. rewrite (proj2 (Z.ltb_ge bn 0)), (proj2 (Z.ltb_ge bn NDIRECT)) in Hz by (change NDIRECT with 12 in *; lia). fold x in Hz. by rewrite (proj2 (Z.eqb_neq _ _) Hx) in Hz. }
  rewrite Hw. cbn [Z.eqb]. apply wp_bind, wp_bind.
  eapply wp_mono; [apply (alloc_wp din H bl t s2 a left k Hsd Hm Hf2 Hot Hlog Hleft)|]; [unfold H; by rewrite map_size_insert_None, map_size_empty|by apply spared_indirect|done|done|].
  intros n s3 (bl1 & a1 & Hf3 & Ho1 & Hs1 & Ht1 & Hin & Hl1). pose proof (took_nonzero _ _ _ _ Hp Hm Ht1) as Hnz. rewrite (proj2 (Z.eqb_neq n 0) Hnz).
  pose proof (cost_range bl1 din) as Hcr1. assert (Hsz1 : sized (a_view a1)) by (intros m; exact (bo_sized _ _ _ _ (kr_bufs _ _ _ _ _ (fs_krepr _ _ _ _ _ _ (proj1 Hf3))) m)).
  apply wp_bind, wp_bind. eapply wp_mono; [by apply (fsx_data dev p pid sb b x t s3 _ Hf3)|]. intros d s4 [-> Hf4]. change (a_view (hold H a1)) with (a_view a1).
  pose proof (tk_range _ _ _ _ Ht1) as Hnr. destruct Hsd as [Hl _ _ _ _ _ _]. pose proof (la_size _ _ Hl) as Hss. change NDIRECT with 12 in Hbn. change MAXFILE with 268 in Hbn.
  eapply wp_mono; [apply (fs_log_hold dev p pid start sb b x _ bl1 H t s4 a1 Hf4 (Hb a1) Ho1)|].
  { apply (can_log_room _ _ _ x Hl1); [lia|lia|]. intros E. apply Hxn. by right; left. }
  { rewrite length_set_bytes; [apply Hsz1|]. rewrite Hsz1, length_le_bytes. change (Z.to_nat BSIZE) with 1024%nat. change NDIRECT with 12. lia. }
  intros [] s5 (a2 & Hf5 & Hu2). apply wp_ret. apply wp_bind. eapply wp_mono; [apply (fs_brelse_hold dev p pid start sb b x _ ∅ t s5 a2 Hf5 (lookup_empty b) (up_open _ _ _ _ _ _ _ _ _ Hu2))|].
  intros [] s6 Hf6. apply wp_ret. exists (logged bl1 x), a2.
  destruct (extends_indirect start sb (a_view a) (a_view a1) din bn n Hp Hm Hsz1 ltac:(change NDIRECT with 12; change MAXFILE with 268; lia) Hz Hx Ht1 ltac:(lia)) as [Hex Hloc].
  fold x in Hex, Hloc. rewrite <-(up_view _ _ _ _ _ _ _ _ _ Hu2) in Hex, Hloc.
  assert (Hl2 : can_log (logged bl1 x) a2 (cost (logged bl1 x) din + left - 1)).
  { apply (can_log_le bl1 a1 (cost bl1 din + left - 1)); [done|by eapply same_txn_updated|]. destruct (cost_logged bl1 x din) as [_ Hc]. specialize (Hc ltac:(by right)). lia. }
  split; [apply (fsx_fsi _ _ _ _ _ Hf6 (up_open _ _ _ _ _ _ _ _ _ Hu2) Hl2); pose proof (cost_range (logged bl1 x) din); lia|].
  split; [|split; [done|]].
  - split; [eapply same_txn_trans; [done|by eapply same_txn_updated]|done|done|done|apply elem_of_logged; by right].
  - apply (free_blocks_used sb (a_view a1)); [|by apply (free_blocks_took sb (a_view a) _ n)]. intros i Hi. unfold used. rewrite (up_view _ _ _ _ _ _ _ _ _ Hu2).
    rewrite blk_insert_ne; [done|]. intros E. apply Hxn. right. right. left. exists i. by split.
Qed.

(** Blocks to have free for [k] more blocks of the file: one more for the indirect block. *)
Definition reserve (din : dinode) (k : Z) : Z := k + (if decide (addr din NDIRECT = 0) then 1 else 0).

(** The outcome of [bmap]: the file has block [x] in slot [bn]. *)
Definition bmapped (bl : list Z) (a : cache) (t : rest) (ip : nat) (r : inode) (bn left k x : Z) (s : kst * list (kst → kst)) : Prop :=
  ∃ bl' a' A, let r' := r <| i_addrs := A |> in let din' := dinode_of r' in
    fsi dev p pid start sb bl' a' (<[ip := r']> t.1, t.2) s ∧ same_txn a a' ∧ extends start sb (a_view a) (dinode_of r) (a_view a') din' ∧
    loc (a_view a') din' bn = x ∧ x ≠ 0 ∧ can_log bl' a' (cost bl' din' + left - (if decide (x ∈ bl') then 1 else 0)) ∧
    free_blocks sb (a_view a') (reserve din' (k - 1)).

Lemma free_blocks_le v k k' : k' ≤ k → free_blocks sb v k → free_blocks sb v k'.
Proof. intros Hle (l & H1 & H2 & H3). exists l. split_and!; [done|lia|done]. Qed.

Lemma insert_same (t : rest) ip r : t.1 !! ip = Some r → (<[ip := r <| i_addrs := i_addrs r |>]> t.1, t.2) = t.
Proof. intros Hr. replace (r <| i_addrs := i_addrs r |>) with r by (by destruct r). rewrite list_insert_id by done. by destruct t. Qed.

Lemma loc_zero_above v din j : addr din NDIRECT = 0 → NDIRECT ≤ j → loc v din j = 0.
Proof. intros Hz Hj. unfold loc. rewrite (proj2 (Z.ltb_ge j 0)), (proj2 (Z.ltb_ge j NDIRECT)), Hz by (change NDIRECT with 12 in *; lia). done. Qed.

Lemma bmap_grow_wp bn bl a t ip r left k s : let din := dinode_of r in
  small_disk → fsi dev p pid start sb bl a t s → t.1 !! ip = Some r → i_dev r = dev → 0 ≤ bn < MAXFILE →
  placed start sb (a_view a) din → marked start sb (a_view a) → can_log bl a (cost bl din + left) → 2 ≤ left → free_blocks sb (a_view a) (reserve din k) → 1 ≤ k →
  wp (bmap ip bn) (bmapped bl a t ip r bn left k) s.
Proof.
  intros din Hsd Hf Hr Hd Hbn Hp Hm Hlog Hleft Hfree Hk. destruct (decide (loc (a_view a) din bn = 0)) as [Hz|Hnz].
  2:{ eapply wp_mono; [by apply (bmap_wp dev p pid start sb bl a t ip r bn s Hf Hr Hd Hbn)|]. intros x s' [-> Hf']. exists bl, a, (i_addrs r). cbv zeta.
      rewrite insert_same by done. split; [done|]. split; [done|]. split; [by apply extends_refl|]. split; [done|]. split; [done|]. split.
      - eapply can_log_le; [exact Hlog|done|]. change (dinode_of (r <| i_addrs := i_addrs r |>)) with din. case_decide; lia.
      - eapply free_blocks_le; [|exact Hfree]. unfold reserve. change (dinode_of (r <| i_addrs := i_addrs r |>)) with din. lia. }
  unfold bmap. apply wp_bind, (fi_inode dev p pid start sb bl a t ip r s _ Hf Hr). rewrite Hd. change (addr_of r ?i) with (addr din i).
  destruct (Z.ltb_spec bn NDIRECT) as [Hlt|Hge].
  - assert (E0 : addr din bn = 0) by (unfold loc in Hz; rewrite (proj2 (Z.ltb_ge bn 0)), (proj2 (Z.ltb_lt bn NDIRECT)) in Hz by lia; done). rewrite E0. cbn [Z.eqb].
    pose proof (alloc_addr_wp bn bl a t ip r left (reserve din k) s Hsd Hf Hr ltac:(lia) Hz Hp Hm Hlog Hleft Hfree ltac:(unfold reserve; case_decide; lia)) as Hw.
    rewrite (proj2 (Z.ltb_ge bn 0)) in Hw by lia. eapply wp_mono; [exact Hw|]. intros n s' (bl' & a' & Hf' & [Hs Hex Hloc Hn Hin] & Hl' & Hfr').
    assert (Ea : addr (dinode_of (r <| i_addrs ::= <[addr_slot bn := n]> |>)) NDIRECT = addr din NDIRECT).
    { change (dinode_of (r <| i_addrs ::= <[addr_slot bn := n]> |>)) with (with_addr din bn n). rewrite addr_with_addr by (apply (pl_len _ _ _ _ Hp) || (change NDIRECT with 12 in *; lia)).
      rewrite (proj2 (Z.ltb_ge bn 0)) by lia. by rewrite decide_False by lia. }
    exists bl', a', (<[addr_slot bn := n]> (i_addrs r)). split; [exact Hf'|]. split; [done|]. split; [exact Hex|].
    split; [etransitivity; [apply (Hloc bn), slot_of, Hbn|by rewrite decide_True]|]. split; [done|]. split.
    + rewrite decide_True by done. change (can_log bl' a' (cost bl' (dinode_of (r <| i_addrs ::= <[addr_slot bn := n]> |>)) + left - 1)).
      by rewrite (cost_addrs bl' din _ Ea).
    + eapply free_blocks_le; [|exact Hfr']. unfold reserve. change (r <| i_addrs := <[addr_slot bn := n]> (i_addrs r) |>) with (r <| i_addrs ::= <[addr_slot bn := n]> |>).
      rewrite Ea. lia.
  - rewrite (proj2 (Z.ltb_lt _ _)) by (unfold MAXFILE in Hbn; lia). destruct (Z.eqb_spec (addr din NDIRECT) 0) as [Ei|Ei].
    + apply wp_bind. pose proof (alloc_addr_wp (-1) bl a t ip r left (reserve din k) s Hsd Hf Hr ltac:(change NDIRECT with 12; lia) Ei Hp Hm Hlog Hleft Hfree ltac:(unfold reserve; case_decide; lia)) as Hw.
      change (-1 <? 0) with true in Hw. cbv iota in Hw. eapply wp_mono; [exact Hw|]. clear Hw. intros x s1 (bl1 & a1 & Hf1 & [Hs1 Hex1 Hloc1 Hn1 Hin1] & Hl1 & Hfr1).
      rewrite (proj2 (Z.eqb_neq x 0) Hn1). set (r1 := r <| i_addrs ::= <[addr_slot (-1) := x]> |>) in *. set (din1 := dinode_of r1) in *. 
      assert (Ex : addr din1 NDIRECT = x) by (rewrite <-(loc_ind (a_view a1)), (Hloc1 (-1) slot_ind); by rewrite decide_True).
      assert (Hi1 : addr din1 NDIRECT ≠ 0) by congruence. pose proof (ch_placed _ _ _ _ _ _ (ex_changed _ _ _ _ _ _ Hex1)) as Hp1.
      assert (Hz1 : loc (a_view a1) din1 bn = 0) by (rewrite (Hloc1 bn (slot_of bn Hbn)), decide_False by lia; done).
      assert (Hc1 : can_log bl1 a1 (cost bl1 din1 + left)).
      { eapply can_log_le; [exact Hl1|done|]. change (dinode_of r) with din. rewrite (cost_indirect bl1 din din1 Ei) by congruence. lia. }
      rewrite <-Ex. eapply wp_mono; [apply (alloc_entry_wp bn bl1 a1 _ din1 left k s1 Hsd Hf1 ltac:(lia) Hi1 Hz1 Hp1 (ch_marked _ _ _ _ _ _ (ex_changed _ _ _ _ _ _ Hex1)) Hc1 Hleft); [|done]|].
      { eapply free_blocks_le; [|exact Hfr1]. unfold reserve. rewrite decide_True by done. lia. }
      intros n s2 (bl2 & a2 & Hf2 & [Hs2 Hex2 Hloc2 Hn2 Hin2] & Hl2 & Hfr2). exists bl2, a2, (<[addr_slot (-1) := x]> (i_addrs r)).
      split; [exact Hf2|]. split; [by eapply same_txn_trans|]. split; [by eapply extends_trans|]. split; [etransitivity; [apply (Hloc2 bn), slot_of, Hbn|by rewrite decide_True]|].
      split; [done|]. split; [by rewrite decide_True|]. eapply free_blocks_le; [|exact Hfr2]. unfold reserve.
      change (dinode_of (r <| i_addrs := <[addr_slot (-1) := x]> (i_addrs r) |>)) with din1. rewrite decide_False by done. lia.
    + apply wp_bind, wp_ret. rewrite (proj2 (Z.eqb_neq _ _) Ei).
      eapply wp_mono; [apply (alloc_entry_wp bn bl a t din left (reserve din k) s Hsd Hf ltac:(lia) Ei Hz Hp Hm Hlog Hleft Hfree); unfold reserve; case_decide; lia|].
      intros n s' (bl' & a' & Hf' & [Hs Hex Hloc Hn Hin] & Hl' & Hfr'). exists bl', a', (i_addrs r). cbv zeta. rewrite insert_same by done.
      change (dinode_of (r <| i_addrs := i_addrs r |>)) with din. split_and!; try done; [by rewrite (Hloc bn (slot_of bn Hbn)), decide_True|by rewrite decide_True|]. eapply free_blocks_le; [|exact Hfr']. unfold reserve. case_decide; lia.
Qed.
End grow.
