(* ===== verification/Fswrite.v ===== *)
(** * Writing files: writei and iupdate

    [writei] inside a transaction, with the allocation of the blocks the file does not have
    yet: the bytes are in the file, the inode in its place on the disk has the new size and
    blocks, and [readi] gives the bytes back. *)

From S2P Require Import Prelude Mem CString Kernel Spinlock Kalloc Vm Vmproof Proc Procproof Uart Printf Bio Log Logproof Bioproof Frame Logkernel Fs Fsproof Fsread Fsalloc.

(** The number of blocks that [n] bytes at [off] touch. *)
Definition spans (off n : Z) : Z := if n <=? 0 then 0 else (off + n - 1) / BSIZE - off / BSIZE + 1.

Section wrote.
Context (start : Z) (sb : superblock).

(** The file [din'] in [v'] is [din] in [v] with the bytes [bs] at [off]; of the other blocks
    in use only the bitmap changes. *)
Record wrote (v : blocks) (din : dinode) (v' : blocks) (din' : dinode) (off : Z) (bs : list Z) : Prop := {
  wr_changed : changed start sb v din v' din';
  wr_new j x : bs !! j = Some x → loc v' din' ((off + Z.of_nat j) / BSIZE) ≠ 0 ∧ byte_at v' din' (off + Z.of_nat j) = x;
  wr_old b : 0 ≤ b < MAXFILE * BSIZE → loc v din (b / BSIZE) ≠ 0 → b < off ∨ off + Z.of_nat (length bs) ≤ b → byte_at v' din' b = byte_at v din b
}.

Lemma slot_byte b : 0 ≤ b < MAXFILE * BSIZE → slot (b / BSIZE) ∧ 0 ≤ b / BSIZE.
Proof.
  intros Hb. assert (0 ≤ b / BSIZE) by (apply Z.div_pos; [lia|done]). split; [|done]. apply slot_of. split; [done|]. apply Z.div_lt_upper_bound; [done|lia].
Qed.

Lemma wrote_nil v din off : placed start sb v din → marked start sb v → wrote v din v din off [].
Proof. intros Hp Hm. split; [by apply changed_refl|done|done]. Qed.

Lemma extends_byte v din v' din' b : extends start sb v din v' din' → 0 ≤ b < MAXFILE * BSIZE → loc v din (b / BSIZE) ≠ 0 → byte_at v' din' b = byte_at v din b.
Proof.
  intros [Hc Hd] Hb Hnz. destruct (slot_byte b Hb) as [Hs Hs0]. unfold byte_at. by rewrite (ch_kept _ _ _ _ _ _ _ Hc Hs Hnz), (Hd _ Hs Hs0 Hnz).
Qed.

(** More blocks. *)
Lemma wrote_extends v din v1 din1 v2 din2 off bs : marked start sb v → 0 ≤ off → off + Z.of_nat (length bs) ≤ MAXFILE * BSIZE →
  wrote v din v1 din1 off bs → extends start sb v1 din1 v2 din2 → wrote v din v2 din2 off bs.
Proof.
  intros Hm Hoff Hmax [Hc Hn Ho] He. split; [eapply changed_trans; [done..|apply He]| |].
  - intros j x Hj. pose proof (lookup_lt_Some _ _ _ Hj). destruct (Hn j x Hj) as [Hnz Hb]. assert (Hr : 0 ≤ off + Z.of_nat j < MAXFILE * BSIZE) by lia.
    split; [rewrite (ch_kept _ _ _ _ _ _ _ (ex_changed _ _ _ _ _ _ He)); [done|by apply slot_byte|done]|]. by rewrite (extends_byte _ _ _ _ _ He Hr Hnz).
  - intros b Hb Hnz Hout. destruct (slot_byte b Hb) as [Hs _]. rewrite (extends_byte _ _ _ _ _ He Hb); [by apply Ho|]. by rewrite (ch_kept _ _ _ _ _ _ _ Hc Hs Hnz).
Qed.

(** A write to a block that is no indirect block and not in the bitmap changes no place. *)
Lemma insert_apart v x d din : (∀ i, 0 ≤ i < sb_size sb → x ≠ BBLOCK i sb) → x ≠ loc v din (-1) →
  (∀ k, loc (<[x := d]> v) din k = loc v din k) ∧ (∀ i, 0 ≤ i < sb_size sb → used sb (<[x := d]> v) i = used sb v i).
Proof.
  intros Hb Hx. split.
  - intros k. apply loc_frame. intros _. by apply blk_insert_ne.
  - intros i Hi. unfold used. rewrite blk_insert_ne; [done|]. by apply Hb.
Qed.

Lemma changed_insert v din v1 din1 x d : changed start sb v din v1 din1 → (∀ i, 0 ≤ i < sb_size sb → x ≠ BBLOCK i sb) → x ≠ loc v1 din1 (-1) →
  (∀ m, 0 ≤ m < sb_size sb → used sb v m = true → (∀ k, slot k → m ≠ loc v din k) → m ≠ x) → changed start sb v din (<[x := d]> v1) din1.
Proof.
  intros [[P1 P2 P3] M L U B] Hb Hx Hm. destruct (insert_apart v1 x d din1 Hb Hx) as [El Eu]. split.
  - split; [|intros k Hk|done].
    + intros k m. rewrite !El. apply P1.
    + rewrite El. intros Hnz. destruct (P2 k Hk Hnz) as (H1 & H2 & H3). by rewrite Eu.
  - intros m Hr Hres. rewrite Eu by done. by apply M.
  - intros j Hj. rewrite El. by apply L.
  - intros i Hi. rewrite Eu by done. rewrite (U i Hi). by setoid_rewrite El.
  - intros m Hi Hu Hnb Hne. rewrite blk_insert_ne; [by apply B|]. apply not_eq_sym. by apply Hm.
Qed.

(** One block more. *)
Lemma wrote_snoc v din v1 din1 off bs p :
  sized v1 → 0 ≤ off → off + Z.of_nat (length bs + length p) ≤ MAXFILE * BSIZE → wrote v din v1 din1 off bs →
  let e := off + Z.of_nat (length bs) in let x := loc v1 din1 (e / BSIZE) in
  x ≠ 0 → Z.of_nat (length p) ≤ BSIZE - e mod BSIZE → p ≠ [] →
  wrote v din (<[x := set_bytes (blk v1 x) (Z.to_nat (e mod BSIZE)) p]> v1) din1 off (bs ++ p).
Proof.
  intros Hsz Hoff Hmax [Hc Hn Ho] e x Hx Hp Hne. set (v2 := <[x := _]> v1). pose proof (ch_placed _ _ _ _ _ _ Hc) as [Hown Hloc _].
  pose proof (Z.mod_pos_bound e BSIZE ltac:(done)) as Hmod. pose proof (Z.div_mod e BSIZE ltac:(done)) as Hdm.
  assert (Hlp : (0 < length p)%nat) by (destruct p; [done|cbn; lia]). destruct (slot_byte e ltac:(lia)) as [Hslot Hslot0].
  change BSIZE with 1024 in *. change (MAXFILE * 1024) with 274432 in *.
  destruct (Hloc _ Hslot Hx) as (Hxr & Hxu & Hxn). fold x in Hxr, Hxu, Hxn.
  assert (Hxb : ∀ i, 0 ≤ i < sb_size sb → x ≠ BBLOCK i sb) by (intros i Hi E; apply Hxn; right; right; left; by exists i).
  assert (Hxi : x ≠ loc v1 din1 (-1)) by (intros E; apply Hown in E; [lia|done|apply slot_ind|done]).
  assert (Hc2 : changed start sb v din v2 din1).
  { apply changed_insert; [done..|]. intros m Hm Hu Hno E. subst m. destruct (ch_loc _ _ _ _ _ _ Hc _ Hslot) as [E|(_ & _ & F)]; [by apply (Hno _ Hslot)|].
    unfold x in Hu. congruence. }
  destruct (insert_apart v1 x (set_bytes (blk v1 x) (Z.to_nat (e mod 1024)) p) din1 Hxb Hxi) as [El _]. fold v2 in El.
  assert (Hbyte : ∀ b, 0 ≤ b < 274432 → loc v1 din1 (b / 1024) ≠ 0 →
    byte_at v2 din1 b = if decide (e ≤ b < e + Z.of_nat (length p)) then default 0 (p !! Z.to_nat (b - e)) else byte_at v1 din1 b).
  { intros b Hb Hbz. destruct (slot_byte b ltac:(change (MAXFILE * BSIZE) with 274432; lia)) as [Hsb _]. change BSIZE with 1024 in Hsb.
    unfold byte_at. change BSIZE with 1024. rewrite El.
    pose proof (Z.mod_pos_bound b 1024 ltac:(lia)) as Hbm. pose proof (Z.div_mod b 1024 ltac:(lia)) as Hbd.
    destruct (decide (b / 1024 = e / 1024)) as [Eb|Eb].
    - rewrite Eb. fold x. unfold v2. rewrite blk_insert_eq, set_bytes_lookup by (rewrite Hsz; change (Z.to_nat BSIZE) with 1024%nat; lia).
      destruct (decide (e ≤ b < e + Z.of_nat (length p))); [rewrite decide_True by lia; do 2 f_equal; lia|by rewrite decide_False by lia].
    - rewrite decide_False by (intros ?; apply Eb; symmetry; apply (Z.div_unique _ _ _ (b - 1024 * (e / 1024))); lia).
      unfold v2. rewrite blk_insert_ne; [done|]. intros E. apply Eb. symmetry. by apply Hown. }
  assert (He : ∀ b, e ≤ b < e + Z.of_nat (length p) → b / 1024 = e / 1024) by (intros b Hb; symmetry; apply (Z.div_unique _ _ _ (b - 1024 * (e / 1024))); lia).
  split; [done| |]; rewrite ?length_app.
  - intros j y Hj. pose proof (lookup_lt_Some _ _ _ Hj) as Hjl. rewrite length_app in Hjl. change BSIZE with 1024. rewrite El.
    destruct (decide (j < length bs)%nat) as [Hlt|Hge].
    + rewrite lookup_app_l in Hj by done. destruct (Hn j y Hj) as [H1 H2]. split; [done|]. rewrite Hbyte by (done || lia). by rewrite decide_False by lia.
    + rewrite lookup_app_r in Hj by lia. assert (Ej : (off + Z.of_nat j) / 1024 = e / 1024) by (apply He; lia).
      rewrite Ej. split; [done|]. rewrite Hbyte by (rewrite ?Ej; done || lia). rewrite decide_True by lia. replace (Z.to_nat (off + Z.of_nat j - e)) with (j - length bs)%nat by lia. by rewrite Hj.
  - intros b Hb Hbz Hout. change (MAXFILE * BSIZE) with 274432 in Hb. destruct (slot_byte b ltac:(change (MAXFILE * BSIZE) with 274432; lia)) as [Hsb _].
    rewrite Hbyte; [|done|change 1024 with BSIZE; by rewrite (ch_kept _ _ _ _ _ _ _ Hc Hsb Hbz)]. rewrite decide_False by lia. apply Ho; [change (MAXFILE * BSIZE) with 274432; lia|done|lia].
Qed.
End wrote.

(** ** Operations that write *)

Section write.
Context (dev : Z) (p : nat) (pid start : Z) (sb : superblock).
#[local] Existing Instance ideal_disk.
#[local] Existing Instance KB.
#[local] Instance KSW : BlocksSpec KB := KS dev p pid.

(** Changing a block that is held: it is logged, and released. *)
Lemma fi_log_block bl a t b n d s : fsb dev p pid start sb bl a t b n s → room start bl n a → length d = Z.to_nat BSIZE →
  wp (⇑ (set_data b d) ;;; ⇑ (log_write b) ;;; ⇑ (brelse b)) (fun _ s' => ∃ a', fsi dev p pid start sb (logged bl n) a' t s' ∧ updated dev p pid start n d bl a a') s.
Proof.
  intros (Hf & Ho & Hl & Ht) Hro Hd. eapply wp_mono.
  - apply (wp_keeps (on_env itable eq)); [|exact (fs_log_block dev p pid start sb b n d bl s a Hf Ho Hro Hd)].
    unfold set_data. keeps; [apply keeps_upd_buf; typeclasses eauto|apply keeps_log_write; typeclasses eauto|apply keeps_brelse; typeclasses eauto].
  - intros [] s' [(a' & Hf' & Hu) Hp]. destruct (Hp (fs_env _ _ _ _ _ _ Hf)) as [_ E]. exists a'. split; [|done].
    split; [done|apply Hu|apply Hro|congruence].
Qed.

(** The bytes [all] come from [src]: a local structure or user memory. *)
Definition delivers (t : rest) (src : wsrc) (all : list Z) : Prop :=
  ∀ bl a b n k e tot m, fsb dev p pid start sb bl a t b n (k, e) → 0 ≤ tot → 0 ≤ m → tot + m ≤ Z.of_nat (length all) →
  wp (copy_from src tot m) (fun r k' => r = (0, take (Z.to_nat m) (drop (Z.to_nat tot) all)) ∧ fsb dev p pid start sb bl a t b n (k', e)) k.

Lemma delivers_local t all : delivers t (FromLocal all) all.
Proof.
  intros bl a b n k e tot m Hf _ _ _. unfold copy_from. apply wp_bind. eapply wp_mono; [by apply (fi_myproc _ _ _ _ _ _ _ _ _ _ _ _ Hf)|].
  intros q k' (_ & Hf' & _). by apply wp_ret.
Qed.

Lemma uread_sub m pt va all tot : uread m pt va all → uread m pt (va + Z.of_nat tot) (drop tot all).
Proof. intros H i b Hb. rewrite lookup_drop in Hb. destruct (H _ _ Hb) as (x & Hx & Hm). exists x. split; [|done]. rewrite <-Hx. f_equal. lia. Qed.

(** Two reads of the same user bytes. *)
Lemma uread_agree m pt va l l' : uread m pt va l → uread m pt va l' → (length l ≤ length l')%nat → l = take (length l) l'.
Proof.
  intros H H' Hlen. apply list_eq. intros i. destruct (decide (i < length l)%nat) as [Hi|Hi].
  - rewrite lookup_take_lt by done. destruct (lookup_lt_is_Some_2 l i Hi) as [x Hx]. destruct (lookup_lt_is_Some_2 l' i ltac:(lia)) as [y Hy].
    destruct (H _ _ Hx) as (z & Hz & Ez). destruct (H' _ _ Hy) as (z' & Hz' & Ez'). rewrite Hz in Hz'. injection Hz' as <-. congruence.
  - rewrite !lookup_ge_None_2; [done|rewrite length_take; lia|lia].
Qed.

Lemma delivers_user t pt va all : t.2.2 !! p = Some pt → uspace_ok (user_mem t) pt → 0 ≤ va → va + Z.of_nat (length all) < 2 ^ 64 → uread (user_mem t) pt va all →
  delivers t (FromUser va) all.
Proof.
  intros Hpt Hus Hva Hva2 Hu bl a b n k e tot m Hf Htot Hm Hle. unfold copy_from, either_copyin. apply wp_bind.
  eapply wp_mono; [by apply (fi_myproc _ _ _ _ _ _ _ _ _ _ _ _ Hf)|]. intros q k1 (-> & Hf1 & _). pose proof Hf1 as (_ & _ & _ & Ht). cbn [fst] in Ht.
  cbn [of_option]. apply wp_bind, wp_ret. assert (Hpr : ∃ pr, k_procs k1 !! p = Some pr ∧ p_pagetable pr = pt).
  { rewrite <-Ht in Hpt. unfold itable in Hpt. cbn [snd] in Hpt. rewrite list_lookup_fmap in Hpt. apply fmap_Some in Hpt as (pr & Hpr & ->). by exists pr. }
  destruct Hpr as (pr & Hpr & Ept). apply wp_bind, (wp_get_proc p pr); [done|]. rewrite Ept.
  replace (u64 (va + tot)) with (va + tot) by (symmetry; apply wrap_small; lia).
  assert (Hmem : k_mem k1 = user_mem t) by (by rewrite <-Ht). eapply wp_mono; [apply copyin_wp; lia|]. intros [c bs] k2 (-> & Hr & Hlen & Hc). rewrite Hmem in *.
  pose proof (uread_sub _ _ _ _ (Z.to_nat tot) Hu) as Hd. rewrite Z2Nat.id in Hd by lia.
  assert (Hbs : bs = take (length bs) (drop (Z.to_nat tot) all)) by (apply (uread_agree _ _ _ _ _ Hr Hd); rewrite length_drop; lia).
  destruct (decide (Z.of_nat (length bs) = m)) as [Em|Em].
  - split; [|done]. subst c. rewrite Hbs. do 2 f_equal. lia.
  - exfalso. destruct Hc as [_ Hc]. destruct (lookup_lt_is_Some_2 (drop (Z.to_nat tot) all) (length bs)) as [x Hx]; [rewrite length_drop; lia|].
    destruct (Hd _ _ Hx) as (y & Hy & _). unfold uphys in Hy. apply bind_Some in Hy as (pa & Hpa & _). rewrite Hpa in Hc. cbn in Hc.
    apply (us_frames _ _ Hus _ pa) in Hpa; [done|]. apply PGROUNDDOWN_nonneg. lia.
Qed.

(** The bytes do not depend on the inode table. *)
Definition delivers_any (t : rest) (src : wsrc) (all : list Z) : Prop := ∀ tbl, delivers (tbl, t.2) src all.

(** A round of the loop of [writei]. *)
Record round (a : cache) (t : rest) (ip : nat) (r : inode) (off left k : Z) (q : list Z) (s : kst * list (kst → kst)) (bl' : list Z) (a' : cache) (A : list Z) (v1 : blocks) : Prop := {
  ro_fsi : fsi dev p pid start sb bl' a' (<[ip := r <| i_addrs := A |>]> t.1, t.2) s;
  ro_same : same_txn a a';
  ro_ext : extends start sb (a_view a) (dinode_of r) v1 (dinode_of (r <| i_addrs := A |>));
  ro_sized : sized v1;
  ro_nz : loc v1 (dinode_of (r <| i_addrs := A |>)) (off / BSIZE) ≠ 0;
  ro_view : let x := loc v1 (dinode_of (r <| i_addrs := A |>)) (off / BSIZE) in a_view a' = <[x := set_bytes (blk v1 x) (Z.to_nat (off mod BSIZE)) q]> v1;
  ro_log : can_log bl' a' (cost sb bl' (dinode_of (r <| i_addrs := A |>)) + left - 1);
  ro_free : free_blocks sb (a_view a') (reserve (dinode_of (r <| i_addrs := A |>)) (k - 1))
}.

Lemma writei_body_wp bl a t ip r src all n tot off left k s : let din := dinode_of r in
  small_disk dev start sb → fsi dev p pid start sb bl a t s → t.1 !! ip = Some r → i_dev r = dev → delivers_any t src all → n ≤ Z.of_nat (length all) →
  0 ≤ off → 0 ≤ tot < n → off + (n - tot) ≤ MAXFILE * BSIZE →
  placed start sb (a_view a) din → marked start sb (a_view a) → can_log bl a (cost sb bl din + left) → 2 ≤ left → free_blocks sb (a_view a) (reserve din k) → 1 ≤ k →
  let m := Z.min (n - tot) (BSIZE - off mod BSIZE) in
  wp (writei_body ip src n (tot, off)) (fun y s' => y = inl (tot + m, off + m) ∧ ∃ bl' a' A v1,
    round a t ip r off left k (take (Z.to_nat m) (drop (Z.to_nat tot) all)) s' bl' a' A v1) s.
Proof.
  intros din Hsd Hf Hr Hd Hsrc Hn Hoff Htot Hmax Hp Hm Hlog Hleft Hfree Hk m. pose proof (Z.mod_pos_bound off BSIZE ltac:(done)) as Hmod.
  unfold writei_body. rewrite (proj2 (Z.ltb_lt _ _)) by lia. cbn [negb].
  assert (Hbn : 0 ≤ off / BSIZE < MAXFILE) by (split; [apply Z.div_pos; [lia|done]|apply Z.div_lt_upper_bound; [done|lia]]).
  apply wp_bind. eapply wp_mono; [by apply (bmap_grow_wp dev p pid start sb (off / BSIZE) bl a t ip r left k s)|].
  intros x s1 (bl1 & a1 & A & H1 & Hs1 & Hex & Hloc & Hx & Hl1 & Hfr1). rewrite (proj2 (Z.eqb_neq _ _) Hx). set (r1 := r <| i_addrs := A |>) in *. set (din1 := dinode_of r1) in *.
  assert (Hr1 : (<[ip := r1]> t.1, t.2).1 !! ip = Some r1) by (cbn; apply list_lookup_insert_eq; by eapply lookup_lt_Some).
  apply wp_bind, (fi_inode dev p pid start sb bl1 a1 _ ip r1 s1 _ H1 Hr1). change (i_dev r1) with (i_dev r). rewrite Hd.
  apply wp_bind. eapply wp_mono; [by apply fi_bread|]. intros b [k2 e2] H2. fold m.
  apply wp_bind, wp_lift. eapply wp_mono; [apply (Hsrc _ bl1 a1 b x k2 e2 tot m H2); lia|]. intros [c bs] k3 [[= -> ->] H3]. cbv beta iota.
  apply wp_bind. eapply wp_mono; [by apply (fi_data _ _ _ _ _ _ _ _ _ _ _ H3)|]. intros d s4 [-> H4]. change (0 =? -1) with false. cbv iota.
  assert (Hsz : sized (a_view a1)) by (intros y; by apply (fi_sized dev p pid start sb bl1 a1 (<[ip := r1]> t.1, t.2) y s1)).
  destruct (pl_loc _ _ _ _ (ch_placed _ _ _ _ _ _ (ex_changed _ _ _ _ _ _ Hex)) _ (slot_of _ Hbn) ltac:(congruence)) as (Hxr & _ & Hxn). fold din1 in Hxr, Hxn. rewrite Hloc in Hxr, Hxn.
  pose proof (cost_range sb bl1 din1) as Hcr. pose proof (la_size _ _ (sd_layout _ _ _ Hsd)) as Hss.
  assert (Hxb : ∀ i, 0 ≤ i < sb_size sb → x ≠ BBLOCK i sb) by (intros i Hi E; apply Hxn; right; right; left; by exists i).
  apply wp_seq3. eapply wp_mono; [apply (fi_log_block bl1 a1 _ b x _ s4 H4)|].
  { apply (can_log_room start _ _ _ x Hl1); [case_decide; lia|lia|]. intros E. apply Hxn. by right; left. }
  { rewrite length_set_bytes; [apply Hsz|]. rewrite Hsz, length_take, length_drop. change (Z.to_nat BSIZE) with 1024%nat. change BSIZE with 1024 in *. lia. }
  intros [] s5 (a5 & H5 & Hu5). apply wp_ret. split; [done|]. exists (logged bl1 x), a5, A, (a_view a1). split; fold r1 din1; rewrite ?Hloc; try done.
  - eapply same_txn_trans; [done|by eapply same_txn_updated].
  - apply Hu5.
  - eapply can_log_le; [exact Hl1|by eapply same_txn_updated|]. destruct (cost_logged sb bl1 x din1) as [Hc _]. destruct (decide (x ∈ bl1)); lia.
  - apply (free_blocks_used sb (a_view a1)); [|done]. intros i Hi. unfold used. rewrite (up_view _ _ _ _ _ _ _ _ _ Hu5), blk_insert_ne; [done|]. by apply Hxb.
Qed.

Lemma spans_step off r m : 0 ≤ off → 0 < r → m = Z.min r (BSIZE - off mod BSIZE) → spans (off + m) (r - m) = spans off r - 1 ∧ 1 ≤ spans off r.
Proof.
  intros Hoff Hr ->. unfold spans. change BSIZE with 1024. pose proof (Z.mod_pos_bound off 1024 ltac:(lia)) as Hm. pose proof (Z.div_mod off 1024 ltac:(lia)) as Hd.
  pose proof (Z.div_le_mono off (off + r - 1) 1024 ltac:(lia) ltac:(lia)). rewrite (proj2 (Z.leb_gt r 0)) by lia. split; [|lia].
  destruct (Z.min_spec r (1024 - off mod 1024)) as [[H1 ->]|[H1 ->]].
  - rewrite (proj2 (Z.leb_le _ _)) by lia. assert ((off + r - 1) / 1024 = off / 1024) as -> by (symmetry; apply (Z.div_unique _ _ _ (off mod 1024 + r - 1)); lia). lia.
  - replace (off + (1024 - off mod 1024)) with ((off / 1024 + 1) * 1024) by lia. rewrite Z.div_mul by lia. destruct (Z.leb_spec (r - (1024 - off mod 1024)) 0).
    + assert ((off + r - 1) / 1024 = off / 1024) as -> by (symmetry; apply (Z.div_unique _ _ _ (off mod 1024 + r - 1)); lia). lia.
    + replace ((off / 1024 + 1) * 1024 + (r - (1024 - off mod 1024)) - 1) with (off + r - 1) by lia. lia.
Qed.


(** The loop of [writei]: the state after [tot] bytes. *)
Definition writing (a : cache) (t : rest) (ip : nat) (r : inode) (off n left : Z) (all : list Z) (tot : Z) (s : kst * list (kst → kst)) : Prop :=
  ∃ bl' a' A, let din' := dinode_of (r <| i_addrs := A |>) in
    fsi dev p pid start sb bl' a' (<[ip := r <| i_addrs := A |>]> t.1, t.2) s ∧ same_txn a a' ∧
    can_log bl' a' (cost sb bl' din' + spans (off + tot) (n - tot) + left) ∧ wrote start sb (a_view a) (dinode_of r) (a_view a') din' off (take (Z.to_nat tot) all) ∧
    free_blocks sb (a_view a') (reserve din' (spans (off + tot) (n - tot))).

Lemma writei_loop_wp bl a t ip r src all off left s : let din := dinode_of r in let n := Z.of_nat (length all) in
  small_disk dev start sb → fsi dev p pid start sb bl a t s → t.1 !! ip = Some r → i_dev r = dev → delivers_any t src all →
  0 ≤ off → off + n ≤ MAXFILE * BSIZE → placed start sb (a_view a) din → marked start sb (a_view a) →
  can_log bl a (cost sb bl din + spans off n + left) → 1 ≤ left → free_blocks sb (a_view a) (reserve din (spans off n)) →
  wp (loop (S (Z.to_nat n)) (writei_body ip src n) (0, off)) (fun y s' => y = (n, off + n) ∧ writing a t ip r off n left all n s') s.
Proof.
  intros din n Hsd Hf Hr Hd Hsrc Hoff Hmax Hp Hm Hlog Hleft Hfree.
  apply (wp_loop (fun '(tot, off') s' => 0 ≤ tot ≤ n ∧ off' = off + tot ∧ writing a t ip r off n left all tot s') (fun '(tot, _) => Z.to_nat (n - tot))).
  2:{ split; [lia|]. split; [lia|]. exists bl, a, (i_addrs r). cbv zeta. rewrite insert_same by done. rewrite Z.sub_0_r, Z.add_0_r. split_and!; try done. by apply wrote_nil. } 2:{ lia. }
  intros [tot off'] s1 (Htot & -> & Hwg). destruct (decide (tot = n)) as [->|Hne].
  { unfold writei_body. rewrite Z.ltb_irrefl. cbn [negb]. by apply wp_ret. }
  destruct Hwg as (bl1 & a1 & A & H1 & Hs1 & Hl1 & Hwr & Hfr1). set (r1 := r <| i_addrs := A |>) in *. set (din1 := dinode_of r1) in *.
  pose proof (Z.mod_pos_bound (off + tot) BSIZE ltac:(done)) as Hmod. set (m := Z.min (n - tot) (BSIZE - (off + tot) mod BSIZE)). assert (Hmm : 1 ≤ m ≤ n - tot) by lia.
  destruct (spans_step (off + tot) (n - tot) m ltac:(lia) ltac:(lia) eq_refl) as [Hsp Hsp1]. set (sp := spans (off + tot) (n - tot)) in *.
  assert (Hr1 : (<[ip := r1]> t.1, t.2).1 !! ip = Some r1) by (cbn; apply list_lookup_insert_eq; by eapply lookup_lt_Some).
  pose proof (wr_changed _ _ _ _ _ _ _ _ Hwr) as Hc1.
  pose proof (writei_body_wp bl1 a1 _ ip r1 src all n tot (off + tot) (sp + left) sp s1 Hsd H1 Hr1 Hd Hsrc ltac:(lia) ltac:(lia) ltac:(lia) ltac:(lia)
    (ch_placed _ _ _ _ _ _ Hc1) (ch_marked _ _ _ _ _ _ Hc1) ltac:(by replace (cost sb bl1 (dinode_of r1) + (sp + left)) with (cost sb bl1 din1 + sp + left) by (unfold din1; lia)) ltac:(lia) Hfr1 ltac:(lia)) as Hb.
  cbv zeta in Hb. fold m in Hb. set (q := take (Z.to_nat m) (drop (Z.to_nat tot) all)) in Hb. eapply wp_mono; [exact Hb|]. clear Hb.
  intros y s2 [-> (bl2 & a2 & A2 & v1 & [H2 Hs2 Hex Hsz Hnz Hv Hl2 Hfr2])]. split; [|lia]. split; [lia|]. split; [lia|].
  cbn [fst snd] in H2. rewrite list_insert_insert_eq in H2. change (r1 <| i_addrs := A2 |>) with (r <| i_addrs := A2 |>) in *. set (din2 := dinode_of (r <| i_addrs := A2 |>)) in *.
  exists bl2, a2, A2. fold din2. assert (Esp : spans (off + (tot + m)) (n - (tot + m)) = sp - 1) by (rewrite <-Hsp; f_equal; lia).
  split; [exact H2|]. split; [by eapply same_txn_trans|]. split; [|split].
  - rewrite Esp. by replace (cost sb bl2 din2 + (sp - 1) + left) with (cost sb bl2 din2 + (sp + left) - 1) by lia.
  - assert (Hql : length q = Z.to_nat m) by (unfold q; rewrite length_take, length_drop; lia).
    assert (Htl : length (take (Z.to_nat tot) all) = Z.to_nat tot) by (rewrite length_take; lia).
    replace (take (Z.to_nat (tot + m)) all) with (take (Z.to_nat tot) all ++ q) by (unfold q; rewrite take_take_drop; f_equal; lia).
    assert (Hwe : wrote start sb (a_view a) (dinode_of r) v1 din2 off (take (Z.to_nat tot) all)) by (eapply wrote_extends; [exact Hm|lia|rewrite Htl; lia|exact Hwr|exact Hex]).
    pose proof (wrote_snoc start sb (a_view a) (dinode_of r) v1 din2 off (take (Z.to_nat tot) all) q Hsz Hoff) as Hw. cbv zeta in Hw. rewrite Htl, Hql, Z2Nat.id in Hw by lia.
    rewrite Hv. apply Hw; [lia|done|done|lia|]. intros E. rewrite E in Hql. cbn in Hql. lia.
  - by rewrite Esp.
Qed.

(** [iupdate] in the transaction. *)
Lemma iupdate_wp bl a t ip r s : let n := IBLOCK (i_inum r) sb in
  fsi dev p pid start sb bl a t s → t.1 !! ip = Some r → i_dev r = dev → 0 ≤ i_inum r → length (i_addrs r) = 13%nat → room start bl n a →
  wp (iupdate ip) (fun _ s' => ∃ a', fsi dev p pid start sb (logged bl n) a' t s' ∧
    updated dev p pid start n (set_bytes (blk (a_view a) n) (dinode_off (i_inum r)) (dinode_bytes (dinode_of r))) bl a a') s.
Proof.
  intros n Hf Hr Hd Hi Hlen Hro. unfold iupdate. apply wp_bind, (fi_inode dev p pid start sb bl a t ip r s _ Hf Hr).
  apply wp_bind, (fi_sb dev p pid start sb bl a t s _ Hf). rewrite Hd. fold n. apply wp_bind. eapply wp_mono; [by apply (fi_bread dev p pid start sb bl a t n s Hf)|].
  intros b s1 H1. apply wp_bind. eapply wp_mono; [by apply (fi_data _ _ _ _ _ _ _ _ _ _ _ H1)|]. intros d s2 [-> H2].
  destruct (dinode_off_eq (i_inum r) Hi) as [_ Ho]. apply (fi_log_block bl a t b n _ s2 H2 Hro).
  assert (Hsz : length (blk (a_view a) n) = Z.to_nat BSIZE) by (by apply (fi_sized dev p pid start sb bl a t _ s)). change (Z.to_nat BSIZE) with 1024%nat in *.
  rewrite length_set_bytes; [done|]. fold (dinode_of r). rewrite Hsz, length_dinode by done. lia.
Qed.

(** The inode after a write that ends at [e], with the block numbers [A]. *)
Definition grown (r : inode) (A : list Z) (e : Z) : inode := r <| i_addrs := A |> <| i_size := Z.max (i_size r) e |>.

(** The file [r] can be written at [off]: its blocks are its own, in use and not reserved. *)
Record writable (a : cache) (r : inode) (off n : Z) : Prop := {
  wa_dev : i_dev r = dev;
  wa_inum : 0 ≤ i_inum r < sb_ninodes sb;
  wa_ok : dinode_ok (dinode_of r);
  wa_off : 0 ≤ off ≤ i_size r;
  wa_max : off + n ≤ MAXFILE * BSIZE;
  wa_placed : placed start sb (a_view a) (dinode_of r);
  wa_marked : marked start sb (a_view a)
}.

(** What [writei] of [all] at [off] did to the file [r], now [r']: its bytes, the bytes it
    had, the bitmap, the inode on the disk, the other inodes and the other blocks in use. *)
Record written (a a' : cache) (r r' : inode) (off : Z) (all : list Z) : Prop := {
  wn_same : same_txn a a';
  wn_inode : disk_inode sb (a_view a') (i_inum r) = dinode_of r';
  wn_others j : 0 ≤ j < sb_ninodes sb → j ≠ i_inum r → disk_inode sb (a_view a') j = disk_inode sb (a_view a) j;
  wn_placed : placed start sb (a_view a') (dinode_of r');
  wn_new j x : all !! j = Some x → loc (a_view a') (dinode_of r') ((off + Z.of_nat j) / BSIZE) ≠ 0 ∧ byte_at (a_view a') (dinode_of r') (off + Z.of_nat j) = x;
  wn_old b : 0 ≤ b < MAXFILE * BSIZE → loc (a_view a) (dinode_of r) (b / BSIZE) ≠ 0 → b < off ∨ off + Z.of_nat (length all) ≤ b →
    byte_at (a_view a') (dinode_of r') b = byte_at (a_view a) (dinode_of r) b;
  wn_used i : 0 ≤ i < sb_size sb → used sb (a_view a') i = true ↔ used sb (a_view a) i = true ∨ ∃ k, slot k ∧ loc (a_view a') (dinode_of r') k = i;
  wn_blocks m : 0 ≤ m < sb_size sb → used sb (a_view a) m = true → (∀ i, 0 ≤ i < sb_size sb → m ≠ BBLOCK i sb) →
    (∀ k, slot k → m ≠ loc (a_view a) (dinode_of r) k) → m ≠ IBLOCK (i_inum r) sb → blk (a_view a') m = blk (a_view a) m
}.

Lemma IBLOCK_range i : inode_area start sb → 0 ≤ i < sb_ninodes sb → 0 ≤ IBLOCK i sb < 2 ^ 31.
Proof.
  intros Hia Hi. rewrite (IBLOCK_eq start) by done. destruct (ia_start _ _ Hia). change IPB with 16 in *.
  pose proof (Z.div_pos i 16). pose proof (Z.div_le_mono i (sb_ninodes sb) 16). lia.
Qed.

(** The numbers of blocks that are placed fit the inode. *)
Lemma placed_addrs v din : small_disk dev start sb → placed start sb v din → ∀ x, x ∈ di_addrs din → 0 ≤ x < 2 ^ 32.
Proof.
  intros Hsd [_ Hl Hlen] x (i & Hi)%list_elem_of_lookup. pose proof (lookup_lt_Some _ _ _ Hi) as Hlt. pose proof (la_size _ _ (sd_layout _ _ _ Hsd)) as Hss.
  assert (Hx : ∃ k, slot k ∧ loc v din k = x).
  { destruct (decide (i = 12%nat)) as [->|Hne].
    - exists (-1). split; [apply slot_ind|]. rewrite loc_ind. unfold addr. change (Z.to_nat NDIRECT) with 12%nat. by rewrite Hi.
    - exists (Z.of_nat i). split; [apply slot_of; change MAXFILE with 268; lia|]. unfold loc. rewrite (proj2 (Z.ltb_ge _ 0)), (proj2 (Z.ltb_lt _ NDIRECT)) by (change NDIRECT with 12; lia).
      unfold addr. by rewrite Nat2Z.id, Hi. }
  destruct Hx as (k & Hk & <-). destruct (decide (loc v din k = 0)) as [->|Hnz]; [lia|]. destruct (Hl k Hk Hnz). lia.
Qed.

Lemma grown_ok v r A e : small_disk dev start sb → dinode_ok (dinode_of r) → placed start sb v (dinode_of (r <| i_addrs := A |>)) → 0 ≤ e < 2 ^ 32 → dinode_ok (dinode_of (grown r A e)).
Proof.
  intros Hsd [H1 H2 H3 H4 H5 H6 H7] Hp He. split; try done.
  - change (0 ≤ Z.max (i_size r) e < 2 ^ 32). change (di_size (dinode_of r)) with (i_size r) in H5. lia.
  - exact (pl_len _ _ _ _ Hp).
  - exact (placed_addrs v _ Hsd Hp).
Qed.

(** The view after the data and after the inode. *)
Lemma written_of a a1 a2 bl r A off all : let n := IBLOCK (i_inum r) sb in let r' := grown r A (off + Z.of_nat (length all)) in
  small_disk dev start sb → sized (a_view a1) → writable a r off (Z.of_nat (length all)) → same_txn a a1 →
  wrote start sb (a_view a) (dinode_of r) (a_view a1) (dinode_of (r <| i_addrs := A |>)) off all → dinode_ok (dinode_of r') →
  updated dev p pid start n (set_bytes (blk (a_view a1) n) (dinode_off (i_inum r)) (dinode_bytes (dinode_of r'))) bl a1 a2 → written a a2 r r' off all.
Proof.
  intros n r' Hsd Hsz [Hd Hi Hok Hoff Hmax Hp Hm] Hs [Hc Hn Ho] Hok' Hu. pose proof (up_view _ _ _ _ _ _ _ _ _ Hu) as Hv. set (din1 := dinode_of (r <| i_addrs := A |>)) in *.
  pose proof (sd_inodes _ _ _ Hsd) as Hia. destruct (dinode_off_eq (i_inum r) ltac:(lia)) as [_ Hdo]. pose proof (ch_placed _ _ _ _ _ _ Hc) as Hp1.
  assert (Hnr : reserved start sb n) by (right; right; right; by exists (i_inum r)).
  assert (Hnb : ∀ i, 0 ≤ i < sb_size sb → n ≠ BBLOCK i sb) by (intros i Hi'; by apply (sd_apart _ _ _ Hsd)).
  assert (Hne : ∀ k, slot k → loc (a_view a1) din1 k ≠ 0 → n ≠ loc (a_view a1) din1 k) by (intros k Hk Hnz E; destruct (pl_loc _ _ _ _ Hp1 k Hk Hnz) as (_ & _ & H); by rewrite <-E in H).
  assert (El : ∀ k, loc (a_view a2) (dinode_of r') k = loc (a_view a1) din1 k).
  { intros k. rewrite (loc_addrs _ din1) by done. rewrite Hv. apply loc_frame. intros Hnz. apply blk_insert_ne. by apply (Hne (-1) slot_ind). }
  assert (Eu : ∀ i, 0 ≤ i < sb_size sb → used sb (a_view a2) i = used sb (a_view a1) i) by (intros i Hi'; unfold used; rewrite Hv, blk_insert_ne; [done|by apply Hnb]).
  assert (Eb : ∀ b, 0 ≤ b < MAXFILE * BSIZE → loc (a_view a1) din1 (b / BSIZE) ≠ 0 → byte_at (a_view a2) (dinode_of r') b = byte_at (a_view a1) din1 b).
  { intros b Hb Hnz. unfold byte_at. rewrite El, Hv, blk_insert_ne; [done|]. apply Hne; [by apply slot_byte|done]. }
  split.
  - eapply same_txn_trans; [done|by eapply same_txn_updated].
  - unfold disk_inode. rewrite Hv. fold n. rewrite blk_insert_eq. apply read_dinode_bytes; [done|]. rewrite Hsz. change (Z.to_nat BSIZE) with 1024%nat. lia.
  - intros j Hj Hnej. rewrite Hv. unfold n. rewrite (disk_inode_update start) by (done || by apply not_eq_sym || apply length_dinode, Hok' || apply Hsz).
    unfold disk_inode. assert (Hjr : reserved start sb (IBLOCK j sb)) by (right; right; right; by exists j). pose proof (sd_inside _ _ _ Hsd j Hj) as Hjin.
    rewrite (ch_blk _ _ _ _ _ _ Hc (IBLOCK j sb) Hjin); [done|by apply Hm|by intros i Hi'; apply (sd_apart _ _ _ Hsd)|].
    intros k Hk E. destruct (decide (loc (a_view a) (dinode_of r) k = 0)) as [Ez|Hnz]; [|destruct (pl_loc _ _ _ _ Hp k Hk Hnz) as (_ & _ & H); by rewrite <-E in H].
    rewrite Ez in E. rewrite (IBLOCK_eq start) in E by done. pose proof (Z.div_pos j IPB ltac:(lia) ltac:(done)). pose proof (ia_start _ _ Hia). pose proof (sd_istart _ _ _ Hsd). lia.
  - destruct Hp1 as [P1 P2 P3]. split; [intros k m; rewrite !El; apply P1| |done]. intros k Hk. rewrite El. intros Hnz. rewrite Eu by (by apply P2). by apply P2.
  - intros j x Hj. pose proof (lookup_lt_Some _ _ _ Hj). destruct (Hn j x Hj) as [H1 H2]. rewrite El. split; [done|]. rewrite Eb; [done|lia|done].
  - intros b Hb Hnz Hout. destruct (slot_byte b Hb) as [Hsb _]. rewrite Eb; [by apply Ho|done|]. by rewrite (ch_kept _ _ _ _ _ _ _ Hc Hsb Hnz).
  - intros i Hi'. rewrite Eu by done. rewrite (ch_used _ _ _ _ _ _ Hc i Hi'). by setoid_rewrite El.
  - intros m Hi' Hu' Hb' Hk' Hn'. rewrite Hv, blk_insert_ne by (by apply not_eq_sym). by apply (ch_blk _ _ _ _ _ _ Hc).
Qed.

Lemma writei_wp bl a t ip r src all off s : let n := Z.of_nat (length all) in
  small_disk dev start sb → fsi dev p pid start sb bl a t s → t.1 !! ip = Some r → delivers_any t src all → writable a r off n →
  can_log bl a (spans off n + 3) → free_blocks sb (a_view a) (spans off n + 1) →
  wp (writei ip src off n) (fun y s' => y = n ∧ ∃ bl' a' A, let r' := grown r A (off + n) in
    fsi dev p pid start sb bl' a' (<[ip := r']> t.1, t.2) s' ∧ written a a' r r' off all) s.
Proof.
  intros n Hsd Hf Hr Hsrc Hwa Hlog Hfree. pose proof Hwa as [Hd Hi Hok Hoff Hmax Hp Hm]. change (MAXFILE * BSIZE) with 274432 in Hmax.
  pose proof (cost_range sb bl (dinode_of r)) as Hcr.
  unfold writei. apply wp_bind, (fi_inode dev p pid start sb bl a t ip r s _ Hf Hr). replace (u32 (off + n)) with (off + n) by (symmetry; apply wrap_small; lia).
  rewrite !(proj2 (Z.ltb_ge _ _)) by (try change (MAXFILE * BSIZE) with 274432; lia). cbn [orb].
  apply wp_bind. eapply wp_mono; [apply (writei_loop_wp bl a t ip r src all off 1 s Hsd Hf Hr Hd Hsrc); try done; try lia|].
  { eapply can_log_le; [exact Hlog|done|]. fold n. lia. }
  { eapply free_blocks_le; [|exact Hfree]. unfold reserve. fold n. case_decide; lia. }
  intros y s1 [-> (bl1 & a1 & A & H1 & Hs1 & Hl1 & Hw1 & _)]. fold n in Hl1 |- *. cbv beta iota. rewrite take_ge in Hw1 by lia. rewrite Z.sub_diag in Hl1. change (spans (off + n) 0) with 0 in Hl1.
  set (r1 := r <| i_addrs := A |>) in *. pose proof (ch_placed _ _ _ _ _ _ (wr_changed _ _ _ _ _ _ _ _ Hw1)) as Hp1. set (r' := grown r A (off + n)).
  assert (Hok' : dinode_ok (dinode_of r')) by (apply (grown_ok (a_view a1)); [done|done|exact Hp1|lia]).
  assert (Hr1 : (<[ip := r1]> t.1, t.2).1 !! ip = Some r1) by (cbn; apply list_lookup_insert_eq; by eapply lookup_lt_Some).
  apply wp_bind, (fi_inode dev p pid start sb bl1 a1 _ ip r1 s1 _ H1 Hr1). apply wp_bind.
  assert (Hup : wp (if i_size r1 <? off + n then ⇑ (upd_inode ip (fun r => r <| i_size := off + n |>)) else ret tt)
    (fun _ s2 => fsi dev p pid start sb bl1 a1 (<[ip := r']> t.1, t.2) s2) s1).
  { change (i_size r1) with (i_size r). unfold r', grown. fold r1. destruct (Z.ltb_spec (i_size r) (off + n)).
    - rewrite Z.max_r by lia. eapply wp_mono; [by apply (fsi_upd dev p pid start sb bl1 a1 _ ip _ s1 H1)|]. intros [] s2 H2. rewrite (alter_as_insert _ ip r1) in H2 by done.
      cbn [fst snd] in H2. by rewrite list_insert_insert_eq in H2.
    - rewrite Z.max_l by lia. apply wp_ret. by replace (r1 <| i_size := i_size r |>) with r1 by (by destruct r). }
  eapply wp_mono; [exact Hup|]. intros [] s2 H2. apply wp_bind.
  assert (Hr2 : (<[ip := r']> t.1, t.2).1 !! ip = Some r') by (cbn; apply list_lookup_insert_eq; by eapply lookup_lt_Some).
  pose proof (cost_range sb bl1 (dinode_of r1)) as Hcr1.
  eapply wp_mono; [apply (iupdate_wp bl1 a1 _ ip r' s2 H2 Hr2); [done|apply Hi|apply Hok'|]|].
  { apply (can_log_room start _ _ _ _ Hl1); [lia|apply IBLOCK_range; [apply Hsd|done]|apply (ia_log _ _ (sd_inodes _ _ _ Hsd)); done]. }
  intros [] s3 (a3 & H3 & Hu). apply wp_ret. split; [done|]. eexists _, a3, A. split; [exact H3|].
  apply (written_of a a1 a3 bl1 r A off all Hsd); try done. intros x. apply (fi_sized dev p pid start sb bl1 a1 (<[ip := r1]> t.1, t.2) x s1 H1).
Qed.
End write.

(** ** Theorems *)

Section theorems.
Context (dev : Z) (p : nat) (pid start : Z) (sb : superblock) (bl : list Z) (a : cache) (t : rest).
#[local] Existing Instance ideal_disk.

(** C26: [writei] from user memory that can be read, for [write], in place or past the end of
    the file: with room in the transaction for the blocks it touches, the bitmap, the indirect
    block and the inode, and with that many free blocks on the disk, it returns the number of
    bytes.  They are in the file at the offset, in blocks the file had or in ones it took from
    the bitmap, direct or through the indirect block; the bytes it had elsewhere, every other
    inode and every other block in use are as before, the bitmap marks what was in use and the
    file's blocks and nothing else, the file's blocks are still in no other place, and the inode
    on the disk has the new block numbers and the size the file has grown to.  At an offset past
    the end of the file, or past the largest file, it returns -1 and changes nothing. *)
Theorem writei_correct (ip : nat) (r : inode) (pt va off : Z) (all : list Z) (s : kst * list (kst → kst)) :
  let n := Z.of_nat (length all) in
  small_disk dev start sb → fsi dev p pid start sb bl a t s → t.1 !! ip = Some r → i_size r ≤ MAXFILE * BSIZE →
  t.2.2 !! p = Some pt → uspace_ok (user_mem t) pt → 0 ≤ va → va + n < 2 ^ 64 → uread (user_mem t) pt va all →
  0 ≤ off < 2 ^ 32 → n < 2 ^ 31 → can_log bl a (spans off n + 3) → free_blocks sb (a_view a) (spans off n + 1) →
  (off ≤ i_size r → off + n ≤ MAXFILE * BSIZE → writable dev start sb a r off n) →
  if decide (off ≤ i_size r ∧ off + n ≤ MAXFILE * BSIZE)
  then ∃ s' bl' a' A, let r' := grown r A (off + n) in
    writei ip (FromUser va) off n s = Ok n s' ∧
    fsi dev p pid start sb bl' a' (<[ip := r']> t.1, t.2) s' ∧ written start sb a a' r r' off all
  else writei ip (FromUser va) off n s = Ok (-1) s.
Proof.
  intros n Hsd Hf Hr Hmax Hpt Hus Hva Hva2 Hu Hoff Hn Hlog Hfree Hwa. case_decide as Hin.
  - destruct Hin as [H1 H2]. destruct (proj1 (wp_Ok _ _ _) (writei_wp dev p pid start sb bl a t ip r (FromUser va) all off s Hsd Hf Hr
      (fun tbl => delivers_user dev p pid start sb (tbl, t.2) pt va all Hpt Hus Hva Hva2 Hu) (Hwa H1 H2) Hlog Hfree)) as (y & s' & E & -> & bl' & a' & A & Hf' & Hw). by exists s', bl', a', A.
  - destruct s as [k e]. assert (Hg : ⇑ (get_inode ip) (k, e) = Ok r (k, e)).
    { unfold lift, get_inode, bind, get. pose proof (fi_itable _ _ _ _ _ _ _ _ _ Hf) as Ht. cbn [fst] in Ht. subst t. cbn [fst itable] in Hr. by rewrite Hr. }
    unfold writei. rewrite (bind_Ok _ _ _ _ _ Hg). change (MAXFILE * BSIZE) with 274432 in *.
    destruct (Z.ltb_spec (i_size r) off); [done|]. assert (0 ≤ n) by lia. replace (u32 (off + n)) with (off + n) by (symmetry; apply wrap_small; lia).
    rewrite (proj2 (Z.ltb_ge _ off)) by lia. cbn [orb]. rewrite (proj2 (Z.ltb_lt 274432 _)) by lia. done.
Qed.

(** C27: What [writei] wrote, in place or growing the file, [readi] reads back. *)
Theorem writei_readi (ip : nat) (r : inode) (pt va off : Z) (all : list Z) (s : kst * list (kst → kst)) :
  let n := Z.of_nat (length all) in
  small_disk dev start sb → fsi dev p pid start sb bl a t s → t.1 !! ip = Some r → i_size r ≤ MAXFILE * BSIZE →
  t.2.2 !! p = Some pt → uspace_ok (user_mem t) pt → 0 ≤ va → va + n < 2 ^ 64 → uread (user_mem t) pt va all →
  can_log bl a (spans off n + 3) → free_blocks sb (a_view a) (spans off n + 1) → writable dev start sb a r off n →
  ∃ s' s'', writei ip (FromUser va) off n s = Ok n s' ∧ readi ip ToLocal off n s' = Ok (n, all) s''.
Proof.
  intros n Hsd Hf Hr Hmax Hpt Hus Hva Hva2 Hu Hlog Hfree Hwa.
  destruct (proj1 (wp_Ok _ _ _) (writei_wp dev p pid start sb bl a t ip r (FromUser va) all off s Hsd Hf Hr
    (fun tbl => delivers_user dev p pid start sb (tbl, t.2) pt va all Hpt Hus Hva Hva2 Hu) Hwa Hlog Hfree)) as (y & s' & E & -> & bl' & a' & A & Hf' & Hw).
  destruct Hwa as [Hd Hi Hok Hoff Hmx Hp Hm]. fold n in Hf', Hmx, Hw. set (r' := grown r A (off + n)) in *.
  assert (Hr' : (<[ip := r']> t.1, t.2).1 !! ip = Some r') by (cbn; apply list_lookup_insert_eq; by eapply lookup_lt_Some).
  assert (Hsz : i_size r' = Z.max (i_size r) (off + n)) by done.
  assert (Hmap : mapped a' (dinode_of r') off n).
  { intros b Hb. destruct (lookup_lt_is_Some_2 all (Z.to_nat (b - off))) as [x Hx]; [lia|]. destruct (wn_new _ _ _ _ _ _ _ _ Hw _ x Hx) as [Hnz _].
    by replace (off + Z.of_nat (Z.to_nat (b - off))) with b in Hnz by lia. }
  destruct (proj1 (wp_Ok _ _ _) (readi_local_wp dev p pid start sb bl' a' _ ip r' off n s' Hf' Hr' Hd ltac:(lia) ltac:(lia) ltac:(lia) ltac:(lia) Hmap)) as (y & s'' & E' & -> & _).
  exists s', s''. split; [exact E|]. rewrite E'. f_equal. f_equal. apply list_eq. intros j. unfold n, bytes_at. rewrite Nat2Z.id, list_lookup_fmap.
  destruct (all !! j) as [x|] eqn:Ej.
  - pose proof (lookup_lt_Some _ _ _ Ej). rewrite lookup_seq_lt by done. cbn [fmap option_fmap option_map]. f_equal. exact (proj2 (wn_new _ _ _ _ _ _ _ _ Hw j x Ej)).
  - apply lookup_ge_None in Ej. by rewrite lookup_seq_ge.
Qed.
End theorems.
