(* ===== verification/Mkfs.v ===== *)
(** * The program that builds the file system image (mkfs/mkfs.c)

    The image is a file of blocks; the numbers in it are little endian, which is what
    [xshort] and [xint] see to.  A failed [assert] and a call of [die] stop the program. *)

From S2P Require Import Prelude Mem CString Kernel Printf Bio Log Logproof Fs Fsproof.

Definition FSSIZE : Z := 2000.
Definition NINODES : Z := 200.
Definition nbitmap : Z := FSSIZE / BPB + 1.
Definition ninodeblocks : Z := NINODES / IPB + 1.
Definition nlog : Z := LOGSIZE.
Definition nmeta : Z := 2 + nlog + ninodeblocks + nbitmap.
Definition nblocks : Z := FSSIZE - nmeta.

(** The superblock of [main]. *)
Definition sb : superblock :=
  mksb FSMAGIC FSSIZE nblocks NINODES nlog 2 (2 + nlog) (2 + nlog + ninodeblocks).

(** The image and the globals [freeinode] and [freeblock]. *)
Record mkst := mkmkst { img : blocks; freeinode : Z; freeblock : Z }.
Abbreviation MK := (M mkst).

Definition assert_ (b : bool) : MK unit := if b then ret tt else panic "assert".

Definition wsect (sec : Z) (buf : list Z) : MK unit :=
  modify (fun s => mkmkst (<[sec := buf]> (img s)) (freeinode s) (freeblock s)).

(** Reading past the end of the image fails. *)
Definition rsect (sec : Z) : MK (list Z) :=
  let! s := get in match img s !! sec with Some d => ret d | None => panic "read" end.

Definition winode (inum : Z) (ip : dinode) : MK unit :=
  let bn := IBLOCK inum sb in
  let! buf := rsect bn in
  wsect bn (set_bytes buf (dinode_off inum) (dinode_bytes ip)).

Definition rinode (inum : Z) : MK dinode :=
  let bn := IBLOCK inum sb in
  let! buf := rsect bn in
  ret (read_dinode buf (dinode_off inum)).

Definition ialloc (type : Z) : MK Z :=
  let! s := get in
  let inum := freeinode s in
  put (mkmkst (img s) (u32 (freeinode s + 1)) (freeblock s)) ;;;
  winode inum (mkdinode type 0 0 1 0 (replicate 13 0)) ;;;
  ret inum.

Definition balloc (used : Z) : MK unit :=
  assert_ (used <? BPB) ;;;
  let buf := foldl (fun buf i => set_bit buf (Z.of_nat i)) (replicate (Z.to_nat BSIZE) 0) (seq 0 (Z.to_nat used)) in
  wsect (sb_bmapstart sb) buf.

(** [freeblock++] *)
Definition new_block : MK Z :=
  let! s := get in
  put (mkmkst (img s) (freeinode s) (u32 (freeblock s + 1))) ;;;
  ret (freeblock s).

(** The block that holds block [fbn] of the file, allocated when there is none. *)
Definition file_block (din : dinode) (fbn : Z) : MK (dinode * Z) :=
  let set_addr i x := mkdinode (di_type din) (di_major din) (di_minor din) (di_nlink din) (di_size din) (<[i := x]> (di_addrs din)) in
  let addr i := default 0 (di_addrs din !! i) in
  if fbn <? NDIRECT then
    let i := Z.to_nat fbn in
    if addr i =? 0 then let! x := new_block in ret (set_addr i x, x) else ret (din, addr i)
  else
    let nd := Z.to_nat NDIRECT in
    let! (din, ind) := (if addr nd =? 0 then let! x := new_block in ret (set_addr nd x, x) else ret (din, addr nd)) in
    let! indirect := rsect ind in
    let i := Z.to_nat (4 * (fbn - NDIRECT)) in
    let x := field indirect i 4 in
    if x =? 0 then
      let! x := new_block in
      wsect ind (set_bytes indirect i (le_bytes 4 x)) ;;;
      ret (din, x)
    else ret (din, x).

(** A round of the loop of [iappend]: the inode, the offset and the bytes left. *)
Definition iappend_body (st : dinode * Z * list Z) : MK (dinode * Z * list Z + dinode * Z) :=
  let '(din, off, p) := st in
  if decide (p = []) then ret (inr (din, off)) else
  let fbn := off / BSIZE in
  assert_ (fbn <? MAXFILE) ;;;
  let! (din, x) := file_block din fbn in
  let n1 := Z.to_nat (Z.min (Z.of_nat (length p)) ((fbn + 1) * BSIZE - off)) in
  let! buf := rsect x in
  wsect x (set_bytes buf (Z.to_nat (off - fbn * BSIZE)) (take n1 p)) ;;;
  ret (inl (din, off + Z.of_nat n1, drop n1 p)).

Definition iappend (inum : Z) (p : list Z) : MK unit :=
  let! din := rinode inum in
  let! (din, off) := loop (S (length p)) iappend_body (din, di_size din, p) in
  winode inum (mkdinode (di_type din) (di_major din) (di_minor din) (di_nlink din) off (di_addrs din)).

Definition dirent_of (inum : Z) (name : list Z) : list Z :=
  dirent_bytes (mkdirent inum (take 14 (name ++ replicate 14 0))).

(** The name a file gets: without [user/] and a leading underscore. *)
Definition shortname (path : list Z) : list Z :=
  if decide (take 5 path = bytes_of "user/") then drop 5 path else path.
Definition skip_underscore (name : list Z) : list Z :=
  match name with 95 :: name => name | _ => name end.

Fixpoint append_all (inum : Z) (reads : list (list Z)) : MK unit :=
  match reads with [] => ret tt | r :: reads => iappend inum r ;;; append_all inum reads end.

(** A file of the host: its path, and its contents as the calls of [read] return them, or [None]
    when it cannot be opened. *)
Abbreviation hostfile := (list Z * option (list (list Z)))%type.

Definition add_file (rootino : Z) (f : hostfile) : MK unit :=
  let '(path, fd) := f in
  let name := shortname path in
  assert_ (negb (bool_decide (47 ∈ name))) ;;;
  match fd with
  | None => panic "die"
  | Some reads =>
      let name := skip_underscore name in
      assert_ (bool_decide (length name ≤ 14)%nat) ;;;
      let! inum := ialloc T_FILE in
      iappend rootino (dirent_of inum name) ;;;
      append_all inum reads
  end.

Fixpoint add_files (rootino : Z) (files : list hostfile) : MK unit :=
  match files with [] => ret tt | f :: files => add_file rootino f ;;; add_files rootino files end.

Definition superblock_bytes (sb : superblock) : list Z :=
  le_bytes 4 (sb_magic sb) ++ le_bytes 4 (sb_size sb) ++ le_bytes 4 (sb_nblocks sb) ++ le_bytes 4 (sb_ninodes sb) ++
  le_bytes 4 (sb_nlog sb) ++ le_bytes 4 (sb_logstart sb) ++ le_bytes 4 (sb_inodestart sb) ++ le_bytes 4 (sb_bmapstart sb).

(** The size of the root directory is rounded up to a block. *)
Definition fix_root (rootino : Z) : MK unit :=
  let! din := rinode rootino in
  let off := (di_size din / BSIZE + 1) * BSIZE in
  winode rootino (mkdinode (di_type din) (di_major din) (di_minor din) (di_nlink din) off (di_addrs din)).

Definition mkfs (files : list hostfile) : MK unit :=
  let zeroes := replicate (Z.to_nat BSIZE) 0 in
  let! s := get in
  put (mkmkst (img s) (freeinode s) nmeta) ;;;
  for_ 0 (Z.to_nat FSSIZE) (fun i => wsect i zeroes) ;;;
  wsect 1 (set_bytes zeroes 0 (superblock_bytes sb)) ;;;
  let! rootino := ialloc T_DIR in
  assert_ (rootino =? ROOTINO) ;;;
  iappend rootino (dirent_of rootino (bytes_of ".")) ;;;
  iappend rootino (dirent_of rootino (bytes_of "..")) ;;;
  add_files rootino files ;;;
  fix_root rootino ;;;
  let! s := get in
  balloc (freeblock s).

Definition run_mkfs (files : list hostfile) : res mkst unit := mkfs files (mkmkst ∅ 1 0).

(** [main]: the number of arguments, whether the image file can be opened, and the files
    named after it. *)
Definition main (argc : Z) (opened : bool) (files : list hostfile) : res mkst unit :=
  let s := mkmkst ∅ 1 0 in
  if argc <? 2 then Panic "Usage: mkfs fs.img files..." s else
  if negb opened then Panic "open" s else
  run_mkfs files.
