(* ===== verification/Mkfsproof.v ===== *)
(** * The image that mkfs builds is a file system

    Every block an inode refers to is its own, and a file's contents are what was appended
    to it; the bitmap marks exactly the blocks in use. *)

From S2P Require Import Prelude Mem CString Kernel Printf Bio Log Logproof Fs Fsproof Fsread Mkfs.

(** ** Where an inode's blocks are *)

(** The slots of a file of [n] blocks. *)
Definition in_use (n k : Z) : Prop := if decide (k < 0) then NDIRECT < n else k < n.
#[global] Instance in_use_dec n k : Decision (in_use n k).
Proof. unfold in_use. destruct (decide (k < 0)); apply _. Defined.

(** Every block of the image is there, and none is of another size. *)
Definition is_image (v : blocks) : Prop := (∀ n, 0 ≤ n < FSSIZE → ∃ d, v !! n = Some d ∧ length d = 1024%nat) ∧ sized v.

Lemma is_image_insert v b d : is_image v → length d = 1024%nat → is_image (<[b := d]> v).
Proof.
  intros [H1 H2] Hd. split; [|by apply sized_insert]. intros n Hn. destruct (decide (n = b)) as [->|Hne].
  - exists d. by rewrite lookup_insert_eq.
  - rewrite lookup_insert_ne by done. by apply H1.
Qed.

(** The inodes [I], with contents [D] and [N] blocks each; blocks from [fb] on are free. *)
Record inv (v : blocks) (D : Z → dinode) (N : Z → Z) (I : Z → Prop) (fb : Z) : Prop := {
  v_image : is_image v;
  v_fresh n : fb ≤ n < FSSIZE → blk v n = replicate 1024 0;
  v_fb : nmeta ≤ fb ≤ FSSIZE;
  v_shape i : I i → length (di_addrs (D i)) = 13%nat ∧ 0 ≤ N i ≤ MAXFILE;
  v_used i k : I i → slot k → in_use (N i) k → nmeta ≤ loc v (D i) k < fb;
  v_unused i k : I i → slot k → ¬ in_use (N i) k → loc v (D i) k = 0;
  v_inj i k j m : I i → I j → slot k → slot m → in_use (N i) k → in_use (N j) m → loc v (D i) k = loc v (D j) m → i = j ∧ k = m
}.

Lemma v_img v D N I fb : inv v D N I fb → ∀ n, 0 ≤ n < FSSIZE → ∃ d, v !! n = Some d ∧ length d = 1024%nat.
Proof. intros H. apply (v_image _ _ _ _ _ H). Qed.

Definition setz {A} (f : Z → A) (i : Z) (a : A) (j : Z) : A := if decide (j = i) then a else f j.

Lemma setz_eq {A} (f : Z → A) i a : setz f i a i = a.
Proof. unfold setz. by rewrite decide_True. Qed.
Lemma setz_ne {A} (f : Z → A) i a j : j ≠ i → setz f i a j = f j.
Proof. intros. unfold setz. by rewrite decide_False. Qed.

(** The inode [i] gets the blocks [fb .. fb1) in slots that had none. *)
Lemma inv_extend v D N I fb v1 d1 n1 fb1 i : inv v D N I fb → I i →
  is_image v1 →
  (∀ n, fb1 ≤ n < FSSIZE → blk v1 n = replicate 1024 0) →
  fb ≤ fb1 ≤ FSSIZE → length (di_addrs d1) = 13%nat → N i ≤ n1 ≤ MAXFILE →
  (∀ j k, I j → j ≠ i → slot k → loc v1 (D j) k = loc v (D j) k) →
  (∀ k, slot k → in_use (N i) k → loc v1 d1 k = loc v (D i) k) →
  (∀ k, slot k → ¬ in_use n1 k → loc v1 d1 k = 0) →
  (∀ k, slot k → in_use n1 k → ¬ in_use (N i) k → fb ≤ loc v1 d1 k < fb1) →
  (∀ k m, slot k → slot m → in_use n1 k → ¬ in_use (N i) k → in_use n1 m → ¬ in_use (N i) m → loc v1 d1 k = loc v1 d1 m → k = m) →
  inv v1 (setz D i d1) (setz N i n1) I fb1.
Proof.
  intros [Himg Hfr Hfb Hsh Hus Hun Hinj] Hi Himg1 Hfr1 Hfb1 Hlen Hn1 Hoth Hold Hun1 Hnew Hinj1.
  assert (Hcase : ∀ j k, I j → slot k → in_use (setz N i n1 j) k →
    (in_use (N j) k ∧ loc v1 (setz D i d1 j) k = loc v (D j) k) ∨ (j = i ∧ ¬ in_use (N i) k ∧ in_use n1 k ∧ fb ≤ loc v1 (setz D i d1 j) k < fb1)).
  { intros j k Hj Hk Hu. destruct (decide (j = i)) as [->|Hne].
    - rewrite (setz_eq N) in Hu; rewrite (setz_eq D). destruct (decide (in_use (N i) k)); [left; by auto|]. right. split_and!; try done; by apply Hnew.
    - rewrite (setz_ne N) in Hu by done; rewrite (setz_ne D) by done. left. auto. }
  split; try done.
  - lia.
  - intros j Hj. destruct (decide (j = i)) as [->|Hne]; [rewrite !setz_eq|rewrite !setz_ne by done; by apply Hsh].
    split; [done|]. destruct (Hsh i Hi). lia.
  - intros j k Hj Hk Hu. destruct (Hcase j k Hj Hk Hu) as [[Hu0 ->]|(-> & _ & _ & ?)]; [|lia]. specialize (Hus j k Hj Hk Hu0). lia.
  - intros j k Hj Hk Hu. destruct (decide (j = i)) as [->|Hne]; [rewrite (setz_eq N) in Hu; rewrite (setz_eq D); auto|]. rewrite (setz_ne N) in Hu by done; rewrite (setz_ne D) by done.
    rewrite Hoth by done. auto.
  - intros j k j' m Hj Hj' Hk Hm Hu Hu' E. destruct (Hcase j k Hj Hk Hu) as [[Hu0 El]|(-> & Hnu & Hu1 & El)];
      destruct (Hcase j' m Hj' Hm Hu') as [[Hu0' El']|(-> & Hnu' & Hu1' & El')].
    + apply Hinj; try done. congruence.
    + specialize (Hus j k Hj Hk Hu0). lia.
    + specialize (Hus j' m Hj' Hm Hu0'). lia.
    + split; [done|]. rewrite !setz_eq in E. by apply Hinj1.
Qed.

(** ** Allocating a block of a file *)

(** The blocks of a file of [n] data blocks. *)
Definition nb (n : Z) : Z := n + (if NDIRECT <? n then 1 else 0).

Definition set_addr (din : dinode) (i : nat) (x : Z) : dinode :=
  mkdinode (di_type din) (di_major din) (di_minor din) (di_nlink din) (di_size din) (<[i := x]> (di_addrs din)).

Lemma addr_set din i x j : length (di_addrs din) = 13%nat → (i < 13)%nat → 0 ≤ j →
  addr (set_addr din i x) j = if decide (Z.to_nat j = i) then x else addr din j.
Proof.
  intros Hl Hi Hj. unfold addr, set_addr. cbn [di_addrs]. case_decide as E.
  - rewrite E, list_lookup_insert_eq by lia. done.
  - by rewrite list_lookup_insert_ne.
Qed.

(** Only the addresses of an inode change. *)
Definition same_but_addrs (d d1 : dinode) : Prop := di_type d1 = di_type d ∧ di_major d1 = di_major d ∧ di_minor d1 = di_minor d ∧
  di_nlink d1 = di_nlink d ∧ di_size d1 = di_size d.

(** The result of [file_block] on the inode [i]. *)
Record located (v : blocks) (D : Z → dinode) (N : Z → Z) (I : Z → Prop) (fb i fbn : Z) (v1 : blocks) (d1 : dinode) (x fb1 : Z) : Prop := {
  l_inv : inv v1 (setz D i d1) (setz N i (Z.max (N i) (fbn + 1))) I fb1;
  l_x : x = loc v1 d1 fbn;
  l_old j k : I j → slot k → in_use (N j) k → loc v1 (setz D i d1 j) k = loc v (D j) k;
  l_data j k : I j → 0 ≤ k < N j → blk v1 (loc v (D j) k) = blk v (loc v (D j) k);
  l_new : N i = fbn → blk v1 x = replicate 1024 0;
  l_fb : fb1 = fb + nb (Z.max (N i) (fbn + 1)) - nb (N i);
  l_meta b : b < nmeta → v1 !! b = v !! b;
  l_same : same_but_addrs (D i) d1
}.

Section one.
Context (v : blocks) (D : Z → dinode) (N : Z → Z) (I : Z → Prop) (fb : Z) (i : Z).
Hypothesis Hinv : inv v D N I fb.
Hypothesis Hi : I i.

Lemma loc_in_image j k : I j → slot k → in_use (N j) k → 0 ≤ loc v (D j) k < FSSIZE ∧ loc v (D j) k ≠ 0.
Proof using Hinv.
  intros Hj Hk Hu. pose proof (v_used _ _ _ _ _ Hinv j k Hj Hk Hu). pose proof (v_fb _ _ _ _ _ Hinv).
  change nmeta with 46 in *. change FSSIZE with 2000 in *. lia.
Qed.

Lemma rsect_ok n fi fb' : 0 ≤ n < FSSIZE → rsect n (mkmkst v fi fb') = Ok (blk v n) (mkmkst v fi fb') ∧ length (blk v n) = 1024%nat.
Proof using Hinv.
  intros Hn. destruct (v_img _ _ _ _ _ Hinv n Hn) as (d & E & Hd). unfold rsect, bind, get, blk. cbn [img]. by rewrite E.
Qed.

(** Nothing is allocated: the block is there. *)
Lemma file_block_old fbn fi : 0 ≤ fbn < N i →
  file_block (D i) fbn (mkmkst v fi fb) = Ok (D i, loc v (D i) fbn) (mkmkst v fi fb) ∧
  located v D N I fb i fbn v (D i) (loc v (D i) fbn) fb.
Proof using Hinv Hi.
  intros Hf. destruct (v_shape _ _ _ _ _ Hinv i Hi) as [Hlen HN].
  assert (Hs : slot fbn) by (apply slot_of; lia).
  assert (Hu : in_use (N i) fbn) by (unfold in_use; rewrite decide_False by lia; lia).
  pose proof (loc_in_image i fbn Hi Hs Hu) as [_ Hnz].
  split.
  - unfold file_block. unfold loc in Hnz |- *. rewrite (proj2 (Z.ltb_ge fbn 0)) in Hnz |- * by lia.
    change (default 0 (di_addrs (D i) !! Z.to_nat NDIRECT)) with (addr (D i) NDIRECT).
    change (default 0 (di_addrs (D i) !! Z.to_nat fbn)) with (addr (D i) fbn).
    destruct (fbn <? NDIRECT) eqn:E.
    + by rewrite (proj2 (Z.eqb_neq _ _) Hnz).
    + destruct (Z.eqb_spec (addr (D i) NDIRECT) 0) as [|Hind]; [done|]. unfold bind at 1, ret at 1.
      assert (Hui : in_use (N i) (-1)) by (unfold in_use; rewrite decide_True by lia; apply Z.ltb_ge in E; lia).
      destruct (loc_in_image i (-1) Hi slot_ind Hui) as [Hr _]. rewrite loc_ind in Hr.
      rewrite (bind_Ok _ _ _ _ _ (proj1 (rsect_ok _ fi fb Hr))). by rewrite (proj2 (Z.eqb_neq _ _) Hnz).
  - assert (Hupd : ∀ j, setz D i (D i) j = D j) by (intros j; unfold setz; case_decide; by subst).
    pose proof (v_fb _ _ _ _ _ Hinv).
    split; rewrite ?(Z.max_l (N i) (fbn + 1)) by lia; try done; try lia; [|intros; by rewrite Hupd].
    apply (inv_extend v D N I fb); try done; try apply Hinv; try lia; intros; by apply (v_unused _ _ _ _ _ Hinv).
Qed.

(** One more block: in slot [N i], and for the first indirect one also in slot -1. *)
Lemma inv_new v1 d1 x fb1 fbn : N i = fbn → fbn < MAXFILE →
  is_image v1 →
  (∀ n, fb1 ≤ n < FSSIZE → blk v1 n = replicate 1024 0) → fb ≤ x < fb1 → fb1 ≤ FSSIZE → length (di_addrs d1) = 13%nat →
  (∀ j k, I j → j ≠ i → slot k → loc v1 (D j) k = loc v (D j) k) →
  (∀ k, slot k → k ≠ fbn → (fbn = NDIRECT → k ≠ -1) → loc v1 d1 k = loc v (D i) k) →
  loc v1 d1 fbn = x → (fbn = NDIRECT → fb ≤ loc v1 d1 (-1) < fb1 ∧ loc v1 d1 (-1) ≠ x) →
  inv v1 (setz D i d1) (setz N i (Z.max (N i) (fbn + 1))) I fb1.
Proof using Hinv Hi.
  intros HN Hmax Himg Hfr Hx Hfb Hlen Hoth Hloc Hlx Hind. destruct (v_shape _ _ _ _ _ Hinv i Hi) as [_ HNi].
  pose proof (v_fb _ _ _ _ _ Hinv).
  assert (Hnew : ∀ k, slot k → in_use (Z.max (N i) (fbn + 1)) k → ¬ in_use (N i) k → k = fbn ∨ (k = -1 ∧ fbn = NDIRECT)).
  { intros k Hk. unfold in_use, slot in *. case_decide; lia. }
  apply (inv_extend v D N I fb); try done; try lia.
  - intros k Hk Hu. apply Hloc; [done| |]; unfold in_use in Hu; case_decide; lia.
  - intros k Hk Hu. rewrite Hloc; [|done|unfold in_use in Hu; case_decide; lia|unfold in_use in Hu; case_decide; lia].
    apply (v_unused _ _ _ _ _ Hinv); try done. unfold in_use in *. case_decide; lia.
  - intros k Hk Hu Hnu. destruct (Hnew k Hk Hu Hnu) as [->|[-> E]]; [lia|]. destruct (Hind E). lia.
  - intros k m Hk Hm Hu Hnu Hu' Hnu' E. destruct (Hnew k Hk Hu Hnu) as [->|[-> E1]]; destruct (Hnew m Hm Hu' Hnu') as [->|[-> E2]]; try done.
    + destruct (Hind E2). congruence.
    + destruct (Hind E1). congruence.
Qed.

Lemma nb_new n : nb (Z.max n (n + 1)) - nb n = if n =? NDIRECT then 2 else 1.
Proof. unfold nb. rewrite Z.max_r by lia. change NDIRECT with 12. destruct (Z.ltb_spec 12 (n + 1)), (Z.ltb_spec 12 n), (Z.eqb_spec n 12); lia. Qed.

Lemma new_block_eq v' fi fb' : 0 ≤ fb' < 2 ^ 32 - 1 → new_block (mkmkst v' fi fb') = Ok fb' (mkmkst v' fi (fb' + 1)).
Proof. intros H. unfold new_block, bind, get, put, ret. cbn [img freeinode freeblock]. unfold u32. by rewrite wrap_small by lia. Qed.

(** A direct block. *)
Lemma file_block_direct fbn fi : N i = fbn → fbn < NDIRECT → fb + 1 ≤ FSSIZE →
  file_block (D i) fbn (mkmkst v fi fb) = Ok (set_addr (D i) (Z.to_nat fbn) fb, fb) (mkmkst v fi (fb + 1)) ∧
  located v D N I fb i fbn v (set_addr (D i) (Z.to_nat fbn) fb) fb (fb + 1).
Proof using Hinv Hi.
  intros HN Hd Hfb. destruct (v_shape _ _ _ _ _ Hinv i Hi) as [Hlen HNi]. pose proof (v_fb _ _ _ _ _ Hinv) as Hfb0.
  change nmeta with 46 in Hfb0. change FSSIZE with 2000 in *. change NDIRECT with 12 in Hd.
  assert (Hz : loc v (D i) fbn = 0).
  { apply (v_unused _ _ _ _ _ Hinv); [done|apply slot_of; change MAXFILE with 268; lia|]. unfold in_use. rewrite decide_False by lia. lia. }
  unfold loc in Hz. rewrite (proj2 (Z.ltb_ge fbn 0)), (proj2 (Z.ltb_lt fbn NDIRECT)) in Hz by (change NDIRECT with 12; lia).
  assert (Ha : ∀ j, 0 ≤ j → addr (set_addr (D i) (Z.to_nat fbn) fb) j = if decide (j = fbn) then fb else addr (D i) j).
  { intros j Hj. rewrite addr_set by (done || lia). destruct (decide (j = fbn)) as [->|]; [by rewrite decide_True|]. by rewrite decide_False by lia. }
  assert (Hl : ∀ k, slot k → loc v (set_addr (D i) (Z.to_nat fbn) fb) k = if decide (k = fbn) then fb else loc v (D i) k).
  { intros k Hk. unfold loc. rewrite (Ha NDIRECT), decide_False by (change NDIRECT with 12; lia).
    destruct (Z.ltb_spec k 0); [by rewrite decide_False by lia|]. destruct (Z.ltb_spec k NDIRECT) as [|Hge]; [by apply Ha|].
    rewrite decide_False by (change NDIRECT with 12 in Hge; lia). done. }
  split.
  - unfold file_block. rewrite (proj2 (Z.ltb_lt fbn NDIRECT)) by (change NDIRECT with 12; lia).
    change (default 0 (di_addrs (D i) !! Z.to_nat fbn)) with (addr (D i) fbn). rewrite Hz. cbn [Z.eqb].
    by rewrite (bind_Ok _ _ _ _ _ (new_block_eq v fi fb ltac:(lia))).
  - assert (Hs : slot fbn) by (apply slot_of; change MAXFILE with 268; lia). split; try done.
    + apply (inv_new v _ fb); try done; try lia; [change MAXFILE with 268; lia|apply Hinv|intros; apply (v_fresh _ _ _ _ _ Hinv); lia|..].
      * cbn [di_addrs set_addr]. by rewrite length_insert.
      * intros k Hk Hne _. rewrite Hl by done. by rewrite decide_False.
      * rewrite Hl by done. by rewrite decide_True.
      * change NDIRECT with 12. lia.
    + rewrite Hl by done. by rewrite decide_True.
    + intros j k Hj Hk Hu. destruct (decide (j = i)) as [->|Hne]; [rewrite setz_eq|by rewrite setz_ne]. rewrite Hl by done.
      rewrite decide_False; [done|]. unfold in_use in Hu. case_decide; lia.
    + intros _. apply (v_fresh _ _ _ _ _ Hinv). change FSSIZE with 2000. lia.
    + subst fbn. pose proof (nb_new (N i)) as Hnb. rewrite (proj2 (Z.eqb_neq _ _)) in Hnb by (change NDIRECT with 12; lia). lia.
Qed.

(** The indirect blocks of other inodes, and data blocks, are not the one of [i]. *)
Lemma ind_not_other j : I j → j ≠ i → in_use (N i) (-1) → addr (D j) NDIRECT ≠ 0 → addr (D j) NDIRECT ≠ addr (D i) NDIRECT.
Proof using Hinv Hi.
  intros Hj Hne Hu Hnz E. destruct (decide (in_use (N j) (-1))) as [Hu'|Hu'].
  - destruct (v_inj _ _ _ _ _ Hinv j (-1) i (-1) Hj Hi slot_ind slot_ind Hu' Hu E). done.
  - apply Hnz. apply (v_unused _ _ _ _ _ Hinv j (-1) Hj slot_ind Hu').
Qed.

Lemma data_not_ind j k : I j → 0 ≤ k < N j → in_use (N i) (-1) → loc v (D j) k ≠ addr (D i) NDIRECT.
Proof using Hinv Hi.
  intros Hj Hk Hu E. destruct (v_shape _ _ _ _ _ Hinv j Hj) as [_ HN].
  destruct (v_inj _ _ _ _ _ Hinv j k i (-1) Hj Hi) as [_ ?]; try done; [apply slot_of; lia|unfold in_use; rewrite decide_False by lia; lia|lia].
Qed.

(** Word [k] of an indirect block after word [m] was written. *)
Lemma field_word d m k x : length d = 1024%nat → 0 ≤ k < 256 → 0 ≤ m < 256 → 0 ≤ x < 2 ^ 32 →
  field (set_bytes d (Z.to_nat (4 * m)) (le_bytes 4 x)) (Z.to_nat (4 * k)) 4 =
  if decide (k = m) then x else field d (Z.to_nat (4 * k)) 4.
Proof.
  intros Hd Hk Hm Hx. case_decide as E.
  - subst. rewrite <-(Nat.add_0_r (Z.to_nat (4 * m))) at 2. rewrite field_set_same by (rewrite ?length_le_bytes; lia).
    rewrite <-(app_nil_r (le_bytes 4 x)), field_le. apply Z.mod_small. done.
  - apply field_set_other; rewrite length_le_bytes; lia.
Qed.

(** A block of the indirect block. *)
Lemma file_block_indirect fbn fi : N i = fbn → NDIRECT < fbn < MAXFILE → fb + 1 ≤ FSSIZE → ∃ v1,
  file_block (D i) fbn (mkmkst v fi fb) = Ok (D i, fb) (mkmkst v1 fi (fb + 1)) ∧ located v D N I fb i fbn v1 (D i) fb (fb + 1).
Proof using Hinv Hi.
  intros HN Hd Hfb. destruct (v_shape _ _ _ _ _ Hinv i Hi) as [Hlen HNi]. pose proof (v_fb _ _ _ _ _ Hinv) as Hfb0.
  change nmeta with 46 in Hfb0. change FSSIZE with 2000 in *. change NDIRECT with 12 in Hd. change MAXFILE with 268 in *.
  assert (Hs : slot fbn) by (apply slot_of; change MAXFILE with 268; lia).
  assert (Hui : in_use (N i) (-1)) by (unfold in_use; rewrite decide_True by lia; change NDIRECT with 12; lia).
  destruct (loc_in_image i (-1) Hi slot_ind Hui) as [Hr Hnz]. pose proof (v_used _ _ _ _ _ Hinv i (-1) Hi slot_ind Hui) as Hrange.
  rewrite loc_ind in Hr, Hnz, Hrange. set (ind := addr (D i) NDIRECT) in *. change nmeta with 46 in Hrange.
  destruct (rsect_ok ind fi fb Hr) as [Er Hlb].
  assert (Hz : field (blk v ind) (Z.to_nat (4 * (fbn - NDIRECT))) 4 = 0).
  { assert (H0 : loc v (D i) fbn = 0) by (apply (v_unused _ _ _ _ _ Hinv); [done|done|]; unfold in_use; rewrite decide_False by lia; lia).
    unfold loc in H0. rewrite (proj2 (Z.ltb_ge fbn 0)), (proj2 (Z.ltb_ge fbn NDIRECT)) in H0 by (change NDIRECT with 12; lia).
    fold ind in H0. by rewrite (proj2 (Z.eqb_neq _ _) Hnz) in H0. }
  set (v1 := <[ind := set_bytes (blk v ind) (Z.to_nat (4 * (fbn - NDIRECT))) (le_bytes 4 fb)]> v).
  assert (Hl : ∀ k, slot k → loc v1 (D i) k = if decide (k = fbn) then fb else loc v (D i) k).
  { intros k Hk. unfold slot in Hk. change MAXFILE with 268 in Hk. unfold loc. fold ind. rewrite (proj2 (Z.eqb_neq _ _) Hnz).
    destruct (Z.ltb_spec k 0); [by rewrite decide_False by lia|]. destruct (Z.ltb_spec k NDIRECT) as [H12|H12]; change NDIRECT with 12 in *; [by rewrite decide_False by lia|].
    unfold v1. rewrite blk_insert_eq, field_word by lia. destruct (decide (k = fbn)) as [->|]; [by rewrite decide_True|]. by rewrite decide_False by lia. }
  assert (Ho : ∀ j k, I j → j ≠ i → slot k → loc v1 (D j) k = loc v (D j) k).
  { intros j k Hj Hne Hk. apply loc_frame. intros Hnzj. unfold v1. apply blk_insert_ne. by apply not_eq_sym, ind_not_other. }
  exists v1. split.
  - unfold file_block. rewrite (proj2 (Z.ltb_ge fbn NDIRECT)) by (change NDIRECT with 12; lia).
    change (default 0 (di_addrs (D i) !! Z.to_nat NDIRECT)) with ind. rewrite (proj2 (Z.eqb_neq _ _) Hnz). unfold bind at 1, ret at 1.
    rewrite (bind_Ok _ _ _ _ _ Er), Hz. cbn [Z.eqb]. by rewrite (bind_Ok _ _ _ _ _ (new_block_eq v fi fb ltac:(lia))).
  - split; try done.
    + apply (inv_new v1 _ fb); try done; try lia; [change MAXFILE with 268; lia|..].
      * apply is_image_insert; [apply Hinv|]. rewrite length_set_bytes; [done|]. rewrite length_le_bytes, Hlb. change NDIRECT with 12. lia.
      * intros n Hn. unfold v1. rewrite blk_insert_ne by lia. apply (v_fresh _ _ _ _ _ Hinv). lia.
      * intros k Hk Hne _. rewrite Hl by done. by rewrite decide_False.
      * rewrite Hl by done. by rewrite decide_True.
      * change NDIRECT with 12. lia.
    + rewrite Hl by done. by rewrite decide_True.
    + intros j k Hj Hk Hu. destruct (decide (j = i)) as [->|Hne]; [rewrite setz_eq|rewrite setz_ne by done; by apply Ho]. rewrite Hl by done.
      rewrite decide_False; [done|]. unfold in_use in Hu. case_decide; lia.
    + intros j k Hj Hk. unfold v1. apply blk_insert_ne, not_eq_sym, data_not_ind; done.
    + intros _. unfold v1. rewrite blk_insert_ne by lia. apply (v_fresh _ _ _ _ _ Hinv). change FSSIZE with 2000. lia.
    + subst fbn. pose proof (nb_new (N i)) as Hnb. rewrite (proj2 (Z.eqb_neq _ _)) in Hnb by (change NDIRECT with 12; lia). lia.
    + intros b Hb. change nmeta with 46 in Hb. unfold v1. rewrite lookup_insert_ne by lia. done.
Qed.

Lemma field_zeroes o : field (replicate 1024 0) o 4 = 0.
Proof.
  unfold field. rewrite drop_replicate, take_replicate. generalize (Nat.min 4 (1024 - o)). intros n.
  induction n as [|n IH]; [done|]. cbn [replicate le_val]. rewrite IH. done.
Qed.

(** The first block of the indirect block, and the indirect block itself. *)
Lemma file_block_first fi : N i = NDIRECT → fb + 2 ≤ FSSIZE → ∃ v1 d1,
  file_block (D i) NDIRECT (mkmkst v fi fb) = Ok (d1, fb + 1) (mkmkst v1 fi (fb + 2)) ∧ located v D N I fb i NDIRECT v1 d1 (fb + 1) (fb + 2).
Proof using Hinv Hi.
  intros HN Hfb. destruct (v_shape _ _ _ _ _ Hinv i Hi) as [Hlen HNi]. pose proof (v_fb _ _ _ _ _ Hinv) as Hfb0.
  change nmeta with 46 in Hfb0. change FSSIZE with 2000 in *. change MAXFILE with 268 in *.
  assert (Hz : addr (D i) NDIRECT = 0).
  { rewrite <-(loc_ind v). apply (v_unused _ _ _ _ _ Hinv); [done|apply slot_ind|]. unfold in_use. rewrite decide_True by lia. lia. }
  set (d1 := set_addr (D i) (Z.to_nat NDIRECT) fb).
  assert (Ha : ∀ j, 0 ≤ j → addr d1 j = if decide (j = NDIRECT) then fb else addr (D i) j).
  { intros j Hj. unfold d1. rewrite addr_set by (done || (change NDIRECT with 12; lia)). destruct (decide (j = NDIRECT)) as [->|Hne]; [by rewrite decide_True|].
    rewrite decide_False; [done|]. change NDIRECT with 12 in *. lia. }
  set (v1 := <[fb := set_bytes (replicate 1024 0) (Z.to_nat (4 * (NDIRECT - NDIRECT))) (le_bytes 4 (fb + 1))]> v).
  assert (Hun : ∀ k, slot k → NDIRECT ≤ k → loc v (D i) k = 0).
  { intros k Hk Hge. apply (v_unused _ _ _ _ _ Hinv); [done|done|]. unfold in_use. change NDIRECT with 12 in *. rewrite decide_False by lia. lia. }
  assert (Hl : ∀ k, slot k → loc v1 d1 k = if decide (k = -1) then fb else if decide (k = NDIRECT) then fb + 1 else loc v (D i) k).
  { intros k Hk. pose proof Hk as [Hk1 Hk2]. change MAXFILE with 268 in Hk2. destruct (decide (k = -1)) as [->|Hne].
    { rewrite loc_ind, Ha by (change NDIRECT with 12; lia). by rewrite decide_True. }
    unfold loc at 1. rewrite (Ha NDIRECT), decide_True by (done || (change NDIRECT with 12; lia)). rewrite (proj2 (Z.ltb_ge k 0)) by lia.
    destruct (Z.ltb_spec k NDIRECT) as [H12|H12].
    - rewrite Ha, !decide_False by lia. unfold loc. rewrite (proj2 (Z.ltb_ge k 0)), (proj2 (Z.ltb_lt k NDIRECT)) by lia. done.
    - rewrite (proj2 (Z.eqb_neq fb 0)) by lia. unfold v1. rewrite blk_insert_eq. change NDIRECT with 12 in *.
      rewrite field_word by (done || lia). destruct (decide (k = 12)) as [->|Hne12]; [done|]. rewrite decide_False by lia.
      rewrite field_zeroes. symmetry. by apply Hun. }
  assert (Hdata : ∀ j k, I j → slot k → in_use (N j) k → loc v (D j) k ≠ fb).
  { intros j k Hj Hk Hu E. pose proof (v_used _ _ _ _ _ Hinv j k Hj Hk Hu). lia. }
  assert (Ho : ∀ j k, I j → j ≠ i → slot k → loc v1 (D j) k = loc v (D j) k).
  { intros j k Hj Hne Hk. apply loc_frame. intros Hnzj. unfold v1. apply blk_insert_ne. intros E. destruct (decide (in_use (N j) (-1))) as [Hu|Hu].
    - by apply (Hdata j (-1) Hj slot_ind Hu).
    - apply Hnzj. apply (v_unused _ _ _ _ _ Hinv j (-1) Hj slot_ind Hu). }
  assert (Hs : slot NDIRECT) by (by vm_compute).
  exists v1, d1. split.
  - unfold file_block. rewrite Z.ltb_irrefl. change (default 0 (di_addrs (D i) !! Z.to_nat NDIRECT)) with (addr (D i) NDIRECT). rewrite Hz. cbn [Z.eqb].
    unfold bind at 1. rewrite (bind_Ok _ _ _ _ _ (new_block_eq v fi fb ltac:(lia))). unfold ret at 1.
    rewrite (bind_Ok _ _ _ _ _ (proj1 (rsect_ok fb fi (fb + 1) ltac:(change FSSIZE with 2000; lia)))).
    rewrite (v_fresh _ _ _ _ _ Hinv fb) by (change FSSIZE with 2000; lia). rewrite field_zeroes. cbn [Z.eqb].
    rewrite (bind_Ok _ _ _ _ _ (new_block_eq v fi (fb + 1) ltac:(lia))). by replace (fb + 1 + 1) with (fb + 2) by lia.
  - split; try done.
    + apply (inv_new v1 _ (fb + 1)); try done; try lia.
      * apply is_image_insert; [apply Hinv|]. rewrite length_set_bytes; rewrite ?length_le_bytes, !length_replicate; [done|]. change NDIRECT with 12. lia.
      * intros n Hn. unfold v1. rewrite blk_insert_ne by lia. apply (v_fresh _ _ _ _ _ Hinv). lia.
      * cbn [d1 di_addrs set_addr]. by rewrite length_insert.
      * intros k Hk Hne H1. rewrite Hl by done. specialize (H1 eq_refl). by rewrite !decide_False.
      * rewrite Hl by done. by vm_compute.
      * intros _. rewrite Hl by apply slot_ind. rewrite decide_True by done. lia.
    + rewrite Hl by done. by vm_compute.
    + intros j k Hj Hk Hu. destruct (decide (j = i)) as [->|Hne]; [rewrite setz_eq|rewrite setz_ne by done; by apply Ho]. rewrite Hl by done.
      unfold in_use in Hu. rewrite HN in Hu. rewrite !decide_False; [done| |]; case_decide; change NDIRECT with 12 in *; lia.
    + intros j k Hj Hk. unfold v1. apply blk_insert_ne, not_eq_sym, Hdata; [done| |].
      * destruct (v_shape _ _ _ _ _ Hinv j Hj) as [_ ?]. apply slot_of. lia.
      * unfold in_use. rewrite decide_False by lia. lia.
    + intros _. unfold v1. rewrite blk_insert_ne by lia. apply (v_fresh _ _ _ _ _ Hinv). change FSSIZE with 2000. lia.
    + rewrite HN. pose proof (nb_new NDIRECT) as Hnb. rewrite Z.eqb_refl in Hnb. lia.
    + intros b Hb. change nmeta with 46 in Hb. unfold v1. rewrite lookup_insert_ne by lia. done.
Qed.

(** [file_block] finds or makes the next block. *)
Lemma file_block_ok fbn fi : 0 ≤ fbn < MAXFILE → fbn ≤ N i → fb + nb (Z.max (N i) (fbn + 1)) - nb (N i) ≤ FSSIZE →
  ∃ v1 d1 x fb1, file_block (D i) fbn (mkmkst v fi fb) = Ok (d1, x) (mkmkst v1 fi fb1) ∧ located v D N I fb i fbn v1 d1 x fb1.
Proof using Hinv Hi.
  intros Hf Hle Hfb. destruct (decide (fbn < N i)) as [Hlt|Hge].
  { exists v, (D i), (loc v (D i) fbn), fb. apply file_block_old. lia. }
  assert (E : N i = fbn) by lia. rewrite <-E in Hfb. pose proof (nb_new (N i)) as Hnb. destruct (Z.lt_trichotomy fbn NDIRECT) as [H|[H|H]].
  - rewrite (proj2 (Z.eqb_neq _ _)) in Hnb by lia. eexists _, _, _, _. apply file_block_direct; [done|done|lia].
  - rewrite E, H, Z.eqb_refl in Hnb. rewrite H in E. destruct (file_block_first fi E) as (v1 & d1 & H1); [rewrite E in Hfb; lia|].
    subst fbn. by exists v1, d1, (fb + 1), (fb + 2).
  - rewrite (proj2 (Z.eqb_neq _ _)) in Hnb by lia. destruct (file_block_indirect fbn fi E) as (v1 & H1); [lia|lia|]. by exists v1, (D i), fb, (fb + 1).
Qed.
End one.

(** ** The contents of a file *)

(** Writing a data block. *)
Lemma inv_write v D N I fb i k d : inv v D N I fb → I i → 0 ≤ k < N i → length d = 1024%nat →
  inv (<[loc v (D i) k := d]> v) D N I fb ∧ ∀ j m, I j → slot m → loc (<[loc v (D i) k := d]> v) (D j) m = loc v (D j) m.
Proof.
  intros Hinv Hi Hk Hd. destruct (v_shape _ _ _ _ _ Hinv i Hi) as [_ HN].
  assert (Hs : slot k) by (apply slot_of; lia). assert (Hu : in_use (N i) k) by (unfold in_use; rewrite decide_False by lia; lia).
  pose proof (v_used _ _ _ _ _ Hinv i k Hi Hs Hu) as Hr. set (x := loc v (D i) k) in *.
  assert (Hl : ∀ j m, I j → slot m → loc (<[x := d]> v) (D j) m = loc v (D j) m).
  { intros j m Hj Hm. apply loc_frame. intros Hnz. apply blk_insert_ne. intros E. destruct (decide (in_use (N j) (-1))) as [Hu'|Hu'].
    - destruct (v_inj _ _ _ _ _ Hinv i k j (-1) Hi Hj Hs slot_ind Hu Hu' E). lia.
    - apply Hnz. apply (v_unused _ _ _ _ _ Hinv j (-1) Hj slot_ind Hu'). }
  split; [|done]. destruct Hinv as [Himg Hfr Hfb Hsh Hus Hun Hinj]. split; try done.
  - by apply is_image_insert.
  - intros n Hn. rewrite blk_insert_ne by lia. by apply Hfr.
  - intros j m Hj Hm Hu'. rewrite Hl by done. by apply Hus.
  - intros j m Hj Hm Hu'. rewrite Hl by done. by apply Hun.
  - intros j m j' m' Hj Hj' Hm Hm' Hu1 Hu2. rewrite !Hl by done. by apply Hinj.
Qed.

Lemma contents_app v din v' din' n p : (∀ b, 0 ≤ b < Z.of_nat n → byte_at v' din' b = byte_at v din b) →
  (∀ j x, p !! j = Some x → byte_at v' din' (Z.of_nat (n + j)) = x) → contents v' din' (n + length p) = contents v din n ++ p.
Proof.
  intros H1 H2. unfold contents. rewrite seq_app, fmap_app. f_equal; [by apply contents_ext|].
  apply list_eq. intros j. rewrite list_lookup_fmap. destruct (p !! j) as [x|] eqn:E.
  - pose proof (lookup_lt_Some _ _ _ E). rewrite lookup_seq_lt by lia. cbn. f_equal. rewrite <-(H2 j x E). done.
  - apply lookup_ge_None in E. rewrite lookup_seq_ge by lia. done.
Qed.

(** The number of blocks of a file of [n] bytes. *)
Definition nblk (n : Z) : Z := (n + (BSIZE - 1)) / BSIZE.

Lemma nblk_round off : 0 ≤ off → off / BSIZE ≤ nblk off ∧ (off mod BSIZE = 0 → nblk off = off / BSIZE) ∧ (off mod BSIZE ≠ 0 → nblk off = off / BSIZE + 1).
Proof.
  intros Ho. unfold nblk. change BSIZE with 1024. pose proof (Z.div_mod off 1024 ltac:(lia)). pose proof (Z.mod_pos_bound off 1024 ltac:(lia)).
  split_and!.
  - apply Z.div_le_mono; lia.
  - intros E. symmetry. apply (Z.div_unique _ _ _ 1023); lia.
  - intros E. symmetry. apply (Z.div_unique _ _ _ (off mod 1024 - 1)); lia.
Qed.

Lemma nblk_mono a b : a ≤ b → nblk a ≤ nblk b.
Proof. intros H. unfold nblk. apply Z.div_le_mono; [done|]. lia. Qed.

Lemma nblk_le n : n ≤ nblk n * BSIZE.
Proof. unfold nblk. change (BSIZE - 1) with 1023. change BSIZE with 1024. pose proof (Z.div_mod (n + 1023) 1024 ltac:(lia)). pose proof (Z.mod_pos_bound (n + 1023) 1024 ltac:(lia)). lia. Qed.

Lemma nb_mono a b : a ≤ b → nb a ≤ nb b.
Proof. intros H. unfold nb. destruct (Z.ltb_spec NDIRECT a), (Z.ltb_spec NDIRECT b); lia. Qed.

(** The bytes after a round of [iappend] on the inode [i]. *)
Record appended (v : blocks) (D : Z → dinode) (N : Z → Z) (I : Z → Prop) (fb i off : Z) (p : list Z) (v' : blocks) (d' : dinode) (fb' : Z) : Prop := {
  ap_inv : inv v' (setz D i d') (setz N i (nblk (off + Z.of_nat (length p)))) I fb';
  ap_new : contents v' d' (Z.to_nat off + length p) = contents v (D i) (Z.to_nat off) ++ p;
  ap_other j n : I j → j ≠ i → Z.of_nat n ≤ N j * BSIZE → contents v' (D j) n = contents v (D j) n;
  ap_fb : fb' = fb + nb (nblk (off + Z.of_nat (length p))) - nb (nblk off);
  ap_meta b : b < nmeta → v' !! b = v !! b;
  ap_same : same_but_addrs (D i) d'
}.

(** Bytes of blocks that are in use and not written. *)
Lemma byte_at_keep v D N I fb i fbn v1 d1 x fb1 d j b : inv v D N I fb → I i → 0 ≤ fbn < MAXFILE → length d = 1024%nat →
  located v D N I fb i fbn v1 d1 x fb1 → I j → 0 ≤ b → b / BSIZE < N j → (j = i → b / BSIZE ≠ fbn) →
  byte_at (<[x := d]> v1) (setz D i d1 j) b = byte_at v (D j) b.
Proof.
  intros Hinv Hi Hf Hd Hl Hj Hb Hk Hne. set (k := b / BSIZE) in *.
  assert (Hk0 : 0 ≤ k) by (apply Z.div_pos; [done|by vm_compute]). destruct (v_shape _ _ _ _ _ Hinv j Hj) as [_ HNj].
  assert (Hs : slot k) by (apply slot_of; lia). assert (Hu : in_use (N j) k) by (unfold in_use; rewrite decide_False by lia; lia).
  destruct (v_shape _ _ _ _ _ Hinv i Hi) as [_ HNi].
  pose proof (l_inv _ _ _ _ _ _ _ _ _ _ _ Hl) as Hinv1. pose proof (l_x _ _ _ _ _ _ _ _ _ _ _ Hl) as Hx.
  destruct (inv_write v1 (setz D i d1) _ I fb1 i fbn d Hinv1 Hi) as [_ Hloc]; [rewrite setz_eq; lia|done|]. rewrite setz_eq in Hloc. rewrite <-Hx in Hloc.
  unfold byte_at. fold k. rewrite Hloc, (l_old _ _ _ _ _ _ _ _ _ _ _ Hl) by done. rewrite blk_insert_ne.
  - by rewrite (l_data _ _ _ _ _ _ _ _ _ _ _ Hl) by (done || lia).
  - intros E. rewrite <-(l_old _ _ _ _ _ _ _ _ _ _ _ Hl j k Hj Hs Hu) in E.
    destruct (v_inj _ _ _ _ _ Hinv1 i fbn j k Hi Hj) as [-> ->].
    + by apply slot_of.
    + done.
    + rewrite setz_eq. unfold in_use. rewrite decide_False by lia. lia.
    + unfold in_use in *. destruct (decide (j = i)) as [->|]; [rewrite setz_eq|by rewrite setz_ne]. rewrite decide_False in * by lia. lia.
    + rewrite setz_eq. by rewrite <-Hx.
    + by apply Hne.
Qed.

(** One round. *)
Lemma iappend_round v D N I fb fi i off p : inv v D N I fb → I i → N i = nblk off → 0 ≤ off → p ≠ [] →
  off + Z.of_nat (length p) ≤ MAXFILE * BSIZE → fb + nb (nblk (off + Z.of_nat (length p))) - nb (nblk off) ≤ FSSIZE →
  ∃ n1 v' d' fb', (0 < n1 ≤ length p)%nat ∧
    iappend_body (D i, off, p) (mkmkst v fi fb) = Ok (inl (d', off + Z.of_nat n1, drop n1 p)) (mkmkst v' fi fb') ∧
    appended v D N I fb i off (take n1 p) v' d' fb'.
Proof.
  intros Hinv Hi HN Hoff Hp Hmax Hfb. change MAXFILE with 268 in Hmax. change BSIZE with 1024 in Hmax.
  pose proof (nblk_round off Hoff) as (Hle & Hal & Hun). pose proof (Z.div_mod off 1024 ltac:(lia)) as Hdm. pose proof (Z.mod_pos_bound off 1024 ltac:(lia)) as Hmod.
  set (fbn := off / BSIZE) in *. change (off / 1024) with fbn in Hdm. change (off mod BSIZE) with (off mod 1024) in Hal, Hun.
  assert (Hlen : (0 < length p)%nat) by (destruct p; [done|cbn; lia]).
  set (n1 := Z.to_nat (Z.min (Z.of_nat (length p)) ((fbn + 1) * BSIZE - off))). change BSIZE with 1024 in n1.
  assert (Hn1 : (0 < n1 ≤ length p)%nat) by lia. assert (Hn1b : off + Z.of_nat n1 ≤ (fbn + 1) * 1024) by lia.
  assert (Hf : 0 ≤ fbn < MAXFILE) by (change MAXFILE with 268; lia).
  assert (HN1 : Z.max (N i) (fbn + 1) = fbn + 1 ∧ nblk (off + Z.of_nat n1) = fbn + 1).
  { split; [destruct (decide (off mod 1024 = 0)) as [E|E]; [rewrite HN, Hal by done; lia|rewrite HN, Hun by done; lia]|].
    unfold nblk. change BSIZE with 1024. symmetry. apply (Z.div_unique _ _ _ (off + Z.of_nat n1 + 1023 - 1024 * (fbn + 1))); lia. }
  destruct HN1 as [HN1 HNb].
  destruct (file_block_ok v D N I fb i Hinv Hi fbn fi Hf) as (v1 & d1 & x & fb1 & Ef & Hl); [lia| |].
  { rewrite HN1, HN, <-HNb. pose proof (nb_mono _ _ (nblk_mono (off + Z.of_nat n1) (off + Z.of_nat (length p)) ltac:(lia))). lia. }
  pose proof (l_inv _ _ _ _ _ _ _ _ _ _ _ Hl) as Hinv1. pose proof (l_x _ _ _ _ _ _ _ _ _ _ _ Hl) as Hx. rewrite HN1 in Hinv1.
  assert (Hxr : 0 ≤ x < FSSIZE).
  { rewrite Hx. pose proof (loc_in_image v1 (setz D i d1) _ I fb1 Hinv1 i fbn Hi) as Hr. rewrite !setz_eq in Hr.
    apply Hr; [by apply slot_of|]. unfold in_use. rewrite decide_False by lia. lia. }
  destruct (rsect_ok v1 _ _ I fb1 Hinv1 x fi fb1 Hxr) as [Er Hbuf]. set (o := Z.to_nat (off - fbn * BSIZE)).
  assert (Ho : o = Z.to_nat (off mod 1024)) by (unfold o; change BSIZE with 1024; f_equal; lia).
  assert (Ht : length (take n1 p) = n1) by (rewrite length_take; lia).
  assert (Hfit : (o + length (take n1 p) ≤ length (blk v1 x))%nat) by (rewrite Ht, Hbuf; lia).
  set (d := set_bytes (blk v1 x) o (take n1 p)). assert (Hd : length d = 1024%nat) by (unfold d; by rewrite length_set_bytes).
  exists n1, (<[x := d]> v1), d1, fb1. split; [done|]. split.
  { unfold iappend_body. rewrite decide_False by done. fold fbn. unfold assert_. rewrite (proj2 (Z.ltb_lt fbn MAXFILE)) by lia.
    unfold bind at 1, ret at 1. rewrite (bind_Ok _ _ _ _ _ Ef), (bind_Ok _ _ _ _ _ Er). done. }
  destruct (inv_write v1 (setz D i d1) _ I fb1 i fbn d Hinv1 Hi) as [Hinv2 Hloc2]; [rewrite setz_eq; lia|done|].
  rewrite setz_eq in Hinv2, Hloc2. rewrite <-Hx in Hinv2, Hloc2. split; rewrite ?Ht.
  - by rewrite HNb.
  - rewrite <-Ht at 1. assert (Hx2 : loc (<[x := d]> v1) d1 fbn = x).
    { specialize (Hloc2 i fbn Hi (slot_of _ Hf)). rewrite setz_eq in Hloc2. by rewrite Hloc2. }
    apply contents_app.
    + intros b Hb. pose proof (Z.div_mod b 1024 ltac:(lia)) as Hbd. pose proof (Z.mod_pos_bound b 1024 ltac:(lia)).
      destruct (decide (b / BSIZE = fbn)) as [E|E]; change (b / BSIZE) with (b / 1024) in E.
      * unfold byte_at. change (b / BSIZE) with (b / 1024). change (b mod BSIZE) with (b mod 1024). rewrite E, Hx2, blk_insert_eq.
        unfold d. rewrite set_bytes_lookup by done. rewrite decide_False by lia.
        assert (Hnew : N i = fbn + 1) by (rewrite HN; apply Hun; lia).
        assert (Hxo : x = loc v (D i) fbn).
        { rewrite Hx. rewrite <-(l_old _ _ _ _ _ _ _ _ _ _ _ Hl i fbn Hi (slot_of _ Hf)), setz_eq; [done|]. unfold in_use. rewrite decide_False by lia. lia. }
        rewrite Hxo. by rewrite (l_data _ _ _ _ _ _ _ _ _ _ _ Hl) by (done || lia).
      * pose proof (byte_at_keep v D N I fb i fbn v1 d1 x fb1 d i b Hinv Hi Hf Hd Hl Hi ltac:(lia)) as Hk. rewrite setz_eq in Hk.
        apply Hk; [|done]. change (b / BSIZE) with (b / 1024). lia.
    + intros j y Hy. pose proof (lookup_lt_Some _ _ _ Hy) as Hj. rewrite Ht in Hj. set (b := Z.of_nat (Z.to_nat off + j)).
      assert (Hb : b / 1024 = fbn) by (symmetry; apply (Z.div_unique _ _ _ (off mod 1024 + Z.of_nat j)); lia).
      assert (Hbm : b mod 1024 = off mod 1024 + Z.of_nat j) by (symmetry; apply (Z.mod_unique _ _ fbn); lia).
      unfold byte_at. change (b / BSIZE) with (b / 1024). change (b mod BSIZE) with (b mod 1024). rewrite Hb, Hx2, blk_insert_eq.
      unfold d. rewrite set_bytes_lookup by done. rewrite decide_True by (rewrite Ht; lia).
      replace (Z.to_nat (b mod 1024) - o)%nat with j by lia. by rewrite Hy.
  - intros j n Hj Hne Hn. apply contents_ext. intros b Hb.
    pose proof (byte_at_keep v D N I fb i fbn v1 d1 x fb1 d j b Hinv Hi Hf Hd Hl Hj ltac:(lia)) as Hk. rewrite setz_ne in Hk by done.
    apply Hk; [|done]. apply Z.div_lt_upper_bound; change BSIZE with 1024 in *; lia.
  - rewrite (l_fb _ _ _ _ _ _ _ _ _ _ _ Hl), HN1, HNb, HN. done.
  - intros b Hb. rewrite lookup_insert_ne; [by apply (l_meta _ _ _ _ _ _ _ _ _ _ _ Hl)|].
    assert (Hxm : nmeta ≤ x); [|lia]. rewrite Hx. pose proof (v_used _ _ _ _ _ Hinv1 i fbn Hi (slot_of _ Hf)) as Hr. rewrite !setz_eq in Hr.
    apply Hr. unfold in_use. rewrite decide_False by lia. lia.
  - apply (l_same _ _ _ _ _ _ _ _ _ _ _ Hl).
Qed.

(** Only the addresses of the inodes matter. *)
Lemma inv_ext v D N I fb D' N' (I' : Z → Prop) : (∀ j, I' j → I j ∧ di_addrs (D' j) = di_addrs (D j) ∧ N' j = N j) →
  inv v D N I fb → inv v D' N' I' fb.
Proof.
  intros HE [Himg Hfr Hfb Hsh Hus Hun Hinj].
  assert (Hl : ∀ j k, I' j → loc v (D' j) k = loc v (D j) k) by (intros j k Hj; apply loc_addrs; by apply HE).
  split; try done.
  - intros j Hj. destruct (HE j Hj) as (Hi & -> & ->). auto.
  - intros j k Hj. rewrite Hl by done. destruct (HE j Hj) as (Hi & _ & ->). auto.
  - intros j k Hj. rewrite Hl by done. destruct (HE j Hj) as (Hi & _ & ->). auto.
  - intros j k j' m Hj Hj'. rewrite !Hl by done. destruct (HE j Hj) as (Hi & _ & ->). destruct (HE j' Hj') as (Hi' & _ & ->). auto.
Qed.

Lemma appended_nil v D N I fb i off : inv v D N I fb → N i = nblk off → 0 ≤ off → appended v D N I fb i off [] v (D i) fb.
Proof.
  intros Hinv HN Hoff. split; rewrite ?Z.add_0_r; try done; try lia.
  - apply (inv_ext v D N I fb); [|done]. intros j Hj. unfold setz. destruct (decide (j = i)) as [->|]; split_and!; congruence.
  - cbn [length]. by rewrite Nat.add_0_r, app_nil_r.
Qed.

Lemma appended_trans v D N I fb i off p v1 d1 fb1 q v2 d2 fb2 : 0 ≤ off → appended v D N I fb i off p v1 d1 fb1 →
  appended v1 (setz D i d1) (setz N i (nblk (off + Z.of_nat (length p)))) I fb1 i (off + Z.of_nat (length p)) q v2 d2 fb2 →
  appended v D N I fb i off (p ++ q) v2 d2 fb2.
Proof.
  intros Hoff [Hi1 Hn1 Ho1 Hf1 Hm1 (T1 & T2 & T3 & T4 & T5)] [Hi2 Hn2 Ho2 Hf2 Hm2 (U1 & U2 & U3 & U4 & U5)]. rewrite setz_eq in *.
  assert (El : off + Z.of_nat (length p) + Z.of_nat (length q) = off + Z.of_nat (length (p ++ q))) by (rewrite length_app; lia).
  rewrite El in Hi2, Hf2. split.
  - eapply inv_ext; [|exact Hi2]. intros j Hj. unfold setz. by case_decide.
  - rewrite length_app, Nat.add_assoc, app_assoc, <-Hn1.
    replace (Z.to_nat (off + Z.of_nat (length p))) with (Z.to_nat off + length p)%nat in Hn2 by lia. exact Hn2.
  - intros j n Hj Hne Hn. specialize (Ho2 j n Hj Hne). rewrite !setz_ne in Ho2 by done. rewrite Ho2 by done. by apply Ho1.
  - lia.
  - intros b Hb. rewrite Hm2 by done. by apply Hm1.
  - split_and!; congruence.
Qed.

Lemma iappend_loop I fi i k : ∀ p v D N fb off, (length p < k)%nat → inv v D N I fb → I i → N i = nblk off → 0 ≤ off →
  off + Z.of_nat (length p) ≤ MAXFILE * BSIZE → fb + nb (nblk (off + Z.of_nat (length p))) - nb (nblk off) ≤ FSSIZE →
  ∃ v' d' fb', loop k iappend_body (D i, off, p) (mkmkst v fi fb) = Ok (d', off + Z.of_nat (length p)) (mkmkst v' fi fb') ∧
    appended v D N I fb i off p v' d' fb'.
Proof.
  induction k as [|k IH]; intros p v D N fb off Hk Hinv Hi HN Hoff Hmax Hfb; [lia|]. cbn [loop].
  destruct (decide (p = [])) as [->|Hp].
  { exists v, (D i), fb. split; [|by apply appended_nil]. cbn. by rewrite Z.add_0_r. }
  destruct (iappend_round v D N I fb fi i off p Hinv Hi HN Hoff Hp Hmax Hfb) as (n1 & v1 & d1 & fb1 & Hn1 & Eb & Hap).
  rewrite (bind_Ok _ _ _ _ _ Eb). assert (Ht : length (take n1 p) = n1) by (rewrite length_take; lia).
  assert (Hd : length (drop n1 p) = (length p - n1)%nat) by apply length_drop.
  assert (Hl : off + Z.of_nat n1 + Z.of_nat (length (drop n1 p)) = off + Z.of_nat (length p)) by (rewrite length_drop; lia).
  pose proof (ap_inv _ _ _ _ _ _ _ _ _ _ _ Hap) as Hinv1. pose proof (ap_fb _ _ _ _ _ _ _ _ _ _ _ Hap) as Hfb1. rewrite Ht in Hinv1, Hfb1.
  destruct (IH (drop n1 p) v1 (setz D i d1) (setz N i (nblk (off + Z.of_nat n1))) fb1 (off + Z.of_nat n1)) as (v2 & d2 & fb2 & E2 & Hap2);
    try done; try lia; try (by rewrite setz_eq); [rewrite Hl; lia|].
  exists v2, d2, fb2. rewrite setz_eq, Hl in E2. split; [done|]. rewrite <-(take_drop n1 p). eapply appended_trans; [done|done|]. by rewrite Ht.
Qed.

(** ** Inodes on the disk *)

(** Writing a block of the superblock, the inodes or the bitmap. *)
Lemma inv_meta v D N I fb b d : inv v D N I fb → 0 ≤ b < nmeta → length d = 1024%nat →
  inv (<[b := d]> v) D N I fb ∧ (∀ j k, I j → loc (<[b := d]> v) (D j) k = loc v (D j) k) ∧
  (∀ j n, I j → Z.of_nat n ≤ N j * BSIZE → contents (<[b := d]> v) (D j) n = contents v (D j) n).
Proof.
  intros Hinv Hb Hd. pose proof (v_fb _ _ _ _ _ Hinv) as Hfb. change nmeta with 46 in *. change FSSIZE with 2000 in *.
  assert (Hl : ∀ j k, I j → loc (<[b := d]> v) (D j) k = loc v (D j) k).
  { intros j k Hj. apply loc_frame. intros Hnz. apply blk_insert_ne. intros E. destruct (decide (in_use (N j) (-1))) as [Hu|Hu].
    - pose proof (v_used _ _ _ _ _ Hinv j (-1) Hj slot_ind Hu) as Hr. rewrite loc_ind in Hr. change nmeta with 46 in Hr. lia.
    - apply Hnz. apply (v_unused _ _ _ _ _ Hinv j (-1) Hj slot_ind Hu). }
  split; [|split; [done|]].
  - destruct Hinv as [Himg Hfr _ Hsh Hus Hun Hinj]. split; try done.
    + by apply is_image_insert.
    + intros n Hn. rewrite blk_insert_ne by lia. by apply Hfr.
    + intros j m Hj Hm. rewrite Hl by done. by apply Hus.
    + intros j m Hj Hm. rewrite Hl by done. by apply Hun.
    + intros j m j' m' Hj Hj'. rewrite !Hl by done. by apply Hinj.
  - intros j n Hj Hn. apply contents_ext. intros x Hx. unfold byte_at. rewrite Hl by done. rewrite blk_insert_ne; [done|].
    destruct (v_shape _ _ _ _ _ Hinv j Hj) as [_ HN]. assert (Hk : 0 ≤ x / BSIZE < N j).
    { split; [apply Z.div_pos; [lia|by vm_compute]|]. apply Z.div_lt_upper_bound; change BSIZE with 1024 in *; lia. }
    pose proof (v_used _ _ _ _ _ Hinv j (x / BSIZE) Hj (slot_of (x / BSIZE) ltac:(lia))) as Hr. change nmeta with 46 in Hr.
    intros E. rewrite <-E in Hr. assert (46 ≤ b < fb); [apply Hr|lia]. unfold in_use. rewrite decide_False by lia. lia.
Qed.

Lemma IBLOCK_sb i : 0 ≤ i < NINODES → IBLOCK i sb = i / 16 + 32 ∧ 32 ≤ IBLOCK i sb < 45.
Proof.
  change NINODES with 200. intros Hi. pose proof (Z.div_pos i 16 ltac:(lia) ltac:(lia)). pose proof (Z.div_lt_upper_bound i 16 13 ltac:(lia) ltac:(lia)).
  unfold IBLOCK. change IPB with 16. change (sb_inodestart sb) with 32. unfold u32. rewrite wrap_small by lia. lia.
Qed.

Lemma sb_area : inode_area 2 sb.
Proof. split; [by vm_compute|]. intros i Hi. destruct (IBLOCK_sb i Hi) as [_ H]. unfold in_log. change LOGSIZE with 30. lia. Qed.

(** The inode [i], as the kernel reads it. *)
Abbreviation ino s i := (disk_inode sb (img s) i).

(** The image between two calls: inodes 1 to [freeinode] - 1. *)
Record fs_ok (s : mkst) : Prop := {
  f_inv : inv (img s) (disk_inode sb (img s)) (fun i => nblk (di_size (ino s i))) (fun i => 1 ≤ i < freeinode s) (freeblock s);
  f_ids : 1 ≤ freeinode s ≤ NINODES;
  f_ino i : 1 ≤ i < freeinode s → dinode_ok (ino s i)
}.
Definition file (s : mkst) (i : Z) : list Z := contents (img s) (ino s i) (Z.to_nat (di_size (ino s i))).

(** [winode] writes the inode and no other. *)
Lemma winode_eq v fi fb i di : 0 ≤ i < NINODES → (∃ d, v !! IBLOCK i sb = Some d ∧ length d = 1024%nat) → dinode_ok di → ∃ d,
  winode i di (mkmkst v fi fb) = Ok tt (mkmkst (<[IBLOCK i sb := d]> v) fi fb) ∧ length d = 1024%nat ∧
  disk_inode sb (<[IBLOCK i sb := d]> v) i = di ∧
  (∀ j, 0 ≤ j < NINODES → j ≠ i → disk_inode sb (<[IBLOCK i sb := d]> v) j = disk_inode sb v j).
Proof.
  intros Hi (d & Ed & Hd) Hok. destruct (dinode_off_eq i ltac:(lia)) as [_ Ho]. assert (Hbk : blk v (IBLOCK i sb) = d) by (unfold blk; by rewrite Ed).
  exists (set_bytes d (dinode_off i) (dinode_bytes di)). split_and!.
  - unfold winode, rsect, bind, get. cbn [img]. by rewrite Ed.
  - rewrite length_set_bytes; [done|]. rewrite length_dinode by apply Hok. lia.
  - unfold disk_inode. rewrite blk_insert_eq. apply read_dinode_bytes; [done|lia].
  - intros j Hj Hne. rewrite <-Hbk. apply (disk_inode_update 2); try done; [apply sb_area|apply length_dinode, Hok|by rewrite Hbk].
Qed.

Lemma rinode_eq v fi fb i : (∃ d, v !! IBLOCK i sb = Some d ∧ length d = 1024%nat) →
  rinode i (mkmkst v fi fb) = Ok (disk_inode sb v i) (mkmkst v fi fb).
Proof. intros (d & Ed & _). unfold rinode, rsect, bind, get, disk_inode, blk. cbn [img]. by rewrite Ed. Qed.

(** The addresses in an inode are those of its slots. *)
Lemma addrs_in_range v D N I fb i x : inv v D N I fb → I i → x ∈ di_addrs (D i) → 0 ≤ x < 2 ^ 32.
Proof.
  intros Hinv Hi Hx. destruct (v_shape _ _ _ _ _ Hinv i Hi) as [Hlen _]. apply list_elem_of_lookup in Hx as [k Hk].
  pose proof (lookup_lt_Some _ _ _ Hk) as Hlt. rewrite Hlen in Hlt. pose proof (v_fb _ _ _ _ _ Hinv) as Hfb.
  assert (Hs : ∃ m, slot m ∧ loc v (D i) m = x).
  { destruct (decide (k = 12)%nat) as [->|Hne].
    - exists (-1). split; [apply slot_ind|]. rewrite loc_ind. unfold addr. change (Z.to_nat NDIRECT) with 12%nat. by rewrite Hk.
    - exists (Z.of_nat k). split; [apply slot_of; change MAXFILE with 268; lia|]. unfold loc.
      rewrite (proj2 (Z.ltb_ge _ 0)), (proj2 (Z.ltb_lt _ NDIRECT)) by (change NDIRECT with 12; lia). unfold addr. by rewrite Nat2Z.id, Hk. }
  destruct Hs as (m & Hm & <-). change FSSIZE with 2000 in Hfb. destruct (decide (in_use (N i) m)) as [Hu|Hu].
  - pose proof (v_used _ _ _ _ _ Hinv i m Hi Hm Hu) as Hr. change nmeta with 46 in Hr. lia.
  - rewrite (v_unused _ _ _ _ _ Hinv i m Hi Hm Hu). lia.
Qed.

(** The blocks that hold neither inodes nor files: superblock, log and bitmap. *)
Definition other_meta (b : Z) : Prop := b < nmeta ∧ ∀ j, 0 ≤ j < NINODES → b ≠ IBLOCK j sb.

Record appended_to (s : mkst) (i : Z) (p : list Z) (s' : mkst) : Prop := {
  at_ok : fs_ok s';
  at_ids : freeinode s' = freeinode s;
  at_fb : freeblock s' = freeblock s + nb (nblk (di_size (ino s i) + Z.of_nat (length p))) - nb (nblk (di_size (ino s i)));
  at_file : file s' i = file s i ++ p;
  at_size : di_size (ino s' i) = di_size (ino s i) + Z.of_nat (length p);
  at_type : di_type (ino s' i) = di_type (ino s i) ∧ di_nlink (ino s' i) = di_nlink (ino s i);
  at_other j : 1 ≤ j < freeinode s → j ≠ i → ino s' j = ino s j ∧ file s' j = file s j;
  at_meta b : other_meta b → img s' !! b = img s !! b
}.

Lemma iappend_ok s i p : fs_ok s → 1 ≤ i < freeinode s → di_size (ino s i) + Z.of_nat (length p) ≤ MAXFILE * BSIZE →
  freeblock s + nb (nblk (di_size (ino s i) + Z.of_nat (length p))) - nb (nblk (di_size (ino s i))) ≤ FSSIZE →
  ∃ s', iappend i p s = Ok tt s' ∧ appended_to s i p s'.
Proof.
  intros Hok Hi Hmax Hfb. destruct s as [v fi fb]. pose proof (f_inv _ Hok) as Hinv. pose proof (f_ids _ Hok) as Hids. pose proof (f_ino _ Hok) as Hino.
  cbn [img freeinode freeblock] in *. set (D := disk_inode sb v) in *. set (n := di_size (D i)) in *.
  assert (HiN : 0 ≤ i < NINODES) by lia. destruct (IBLOCK_sb i HiN) as [_ Hib].
  assert (Hn : 0 ≤ n) by (apply (Hino i Hi)).
  destruct (iappend_loop (fun j => 1 ≤ j < fi) fi i (S (length p)) p v D (fun j => nblk (di_size (D j))) fb n) as (v1 & d1 & fb1 & El & Hap); try done; [lia|].
  destruct Hap as [Hinv1 Hnew Hoth Hfb1 Hmeta (T1 & T2 & T3 & T4 & T5)]. set (n' := n + Z.of_nat (length p)) in *.
  set (di := mkdinode (di_type d1) (di_major d1) (di_minor d1) (di_nlink d1) n' (di_addrs d1)).
  pose proof (Hino i Hi) as [K1 K2 K3 K4 K5 K6 K7].
  assert (Hdi : dinode_ok di).
  { destruct (v_shape _ _ _ _ _ Hinv1 i Hi) as [Hlen1 _]. rewrite setz_eq in Hlen1. split; cbn [di di_type di_major di_minor di_nlink di_size di_addrs]; try congruence.
    - change (MAXFILE * BSIZE) with 274432 in Hmax. lia.
    - intros x Hx. pose proof (addrs_in_range v1 _ _ _ fb1 i x Hinv1 Hi) as Hr. rewrite setz_eq in Hr. by apply Hr. }
  destruct (winode_eq v1 fi fb1 i di HiN) as (d & Ew & Hd & Hdi' & Hother); [apply (v_img _ _ _ _ _ Hinv1); change FSSIZE with 2000; lia|done|].
  set (v2 := <[IBLOCK i sb := d]> v1) in *.
  destruct (inv_meta v1 _ _ _ fb1 (IBLOCK i sb) d Hinv1) as (Hinv2 & Hloc2 & Hcont2); [change nmeta with 46; lia|done|]. fold v2 in Hinv2, Hloc2, Hcont2.
  assert (HD2 : ∀ j, 1 ≤ j < fi → j ≠ i → disk_inode sb v2 j = D j).
  { intros j Hj Hne. rewrite Hother by (done || lia). unfold D, disk_inode, blk. destruct (IBLOCK_sb j ltac:(lia)) as [_ Hjb].
    rewrite Hmeta; [done|]. change nmeta with 46. lia. }
  exists (mkmkst v2 fi fb1). split.
  { unfold iappend. rewrite (bind_Ok _ _ _ _ _ (rinode_eq v fi fb i (v_img _ _ _ _ _ Hinv (IBLOCK i sb) ltac:(change FSSIZE with 2000; lia)))).
    rewrite (bind_Ok _ _ _ _ _ El). exact Ew. }
  assert (Hn' : Z.to_nat n' = (Z.to_nat n + length p)%nat) by lia.
  split; unfold file; cbn [img freeinode freeblock]; rewrite ?Hdi'; try done.
  - split; cbn [img freeinode freeblock]; [|done|].
    + eapply inv_ext; [|exact Hinv2]. intros j Hj. unfold setz. destruct (decide (j = i)) as [->|Hne]; [by rewrite Hdi'|by rewrite HD2].
    + intros j Hj. destruct (decide (j = i)) as [->|Hne]; [by rewrite Hdi'|]. rewrite HD2 by done. by apply Hino.
  - cbn [di di_size]. rewrite Hn'. fold D. specialize (Hcont2 i (Z.to_nat n + length p)%nat Hi). rewrite !setz_eq in Hcont2.
    rewrite (contents_addrs v2 d1) by done. rewrite Hcont2; [done|]. rewrite <-Hn'. pose proof (nblk_le n'). lia.
  - intros j Hj Hne. rewrite HD2 by done. split; [done|]. fold D. specialize (Hcont2 j (Z.to_nat (di_size (D j))) Hj). rewrite !setz_ne in Hcont2 by done.
    pose proof (nblk_le (di_size (D j))). destruct (Hino j Hj) as [_ _ _ _ Hsz _ _]. fold D in Hsz.
    rewrite Hcont2 by lia. apply Hoth; [done|done|lia].
  - intros b [Hb Hbi]. unfold v2. rewrite lookup_insert_ne by (by apply not_eq_sym, Hbi). by apply Hmeta.
Qed.

(** ** New inodes *)

Lemma loc_empty v d k : di_addrs d = replicate 13 0 → loc v d k = 0.
Proof.
  intros E. assert (Ha : ∀ j, addr d j = 0).
  { intros j. unfold addr. rewrite E. destruct (replicate 13 0 !! Z.to_nat j) as [x|] eqn:Ex; [|done]. by apply lookup_replicate in Ex as [-> _]. }
  unfold loc. rewrite !Ha. by destruct (k <? 0), (k <? NDIRECT).
Qed.

Lemma inv_add v D N (I : Z → Prop) fb i d : inv v D N I fb → di_addrs d = replicate 13 0 →
  inv v (setz D i d) (setz N i 0) (fun j => I j ∨ j = i) fb.
Proof.
  intros [Himg Hfr Hfb Hsh Hus Hun Hinj] Hd. assert (Hno : ∀ k, slot k → ¬ in_use 0 k) by (intros k Hk; unfold in_use, slot in *; change NDIRECT with 12; case_decide; lia).
  assert (Hc : ∀ j, I j ∨ j = i → (j ≠ i ∧ I j) ∨ j = i) by (intros j Hj; destruct (decide (j = i)); tauto).
  split; try done.
  - intros j [[Hne Hj]| ->]%Hc; [rewrite !setz_ne by done; auto|]. rewrite !setz_eq, Hd. split; [done|]. by vm_compute.
  - intros j k [[Hne Hj]| ->]%Hc Hk; [rewrite !setz_ne by done; auto|]. rewrite !setz_eq. by intros ?%Hno.
  - intros j k [[Hne Hj]| ->]%Hc Hk; [rewrite !setz_ne by done; auto|]. rewrite !setz_eq. intros _. by apply loc_empty.
  - intros j k j' m [[Hne Hj]| ->]%Hc [[Hne' Hj']| ->]%Hc Hk Hm; rewrite ?setz_eq; try (by intros ?%Hno); try (by intros _ ?%Hno).
    rewrite !setz_ne by done. auto.
Qed.

Record allocated_ino (s : mkst) (type : Z) (s' : mkst) : Prop := {
  ai_ok : fs_ok s';
  ai_ids : freeinode s' = freeinode s + 1;
  ai_fb : freeblock s' = freeblock s;
  ai_new : ino s' (freeinode s) = mkdinode type 0 0 1 0 (replicate 13 0);
  ai_file : file s' (freeinode s) = [];
  ai_other j : 1 ≤ j < freeinode s → ino s' j = ino s j ∧ file s' j = file s j;
  ai_meta b : other_meta b → img s' !! b = img s !! b
}.

Lemma ialloc_ok s type : fs_ok s → freeinode s < NINODES → 0 ≤ type < 2 ^ 15 →
  ∃ s', ialloc type s = Ok (freeinode s) s' ∧ allocated_ino s type s'.
Proof.
  intros Hok Hlt Ht. destruct s as [v fi fb]. pose proof (f_inv _ Hok) as Hinv. pose proof (f_ids _ Hok) as Hids. pose proof (f_ino _ Hok) as Hino.
  cbn [img freeinode freeblock] in *. set (di := mkdinode type 0 0 1 0 (replicate 13 0)).
  assert (Hdi : dinode_ok di).
  { split; cbn [di di_type di_major di_minor di_nlink di_size di_addrs]; try done; try lia. intros x Hx. apply elem_of_replicate in Hx as [-> _]. lia. }
  destruct (IBLOCK_sb fi ltac:(lia)) as [_ Hib].
  destruct (winode_eq v (fi + 1) fb fi di ltac:(lia)) as (d & Ew & Hd & Hdi' & Hother); [apply (v_img _ _ _ _ _ Hinv); change FSSIZE with 2000; lia|done|].
  set (v2 := <[IBLOCK fi sb := d]> v) in *.
  destruct (inv_meta v _ _ _ fb (IBLOCK fi sb) d Hinv) as (Hinv2 & Hloc2 & Hcont2); [change nmeta with 46; lia|done|]. fold v2 in Hinv2, Hloc2, Hcont2.
  exists (mkmkst v2 (fi + 1) fb). split.
  { unfold ialloc, bind at 1 2, get, put. cbn [img freeinode freeblock]. unfold u32. change NINODES with 200 in *. rewrite wrap_small by lia.
    by rewrite (bind_Ok _ _ _ _ _ Ew). }
  assert (HD2 : ∀ j, 1 ≤ j < fi → disk_inode sb v2 j = disk_inode sb v j) by (intros j Hj; apply Hother; lia).
  split; unfold file; cbn [img freeinode freeblock]; try done.
  - split; cbn [img freeinode freeblock]; [|lia|].
    + eapply inv_ext; [|apply (inv_add _ _ _ _ _ fi di Hinv2 eq_refl)]. intros j Hj. unfold setz. destruct (decide (j = fi)) as [->|Hne].
      * rewrite Hdi'. split_and!; [by right|done|done].
      * rewrite HD2 by lia. split_and!; [left; lia|done|done].
    + intros j Hj. destruct (decide (j = fi)) as [->|Hne]; [by rewrite Hdi'|]. rewrite HD2 by lia. apply Hino. lia.
  - by rewrite Hdi'.
  - intros j Hj. rewrite HD2 by done. split; [done|]. destruct (Hino j Hj) as [_ _ _ _ Hsz _ _]. pose proof (nblk_le (di_size (disk_inode sb v j))).
    apply Hcont2; [done|lia].
  - intros b [Hb Hbi]. unfold v2. rewrite lookup_insert_ne; [done|]. apply not_eq_sym, Hbi. lia.
Qed.

(** ** The files of an image *)

(** Types and contents of the inodes 1, 2, ... *)
Abbreviation entry := (Z * list Z)%type.
Definition cost (c : list Z) : Z := nb (nblk (Z.of_nat (length c))).
Fixpoint total (F : list entry) : Z := match F with [] => 0 | (_, c) :: F => cost c + total F end.

(** The files fit: none is too long, and all of them together. *)
Definition fits (F : list entry) : Prop :=
  Forall (fun '(_, c) => Z.of_nat (length c) ≤ MAXFILE * BSIZE) F ∧ nmeta + total F ≤ FSSIZE.

Record holds (s : mkst) (F : list entry) : Prop := {
  h_ok : fs_ok s;
  h_ids : freeinode s = 1 + Z.of_nat (length F);
  h_fb : freeblock s = nmeta + total F;
  h_file (k : nat) t c : F !! k = Some (t, c) →
    di_type (ino s (1 + Z.of_nat k)) = t ∧ di_nlink (ino s (1 + Z.of_nat k)) = 1 ∧
    di_size (ino s (1 + Z.of_nat k)) = Z.of_nat (length c) ∧ file s (1 + Z.of_nat k) = c
}.
Definition same_meta (s s' : mkst) : Prop := ∀ b, other_meta b → img s' !! b = img s !! b.

Lemma same_meta_trans s s1 s2 : same_meta s s1 → same_meta s1 s2 → same_meta s s2.
Proof. intros H1 H2 b Hb. rewrite (H2 b Hb). by apply H1. Qed.

Lemma cost_mono c c' : (length c ≤ length c')%nat → cost c ≤ cost c'.
Proof. intros H. apply nb_mono, nblk_mono. lia. Qed.

Lemma cost_pos c : 0 ≤ cost c.
Proof. unfold cost, nb. assert (0 ≤ nblk (Z.of_nat (length c))) by (apply Z.div_pos; [change BSIZE with 1024; lia|by vm_compute]). destruct (NDIRECT <? _); lia. Qed.

Lemma total_app F G : total (F ++ G) = total F + total G.
Proof. induction F as [|[t c] F IH]; cbn [app total]; lia. Qed.

Lemma total_insert F k t c c' : F !! k = Some (t, c) → total (<[k := (t, c')]> F) = total F + cost c' - cost c.
Proof.
  revert k. induction F as [|[u d] F IH]; intros [|k]; [done..| |]; cbn.
  - intros [= -> ->]. lia.
  - intros H. change (list_insert k (t, c') F) with (<[k := (t, c')]> F). rewrite IH by done. lia.
Qed.

(** Shorter files fit too. *)
Lemma fits_shorter F k t c p : F !! k = Some (t, c) → fits (<[k := (t, c ++ p)]> F) → fits F.
Proof.
  intros Hk [Hl Ht]. pose proof (cost_mono c (c ++ p) ltac:(rewrite length_app; lia)). rewrite (total_insert F k t c) in Ht by done. split; [|lia].
  rewrite Forall_lookup in Hl |- *. intros j [u d] Hj. destruct (decide (j = k)) as [->|Hne].
  - rewrite Hk in Hj. injection Hj as <- <-. specialize (Hl k (t, c ++ p)). cbn in Hl. rewrite length_app in Hl.
    assert (Z.of_nat (length c + length p) ≤ MAXFILE * BSIZE); [|lia]. apply Hl. apply list_lookup_insert_eq. by eapply lookup_lt_Some.
  - apply (Hl j (u, d)). by rewrite list_lookup_insert_ne.
Qed.

Lemma iappend_holds s F k t c p : holds s F → F !! k = Some (t, c) → fits (<[k := (t, c ++ p)]> F) →
  ∃ s', iappend (1 + Z.of_nat k) p s = Ok tt s' ∧ holds s' (<[k := (t, c ++ p)]> F) ∧ same_meta s s'.
Proof.
  intros [Hok Hids Hfb Hfile] Hk [Hl Ht]. destruct (Hfile k t c Hk) as (E1 & E2 & E3 & E4). pose proof (lookup_lt_Some _ _ _ Hk) as Hlt.
  assert (Hsz : di_size (ino s (1 + Z.of_nat k)) + Z.of_nat (length p) = Z.of_nat (length (c ++ p))) by (rewrite E3, length_app; lia).
  rewrite (total_insert F k t c) in Ht by done.
  destruct (iappend_ok s (1 + Z.of_nat k) p Hok) as (s' & E & Hap); [lia| | |].
  - rewrite Hsz. rewrite Forall_lookup in Hl. apply (Hl k (t, c ++ p)). by apply list_lookup_insert_eq.
  - rewrite Hsz, E3, Hfb. fold (cost (c ++ p)) (cost c). lia.
  - exists s'. split; [done|]. destruct Hap as [A1 A2 A3 A4 A5 [A6 A7] A8 A9]. split; [|done]. split; [done|by rewrite A2, length_insert| |].
    + rewrite A3, Hsz, E3, Hfb, (total_insert F k t c) by done. fold (cost (c ++ p)) (cost c). lia.
    + intros j u d Hj. destruct (decide (j = k)) as [->|Hne].
      * rewrite list_lookup_insert_eq in Hj by done. injection Hj as <- <-. rewrite A5, Hsz, A4, E4. split_and!; [congruence|congruence|done|done].
      * rewrite list_lookup_insert_ne in Hj by done. pose proof (lookup_lt_Some _ _ _ Hj). destruct (A8 (1 + Z.of_nat j)) as [-> ->]; [lia|lia|]. by apply Hfile.
Qed.

Lemma ialloc_holds s F t : holds s F → 1 + Z.of_nat (length F) < NINODES → 0 ≤ t < 2 ^ 15 →
  ∃ s', ialloc t s = Ok (1 + Z.of_nat (length F)) s' ∧ holds s' (F ++ [(t, [])]) ∧ same_meta s s'.
Proof.
  intros [Hok Hids Hfb Hfile] Hlt Ht. destruct (ialloc_ok s t Hok) as (s' & E & [A1 A2 A3 A4 A5 A6 A7]); [lia|done|].
  rewrite Hids in *. exists s'. split; [done|]. split; [|done]. split; [done|rewrite A2, length_app; cbn; lia| |].
  - rewrite A3, total_app, Hfb. cbn. change (cost []) with 0. lia.
  - intros j u d Hj. destruct (decide (j < length F)%nat).
    + rewrite lookup_app_l in Hj by done. destruct (A6 (1 + Z.of_nat j)) as [-> ->]; [lia|]. by apply Hfile.
    + pose proof (lookup_lt_Some _ _ _ Hj) as Hj'. rewrite length_app in Hj'. cbn in Hj'. assert (j = length F) as -> by lia.
      rewrite list_lookup_middle in Hj by done. injection Hj as <- <-. by rewrite A4, A5.
Qed.

(** ** The whole image *)

Lemma append_all_holds reads : ∀ s F k t c, holds s F → F !! k = Some (t, c) → fits (<[k := (t, c ++ concat reads)]> F) →
  ∃ s', append_all (1 + Z.of_nat k) reads s = Ok tt s' ∧ holds s' (<[k := (t, c ++ concat reads)]> F) ∧ same_meta s s'.
Proof.
  induction reads as [|r reads IH]; intros s F k t c Hh Hk Hfit; cbn [concat append_all] in *.
  { exists s. split; [done|]. split; [|by intros ??]. by rewrite app_nil_r, list_insert_id. }
  assert (Hlt : (k < length F)%nat) by (by eapply lookup_lt_Some).
  assert (Hk1 : <[k := (t, c ++ r)]> F !! k = Some (t, c ++ r)) by (by apply list_lookup_insert_eq).
  rewrite app_assoc, <-(list_insert_insert_eq F k (t, (c ++ r) ++ concat reads) (t, c ++ r)) in Hfit |- *.
  destruct (iappend_holds s F k t c r Hh Hk) as (s1 & E1 & Hh1 & Hm1); [by eapply fits_shorter|].
  destruct (IH s1 _ k t (c ++ r) Hh1 Hk1 Hfit) as (s2 & E2 & Hh2 & Hm2).
  exists s2. rewrite (bind_Ok _ _ _ _ _ E1). split; [done|]. split; [done|]. by eapply same_meta_trans.
Qed.

Lemma insert_last {A} (l : list A) x y : <[length l := y]> (l ++ [x]) = l ++ [y].
Proof. induction l as [|a l IH]; [done|]. cbn. f_equal. exact IH. Qed.

(** The name of a file, and whether [main] accepts it. *)
Definition file_name (path : list Z) : list Z := skip_underscore (shortname path).
Definition name_ok (path : list Z) : Prop := (47 ∉ shortname path) ∧ (length (file_name path) ≤ 14)%nat.
Definition file_ok (f : hostfile) : Prop := name_ok f.1 ∧ is_Some f.2.

(** What [add_file] does to the files: a new one, and its entry in the root directory. *)
Definition root_add (F : list entry) (name : list Z) : list entry :=
  match F with (t, c) :: F' => (t, c ++ dirent_of (1 + Z.of_nat (length F)) name) :: F' | [] => [] end.
Definition with_file (F : list entry) (f : hostfile) : list entry :=
  root_add F (file_name f.1) ++ [(T_FILE, concat (default [] f.2))].

Lemma add_file_holds s t c F f : holds s ((t, c) :: F) → file_ok f → 2 + Z.of_nat (length F) < NINODES →
  fits (with_file ((t, c) :: F) f) → ∃ s', add_file ROOTINO f s = Ok tt s' ∧ holds s' (with_file ((t, c) :: F) f) ∧ same_meta s s'.
Proof.
  destruct f as [path fd]. intros Hh [[Hn1 Hn2] [reads Hfd]] Hlt Hfit. cbn [fst snd] in Hn1, Hn2, Hfd. subst fd. unfold with_file, root_add in *. cbn [fst snd default from_option id] in *.
  set (n := 1 + Z.of_nat (length ((t, c) :: F))) in *. set (e := dirent_of n (file_name path)) in *.
  assert (Hn : n < NINODES) by (unfold n; cbn [length]; lia).
  destruct (ialloc_holds s ((t, c) :: F) T_FILE Hh Hn) as (s1 & E1 & Hh1 & Hm1); [by vm_compute|]. fold n in E1.
  assert (Hfit2 : fits (((t, c ++ e) :: F) ++ [(T_FILE, [])])).
  { apply (fits_shorter _ (S (length F)) T_FILE [] (concat reads)).
    - change (S (length F)) with (length ((t, c ++ e) :: F)). by apply list_lookup_middle.
    - change (S (length F)) with (length ((t, c ++ e) :: F)). rewrite insert_last. exact Hfit. }
  destruct (iappend_holds s1 _ 0 t c e Hh1 eq_refl Hfit2) as (s2 & E2 & Hh2 & Hm2). change (1 + Z.of_nat 0) with ROOTINO in E2.
  change (<[0%nat := (t, c ++ e)]> (((t, c) :: F) ++ [(T_FILE, [])])) with (((t, c ++ e) :: F) ++ [(T_FILE, [] : list Z)]) in Hh2.
  destruct (append_all_holds reads s2 _ (S (length F)) T_FILE [] Hh2) as (s3 & E3 & Hh3 & Hm3).
  { change (S (length F)) with (length ((t, c ++ e) :: F)). by apply list_lookup_middle. }
  { change (S (length F)) with (length ((t, c ++ e) :: F)). rewrite insert_last. exact Hfit. }
  change (S (length F)) with (length ((t, c ++ e) :: F)) in Hh3. rewrite insert_last in Hh3. cbn [app] in Hh3.
  exists s3. split; [|split; [exact Hh3|eapply same_meta_trans; [done|by eapply same_meta_trans]]].
  unfold add_file, assert_. rewrite bool_decide_eq_false_2 by done. cbn [negb]. unfold bind at 1, ret at 1. fold (file_name path).
  rewrite bool_decide_eq_true_2 by done. unfold bind at 1, ret at 1. rewrite (bind_Ok _ _ _ _ _ E1). fold e. by rewrite (bind_Ok _ _ _ _ _ E2).
Qed.

Definition build : list entry → list hostfile → list entry := foldl with_file.

Lemma fits_with_file F f : fits (with_file F f) → fits F.
Proof.
  intros [Hl Ht]. unfold with_file in *. apply Forall_app in Hl as [Hl _]. rewrite total_app in Ht. cbn in Ht. pose proof (cost_pos (concat (default [] f.2))).
  destruct F as [|[t c] F]; [split; [by apply Forall_nil|cbn in *; lia]|]. apply (fits_shorter _ 0 t c (dirent_of (1 + Z.of_nat (length ((t, c) :: F))) (file_name f.1))); [done|].
  split; [exact Hl|]. change (nmeta + total (root_add ((t, c) :: F) (file_name f.1)) ≤ FSSIZE). lia.
Qed.

Lemma fits_build files : ∀ F, fits (build F files) → fits F.
Proof. induction files as [|f files IH]; intros F H; [done|]. eapply fits_with_file, IH, H. Qed.

Lemma length_with_file F f : F ≠ [] → length (with_file F f) = S (length F) ∧ with_file F f ≠ [].
Proof. destruct F as [|[t c] F]; [done|]. intros _. unfold with_file. rewrite length_app. cbn. split; [lia|done]. Qed.

Lemma add_files_holds files : ∀ s F, F ≠ [] → holds s F → Forall file_ok files → 1 + Z.of_nat (length F + length files) ≤ NINODES →
  fits (build F files) → ∃ s', add_files ROOTINO files s = Ok tt s' ∧ holds s' (build F files) ∧ same_meta s s'.
Proof.
  induction files as [|f files IH]; intros s F HF Hh Hn Hlt Hfit.
  { exists s. split; [done|]. split; [done|by intros ??]. }
  apply Forall_cons in Hn as [Hn1 Hn]. destruct (length_with_file F f HF) as [Hlen Hne]. cbn [add_files length] in *.
  assert (Hf1 : fits (with_file F f)) by (by apply (fits_build files)).
  destruct F as [|[t c] F]; [done|]. destruct (add_file_holds s t c F f Hh Hn1) as (s1 & E1 & Hh1 & Hm1); [cbn [length] in *; lia|done|].
  destruct (IH s1 (with_file ((t, c) :: F) f)) as (s2 & E2 & Hh2 & Hm2); [done|done|done|rewrite Hlen; lia|done|].
  exists s2. rewrite (bind_Ok _ _ _ _ _ E1). split; [done|]. split; [done|]. by eapply same_meta_trans.
Qed.

(** The zeroed image. *)
Lemma zero_fill d fi fb n : ∀ lo v, ∃ v', for_ lo n (fun i => wsect i d) (mkmkst v fi fb) = Ok tt (mkmkst v' fi fb) ∧
  ∀ b, v' !! b = if decide (lo ≤ b < lo + Z.of_nat n) then Some d else v !! b.
Proof.
  induction n as [|n IH]; intros lo v.
  { exists v. split; [done|]. intros b. by rewrite decide_False by lia. }
  destruct (IH (lo + 1) (<[lo := d]> v)) as (v' & E & Hv). exists v'. split; [cbn [for_]; exact E|]. intros b. rewrite Hv.
  destruct (decide (b = lo)) as [->|Hne].
  - rewrite decide_False, decide_True, lookup_insert_eq by lia. done.
  - rewrite lookup_insert_ne by done. destruct (decide (lo ≤ b < lo + Z.of_nat (S n))); [rewrite decide_True by lia|rewrite decide_False by lia]; done.
Qed.

(** [balloc]: the bitmap of the first [used] blocks. *)
Lemma bitmap_fold used n : 0 ≤ n → (Z.to_nat (Z.of_nat used / 8) < 1024)%nat →
  let d := foldl (fun buf i => set_bit buf (Z.of_nat i)) (replicate 1024 0) (seq 0 used) in
  length d = 1024%nat ∧ bit_set d n = bool_decide (n < Z.of_nat used).
Proof.
  intros Hn. induction used as [|u IH]; intros Hu; cbv zeta.
  - cbn [seq foldl]. rewrite length_replicate. split; [done|]. rewrite bool_decide_eq_false_2 by lia. unfold bit_set.
    destruct (replicate 1024 0 !! Z.to_nat (n / 8)) as [x|] eqn:E; [apply lookup_replicate in E as [-> _]|]; done.
  - rewrite seq_S, foldl_app. cbn [foldl Nat.add]. destruct IH as [IH1 IH2].
    { pose proof (Z.div_le_mono (Z.of_nat u) (Z.of_nat (S u)) 8 ltac:(lia) ltac:(lia)). pose proof (Z.div_pos (Z.of_nat u) 8 ltac:(lia) ltac:(lia)). lia. }
    set (d := foldl _ _ (seq 0 u)) in *. assert (Hlu : (Z.to_nat (Z.of_nat u / 8) < length d)%nat).
    { rewrite IH1. pose proof (Z.div_le_mono (Z.of_nat u) (Z.of_nat (S u)) 8 ltac:(lia) ltac:(lia)). pose proof (Z.div_pos (Z.of_nat u) 8 ltac:(lia) ltac:(lia)). lia. }
    split; [unfold set_bit; by rewrite length_alter|]. rewrite bit_set_set_bit by (done || lia). rewrite IH2.
    apply Bool.eq_iff_eq_true. rewrite orb_true_iff, !bool_decide_eq_true. lia.
Qed.

(** The entries "." and "..". *)
Definition root0 : list entry := [(T_DIR, dirent_of 1 (bytes_of ".") ++ dirent_of 1 (bytes_of ".."))].

(** The length of inode [i], of the files [F]. *)
Definition len_of (F : list entry) (i : Z) : Z := match F !! Z.to_nat (i - 1) with Some (_, c) => Z.of_nat (length c) | None => 0 end.

(** The inodes and their blocks hold the files [F]. *)
Record files_of (v : blocks) (fb : Z) (F : list entry) : Prop := {
  fo_blocks : inv v (disk_inode sb v) (fun i => nblk (len_of F i)) (fun i => 1 ≤ i < 1 + Z.of_nat (length F)) fb;
  fo_file (k : nat) t c : F !! k = Some (t, c) → let din := disk_inode sb v (1 + Z.of_nat k) in
    di_type din = t ∧ di_nlink din = 1 ∧ contents v din (length c) = c ∧
    di_size din = if decide (k = 0%nat) then (Z.of_nat (length c) / BSIZE + 1) * BSIZE else Z.of_nat (length c);
  fo_ok i : 1 ≤ i < 1 + Z.of_nat (length F) → dinode_ok (disk_inode sb v i)
}.

(** The image [s] is a file system with the files [F]. *)
Record image_of (s : mkst) (F : list entry) : Prop := {
  im_super : read_superblock (blk (img s) 1) = sb;
  im_files : files_of (img s) (freeblock s) F;
  im_used b : 0 ≤ b < FSSIZE → used sb (img s) b = bool_decide (b < freeblock s);
  im_free : freeblock s = nmeta + total F;
  im_log n : in_log 2 n → blk (img s) n = replicate 1024 0;
  im_sized : sized (img s)
}.

Lemma holds_zero v : (∀ b, v !! b = if decide (0 ≤ b < 0 + 2000) then Some (replicate 1024 0) else None) →
  holds (mkmkst (<[1 := set_bytes (replicate 1024 0) 0 (superblock_bytes sb)]> v) 1 nmeta) [].
Proof.
  intros Hv. split; [|done|by vm_compute|intros k t c Hk; by rewrite lookup_nil in Hk].
  split; cbn [img freeinode freeblock]; [|by vm_compute|lia].
  split; try lia.
  - apply is_image_insert; [|by vm_compute]. split; [|intros n; unfold blk; rewrite Hv; by case_decide].
    intros n Hn. change FSSIZE with 2000 in Hn. exists (replicate 1024 0). rewrite Hv, decide_True by lia. by rewrite length_replicate.
  - intros n Hn. change nmeta with 46 in Hn. change FSSIZE with 2000 in Hn. unfold blk. rewrite lookup_insert_ne, Hv, decide_True by lia. done.
  - by vm_compute.
Qed.

Lemma read_superblock_bytes d : length d = 1024%nat → read_superblock (set_bytes d 0 (superblock_bytes sb)) = sb.
Proof.
  intros Hd. unfold read_superblock. assert (Hf : ∀ k n, (k + n ≤ 32)%nat → field (set_bytes d 0 (superblock_bytes sb)) k n = field (superblock_bytes sb) k n).
  { intros k n Hk. apply (field_set_same d 0 (superblock_bytes sb) k n); [lia|]. exact Hk. }
  rewrite !Hf by lia. by vm_compute.
Qed.

Lemma len_of_at F k t c : F !! k = Some (t, c) → len_of F (1 + Z.of_nat k) = Z.of_nat (length c).
Proof. intros H. unfold len_of. replace (Z.to_nat (1 + Z.of_nat k - 1)) with k by lia. by rewrite H. Qed.

(** Blocks that hold no inodes do not matter. *)
Lemma files_of_meta v fb F b d : files_of v fb F → 1 + Z.of_nat (length F) ≤ NINODES → 0 ≤ b → other_meta b → length d = 1024%nat →
  files_of (<[b := d]> v) fb F.
Proof.
  intros [Hinv Hfile Hoks] HN Hb0 [Hb Hbi] Hd. destruct (inv_meta v _ _ _ fb b d Hinv ltac:(lia) Hd) as (Hinv2 & _ & Hc).
  assert (HD : ∀ i, 0 ≤ i < NINODES → disk_inode sb (<[b := d]> v) i = disk_inode sb v i).
  { intros i Hi. unfold disk_inode. rewrite blk_insert_ne; [done|]. by apply Hbi. }
  split.
  - eapply inv_ext; [|exact Hinv2]. intros i Hi. rewrite HD by lia. done.
  - intros k t c Hk. pose proof (lookup_lt_Some _ _ _ Hk). cbv zeta. rewrite HD by lia. destruct (Hfile k t c Hk) as (H1 & H2 & H3 & H4).
    split_and!; try done. rewrite Hc; [done|lia|]. rewrite (len_of_at F k t c) by done. apply nblk_le.
  - intros i Hi. rewrite HD by lia. by apply Hoks.
Qed.

Lemma fix_root_ok s F t c : holds s F → F !! 0%nat = Some (t, c) → Z.of_nat (length c) ≤ MAXFILE * BSIZE →
  ∃ s', fix_root ROOTINO s = Ok tt s' ∧ files_of (img s') (freeblock s') F ∧ freeblock s' = freeblock s ∧ same_meta s s'.
Proof.
  intros [Hok Hids Hfb Hfile] H0 Hmax. pose proof (lookup_lt_Some _ _ _ H0) as Hlt. destruct s as [v fi fb].
  pose proof (f_inv _ Hok) as Hinv. pose proof (f_ids _ Hok) as Hni. pose proof (f_ino _ Hok) as Hino. unfold file in Hfile. cbn [img freeinode freeblock] in *.
  destruct (Hfile 0%nat t c H0) as (E1 & E2 & E3 & E4). change (1 + Z.of_nat 0) with ROOTINO in *.
  set (din := disk_inode sb v ROOTINO) in *. set (off := (di_size din / BSIZE + 1) * BSIZE).
  set (di := mkdinode (di_type din) (di_major din) (di_minor din) (di_nlink din) off (di_addrs din)).
  assert (Hr : 1 ≤ ROOTINO < fi) by (change ROOTINO with 1; lia). pose proof (Hino ROOTINO Hr) as [K1 K2 K3 K4 K5 K6 K7]. fold din in K1, K2, K3, K4, K5, K6, K7.
  assert (Hoff : 0 ≤ off < 2 ^ 32).
  { unfold off. rewrite E3. change (MAXFILE * BSIZE) with 274432 in Hmax. change BSIZE with 1024.
    pose proof (Z.div_pos (Z.of_nat (length c)) 1024 ltac:(lia) ltac:(lia)). pose proof (Z.div_le_mono (Z.of_nat (length c)) 274432 1024 ltac:(lia) ltac:(lia)) as Hd.
    change (274432 / 1024) with 268 in Hd. lia. }
  assert (Hdi : dinode_ok di) by (split; done).
  destruct (IBLOCK_sb ROOTINO ltac:(by vm_compute)) as [_ Hib].
  assert (Himg : ∃ d, v !! IBLOCK ROOTINO sb = Some d ∧ length d = 1024%nat) by (apply (v_img _ _ _ _ _ Hinv); change FSSIZE with 2000; lia).
  destruct (winode_eq v fi fb ROOTINO di ltac:(by vm_compute) Himg Hdi) as (d & Ew & Hd & Hdi' & Hother).
  exists (mkmkst (<[IBLOCK ROOTINO sb := d]> v) fi fb). split.
  { unfold fix_root. rewrite (bind_Ok _ _ _ _ _ (rinode_eq v fi fb ROOTINO Himg)). exact Ew. }
  destruct (inv_meta v _ _ _ fb (IBLOCK ROOTINO sb) d Hinv) as (Hinv2 & _ & Hc); [change nmeta with 46; lia|done|].
  cbn [img freeblock]. set (v2 := <[IBLOCK ROOTINO sb := d]> v) in *. split; [|split; [done|intros b [Hb Hbi]; cbn [img]; unfold v2; rewrite lookup_insert_ne; [done|]; apply not_eq_sym, Hbi; by vm_compute]].
  assert (Hlen : ∀ j, 1 ≤ j < fi → disk_inode sb v2 j = (if decide (j = ROOTINO) then di else disk_inode sb v j) ∧
    di_size (disk_inode sb v j) = len_of F j).
  { intros j Hj. split.
    - case_decide as E; [by rewrite E|]. apply Hother; [lia|done].
    - destruct (lookup_lt_is_Some_2 F (Z.to_nat (j - 1))) as [[t' c'] Hl]; [lia|]. destruct (Hfile _ t' c' Hl) as (_ & _ & Hs & _).
      pose proof (len_of_at F _ t' c' Hl) as Hn. replace (1 + Z.of_nat (Z.to_nat (j - 1))) with j in * by lia. unfold ino in Hs. cbn [img] in Hs. rewrite Hn. exact Hs. }
  assert (Haddrs : ∀ j, 1 ≤ j < fi → di_addrs (disk_inode sb v2 j) = di_addrs (disk_inode sb v j)).
  { intros j Hj. destruct (Hlen j Hj) as [-> _]. case_decide as E; [by rewrite E|done]. }
  split.
  - eapply inv_ext; [|exact Hinv2]. intros j Hj. cbv beta in Hj |- *. assert (Hj' : 1 ≤ j < fi) by lia. destruct (Hlen j Hj') as [_ <-].
    split; [exact Hj'|]. split; [by apply Haddrs|done].
  - intros k t' c' Hk. pose proof (lookup_lt_Some _ _ _ Hk) as Hkl. cbv zeta. assert (Hj : 1 ≤ 1 + Z.of_nat k < fi) by lia.
    destruct (Hfile k t' c' Hk) as (F1 & F2 & F3 & F4). unfold ino in F1, F2, F3, F4. cbn [img] in F1, F2, F3, F4. rewrite F3, Nat2Z.id in F4.
    destruct (Hlen _ Hj) as [Hv2 _]. split_and!; [| |rewrite (contents_addrs v2 (disk_inode sb v (1 + Z.of_nat k))) by (by apply Haddrs);
      rewrite Hc; [done|exact Hj|]; cbv beta; unfold ino; cbn [img]; rewrite F3; apply nblk_le|].
    1-3: rewrite Hv2; change ROOTINO with 1; destruct (decide (k = 0%nat)) as [->|Hne]; [rewrite decide_True by lia|rewrite decide_False by lia; done].
    + exact F1.
    + exact F2.
    + rewrite H0 in Hk. injection Hk as <- <-. cbn [di_size di]. unfold off. by rewrite E3.
  - intros i Hi. assert (Hj : 1 ≤ i < fi) by lia. destruct (Hlen i Hj) as [-> _]. case_decide; [done|by apply Hino].
Qed.

(** Block 1, the log and the bitmap hold no inodes. *)
Lemma other_meta_log n : in_log 2 n → other_meta n.
Proof. unfold in_log. change LOGSIZE with 30. intros Hn. split; [change nmeta with 46; lia|]. intros j Hj. destruct (IBLOCK_sb j Hj). lia. Qed.
Lemma other_meta_super : other_meta 1.
Proof. split; [by vm_compute|]. intros j Hj. destruct (IBLOCK_sb j Hj). lia. Qed.
Lemma other_meta_bitmap : other_meta 45.
Proof. split; [by vm_compute|]. intros j Hj. destruct (IBLOCK_sb j Hj). lia. Qed.

Lemma BBLOCK_sb b : 0 ≤ b < FSSIZE → BBLOCK b sb = 45 ∧ b mod BPB = b.
Proof.
  change FSSIZE with 2000. intros Hb. unfold BBLOCK. change BPB with 8192. change (sb_bmapstart sb) with 45.
  rewrite Z.div_small, Z.mod_small by lia. done.
Qed.

Lemma balloc_ok v fi fb F : files_of v fb F → 1 + Z.of_nat (length F) ≤ NINODES → ∃ v', balloc fb (mkmkst v fi fb) = Ok tt (mkmkst v' fi fb) ∧
  files_of v' fb F ∧ (∀ b, 0 ≤ b < FSSIZE → used sb v' b = bool_decide (b < fb)) ∧ ∀ b, b ≠ 45 → v' !! b = v !! b.
Proof.
  intros Hf HN. pose proof (v_fb _ _ _ _ _ (fo_blocks _ _ _ Hf)) as Hfb. change nmeta with 46 in Hfb. change FSSIZE with 2000 in Hfb.
  assert (Hu : (Z.to_nat (Z.of_nat (Z.to_nat fb) / 8) < 1024)%nat).
  { rewrite Z2Nat.id by lia. pose proof (Z.div_lt_upper_bound fb 8 1024 ltac:(lia) ltac:(lia)). pose proof (Z.div_pos fb 8 ltac:(lia) ltac:(lia)). lia. }
  unfold balloc, assert_. rewrite (proj2 (Z.ltb_lt fb BPB)) by (change BPB with 8192; lia). unfold bind at 1, ret at 1.
  change (Z.to_nat BSIZE) with 1024%nat. change (sb_bmapstart sb) with 45.
  pose proof (λ n Hn, bitmap_fold (Z.to_nat fb) n Hn Hu) as Hbit. cbv zeta in Hbit. set (d := foldl _ _ _) in *.
  exists (<[45 := d]> v). split; [done|]. split_and!.
  - apply files_of_meta; [done|done|lia|apply other_meta_bitmap|by apply (Hbit 0)].
  - intros b Hb. destruct (BBLOCK_sb b Hb) as [E1 E2]. unfold used. rewrite E1, E2. unfold blk. rewrite lookup_insert_eq. cbn [default].
    destruct (Hbit b ltac:(lia)) as [_ Hbb]. rewrite Z2Nat.id in Hbb by lia. exact Hbb.
  - intros b Hb. by rewrite lookup_insert_ne.
Qed.

(** Appending to the first file of a list. *)
Lemma iappend_root s t c F p : holds s ((t, c) :: F) → fits ((t, c ++ p) :: F) →
  ∃ s', iappend ROOTINO p s = Ok tt s' ∧ holds s' ((t, c ++ p) :: F) ∧ same_meta s s'.
Proof. intros Hh Hfit. exact (iappend_holds s _ 0 t c p Hh eq_refl Hfit). Qed.

(** The zeroed image with the superblock, and the root directory with its first two entries. *)
Lemma make_root v : (∀ b, v !! b = if decide (0 ≤ b < 0 + 2000) then Some (replicate 1024 0) else None) →
  ∃ s1 s2 s3, let s0 := mkmkst (<[1 := set_bytes (replicate 1024 0) 0 (superblock_bytes sb)]> v) 1 nmeta in
  ialloc T_DIR s0 = Ok ROOTINO s1 ∧ iappend ROOTINO (dirent_of ROOTINO (bytes_of ".")) s1 = Ok tt s2 ∧
  iappend ROOTINO (dirent_of ROOTINO (bytes_of "..")) s2 = Ok tt s3 ∧ holds s3 root0 ∧ same_meta s0 s3.
Proof.
  intros Hv. pose proof (holds_zero v Hv) as H0. cbv zeta. set (s0 := mkmkst _ 1 nmeta) in *.
  destruct (ialloc_holds s0 [] T_DIR H0) as (s1 & E1 & H1 & M1); [by vm_compute|by vm_compute|].
  destruct (iappend_root s1 T_DIR [] [] (dirent_of ROOTINO (bytes_of ".")) H1) as (s2 & E2 & H2 & M2);
    [split; [repeat constructor; by vm_compute|by vm_compute]|].
  destruct (iappend_root s2 T_DIR _ [] (dirent_of ROOTINO (bytes_of "..")) H2) as (s3 & E3 & H3 & M3);
    [split; [repeat constructor; by vm_compute|by vm_compute]|].
  exists s1, s2, s3. split; [exact E1|]. split; [exact E2|]. split; [exact E3|]. split; [exact H3|].
  eapply same_meta_trans; [exact M1|]. by eapply same_meta_trans.
Qed.

(** What [main] refuses: a file it cannot open, a name with a slash or longer than 14 bytes, more files than inodes or blocks. *)
Definition acceptable (files : list hostfile) : Prop :=
  Forall file_ok files ∧ 2 + Z.of_nat (length files) ≤ NINODES ∧ fits (build root0 files).

Lemma length_build files : ∀ F, F ≠ [] → length (build F files) = (length F + length files)%nat.
Proof.
  induction files as [|f files IH]; intros F HF; [cbn; lia|]. destruct (length_with_file F f HF) as [E Hne].
  cbn [length]. change (build F (f :: files)) with (build (with_file F f) files). rewrite IH, E by done. lia.
Qed.

Lemma build_root F files : F ≠ [] → ∃ t c, build F files !! 0%nat = Some (t, c).
Proof.
  intros HF. destruct (lookup_lt_is_Some_2 (build F files) 0) as [[t c] E]; [|by eauto].
  rewrite length_build by done. destruct F; [done|]. cbn. lia.
Qed.

(** The kernel's block allocator can work on it: the log and the bitmap are not handed out. *)
Lemma sb_layout : layout 2 sb.
Proof.
  split; [by vm_compute|by vm_compute|]. intros i Hi. change (sb_size sb) with FSSIZE in Hi. destruct (BBLOCK_sb i Hi) as [-> _].
  unfold in_log. change LOGSIZE with 30. lia.
Qed.

Lemma image_meta_used s F : image_of s F → meta_used 2 sb (img s).
Proof.
  intros [_ Hf Hu _ _ _]. pose proof (v_fb _ _ _ _ _ (fo_blocks _ _ _ Hf)) as Hfb. change nmeta with 46 in Hfb.
  intros m i Hm Hi Hb. change (sb_size sb) with FSSIZE in *. rewrite Hu by done. apply bool_decide_eq_true_2.
  destruct Hb as [Hl| ->]; [unfold in_log in Hl; change LOGSIZE with 30 in Hl; lia|]. destruct (BBLOCK_sb i Hi) as [-> _]. lia.
Qed.

Lemma mkfs_image files : acceptable files →
  ∃ s, run_mkfs files = Ok tt s ∧ image_of s (build root0 files) ∧ meta_used 2 sb (img s).
Proof.
  intros (Hn & Hni & Hfit). unfold run_mkfs, mkfs. change (Z.to_nat BSIZE) with 1024%nat. unfold bind at 1, get at 1. cbn [img freeinode freeblock].
  unfold bind at 1, put at 1. destruct (zero_fill (replicate 1024 0) 1 nmeta (Z.to_nat FSSIZE) 0 ∅) as (v & E0 & Hv).
  rewrite (bind_Ok _ _ _ _ _ E0). unfold bind at 1, wsect at 1, modify. cbn [img freeinode freeblock].
  destruct (make_root v) as (s1 & s2 & s3 & E1 & E2 & E3 & H3 & M3). { exact Hv. }
  rewrite (bind_Ok _ _ _ _ _ E1). unfold assert_ at 1. rewrite Z.eqb_refl. unfold bind at 1, ret at 1.
  rewrite (bind_Ok _ _ _ _ _ E2), (bind_Ok _ _ _ _ _ E3).
  destruct (add_files_holds files s3 root0 ltac:(done) H3 Hn) as (s4 & E4 & H4 & M4); [cbn [length root0]; lia|done|].
  rewrite (bind_Ok _ _ _ _ _ E4). destruct (build_root root0 files ltac:(done)) as (t & c & Ht).
  destruct (fix_root_ok s4 (build root0 files) t c H4 Ht) as (s5 & E5 & H5 & Hfb & M5).
  { destruct Hfit as [Hfit _]. by apply (Forall_lookup_1 _ _ _ _ Hfit Ht). }
  rewrite (bind_Ok _ _ _ _ _ E5). unfold bind at 1, get at 1. destruct s5 as [v5 fi5 fb5]. cbn [img freeinode freeblock] in *.
  destruct (balloc_ok v5 fi5 fb5 (build root0 files) H5) as (v6 & E6 & H6 & Hused & Hsup).
  { rewrite length_build by done. cbn [length root0]. lia. }
  assert (Hkeep : ∀ b, b ≠ 45 → other_meta b → v6 !! b = (<[1 := set_bytes (replicate 1024 0) 0 (superblock_bytes sb)]> v) !! b).
  { intros b Hb Hm. rewrite Hsup by done. pose proof (M5 b Hm) as X5. cbn [img] in X5. by rewrite X5, (M4 b Hm), (M3 b Hm). }
  assert (Him : image_of (mkmkst v6 fi5 fb5) (build root0 files)); [|by eauto using image_meta_used].
  split; cbn [img freeblock]; [|done|done| | |apply (v_image _ _ _ _ _ (fo_blocks _ _ _ H6))].
  - unfold blk. rewrite Hkeep, lookup_insert_eq by (done || apply other_meta_super). apply read_superblock_bytes. by rewrite length_replicate.
  - rewrite Hfb. apply H4.
  - intros n Hln. unfold blk. pose proof (other_meta_log n Hln) as Hm. unfold in_log in Hln. change LOGSIZE with 30 in Hln.
    rewrite Hkeep, lookup_insert_ne, Hv by (done || lia). by case_decide.
Qed.

(** C23: [main] of mkfs builds, of the host's files, an image with the superblock of its parameters
    in block 1, an inode for the root directory and one for every file, each with one link, whose
    blocks hold the file's bytes (for the root directory the entries of all the files); no block is in
    two files, and the bitmap marks the metadata and the blocks of the files and no others.  So
    the kernel's allocator never hands out the log or the bitmap. *)
Theorem mkfs_correct files : acceptable files →
  ∃ s, run_mkfs files = Ok tt s ∧ image_of s (build root0 files) ∧ meta_used 2 sb (img s).
Proof. apply mkfs_image. Qed.

(** ** An image with two files *)

Definition readme : list Z := replicate 700 65.
Definition demo_files : list hostfile :=
  [(bytes_of "README", Some [readme; readme]); (bytes_of "user/_echo", Some [replicate 13000 1])].

Lemma demo_acceptable : acceptable demo_files.
Proof.
  split_and!; [|by vm_compute|].
  - repeat constructor; (apply (bool_decide_eq_true_1 _); by vm_compute) || (cbn [fst]; apply (bool_decide_unpack _); by vm_compute).
  - split; [repeat constructor; by vm_compute|by vm_compute].
Qed.

Lemma mkfs_correct_witness : acceptable demo_files ∧
  ∃ s, run_mkfs demo_files = Ok tt s ∧ image_of s (build root0 demo_files) ∧ meta_used 2 sb (img s).
Proof. split; [exact demo_acceptable|exact (mkfs_correct demo_files demo_acceptable)]. Defined.
