(* ===== verification/Mount.v ===== *)
(** * The kernel on an image that mkfs made

    [mkfs_correct] says what is in the blocks of the image, [readi_correct] and
    [dirlookup_correct] what the kernel makes of blocks: together, a program that opens a file
    by its name and reads it gets the bytes that were given to mkfs. *)

From S2P Require Import Prelude Mem CString Kernel Spinlock Kalloc Vm Vmproof Pagetable Proc Procproof Uart Printf Bio Log Logproof Bioproof Frame Logkernel Fs Fsproof Fsread Fsalloc Fswrite Mkfs Mkfsproof.

(** ** The root directory *)

Definition pad (name : list Z) : list Z := take 14 (name ++ replicate 14 0).
Definition file_entry (n : Z) (j : nat) (f : hostfile) : dirent := mkdirent (n + Z.of_nat j) (pad (file_name f.1)).
Definition root_entries (files : list hostfile) : list dirent :=
  [mkdirent 1 (pad (bytes_of ".")); mkdirent 1 (pad (bytes_of ".."))] ++ imap (file_entry 2) files.
Definition file_bytes (f : hostfile) : list Z := concat (default [] f.2).

Lemma build_eq files : ∀ t c F, build ((t, c) :: F) files =
  (t, c ++ flat_map dirent_bytes (imap (file_entry (2 + Z.of_nat (length F))) files)) :: F ++ ((fun f => (T_FILE, file_bytes f)) <$> files).
Proof.
  induction files as [|f files IH]; intros t c F.
  - cbn. by rewrite !app_nil_r.
  - change (build ((t, c) :: F) (f :: files)) with (build (with_file ((t, c) :: F) f) files). unfold with_file, root_add. cbn [app].
    rewrite IH, imap_cons. cbn [flat_map fmap list_fmap]. rewrite !length_app, <-!app_assoc. cbn [length app]. f_equal. f_equal. f_equal.
    assert (dirent_of (1 + Z.of_nat (S (length F))) (file_name f.1) = dirent_bytes (file_entry (2 + Z.of_nat (length F)) 0 f)) as ->.
    { unfold dirent_of, file_entry, pad. do 2 f_equal. lia. }
    f_equal. f_equal. apply imap_ext. intros j g _. unfold file_entry. cbn. f_equal. lia.
Qed.

Lemma build_root0 files : build root0 files = (T_DIR, flat_map dirent_bytes (root_entries files)) :: ((fun f => (T_FILE, file_bytes f)) <$> files).
Proof. unfold root0. rewrite build_eq. unfold root_entries. cbn [app length flat_map]. rewrite <-app_assoc. done. Qed.

Lemma build_file files j f : files !! j = Some f → build root0 files !! S j = Some (T_FILE, file_bytes f).
Proof.
  intros Hj. rewrite build_root0. change (((fun f => (T_FILE, file_bytes f)) <$> files) !! j = Some (T_FILE, file_bytes f)).
  by rewrite list_lookup_fmap, Hj.
Qed.

Lemma length_flat ents : Forall dirent_ok ents → length (flat_map dirent_bytes ents) = (16 * length ents)%nat.
Proof. induction 1 as [|e ents He _ IH]; [done|]. cbn [flat_map length]. rewrite length_app, IH, length_dirent by done. lia. Qed.

Lemma length_pad name : (length name ≤ 14)%nat → length (pad name) = 14%nat.
Proof. intros H. unfold pad. rewrite length_take, length_app, length_replicate. lia. Qed.

Lemma root_entries_ok files : Forall file_ok files → 2 + Z.of_nat (length files) ≤ NINODES → Forall dirent_ok (root_entries files).
Proof.
  intros Hf HN. unfold root_entries. apply Forall_app. split; [repeat constructor; by vm_compute|].
  apply Forall_lookup_2. intros j de Hj. rewrite list_lookup_imap in Hj. apply fmap_Some in Hj as (f & Hf' & ->). pose proof (lookup_lt_Some _ _ _ Hf').
  destruct (Forall_lookup_1 _ _ _ _ Hf Hf') as [[_ Hn] _]. change NINODES with 200 in HN. split; [cbn; lia|by apply length_pad].
Qed.

(** ** Looking a name up *)

(** The names are those the kernel can look up: no null byte, none twice. *)
Record good_names (files : list hostfile) : Prop := {
  gn_fits : Forall (fun f => name_fits (file_name f.1)) files;
  gn_nodup : NoDup (bytes_of "." :: bytes_of ".." :: ((fun f => file_name f.1) <$> files))
}.

Lemma entry_of_pad name n q : name_fits name → name_fits q → n ≠ 0 → entry_of name (mkdirent n (pad q)) ↔ name = q.
Proof. intros H1 H2 Hn. unfold entry_of. cbn [de_inum de_name]. unfold pad. rewrite namecmp_eq by done. tauto. Qed.

Lemma find_file files j f : good_names files → files !! j = Some f →
  list_find (entry_of (file_name f.1)) (root_entries files) = Some ((2 + j)%nat, file_entry 2 j f).
Proof.
  intros [Hfit Hnd] Hj. pose proof (Forall_lookup_1 _ _ _ _ Hfit Hj) as Hfj. cbv beta in Hfj.
  assert (Hname : ∀ g i, files !! i = Some g → file_name f.1 = file_name g.1 → i = j).
  { intros g i Hi E. apply NoDup_cons in Hnd as [_ [_ Hnd]%NoDup_cons]. eapply (NoDup_lookup _ i j (file_name f.1) Hnd); rewrite list_lookup_fmap; [by rewrite Hi, E|by rewrite Hj]. }
  assert (Hin : file_name f.1 ∈ ((fun f => file_name f.1) <$> files)) by (apply list_elem_of_fmap; exists f; split; [done|by eapply list_elem_of_lookup_2]).
  assert (Hdot : file_name f.1 ≠ bytes_of "." ∧ file_name f.1 ≠ bytes_of "..").
  { apply NoDup_cons in Hnd as [H1 [H2 _]%NoDup_cons]. split; intros E; [apply H1; rewrite <-E; by right|apply H2; by rewrite <-E]. }
  apply list_find_Some. split; [|split].
  - unfold root_entries. cbn [app]. change (imap (file_entry 2) files !! j = Some (file_entry 2 j f)). by rewrite list_lookup_imap, Hj.
  - apply entry_of_pad; [done|done|lia|done].
  - intros i de Hi Hlt He. destruct Hdot as [Hd1 Hd2]. assert (Hd : name_fits (bytes_of ".") ∧ name_fits (bytes_of "..")) by (split; apply (bool_decide_unpack _); by vm_compute).
    destruct i as [|[|i]].
    { injection Hi as <-. apply entry_of_pad in He; [by apply Hd1|done|apply Hd|lia]. }
    { injection Hi as <-. apply entry_of_pad in He; [by apply Hd2|done|apply Hd|lia]. }
    change (imap (file_entry 2) files !! i = Some de) in Hi. rewrite list_lookup_imap in Hi. apply fmap_Some in Hi as (g & Hg & ->).
    apply entry_of_pad in He; [|done|by apply (Forall_lookup_1 _ _ _ _ Hfit Hg)|lia]. pose proof (Hname g i Hg He). lia.
Qed.

(** ** A file, from its name to its bytes *)

(** Blocks of a file of the image. *)
Lemma image_mapped im F k t c a r : image_of im F → a_view a = img im → F !! k = Some (t, c) → dinode_of r = disk_inode sb (img im) (1 + Z.of_nat k) →
  mapped a (dinode_of r) 0 (Z.of_nat (length c)).
Proof.
  intros Him Hv Hk Hr b Hb. rewrite Hv, Hr. pose proof (fo_blocks _ _ _ (im_files _ _ Him)) as Hinv. pose proof (lookup_lt_Some _ _ _ Hk) as Hlt.
  assert (Hi : 1 ≤ 1 + Z.of_nat k < 1 + Z.of_nat (length F)) by lia. destruct (v_shape _ _ _ _ _ Hinv _ Hi) as [_ HN]. rewrite (len_of_at F k t c Hk) in HN.
  assert (Hblk : 0 ≤ b / BSIZE < nblk (Z.of_nat (length c))).
  { unfold nblk. change (BSIZE - 1) with 1023. change BSIZE with 1024. split; [apply Z.div_pos; lia|].
    pose proof (Z.div_le_mono (b + 1024) (Z.of_nat (length c) + 1023) 1024 ltac:(lia) ltac:(lia)) as Hm. replace (b + 1024) with (b + 1 * 1024) in Hm by lia. rewrite Z.div_add in Hm by lia. lia. }
  pose proof (v_used _ _ _ _ _ Hinv _ (b / BSIZE) Hi) as Hu. cbv beta in Hu. rewrite (len_of_at F k t c Hk) in Hu. specialize (Hu ltac:(apply slot_of; lia)).
  unfold in_use in Hu. rewrite decide_False in Hu by lia. specialize (Hu ltac:(lia)). change nmeta with 46 in Hu. lia.
Qed.

(** A file of the image can be written, in place or growing. *)
Lemma image_reserved m : 0 ≤ m < FSSIZE → reserved 2 sb m → m < nmeta.
Proof.
  intros Hm [->|[[_ H]|[(i & Hi & ->)|(i & Hi & ->)]]].
  - done.
  - change LOGSIZE with 30 in H. change nmeta with 46. lia.
  - unfold BBLOCK. change (sb_size sb) with 2000 in Hi. rewrite Z.div_small by (change BPB with 8192; lia). done.
  - change (sb_ninodes sb) with NINODES in Hi. destruct (IBLOCK_sb i ltac:(lia)). change nmeta with 46. lia.
Qed.

Lemma image_small dev : u32 dev = dev → small_disk dev 2 sb.
Proof.
  intros Hdev. assert (HB : ∀ i, 0 ≤ i < 2000 → BBLOCK i sb = 45) by (intros i Hi; unfold BBLOCK; rewrite Z.div_small by (change BPB with 8192; lia); done).
  split; [|apply sb_area|done|by vm_compute|by vm_compute| |].
  - split; [by vm_compute|by vm_compute|]. intros i Hi. change (sb_size sb) with 2000 in Hi. rewrite HB by done. unfold in_log. change LOGSIZE with 30. lia.
  - intros i Hi. change (sb_ninodes sb) with NINODES in Hi. destruct (IBLOCK_sb i ltac:(lia)). change (sb_size sb) with 2000. lia.
  - intros i j Hi Hj. change (sb_ninodes sb) with NINODES in Hi. change (sb_size sb) with 2000 in Hj. rewrite HB by done. destruct (IBLOCK_sb i ltac:(lia)). lia.
Qed.

Lemma image_marked im F : image_of im F → marked 2 sb (img im).
Proof.
  intros Him m Hm Hr. change (sb_size sb) with FSSIZE in Hm. rewrite (im_used _ _ Him) by done. apply bool_decide_eq_true_2.
  pose proof (image_reserved m Hm Hr). pose proof (v_fb _ _ _ _ _ (fo_blocks _ _ _ (im_files _ _ Him))). lia.
Qed.

Lemma image_placed im F k t c : image_of im F → F !! k = Some (t, c) → placed 2 sb (img im) (disk_inode sb (img im) (1 + Z.of_nat k)).
Proof.
  intros Him Hk. pose proof (lookup_lt_Some _ _ _ Hk) as Hlt. pose proof (im_files _ _ Him) as [Hinv _ Hok].
  assert (HI : 1 ≤ 1 + Z.of_nat k < 1 + Z.of_nat (length F)) by lia. pose proof (v_fb _ _ _ _ _ Hinv) as Hfb. change nmeta with 46 in Hfb. change FSSIZE with 2000 in Hfb.
  assert (Hin : ∀ m, slot m → loc (img im) (disk_inode sb (img im) (1 + Z.of_nat k)) m ≠ 0 → in_use (nblk (len_of F (1 + Z.of_nat k))) m ∧
    46 ≤ loc (img im) (disk_inode sb (img im) (1 + Z.of_nat k)) m < freeblock im).
  { intros m Hm Hnz. destruct (decide (in_use (nblk (len_of F (1 + Z.of_nat k))) m)) as [Hu|Hu].
    - split; [done|]. pose proof (v_used _ _ _ _ _ Hinv _ m HI Hm Hu) as H. change nmeta with 46 in H. lia.
    - by destruct Hnz; apply (v_unused _ _ _ _ _ Hinv). }
  split.
  - intros m m' Hm Hm' Hnz E. destruct (Hin m Hm Hnz) as [Hu _]. destruct (Hin m' Hm' ltac:(congruence)) as [Hu' _].
    by apply (v_inj _ _ _ _ _ Hinv _ _ _ _ HI HI Hm Hm' Hu Hu' E).
  - intros m Hm Hnz. destruct (Hin m Hm Hnz) as [_ H]. change (sb_size sb) with 2000. split; [lia|]. split.
    + rewrite (im_used _ _ Him) by (change FSSIZE with 2000; lia). apply bool_decide_eq_true_2. lia.
    + intros Hr. apply image_reserved in Hr; [|change FSSIZE with 2000; lia]. change nmeta with 46 in Hr. lia.
  - apply (ok_len _ (Hok _ HI)).
Qed.

Lemma image_writable im F k t c a r dev off n : image_of im F → a_view a = img im → F !! k = Some (t, c) → 1 + Z.of_nat (length F) ≤ NINODES →
  i_dev r = dev → i_inum r = 1 + Z.of_nat k → dinode_of r = disk_inode sb (img im) (1 + Z.of_nat k) →
  0 ≤ off ≤ i_size r → off + n ≤ MAXFILE * BSIZE → writable dev 2 sb a r off n.
Proof.
  intros Him Hv Hk HN Hd Hi Hr Hoff Hmax. pose proof (lookup_lt_Some _ _ _ Hk) as Hlt. pose proof (im_files _ _ Him) as [Hinv _ Hok].
  split; [done| | |done|done| |].
  - change (sb_ninodes sb) with NINODES. lia.
  - rewrite Hr. apply Hok. lia.
  - rewrite Hv, Hr. by apply (image_placed im F k t c).
  - rewrite Hv. by apply (image_marked im F).
Qed.

(** The blocks after the last one mkfs used are free. *)
Lemma image_free im F k : image_of im F → 0 ≤ k → freeblock im + k ≤ FSSIZE → free_blocks sb (img im) k.
Proof.
  intros Him Hk0 Hk. pose proof (v_fb _ _ _ _ _ (fo_blocks _ _ _ (im_files _ _ Him))) as Hfb. change nmeta with 46 in Hfb.
  exists ((fun j => freeblock im + Z.of_nat j) <$> seq 0 (Z.to_nat k)). split; [|split].
  - apply NoDup_fmap_2_strong; [|apply NoDup_seq]. intros x y _ _ E. lia.
  - rewrite length_fmap, length_seq. lia.
  - intros n (j & -> & Hj)%list_elem_of_fmap. apply elem_of_seq in Hj. change (sb_size sb) with FSSIZE. split; [lia|].
    rewrite (im_used _ _ Him) by lia. apply bool_decide_eq_false_2. lia.
Qed.


Lemma iget_scan_full dev inum l : ∀ i0 e, iget_scan l i0 dev inum e = (None, None) → e = None ∧ ∀ r, r ∈ l → i_ref r ≠ 0.
Proof.
  induction l as [|r l IH]; intros i0 e E; cbn [iget_scan] in E.
  { injection E as ->. split; [done|]. intros r Hr. by apply not_elem_of_nil in Hr. }
  destruct ((0 <? i_ref r) && (i_dev r =? dev) && (i_inum r =? inum)); [done|]. apply IH in E as [He Hl]. destruct e; [done|].
  destruct (Z.eqb_spec (i_ref r) 0); [done|]. split; [done|]. intros r' [->|Hr']%elem_of_cons; [done|by apply Hl].
Qed.

Section mount.
Context (dev : Z) (p : nat) (pid : Z) (files : list hostfile) (im : mkst).
#[local] Existing Instance ideal_disk.

(** A kernel whose disk is the image [im]: process [p] holds the root directory's inode, in slot
    [dp], locked; inodes in memory are as on the disk, and a slot is free. *)
Record mounted (bl : list Z) (a : cache) (t : rest) (dp : nat) (s : kst * list (kst → kst)) : Prop := {
  mo_fsi : fsi dev p pid 2 sb bl a t s;
  mo_view : a_view a = img im;
  mo_root : ∃ r, t.1 !! dp = Some r ∧ i_dev r = dev ∧ i_inum r = ROOTINO ∧ 1 ≤ i_ref r ∧ dinode_of r = disk_inode sb (img im) ROOTINO;
  mo_itable : free_lock t LItable;
  mo_lock ip r : t.1 !! ip = Some r → ip ≠ dp → free_lock t (LInode ip) ∧ sl_locked (i_lock r) = 0;
  mo_valid ip r : t.1 !! ip = Some r → 0 < i_ref r → i_dev r = dev → i_valid r ≠ 0 → dinode_of r = disk_inode sb (img im) (i_inum r);
  mo_free : ∃ ip r, t.1 !! ip = Some r ∧ i_ref r = 0
}.

(** What [open] and [read] do to a file in a directory. *)
Definition open_read (dp : nat) (name : list Z) (dst n : Z) : KM Z :=
  let! e := dirlookup dp name in
  match e with
  | Some (ip, _) =>
      ilock (Some ip) ;;;
      let! (res, _) := readi ip (ToUser dst) 0 n in
      ret res
  | None => ret (-1)
  end.

Lemma got_some t inum : (∃ ip r, t !! ip = Some r ∧ i_ref r = 0) → is_Some (got dev inum t).
Proof.
  intros (ip & r & Hr & H0). unfold got. destruct (iget_scan t 0 dev inum None) as [[x|] [y|]] eqn:E; try by eexists.
  destruct (iget_scan_full _ _ _ _ _ E) as [_ H]. by destruct (H r (list_elem_of_lookup_2 _ _ _ Hr)).
Qed.

Lemma root_directory a r : Forall file_ok files → 2 + Z.of_nat (length files) ≤ NINODES → image_of im (build root0 files) → a_view a = img im →
  dinode_of r = disk_inode sb (img im) ROOTINO → directory a r (root_entries files).
Proof.
  intros Hok HN Him Hv Hr. pose proof (root_entries_ok files Hok HN) as Hents. pose proof (length_flat _ Hents) as Hlen.
  assert (Hle : length (root_entries files) = (2 + length files)%nat) by (unfold root_entries; rewrite length_app, length_imap; done).
  assert (H0 : build root0 files !! 0%nat = Some (T_DIR, flat_map dirent_bytes (root_entries files))) by (by rewrite build_root0).
  destruct (fo_file _ _ _ (im_files _ _ Him) 0 _ _ H0) as (Hty & _ & Hc & Hsz). change (1 + Z.of_nat 0) with ROOTINO in *. rewrite <-Hr in Hty, Hc, Hsz.
  cbn [decide] in Hsz. rewrite decide_True in Hsz by done. change NINODES with 200 in HN. change BSIZE with 1024 in Hsz.
  assert (Hs : Z.of_nat (length (flat_map dirent_bytes (root_entries files))) ≤ di_size (dinode_of r) ≤ 4096).
  { rewrite Hsz, Hlen, Hle. pose proof (Z.div_mod (Z.of_nat (16 * (2 + length files))) 1024 ltac:(lia)).
    pose proof (Z.mod_pos_bound (Z.of_nat (16 * (2 + length files))) 1024 ltac:(lia)). lia. }
  rewrite Hlen in Hs. change (di_size (dinode_of r)) with (i_size r) in Hs. split.
  - exact Hty.
  - change (MAXFILE * BSIZE) with 274432. lia.
  - lia.
  - replace (16 * Z.of_nat (length (root_entries files))) with (Z.of_nat (length (flat_map dirent_bytes (root_entries files)))) by lia.
    by apply (image_mapped im (build root0 files) 0 T_DIR).
  - done.
  - rewrite Hv. by rewrite Hlen in Hc.
Qed.

(** The inode of a file, found or loaded. *)
Lemma file_inode bl a t dp s ip f j g : mounted bl a t dp s → image_of im (build root0 files) → files !! j = Some g → got dev (2 + Z.of_nat j) t.1 = Some (ip, f) →
  ∃ r, t.1 !! ip = Some r ∧ ip ≠ dp ∧ i_dev (f r) = dev ∧ 1 ≤ i_ref (f r) ∧ sl_locked (i_lock (f r)) = 0 ∧ free_lock t (LInode ip) ∧
    (i_valid (f r) = 0 → di_type (disk_inode sb (a_view a) (i_inum (f r))) ≠ 0) ∧
    let r' := locked_inode pid sb (a_view a) (f r) in i_dev r' = dev ∧ dinode_of r' = disk_inode sb (img im) (2 + Z.of_nat j).
Proof.
  intros [_ Hv (rr & Hdp & Hdd & Hdi & Hdr & _) _ Hlk Hval _] Him Hj Hg. destruct (got_spec dev _ _ _ _ Hg) as (r & Hr & Hd & Hin & Href & Hl & Hcase).
  assert (Hne : ip ≠ dp).
  { intros ->. rewrite Hdp in Hr. injection Hr as <-. destruct Hcase as [H0|(_ & _ & Hi & _)]; [|rewrite Hdi in Hi; change ROOTINO with 1 in Hi; lia].
    pose proof Hg as Hg'. unfold got in Hg'. destruct (iget_scan t.1 0 dev (2 + Z.of_nat j) None) as [x y] eqn:E. pose proof (iget_scan_spec dev _ _ _ _ _ _ E) as Hs.
    destruct x as [ip'|]; [|destruct y as [ip'|]; [|done]]; injection Hg' as -> _.
    - destruct Hs as (r & Hr & _ & _ & _ & Hi). rewrite Nat.sub_0_r, Hdp in Hr. injection Hr as <-. rewrite Hdi in Hi. change ROOTINO with 1 in Hi. lia.
    - destruct Hs as [|(r & Hr & _ & Hi)]; [done|]. rewrite Nat.sub_0_r, Hdp in Hr. injection Hr as <-. lia. }
  destruct (Hlk ip r Hr Hne) as [Hfl Hsl]. assert (HF : build root0 files !! S j = Some (T_FILE, file_bytes g)) by (by apply build_file).
  destruct (fo_file _ _ _ (im_files _ _ Him) _ _ _ HF) as (Hty & _ & _ & _). replace (1 + Z.of_nat (S j)) with (2 + Z.of_nat j) in * by lia.
  exists r. cbv zeta. split_and!; try done; [by rewrite Hl|rewrite Hv, Hin, Hty; by intros _|..]; unfold locked_inode; destruct (Z.eqb_spec (i_valid (f r)) 0) as [E|E]; try done.
  - by rewrite dinode_loaded, Hin, Hv.
  - destruct Hcase as [|(H1 & H2 & H3 & H4 & H5)]; [done|]. change (dinode_of (lock_inode pid (f r))) with (dinode_of (f r)). rewrite H5, <-H3. apply (Hval ip); congruence || done.
Qed.

Lemma open_read_wp bl a t dp s j g pt dst n :
  acceptable files → good_names files → image_of im (build root0 files) → mounted bl a t dp s → files !! j = Some g →
  t.2.2 !! p = Some pt → uspace_ok (user_mem t) pt → 0 ≤ dst → dst + n < 2 ^ 64 → Z.of_nat (length (file_bytes g)) ≤ n < 2 ^ 31 →
  (∀ i, (i < length (file_bytes g))%nat → upage true (user_mem t) pt (PGROUNDDOWN (dst + Z.of_nat i)) ≠ None) →
  wp (open_read dp (file_name g.1) dst n) (fun x s' => x = Z.of_nat (length (file_bytes g)) ∧ ∃ ip r' mem',
    ustored (user_mem t) pt dst (file_bytes g) (length (file_bytes g)) mem' ∧ fsi dev p pid 2 sb bl a (<[ip := r']> t.1, (t.2.1.1, mem', t.2.2)) s') s.
Proof.
  intros (Hok & HN & Hfit) Hgn Him Hmo Hj Hpt Hus Hdst Hdst2 Hn Hup. pose proof Hmo as [Hf Hv (rr & Hdp & Hdd & _ & _ & Hrd) Hit _ _ Hfree].
  destruct (got_some t.1 (2 + Z.of_nat j) Hfree) as [[ip f] Hg]. destruct (file_inode bl a t dp s ip f j g Hmo Him Hj Hg) as (r & Hr & Hne & Hd & Href & Hsl & Hfl & Hty & Hd' & Hdin).
  pose proof (root_directory a rr Hok HN Him Hv Hrd) as Hdir. unfold open_read. apply wp_bind.
  eapply wp_mono; [by apply (dirlookup_found dev p pid 2 sb bl a t dp rr _ _ _ _ ip f s Hf Hit Hdp Hdd Hdir (find_file files j g Hgn Hj))|].
  intros x s1 [-> H1]. set (t1 := (alter f ip t.1, t.2)) in *. assert (Hr1 : t1.1 !! ip = Some (f r)) by (cbn; by rewrite list_lookup_alter_eq, Hr).
  apply wp_bind. eapply wp_mono; [by apply (ilock_wp dev p pid 2 sb bl a t1 ip (f r) s1)|]. intros [] s2 H2.
  set (r' := locked_inode pid sb (a_view a) (f r)) in *. set (t2 := (<[ip := r']> t1.1, t1.2)) in *.
  assert (Hr2 : t2.1 !! ip = Some r') by (cbn; apply list_lookup_insert_eq; rewrite length_alter; by eapply lookup_lt_Some).
  assert (HF : build root0 files !! S j = Some (T_FILE, file_bytes g)) by (by apply build_file).
  destruct (fo_file _ _ _ (im_files _ _ Him) _ _ _ HF) as (_ & _ & Hc & Hsz). replace (1 + Z.of_nat (S j)) with (2 + Z.of_nat j) in * by lia.
  rewrite decide_False in Hsz by done. rewrite <-Hdin in Hc, Hsz. change (di_size (dinode_of r')) with (i_size r') in Hsz.
  assert (Hmax : Z.of_nat (length (file_bytes g)) ≤ MAXFILE * BSIZE) by (destruct Hfit as [Hl _]; exact (Forall_lookup_1 _ _ _ _ Hl HF)).
  apply wp_bind. eapply wp_mono; [apply (readi_wp dev p pid 2 sb bl a t2 ip r' pt dst 0 n s2 H2 Hr2 Hd'); try done; [lia| |lia]|].
  { rewrite Hsz. apply (image_mapped im (build root0 files) (S j) T_FILE); try done. rewrite Hdin. f_equal. lia. }
  assert (Ha : available r' 0 n = Z.of_nat (length (file_bytes g))) by (unfold available; rewrite Hsz, (proj2 (Z.ltb_ge _ _)) by lia; lia). rewrite Ha, Nat2Z.id.
  intros x s3 (c & mem' & H3 & Hst & Hle & Hx). change (user_mem t2) with (user_mem t) in *. rewrite <-contents_bytes, Hv, Hc in Hst.
  destruct (decide (c = length (file_bytes g))) as [->|Hne2]; [|destruct Hx as [_ Hx]; exfalso; by apply (Hup c ltac:(lia))].
  subst x. apply wp_ret. split; [done|]. exists ip, r', mem'. split; [done|]. unfold with_mem in H3. cbn [fst snd t2 t1] in H3.
  replace (<[ip := r']> (alter f ip t.1)) with (<[ip := r']> t.1) in H3; [done|]. rewrite (alter_as_insert f ip r) by done. by rewrite list_insert_insert_eq.
Qed.

(** C24: On a disk that mkfs made of the files, looking up the name of any of them in the root
    directory, locking its inode and reading it into user memory succeeds and delivers exactly
    the bytes that were given to mkfs for it; no block changes, and of the inode table only
    the slot of that file. *)
Theorem mkfs_file_readable bl a t dp s j g pt dst n :
  acceptable files → good_names files → run_mkfs files = Ok tt im → mounted bl a t dp s → files !! j = Some g →
  t.2.2 !! p = Some pt → uspace_ok (user_mem t) pt → 0 ≤ dst → dst + n < 2 ^ 64 → Z.of_nat (length (file_bytes g)) ≤ n < 2 ^ 31 →
  (∀ i, (i < length (file_bytes g))%nat → upage true (user_mem t) pt (PGROUNDDOWN (dst + Z.of_nat i)) ≠ None) →
  ∃ s' ip r' mem', open_read dp (file_name g.1) dst n s = Ok (Z.of_nat (length (file_bytes g))) s' ∧
    ustored (user_mem t) pt dst (file_bytes g) (length (file_bytes g)) mem' ∧
    fsi dev p pid 2 sb bl a (<[ip := r']> t.1, (t.2.1.1, mem', t.2.2)) s'.
Proof.
  intros Hacc Hgn Hrun Hmo Hj Hpt Hus Hdst Hdst2 Hn Hup. destruct (mkfs_image files Hacc) as (s0 & E & Him & _). rewrite Hrun in E. injection E as <-.
  destruct (proj1 (wp_Ok _ _ _) (open_read_wp bl a t dp s j g pt dst n Hacc Hgn Him Hmo Hj Hpt Hus Hdst Hdst2 Hn Hup)) as (x & s' & E & -> & ip & r' & mem' & Hst & Hf).
  exists s', ip, r', mem'. split; [exact E|]. split; [exact Hst|exact Hf].
Qed.
End mount.

(** ** Witnesses: the image of two files, mounted *)

Definition demo_im : mkst := match run_mkfs demo_files with Ok _ s => s | _ => mkmkst ∅ 1 0 end.

Lemma demo_im_run : run_mkfs demo_files = Ok tt demo_im.
Proof. destruct (mkfs_image demo_files demo_acceptable) as (s & E & _). unfold demo_im. rewrite E. reflexivity. Qed.

#[local] Opaque demo_im demo_bio.
Lemma image_unique files s F : (∃ s', run_mkfs files = Ok tt s' ∧ image_of s' F ∧ meta_used 2 sb (img s')) → run_mkfs files = Ok tt s → image_of s F.
Proof. intros (s' & E & H & _) E'. rewrite E in E'. by injection E' as ->. Qed.

Lemma demo_im_image : image_of demo_im (build root0 demo_files).
Proof. exact (image_unique _ _ _ (mkfs_image demo_files demo_acceptable) demo_im_run). Qed.

(** One page of user memory. *)
Definition state_of {S A} (r : res S A) (s0 : S) : S := match r with Ok _ s => s | _ => s0 end.
Definition demo_user_mem : mem := k_mem (state_of demo_mapped demo_vm).

Lemma demo_user_ok : uspace_ok demo_user_mem demo_root.
Proof.
  unfold demo_user_mem. destruct demo_mapped_ok as [k' E]. rewrite E. by apply demo_uspace.
Qed.

Lemma demo_user_page : upage true demo_user_mem demo_root 0x1000 ≠ None.
Proof. by vm_compute. Qed.
#[local] Opaque demo_user_mem.

(** Inode tables, memory, page tables and the locks of inodes do not matter to the cache. *)
Definition outfit (tbl : list inode) (m : mem) (pt : Z) (p : nat) (k : kst) : kst :=
  k <| k_inodes := tbl |> <| k_mem := m |> <| k_procs ::= alter (fun r => r <| p_pagetable := pt |>) p |>
    <| k_locks ::= fun l => <[LItable := mkspinlock 0 "itable" None]> (<[LInode 1 := mkspinlock 0 "inode" None]> l) |>.

Lemma unlocked_outfit tbl m pt p lk k : lk ≠ LItable → lk ≠ LInode 1 → unlocked lk k → unlocked lk (outfit tbl m pt p k).
Proof. intros H1 H2 (l & Hl & H). exists l. split; [|done]. cbn. by rewrite !lookup_insert_ne by done. Qed.

Lemma fsr_outfit dev p pid sb k e a tbl m pt : fsr dev p pid sb (k, e) a → fsr dev p pid sb (outfit tbl m pt p k, e) a.
Proof.
  intros [[[Hre Hcu Hpr Hpid Hc Hl Hb Hp] Hr Hbo Hd Hlg] He Hs]. split; [|done|done]. split; [|done..]. cbn [fst] in *. split.
  - exact Hre.
  - exact Hcu.
  - cbn. by rewrite length_alter.
  - cbn. rewrite list_lookup_alter_eq. destruct (k_procs k !! p); [|done]. cbn in *. exact Hpid.
  - by apply unlocked_outfit.
  - by apply unlocked_outfit.
  - intros b Hb'. apply unlocked_outfit; [done|done|by apply Hb].
  - intros j Hj. apply unlocked_outfit; [done|done|by apply Hp].
Qed.

Definition demo_slot : inode := mkinode 0 0 0 (mksleeplock 0 "inode" 0) 0 0 0 0 0 0 [].
Definition demo_rootdir : inode := loaded (disk_inode sb (img demo_im) ROOTINO) (mkinode 1 1 1 (mksleeplock 1 "inode" 1) 1 0 0 0 0 0 []).
Definition demo_kernel (tbl : list inode) : kst :=
  outfit tbl demo_user_mem demo_root 0 (demo_bio <| k_disk ::= fun _ => img demo_im |> <| k_sb := sb |>).
Definition demo_mount : kst := demo_kernel [demo_rootdir; demo_slot].
Definition demo_mount_cache : cache := demo_cache <| a_disk := img demo_im |> <| a_view := img demo_im |>.

Lemma demo_open_txn (d : blocks) : blk d 2 = replicate 1024 0 → open_txn (SP := KS 1 0 1) 2 [] (demo_cache <| a_disk := d |> <| a_view := d |>).
Proof.
  intros Hd. split; [|by split|done|done|done|].
  - split; [unfold LOGSIZE, MAXOPBLOCKS; lia|unfold NBUF; simpl; lia|apply NoDup_nil_2|by intros n ?%not_elem_of_nil].
  - change (hdr_is (blk d 2) []). by rewrite Hd.
Qed.

Lemma demo_fsi tbl : fsi 1 0 1 2 sb [] demo_mount_cache (itable (demo_kernel tbl)) (demo_kernel tbl, []).
Proof.
  pose proof demo_im_image as Him.
  assert (Hk : krepr 1 0 1 (demo_bio <| k_disk ::= fun _ => img demo_im |> <| k_sb := sb |>, []) demo_mount_cache).
  { apply (krepr_disk demo_bio _ (img demo_im) sb demo_cache demo_bio_caller demo_bio_ring); [apply demo_bio_ok_disk, (im_sized _ _ Him)|].
    exact (kr_log _ _ _ _ _ (demo_bio_krepr [])). }
  split; [|..|done].
  - unfold demo_kernel. apply fsr_outfit. split; [exact Hk|done|done].
  - apply demo_open_txn, (im_log _ _ Him 2). by split.
  - cbn. unfold NBUF. lia.
Qed.

Lemma demo_mounted : mounted 1 0 1 demo_im [] demo_mount_cache (itable demo_mount) 0 (demo_mount, []).
Proof.
  split.
  - apply demo_fsi.
  - done.
  - exists demo_rootdir. split_and!; try done. 
  - exists (mkspinlock 0 "itable" None). done.
  - intros [|[|ip]] r Hr Hne; [done| |done]. injection Hr as <-. split; [|done]. exists (mkspinlock 0 "inode" None). split; [|done].
    cbn. done.
  - intros [|[|ip]] r Hr Hre Hd Hv; [|by injection Hr as <-|done]. injection Hr as <-. apply dinode_loaded.
  - exists 1%nat, demo_slot. done.
Qed.

Lemma demo_names : good_names demo_files.
Proof. split; [repeat constructor; apply (bool_decide_unpack _); by vm_compute|apply (bool_decide_unpack _); by vm_compute]. Qed.

Lemma demo_pages n : (n < 4096)%nat → upage true demo_user_mem demo_root (PGROUNDDOWN (0x1000 + Z.of_nat n)) ≠ None.
Proof.
  intros Hn. replace (PGROUNDDOWN (0x1000 + Z.of_nat n)) with 0x1000; [exact demo_user_page|].
  destruct (PGROUNDDOWN_spec (0x1000 + Z.of_nat n)) as [Hm Hr]. unfold PGSIZE in *. pose proof (Z.div_mod (PGROUNDDOWN (4096 + Z.of_nat n)) 4096 ltac:(lia)). lia.
Qed.

Definition demo_readme : hostfile := (bytes_of "README", Some [readme; readme]).
#[local] Opaque demo_kernel.

Lemma mkfs_file_readable_witness : ∃ s' mem', let n := length (file_bytes demo_readme) in
  open_read 0 (file_name demo_readme.1) 0x1000 4096 (demo_mount, []) = Ok (Z.of_nat n) s' ∧
  ustored (user_mem (itable demo_mount)) demo_root 0x1000 (file_bytes demo_readme) n mem'.
Proof.
  destruct (mkfs_file_readable 1 0 1 demo_files demo_im [] demo_mount_cache (itable demo_mount) 0 (demo_mount, []) 0
    demo_readme demo_root 0x1000 4096 demo_acceptable demo_names demo_im_run demo_mounted eq_refl)
    as (s' & ip & r' & mem' & E & Hst & _).
  - reflexivity.
  - exact demo_user_ok.
  - lia.
  - lia.
  - split; [apply Z.leb_le; vm_compute; reflexivity|lia].
  - intros i Hi. apply demo_pages. eapply Nat.lt_le_trans; [exact Hi|]. apply Nat.leb_le. vm_compute. reflexivity.
  - exists s', mem'. cbv zeta. split; [exact E|exact Hst].
Defined.

(** The root directory without the rounding of its size, for [readi] and [dirlookup]. *)
Definition demo_dir : inode := demo_rootdir <| i_size := 64 |>.
Definition demo_dir_table : list inode := [demo_dir; demo_slot].

Lemma directory_size a r ents n : directory a r ents → 16 * Z.of_nat (length ents) ≤ n ≤ MAXFILE * BSIZE → directory a (r <| i_size := n |>) ents.
Proof. intros [H1 H2 H3 H4 H5 H6] Hn. split; [exact H1|apply Hn|apply Hn|exact H4|exact H5|exact H6]. Qed.

Lemma demo_directory : directory demo_mount_cache demo_dir (root_entries demo_files).
Proof.
  apply directory_size; [|split; by vm_compute].
  exact (root_directory demo_files demo_im demo_mount_cache demo_rootdir (proj1 demo_acceptable) (proj1 (proj2 demo_acceptable)) demo_im_image eq_refl (dinode_loaded _ _)).
Qed.
#[local] Opaque demo_rootdir.

Lemma readi_correct_witness : ∃ res c mem' s', readi (D := ideal_disk) 0 (ToUser 0x1000) 16 100 (demo_kernel demo_dir_table, []) = Ok (res, []) s' ∧
  ustored (user_mem (itable (demo_kernel demo_dir_table))) demo_root 0x1000
    (bytes_at (a_view demo_mount_cache) (dinode_of demo_dir) 16 (Z.to_nat (available demo_dir 16 100))) c mem'.
Proof.
  destruct (readi_correct 1 0 1 2 sb [] demo_mount_cache (itable (demo_kernel demo_dir_table)) 0 demo_dir demo_root 0x1000 16 100 (demo_kernel demo_dir_table, []))
    as (res & c & mem' & s' & E & _ & Hst & _).
  - exact (demo_fsi demo_dir_table).
  - reflexivity.
  - reflexivity.
  - exact (dr_max _ _ _ demo_directory).
  - exact (dr_map _ _ _ demo_directory).
  - reflexivity.
  - exact demo_user_ok.
  - lia.
  - lia.
  - lia.
  - lia.
  - exists res, c, mem', s'. split; [exact E|exact Hst].
Defined.

Lemma dirlookup_correct_witness : ∃ s' f, dirlookup (D := ideal_disk) 0 (file_name demo_readme.1) (demo_kernel demo_dir_table, []) = Ok (Some (1%nat, 16 * Z.of_nat 2)) s' ∧
  fsi 1 0 1 2 sb [] demo_mount_cache (alter f 1%nat (itable (demo_kernel demo_dir_table)).1, (itable (demo_kernel demo_dir_table)).2) s'.
Proof.
  destruct (dirlookup_correct 1 0 1 2 sb [] demo_mount_cache (itable (demo_kernel demo_dir_table)) 0 demo_dir (root_entries demo_files) (file_name demo_readme.1)
    (demo_kernel demo_dir_table, [])) as [s' H].
  - exact (demo_fsi demo_dir_table).
  - exists (mkspinlock 0 "itable" None). done.
  - reflexivity.
  - reflexivity.
  - exact demo_directory.
  - reflexivity.
  - intros inum. apply got_some. exists 1%nat, demo_slot. done.
  - rewrite (find_file demo_files 0 demo_readme demo_names eq_refl) in H. destruct H as (ip & f & Hg & E & Hf). injection Hg as <- _.
    exists s', f. split; [exact E|exact Hf].
Defined.

(** The file echo, open in slot 0: its last block is named by the indirect block. *)
Definition demo_echo : hostfile := (bytes_of "user/_echo", Some [replicate 13000 1]).
Definition demo_file : inode := loaded (disk_inode sb (img demo_im) 3) (mkinode 1 3 1 (mksleeplock 1 "inode" 1) 1 0 0 0 0 0 []).

Lemma demo_file_size : i_size demo_file = 13000 ∧ dinode_of demo_file = disk_inode sb (img demo_im) (1 + Z.of_nat 2).
Proof.
  split; [|apply dinode_loaded]. pose proof (build_file demo_files 1 demo_echo eq_refl) as HF.
  destruct (fo_file _ _ _ (im_files _ _ demo_im_image) _ _ _ HF) as (_ & _ & _ & Hsz). rewrite decide_False in Hsz by done.
  change (di_size (disk_inode sb (img demo_im) 3) = 13000). change (1 + Z.of_nat 2) with 3 in Hsz. rewrite Hsz. by vm_compute.
Qed.

Lemma demo_file_writable off n : 0 ≤ off ≤ 13000 → off + n ≤ MAXFILE * BSIZE → writable 1 2 sb demo_mount_cache demo_file off n.
Proof.
  intros Hoff Hmax. destruct demo_file_size as [Hs Hd]. pose proof (build_file demo_files 1 demo_echo eq_refl) as HF.
  refine (image_writable demo_im _ 2 T_FILE (file_bytes demo_echo) demo_mount_cache demo_file 1 off n demo_im_image eq_refl HF _ eq_refl eq_refl Hd _ Hmax).
  - apply Z.leb_le. rewrite build_root0. vm_compute. reflexivity.
  - rewrite Hs. lia.
Qed.

Lemma demo_free k : 0 ≤ k ≤ 1000 → free_blocks sb (a_view demo_mount_cache) k.
Proof.
  intros Hk. apply (image_free demo_im _ k demo_im_image); [lia|]. rewrite (im_free _ _ demo_im_image).
  assert (total (build root0 demo_files) ≤ 100) by (apply Z.leb_le; rewrite build_root0; vm_compute; reflexivity).
  change nmeta with 46. change FSSIZE with 2000. lia.
Qed.
#[local] Opaque demo_file.

(** A user page that holds zeros. *)
Definition zero_at (i : Z) : bool :=
  match uphys false demo_user_mem demo_root (0x1000 + i) with Some a => mem_get demo_user_mem a =? 0 | None => false end.

Definition demo_zeros : list Z := replicate 700 0.
Lemma demo_uread : uread demo_user_mem demo_root 0x1000 demo_zeros.
Proof.
  assert (H : forallb (fun i => zero_at (Z.of_nat i)) (seq 0 700) = true) by (vm_compute; reflexivity). rewrite forallb_forall in H. intros i b [-> Hi]%lookup_replicate.
  specialize (H i ltac:(apply in_seq; lia)). unfold zero_at in H. destruct (uphys _ _ _ _) as [x|]; [|done]. exists x. split; [done|]. by apply Z.eqb_eq.
Qed.

Definition demo_file_table : list inode := [demo_file; demo_slot].
#[local] Opaque demo_file demo_zeros.

Lemma demo_can_log n : 0 ≤ n ≤ 20 → can_log [] demo_mount_cache n.
Proof. intros Hn. unfold can_log. change (l_outstanding (a_log demo_mount_cache)) with 1. change (l_size (a_log demo_mount_cache)) with 30. unfold NBUF. cbn [length]. lia. Qed.

(** 700 bytes at the end of the file: 312 go into its last block, the rest into a new one. *)
Lemma writei_correct_witness : ∃ s' bl' a' A, writei (D := ideal_disk) 0 (FromUser 0x1000) 13000 700 (demo_kernel demo_file_table, []) = Ok 700 s' ∧
  fsi 1 0 1 2 sb bl' a' (<[0%nat := grown demo_file A 13700]> (itable (demo_kernel demo_file_table)).1, (itable (demo_kernel demo_file_table)).2) s' ∧
  written 2 sb demo_mount_cache a' demo_file (grown demo_file A 13700) 13000 demo_zeros.
Proof.
  destruct demo_file_size as [Hs _]. assert (Hm : 13000 ≤ MAXFILE * BSIZE) by (apply Z.leb_le; reflexivity).
  assert (Hl : Z.of_nat (length demo_zeros) = 700) by reflexivity.
  pose proof (writei_correct 1 0 1 2 sb [] demo_mount_cache (itable (demo_kernel demo_file_table)) 0 demo_file demo_root 0x1000 13000 demo_zeros (demo_kernel demo_file_table, [])
    (image_small 1 eq_refl) (demo_fsi demo_file_table) eq_refl ltac:(rewrite Hs; exact Hm) eq_refl demo_user_ok ltac:(lia) ltac:(reflexivity) demo_uread ltac:(lia) ltac:(reflexivity)
    (demo_can_log 5 ltac:(lia)) (demo_free 3 ltac:(lia)) (fun _ H => demo_file_writable 13000 700 ltac:(lia) H)) as H.
  cbv zeta in H. rewrite Hl in H. rewrite decide_True in H by (rewrite Hs; split; discriminate). exact H.
Defined.

Lemma writei_readi_witness : ∃ s' s'', writei (D := ideal_disk) 0 (FromUser 0x1000) 13000 700 (demo_kernel demo_file_table, []) = Ok 700 s' ∧
  readi (D := ideal_disk) 0 ToLocal 13000 700 s' = Ok (700, demo_zeros) s''.
Proof.
  destruct demo_file_size as [Hs _]. assert (Hm : 13000 ≤ MAXFILE * BSIZE) by (apply Z.leb_le; reflexivity).
  exact (writei_readi 1 0 1 2 sb [] demo_mount_cache (itable (demo_kernel demo_file_table)) 0 demo_file demo_root 0x1000 13000 demo_zeros (demo_kernel demo_file_table, [])
    (image_small 1 eq_refl) (demo_fsi demo_file_table) eq_refl ltac:(rewrite Hs; exact Hm) eq_refl demo_user_ok ltac:(lia) ltac:(reflexivity) demo_uread
    (demo_can_log 5 ltac:(lia)) (demo_free 3 ltac:(lia)) (demo_file_writable 13000 700 ltac:(lia) ltac:(discriminate))).
Defined.
