(* ===== verification/Pipe.v ===== *)
(** * Pipes (pipe.c)

    A pipe is a ring of PIPESIZE bytes with two free-running 32-bit counters.  It
    lives in a page of its own; [k_pipes] maps the page's address to the pipe. *)

From S2P Require Import Prelude Mem CString Kernel Spinlock Kalloc Vm Proc.

Section pipe.
Context {I : image}.

Definition pipeclose (pi : Z) (writable : bool) : K unit :=
  acquire (LPipe pi) ;;;
  (if writable then
     upd_pipe pi (fun r => r <| pi_writeopen := 0 |>) ;;; wakeup (ChPipeRead pi)
   else
     upd_pipe pi (fun r => r <| pi_readopen := 0 |>) ;;; wakeup (ChPipeWrite pi)) ;;;
  let! r := get_pipe pi in
  if (pi_readopen r =? 0) && (pi_writeopen r =? 0) then
    release (LPipe pi) ;;;
    kfree pi ;;;
    modify (fun k => k <| k_pipes ::= delete pi |>)
  else release (LPipe pi).
End pipe.

(** [pi->data[pi->nwrite++ % PIPESIZE] = ch] *)
Definition pipe_push (ch : Z) (r : pipe) : pipe :=
  r <| pi_data ::= <[Z.to_nat (pi_nwrite r mod PIPESIZE) := ch]> |> <| pi_nwrite ::= fun w => u32 (w + 1) |>.
Definition pipe_full (r : pipe) : bool := pi_nwrite r =? u32 (pi_nread r + PIPESIZE).
(** [ch = pi->data[pi->nread++ % PIPESIZE]] *)
Definition pipe_front (r : pipe) : option Z := pi_data r !! Z.to_nat (pi_nread r mod PIPESIZE).
Definition pipe_pop (r : pipe) : pipe := r <| pi_nread ::= fun x => u32 (x + 1) |>.
Definition pipe_empty (r : pipe) : bool := pi_nread r =? pi_nwrite r.

(** One round of the loop of [pipewrite]: [inr (Some i)] leaves it, [inr None] is the
    early return of -1 with the lock released. *)
Definition pipewrite_body (pr : nat) (pi addr n : Z) (i : Z) : KM (Z + option Z) :=
  if negb (i <? n) then ret (inr (Some i)) else
  let! r := ⇑ (get_pipe pi) in
  let! stop := (if pi_readopen r =? 0 then ret true else
                  let! d := ⇑ (killed pr) in ret (negb (d =? 0))) in
  if (stop : bool) then ⇑ (release (LPipe pi)) ;;; ret (inr None) else
  let! r := ⇑ (get_pipe pi) in
  if pipe_full r then
    ⇑ (wakeup (ChPipeRead pi)) ;;;
    sleep (ChPipeWrite pi) (LPipe pi) ;;;
    ret (inl i)
  else
    let! p := ⇑ (get_proc pr) in
    let! (c, bs) := ⇑ (copyin (p_pagetable p) (u64 (addr + i)) 1) in
    if c =? -1 then ret (inr (Some i)) else
    let! ch := ⇑ (of_option (bs !! 0%nat)) in
    ⇑ (upd_pipe pi (pipe_push ch)) ;;;
    ret (inl (i + 1)).

Definition pipewrite (pi addr n : Z) : KM Z :=
  let! pr := ⇑ curproc in
  ⇑ (acquire (LPipe pi)) ;;;
  let! r := (fun s => loop (S (Z.to_nat n + length (snd s))) (pipewrite_body pr pi addr n) 0 s) in
  match r with
  | None => ret (-1)
  | Some i =>
      ⇑ (wakeup (ChPipeRead pi)) ;;;
      ⇑ (release (LPipe pi)) ;;;
      ret i
  end.

(** The wait of [piperead]; [inr false] is the early return of -1. *)
Definition piperead_wait (pr : nat) (pi : Z) (_ : unit) : KM (unit + bool) :=
  let! r := ⇑ (get_pipe pi) in
  if pipe_empty r && negb (pi_writeopen r =? 0) then
    let! d := ⇑ (killed pr) in
    if negb (d =? 0) then ⇑ (release (LPipe pi)) ;;; ret (inr false) else
    sleep (ChPipeRead pi) (LPipe pi) ;;; ret (inl tt)
  else ret (inr true).

Definition piperead_body (pr : nat) (pi addr n : Z) (i : Z) : K (Z + Z) :=
  if negb (i <? n) then ret (inr i) else
  let! r := get_pipe pi in
  if pipe_empty r then ret (inr i) else
  let! ch := of_option (pipe_front r) in
  upd_pipe pi pipe_pop ;;;
  let! p := get_proc pr in
  let! c := copyout (p_pagetable p) (u64 (addr + i)) [ch] in
  if c =? -1 then ret (inr i) else ret (inl (i + 1)).

Definition piperead (pi addr n : Z) : KM Z :=
  let! pr := ⇑ curproc in
  ⇑ (acquire (LPipe pi)) ;;;
  let! go := sleep_loop (piperead_wait pr pi) tt in
  if negb go then ret (-1) else
  let! i := ⇑ (loop (S (Z.to_nat n)) (piperead_body pr pi addr n) 0) in
  ⇑ (wakeup (ChPipeWrite pi)) ;;;
  ⇑ (release (LPipe pi)) ;;;
  ret i.
