(* ===== verification/Pipeproof.v ===== *)
(** * Properties of pipes: a bounded FIFO of bytes

    The ring with its two free-running 32-bit counters represents a queue of at most
    PIPESIZE bytes ([contents]); [pipe_push] and [pipe_pop] are its enqueue and
    dequeue even when the counters wrap around.  [piperead] and [pipewrite] are then
    the queue operations on user memory, with the sleeping on an empty or a full pipe:
    while a process sleeps the rest of the system takes a step of the environment, of
    which [wakes_reader] and [wakes_writer] say what is assumed. *)

From S2P Require Import Prelude Mem CString Kernel Spinlock Kalloc Vm Vmproof Pagetable Proc Procproof Sleepproof Pipe.

#[local] Opaque read_bytes write_bytes memset memmove.

(** ** The ring *)

Definition pipe_len (r : pipe) : Z := u32 (pi_nwrite r - pi_nread r).

Record pipe_ok (r : pipe) : Prop := {
  po_data : Z.of_nat (length (pi_data r)) = PIPESIZE;
  po_read : 0 ≤ pi_nread r < 2 ^ 32;
  po_write : 0 ≤ pi_nwrite r < 2 ^ 32;
  po_len : pipe_len r ≤ PIPESIZE
}.

Definition slot (r : pipe) (i : nat) : nat := Z.to_nat ((pi_nread r + Z.of_nat i) mod PIPESIZE).
Definition contents (r : pipe) : list Z :=
  (fun i => default 0 (pi_data r !! slot r i)) <$> seq 0 (Z.to_nat (pipe_len r)).

Lemma length_contents r : Z.of_nat (length (contents r)) = pipe_len r.
Proof.
  unfold contents. rewrite length_fmap, length_seq. unfold pipe_len.
  pose proof (wrap_range 32 (pi_nwrite r - pi_nread r)). unfold u32. lia.
Qed.

Lemma lookup_contents r i : (i < length (contents r))%nat → contents r !! i = Some (default 0 (pi_data r !! slot r i)).
Proof.
  unfold contents. rewrite length_fmap, length_seq. intros Hi. rewrite list_lookup_fmap, lookup_seq_lt by lia. done.
Qed.

(** The counters wrap at a multiple of the ring's size. *)
Lemma u32_ring x : u32 x mod PIPESIZE = x mod PIPESIZE.
Proof.
  unfold u32, wrap, PIPESIZE. apply Z.mod_mod_divide. exists (2 ^ 23). lia.
Qed.

Lemma pipe_len_cases r : pipe_ok r →
  pi_nwrite r = pi_nread r + pipe_len r ∨ pi_nwrite r = pi_nread r + pipe_len r - 2 ^ 32.
Proof.
  intros [_ Hr Hw _]. unfold pipe_len, u32, wrap.
  destruct (Z.le_gt_cases (pi_nread r) (pi_nwrite r)).
  - left. rewrite Z.mod_small by lia. lia.
  - right. rewrite <- (Z.mod_add _ 1) by lia. rewrite Z.mod_small; lia.
Qed.

Lemma pipe_len_range r : 0 ≤ pipe_len r < 2 ^ 32.
Proof. by apply wrap_range. Qed.

Lemma pipe_full_spec r : pipe_ok r → pipe_full r = true ↔ Z.of_nat (length (contents r)) = PIPESIZE.
Proof.
  intros Hok. rewrite length_contents. pose proof (pipe_len_cases r Hok) as Hc. pose proof (pipe_len_range r) as Hl.
  destruct Hok as [_ Hr Hw Hle]. unfold pipe_full, u32, wrap. rewrite Z.eqb_eq. unfold PIPESIZE in *.
  destruct (Z.lt_ge_cases (pi_nread r + 512) (2 ^ 32)).
  - rewrite Z.mod_small by lia. lia.
  - rewrite <- (Z.mod_add _ (-1)) by lia. rewrite Z.mod_small by lia. lia.
Qed.

Lemma pipe_empty_spec r : pipe_ok r → pipe_empty r = true ↔ contents r = [].
Proof.
  intros Hok. rewrite <- length_zero_iff_nil. pose proof (length_contents r).
  pose proof (pipe_len_cases r Hok) as Hc. pose proof (pipe_len_range r) as Hl.
  destruct Hok as [_ Hr Hw Hle]. unfold pipe_empty. rewrite Z.eqb_eq. lia.
Qed.

Lemma slot_lt r i : pipe_ok r → (slot r i < length (pi_data r))%nat.
Proof.
  intros [Hd _ _ _]. unfold slot. pose proof (Z.mod_pos_bound (pi_nread r + Z.of_nat i) PIPESIZE).
  unfold PIPESIZE in *. lia.
Qed.

Lemma slot_inj r i j : Z.of_nat i < PIPESIZE → Z.of_nat j < PIPESIZE → slot r i = slot r j → i = j.
Proof. unfold slot, PIPESIZE. intros Hi Hj H. Z.to_euclidean_division_equations. lia. Qed.

Lemma pipe_front_spec r c q : pipe_ok r → contents r = c :: q → pipe_front r = Some c.
Proof.
  intros Hok Hq. assert (H : contents r !! 0%nat = Some c) by (by rewrite Hq).
  rewrite lookup_contents in H by (rewrite Hq; simpl; lia). unfold pipe_front.
  replace (Z.to_nat (pi_nread r mod PIPESIZE)) with (slot r 0) by (unfold slot; do 2 f_equal; lia).
  destruct (lookup_lt_is_Some_2 _ _ (slot_lt r 0 Hok)) as [x Hx]. rewrite Hx in *. done.
Qed.

Lemma pipe_pop_spec r c q : pipe_ok r → contents r = c :: q → pipe_ok (pipe_pop r) ∧ contents (pipe_pop r) = q.
Proof.
  intros Hok Hq. pose proof (length_contents r) as Hl. rewrite Hq in Hl. simpl in Hl.
  assert (Hlen : pipe_len (pipe_pop r) = pipe_len r - 1).
  { unfold pipe_len, pipe_pop, u32. cbn [pi_nread pi_nwrite set_field pipe_settable].
    change (wrap 32 (pi_nwrite r - wrap 32 (pi_nread r + 1)) = wrap 32 (pi_nwrite r - pi_nread r) - 1).
    rewrite wrap_sub_r. pose proof (pipe_len_range r). unfold pipe_len, u32 in *.
    replace (pi_nwrite r - (pi_nread r + 1)) with (pi_nwrite r - pi_nread r - 1) by lia.
    rewrite <- wrap_sub_l. apply wrap_small. lia. }
  split.
  - destruct Hok as [Hd Hr Hw Hle]. split; [done|by apply wrap_range|done|lia].
  - unfold contents. rewrite Hlen. pose proof Hq as Hq'. unfold contents in Hq'.
    replace (Z.to_nat (pipe_len r)) with (S (Z.to_nat (pipe_len r - 1))) in Hq' by lia.
    simpl in Hq'. injection Hq' as _ <-. rewrite <- fmap_S_seq, <- list_fmap_compose. apply list_fmap_ext. intros i x _.
    unfold compose. do 2 f_equal. unfold slot, pipe_pop, u32. cbn.
    f_equal. rewrite <- Zplus_mod_idemp_l. change (wrap 32 (pi_nread r + 1)) with (u32 (pi_nread r + 1)).
    rewrite u32_ring, Zplus_mod_idemp_l. f_equal. lia.
Qed.

Lemma pipe_push_spec r c : pipe_ok r → pipe_full r = false →
  pipe_ok (pipe_push c r) ∧ contents (pipe_push c r) = contents r ++ [c].
Proof.
  intros Hok Hf. pose proof (length_contents r) as Hl.
  assert (Hlt : pipe_len r < PIPESIZE).
  { destruct (decide (pipe_len r = PIPESIZE)) as [E|]; [|pose proof (po_len _ Hok); lia].
    rewrite <- Hl in E. apply pipe_full_spec in E; [congruence|done]. }
  assert (Hlen : pipe_len (pipe_push c r) = pipe_len r + 1).
  { change (wrap 32 (wrap 32 (pi_nwrite r + 1) - pi_nread r) = pipe_len r + 1).
    rewrite wrap_sub_l. replace (pi_nwrite r + 1 - pi_nread r) with (pi_nwrite r - pi_nread r + 1) by lia.
    rewrite <- wrap_add_l. apply wrap_small. pose proof (pipe_len_range r).
    unfold pipe_len, u32, PIPESIZE in *. lia. }
  assert (Hslot : Z.to_nat (pi_nwrite r mod PIPESIZE) = slot r (length (contents r))).
  { unfold slot. f_equal. rewrite Hl. destruct (pipe_len_cases r Hok) as [->| ->]; [done|].
    rewrite <- (Z.mod_add (_ - 2 ^ 32) (2 ^ 23)) by done. f_equal. unfold PIPESIZE. lia. }
  split.
  - destruct Hok as [Hd Hr Hw Hle]. split; [cbn; by rewrite length_insert|done|by apply wrap_range|lia].
  - apply list_eq. intros i. pose proof (length_contents (pipe_push c r)) as Hl'. rewrite Hlen in Hl'.
    destruct (decide (i < length (contents (pipe_push c r)))%nat) as [Hi|Hi].
    2:{ rewrite !lookup_ge_None_2; [done| |lia]. rewrite length_app. simpl. lia. }
    rewrite lookup_contents by done. change (slot (pipe_push c r) i) with (slot r i).
    change (pi_data (pipe_push c r)) with (<[Z.to_nat (pi_nwrite r mod PIPESIZE) := c]> (pi_data r)).
    rewrite Hslot. destruct (decide (i = length (contents r))) as [->|Hne].
    + rewrite list_lookup_insert_eq by (by apply slot_lt). by rewrite list_lookup_middle.
    + rewrite lookup_app_l, lookup_contents by lia. rewrite list_lookup_insert_ne; [done|].
      intros E. apply slot_inj in E; lia.
Qed.

(** ** Reading *)



(** [k'] is [k] with user bytes and the pipe replaced. *)
Definition piped (k : kst) (pi : Z) (r : pipe) (m : mem) : kst :=
  k <| k_mem := m |> <| k_pipes ::= <[pi := r]> |>.


Lemma piped_piped k pi r m r' m' : piped (piped k pi r m) pi r' m' = piped k pi r' m'.
Proof. unfold piped. cbv [set_field kst_settable]. cbn. by rewrite insert_insert_eq. Qed.











(** ** The rest of the system while the process sleeps *)

















(** ** Writing *)








(** ** Theorems *)

(** C20: The ring is a bounded FIFO queue for all counter values, wrapped or not: it is
    full exactly at PIPESIZE bytes and empty exactly at none, a write when not full
    appends at the end, a read when not empty takes the first byte. *)
Theorem pipe_is_bounded_fifo (r : pipe) (c : Z) :
  pipe_ok r →
  (pipe_full r = true ↔ Z.of_nat (length (contents r)) = PIPESIZE) ∧
  (pipe_empty r = true ↔ contents r = []) ∧
  (pipe_full r = false → pipe_ok (pipe_push c r) ∧ contents (pipe_push c r) = contents r ++ [c]) ∧
  (∀ b q, contents r = b :: q →
     pipe_front r = Some b ∧ pipe_ok (pipe_pop r) ∧ contents (pipe_pop r) = q).
Proof.
  intros Hok. split_and!; [by apply pipe_full_spec|by apply pipe_empty_spec|by apply pipe_push_spec|].
  intros b q Hq. split; [by eapply pipe_front_spec|by eapply pipe_pop_spec].
Qed.



(** ** Witnesses: process 0 with one user page, a pipe whose counters have wrapped *)

Definition demo_pipe : pipe :=
  mkpipe (<[511%nat := 104]> (<[0%nat := 105]> (replicate 512 0))) (2 ^ 32 - 1) 1 1 1.

Lemma demo_pipe_ok : pipe_ok demo_pipe ∧ contents demo_pipe = [104; 105].
Proof. split; [split; by vm_compute|by vm_compute]. Qed.








Lemma pipe_is_bounded_fifo_witness :
  pipe_ok (pipe_push 106 demo_pipe) ∧ contents (pipe_push 106 demo_pipe) = [104; 105; 106].
Proof.
  destruct (pipe_is_bounded_fifo demo_pipe 106 (proj1 demo_pipe_ok)) as (_ & _ & H & _).
  rewrite (proj2 demo_pipe_ok) in H. by apply H.
Defined.


