(* ===== verification/File.v ===== *)
(** * Open files (file.c), and the allocation of pipes (pipe.c) *)

From S2P Require Import Prelude Mem CString Kernel Spinlock Kalloc Vm Proc Uart Printf Console Bio Log Fs Pipe.

Definition fileinit : K unit := initlock LFtable "ftable".

Definition filealloc : K (option nat) :=
  acquire LFtable ;;;
  let! r := for_find 0 NFILE (fun i =>
    let f := Z.to_nat i in
    let! x := get_file f in
    if f_ref x =? 0 then
      upd_file f (fun r => r <| f_ref := 1 |>) ;;;
      release LFtable ;;;
      ret (Some f)
    else ret None) in
  match r with
  | Some f => ret (Some f)
  | None => release LFtable ;;; ret None
  end.

Definition filedup (f : nat) : K nat :=
  acquire LFtable ;;;
  let! x := get_file f in
  if f_ref x <? 1 then panic "filedup" else
  upd_file f (fun r => r <| f_ref ::= Z.add 1 |>) ;;;
  release LFtable ;;;
  ret f.

(** The critical section of [fileclose]: the copy of the file when the last
    reference is gone. *)
Definition fileclose_drop (f : nat) : K (option file) :=
  acquire LFtable ;;;
  let! x := get_file f in
  if f_ref x <? 1 then panic "fileclose" else
  upd_file f (fun r => r <| f_ref ::= Z.pred |>) ;;;
  let! ff := get_file f in
  if 0 <? f_ref ff then release LFtable ;;; ret None else
  upd_file f (fun r => r <| f_ref := 0 |> <| f_type := FD_NONE |>) ;;;
  release LFtable ;;;
  ret (Some ff).

(** [struct stat] as it lies in memory: 4 + 4 + 2 + 2 bytes, padding, 8 bytes. *)
Definition stat_bytes (pad : list Z) (st : stat) : list Z :=
  le_bytes 4 (st_dev st) ++ le_bytes 4 (st_ino st) ++ le_bytes 2 (st_type st) ++
  le_bytes 2 (st_nlink st) ++ pad ++ le_bytes 8 (st_size st).

(** [devsw[major]] has functions for the console only. *)
Definition CONSOLE : Z := 1.
Definition has_dev (major : Z) : bool := (0 <=? major) && (major <? NDEV) && (major =? CONSOLE).

Section file.
Context {I : image} {D : Disk}.

Definition fileclose (f : nat) : KM unit :=
  let! r := ⇑ (fileclose_drop f) in
  match r with
  | None => ret tt
  | Some ff =>
      if decide (f_type ff = FD_PIPE) then ⇑ (pipeclose (f_pipe ff) (negb (f_writable ff =? 0)))
      else if decide (f_type ff = FD_INODE ∨ f_type ff = FD_DEVICE) then
        begin_op ;;;
        let! ip := ⇑ (of_option (f_ip ff)) in
        iput ip ;;;
        end_op
      else ret tt
  end.

(** [pad] is what the four padding bytes of the local [st] hold. *)
Definition filestat (pad : list Z) (f : nat) (addr : Z) : KM Z :=
  let! p := ⇑ curproc in
  let! x := ⇑ (get_file f) in
  if decide (f_type x = FD_INODE ∨ f_type x = FD_DEVICE) then
    ilock (f_ip x) ;;;
    let! ip := ⇑ (of_option (f_ip x)) in
    let! st := ⇑ (stati ip) in
    ⇑ (iunlock (f_ip x)) ;;;
    let! pr := ⇑ (get_proc p) in
    let! r := ⇑ (copyout (p_pagetable pr) addr (stat_bytes pad st)) in
    if r <? 0 then ret (-1) else ret 0
  else ret (-1).

Definition fileread (f : nat) (addr n : Z) : KM Z :=
  let! x := ⇑ (get_file f) in
  if f_readable x =? 0 then ret (-1) else
  match f_type x with
  | FD_PIPE => piperead (f_pipe x) addr n
  | FD_DEVICE => if has_dev (f_major x) then consoleread true addr n else ret (-1)
  | FD_INODE =>
      ilock (f_ip x) ;;;
      let! ip := ⇑ (of_option (f_ip x)) in
      let! (r, _) := readi ip (ToUser addr) (f_off x) (u32 n) in
      (if 0 <? r then ⇑ (upd_file f (fun y => y <| f_off ::= fun o => u32 (o + r) |>)) else ret tt) ;;;
      ⇑ (iunlock (f_ip x)) ;;;
      ret r
  | FD_NONE => panic "fileread"
  end.

Definition filewrite_body (f : nat) (addr n : Z) (i : Z) : KM (Z + Z) :=
  let max := (MAXOPBLOCKS - 1 - 1 - 2) / 2 * BSIZE in
  if negb (i <? n) then ret (inr i) else
  let n1 := Z.min (n - i) max in
  begin_op ;;;
  let! x := ⇑ (get_file f) in
  ilock (f_ip x) ;;;
  let! ip := ⇑ (of_option (f_ip x)) in
  let! x := ⇑ (get_file f) in
  let! r := writei ip (FromUser (u64 (addr + i))) (f_off x) n1 in
  (if 0 <? r then ⇑ (upd_file f (fun y => y <| f_off ::= fun o => u32 (o + r) |>)) else ret tt) ;;;
  ⇑ (iunlock (f_ip x)) ;;;
  end_op ;;;
  if negb (r =? n1) then ret (inr i) else ret (inl (i + r)).

Definition filewrite (f : nat) (addr n : Z) : KM Z :=
  let! x := ⇑ (get_file f) in
  if f_writable x =? 0 then ret (-1) else
  match f_type x with
  | FD_PIPE => pipewrite (f_pipe x) addr n
  | FD_DEVICE => if has_dev (f_major x) then consolewrite true addr n else ret (-1)
  | FD_INODE =>
      let! i := loop (S (Z.to_nat n)) (filewrite_body f addr n) 0 in
      ret (if i =? n then n else -1)
  | FD_NONE => panic "filewrite"
  end.

(** ** pipe.c: pipealloc *)

(** The two files, or [None] for -1. *)
Definition pipealloc : KM (option (nat * nat)) :=
  let! f0 := ⇑ filealloc in
  let! f1 := (match f0 with None => ret None | Some _ => ⇑ filealloc end) in
  let bad pi :=
    (if pi =? 0 then ret tt else ⇑ (kfree pi)) ;;;
    (match f0 with Some f => fileclose f | None => ret tt end) ;;;
    (match f1 with Some f => fileclose f | None => ret tt end) ;;;
    ret None in
  match f0, f1 with
  | Some g0, Some g1 =>
      let! pi := ⇑ kalloc in
      if pi =? 0 then bad 0 else
      (* the page is full of fives *)
      ⇑ (modify (fun k => k <| k_pipes ::= <[pi := mkpipe (replicate (Z.to_nat PIPESIZE) 5) 0 0 1 1]> |>)) ;;;
      ⇑ (initlock (LPipe pi) "pipe") ;;;
      ⇑ (upd_file g0 (fun r => r <| f_type := FD_PIPE |> <| f_readable := 1 |> <| f_writable := 0 |> <| f_pipe := pi |>)) ;;;
      ⇑ (upd_file g1 (fun r => r <| f_type := FD_PIPE |> <| f_readable := 0 |> <| f_writable := 1 |> <| f_pipe := pi |>)) ;;;
      ret (Some (g0, g1))
  | _, _ => bad 0
  end.
End file.
