(* ===== verification/Lifecycle.v ===== *)
(** * Life of a process: first process, fork, exit (proc.c)

    The part of proc.c that needs the file system. *)

From S2P Require Import Prelude Mem CString Kernel Spinlock Kalloc Vm Proc Uart Printf Console Bio Log Fs Pipe File.

(** [safestrcpy(dst, src, 16)] on a [char name[16]]: after a terminator was copied,
    one more null byte is stored. *)
Definition name_copy (dst src : list Z) : list Z :=
  let w := take 16 (take 15 (cut_nul src) ++ [0; 0]) in w ++ drop (length w) dst.

Definition initcode : list Z :=
  [0x17; 0x05; 0x00; 0x00; 0x13; 0x05; 0x45; 0x02;
   0x97; 0x05; 0x00; 0x00; 0x93; 0x85; 0x35; 0x02;
   0x93; 0x08; 0x70; 0x00; 0x73; 0x00; 0x00; 0x00;
   0x93; 0x08; 0x20; 0x00; 0x73; 0x00; 0x00; 0x00;
   0xef; 0xf0; 0x9f; 0xff; 0x2f; 0x69; 0x6e; 0x69;
   0x74; 0x00; 0x00; 0x24; 0x00; 0x00; 0x00; 0x00;
   0x00; 0x00; 0x00; 0x00].

Section lifecycle.
Context {I : image} {D : Disk}.

(** A failed [allocproc] makes the next line dereference a null pointer. *)
Definition userinit : KM unit :=
  let! p := ⇑ allocproc in
  ⇑ (modify (fun k => k <| k_initproc := p |>)) ;;;
  let! p := ⇑ (of_option p) in
  let! pr := ⇑ (get_proc p) in
  ⇑ (uvmfirst (p_pagetable pr) initcode) ;;;
  ⇑ (upd_proc p (fun r => r <| p_sz := PGSIZE |>)) ;;;
  ⇑ (tf_set p tf_epc 0) ;;;
  ⇑ (tf_set p tf_sp PGSIZE) ;;;
  ⇑ (upd_proc p (fun r => r <| p_name ::= fun n => name_copy n (bytes_of "initcode") |>)) ;;;
  let! cwd := namei (bytes_of "/") in
  ⇑ (upd_proc p (fun r => r <| p_cwd := cwd |> <| p_state := RUNNABLE |>)) ;;;
  ⇑ (release (LProc p)).

(** [*(np->trapframe) = *(p->trapframe)] *)
Definition copy_trapframe (np p : nat) : K unit :=
  let! n := get_proc np in
  let! o := get_proc p in
  mem_mod (fun m => memmove m (p_trapframe n) (p_trapframe o) TRAPFRAME_SIZE).

Definition fork : K Z :=
  let! p := curproc in
  let! np := allocproc in
  match np with
  | None => ret (-1)
  | Some np =>
      let! pr := get_proc p in
      let! n := get_proc np in
      let! r := uvmcopy (p_pagetable pr) (p_pagetable n) (p_sz pr) in
      if r <? 0 then freeproc np ;;; release (LProc np) ;;; ret (-1) else
      upd_proc np (fun r => r <| p_sz := p_sz pr |>) ;;;
      copy_trapframe np p ;;;
      tf_set np tf_a0 0 ;;;
      for_ 0 NOFILE (fun i =>
        let! pr := get_proc p in
        match p_ofile pr !! Z.to_nat i with
        | Some (Some f) =>
            let! f := filedup f in
            upd_proc np (fun r => r <| p_ofile ::= <[Z.to_nat i := Some f]> |>)
        | _ => ret tt
        end) ;;;
      let! cwd := of_option (p_cwd pr) in
      let! cwd := idup cwd in
      upd_proc np (fun r => r <| p_cwd := Some cwd |>) ;;;
      upd_proc np (fun r => r <| p_name ::= fun n => name_copy n (p_name pr) |>) ;;;
      let! n := get_proc np in
      let pid := p_pid n in
      release (LProc np) ;;;
      acquire LWait ;;;
      upd_proc np (fun r => r <| p_parent := Some p |>) ;;;
      release LWait ;;;
      acquire (LProc np) ;;;
      upd_proc np (fun r => r <| p_state := RUNNABLE |>) ;;;
      release (LProc np) ;;;
      ret pid
  end.

(** The open files, one after the other. *)
Definition close_all (p : nat) : KM unit :=
  for_ 0 NOFILE (fun fd =>
    let! pr := ⇑ (get_proc p) in
    match p_ofile pr !! Z.to_nat fd with
    | Some (Some f) =>
        fileclose f ;;;
        ⇑ (upd_proc p (fun r => r <| p_ofile ::= <[Z.to_nat fd := None]> |>))
    | _ => ret tt
    end).

(** The last steps of [exit], up to the final switch. *)
Definition exit_finish (p : nat) (status : Z) : K unit :=
  acquire LWait ;;;
  reparent p ;;;
  let! pr := get_proc p in
  wakeup_ptr (ChProc <$> p_parent pr) ;;;
  acquire (LProc p) ;;;
  upd_proc p (fun r => r <| p_xstate := status |> <| p_state := ZOMBIE |>) ;;;
  release LWait.

Definition exit {A} (status : Z) : KM A :=
  let! p := ⇑ curproc in
  let! k := ⇑ get in
  if decide (k_initproc k = Some p) then panic "init exiting" else
  close_all p ;;;
  begin_op ;;;
  let! pr := ⇑ (get_proc p) in
  let! cwd := ⇑ (of_option (p_cwd pr)) in
  iput cwd ;;;
  end_op ;;;
  ⇑ (upd_proc p (fun r => r <| p_cwd := None |>)) ;;;
  ⇑ (exit_finish p status) ;;;
  sched ;;;
  panic "zombie exit".

End lifecycle.
