(* ===== verification/Exec.v ===== *)
(** * exec (exec.c) *)

From S2P Require Import Prelude Mem CString Kernel Spinlock Kalloc Vm Proc Uart Printf Console Bio Log Fs Pipe File Lifecycle.

Definition ELF_MAGIC : Z := 0x464C457F.
Definition ELF_PROG_LOAD : Z := 1.
Definition ELFHDR_SIZE : Z := 64.
Definition PROGHDR_SIZE : Z := 56.

(** The fields [exec] uses, from the bytes of the header. *)
Record elfhdr := mkelf { eh_magic : Z; eh_entry : Z; eh_phoff : Z; eh_phnum : Z }.
Definition read_elfhdr (d : list Z) : elfhdr :=
  mkelf (field d 0 4) (field d 24 8) (field d 32 8) (field d 56 2).
Record proghdr := mkph {
  ph_type : Z; ph_flags : Z; ph_off : Z; ph_vaddr : Z; ph_filesz : Z; ph_memsz : Z
}.
Definition read_proghdr (d : list Z) : proghdr :=
  mkph (field d 0 4) (field d 4 4) (field d 8 8) (field d 16 8) (field d 32 8) (field d 40 8).

Definition flags2perm (flags : Z) : Z :=
  let perm := if Z.land flags 0x1 =? 0 then 0 else PTE_X in
  if Z.land flags 0x2 =? 0 then perm else Z.lor perm PTE_W.

(** The scan for the program's name: what follows the last slash. *)
Fixpoint last_elem (path last : list Z) : list Z :=
  match path with
  | [] => last
  | c :: s => last_elem s (if c =? SLASH then s else last)
  end.

Section exec.
Context {I : image} {D : Disk}.

Definition loadseg_body (pagetable va : Z) (ip : nat) (offset sz : Z) (i : Z) : KM (Z + Z) :=
  if negb (i <? sz) then ret (inr 0) else
  let! pa := ⇑ (walkaddr pagetable (u64 (va + i))) in
  if pa =? 0 then panic "loadseg: address should exist" else
  let n := if sz - i <? PGSIZE then sz - i else PGSIZE in
  let! (r, _) := readi ip (ToKernel pa) (u32 (offset + i)) n in
  if negb (r =? n) then ret (inr (-1)) else ret (inl (u32 (i + PGSIZE))).
Definition loadseg (pagetable va : Z) (ip : nat) (offset sz : Z) : KM Z :=
  loop (S (Z.to_nat (sz / PGSIZE + 1))) (loadseg_body pagetable va ip offset sz) 0.

(** One program header; the loop state is [(i, off, sz)], [inr] is the end of the
    loop or [goto bad] with the size allocated so far. *)
Definition exec_segment (pagetable : Z) (ip : nat) (phnum : Z) (st : Z * Z * Z) :
    KM ((Z * Z * Z) + (bool * Z)) :=
  let '(i, off, sz) := st in
  if negb (i <? phnum) then ret (inr (true, sz)) else
  let! (r, bs) := readi ip ToLocal (u32 off) PROGHDR_SIZE in
  if negb (r =? PROGHDR_SIZE) then ret (inr (false, sz)) else
  let ph := read_proghdr bs in
  let next sz := ret (inl (i + 1, s32 (off + PROGHDR_SIZE), sz)) in
  if negb (ph_type ph =? ELF_PROG_LOAD) then next sz else
  if ph_memsz ph <? ph_filesz ph then ret (inr (false, sz)) else
  if u64 (ph_vaddr ph + ph_memsz ph) <? ph_vaddr ph then ret (inr (false, sz)) else
  if negb (ph_vaddr ph mod PGSIZE =? 0) then ret (inr (false, sz)) else
  let! sz1 := ⇑ (uvmalloc pagetable sz (u64 (ph_vaddr ph + ph_memsz ph)) (flags2perm (ph_flags ph))) in
  if sz1 =? 0 then ret (inr (false, sz)) else
  let! r := loadseg pagetable (ph_vaddr ph) ip (u32 (ph_off ph)) (u32 (ph_filesz ph)) in
  if r <? 0 then ret (inr (false, sz1)) else next sz1.

(** The argument strings; the loop state is [(argc, sp, ustack)]. [argv] are the
    pages that hold them, in order. [inr None] is [goto bad]. *)
Fixpoint push_args (pagetable stackbase : Z) (argv : list Z) (argc sp : Z) (ustack : list Z) :
    K (option (Z * Z * list Z)) :=
  match argv with
  | [] => ret (Some (argc, sp, ustack))
  | a :: argv =>
      if MAXARG <=? argc then ret None else
      let! k := get in
      let! len := of_option (strlen (k_mem k) a (Z.to_nat PGSIZE)) in
      let sp := u64 (sp - (len + 1)) in
      let sp := sp - sp mod 16 in
      if sp <? stackbase then ret None else
      let! r := copyout pagetable sp (read_bytes (k_mem k) a (Z.to_nat (len + 1))) in
      if r <? 0 then ret None else
      push_args pagetable stackbase argv (argc + 1) sp (ustack ++ [sp])
  end.

(** From the stack on: [None] is [goto bad] with the size allocated so far. *)
Definition exec_stack (pagetable sz : Z) (argv : list Z) : K (Z * option (Z * Z)) :=
  let sz := PGROUNDUP sz in
  let! sz1 := uvmalloc pagetable sz (u64 (sz + (USERSTACK + 1) * PGSIZE)) PTE_W in
  if sz1 =? 0 then ret (sz, None) else
  let sz := sz1 in
  uvmclear pagetable (sz - (USERSTACK + 1) * PGSIZE) ;;;
  let stackbase := sz - USERSTACK * PGSIZE in
  let! r := push_args pagetable stackbase argv 0 sz [] in
  match r with
  | None => ret (sz, None)
  | Some (argc, sp, ustack) =>
      let sp := u64 (sp - (argc + 1) * 8) in
      let sp := sp - sp mod 16 in
      if sp <? stackbase then ret (sz, None) else
      let! r := copyout pagetable sp (flat_map (le_bytes 8) (ustack ++ [0])) in
      if r <? 0 then ret (sz, None) else ret (sz, Some (argc, sp))
  end.

Definition exec_commit (p : nat) (path : list Z) (pagetable sz oldsz entry argc sp : Z) : K Z :=
  tf_set p tf_a1 sp ;;;
  upd_proc p (fun r => r <| p_name ::= fun n => name_copy n (last_elem path path) |>) ;;;
  let! pr := get_proc p in
  upd_proc p (fun r => r <| p_pagetable := pagetable |> <| p_sz := sz |>) ;;;
  tf_set p tf_epc entry ;;;
  tf_set p tf_sp sp ;;;
  proc_freepagetable (p_pagetable pr) oldsz ;;;
  ret argc.

Definition exec (path : list Z) (argv : list Z) : KM Z :=
  let! p := ⇑ curproc in
  begin_op ;;;
  let! r := namei path in
  match r with
  | None => end_op ;;; ret (-1)
  | Some ip =>
      let bad_ip pagetable sz :=
        (if pagetable =? 0 then ret tt else ⇑ (proc_freepagetable pagetable sz)) ;;;
        iunlockput ip ;;;
        end_op ;;;
        ret (-1) in
      ilock (Some ip) ;;;
      let! (r, bs) := readi ip ToLocal 0 ELFHDR_SIZE in
      if negb (r =? ELFHDR_SIZE) then bad_ip 0 0 else
      let elf := read_elfhdr bs in
      if negb (eh_magic elf =? ELF_MAGIC) then bad_ip 0 0 else
      let! pagetable := ⇑ (proc_pagetable p) in
      if pagetable =? 0 then bad_ip 0 0 else
      let! (ok, sz) := loop (S (Z.to_nat (eh_phnum elf)))
                         (exec_segment pagetable ip (eh_phnum elf)) (0, s32 (eh_phoff elf), 0) in
      if negb ok then bad_ip pagetable sz else
      iunlockput ip ;;;
      end_op ;;;
      let! p := ⇑ curproc in
      let! pr := ⇑ (get_proc p) in
      let oldsz := p_sz pr in
      let! (sz, r) := ⇑ (exec_stack pagetable sz argv) in
      match r with
      | None => ⇑ (proc_freepagetable pagetable sz) ;;; ret (-1)
      | Some (argc, sp) => ⇑ (exec_commit p path pagetable sz oldsz (eh_entry elf) argc sp)
      end
  end.
End exec.
