(* ===== verification/Syscall.v ===== *)
(** * System calls: arguments, processes, files (syscall.c, sysproc.c, sysfile.c)

    A system call returns the [uint64] that [syscall] stores in [a0]. *)

From S2P Require Import Prelude Mem CString Kernel Spinlock Kalloc Vm Proc Uart Printf Console Bio Log Fs Pipe File Lifecycle Exec.

(** ** syscall.c: fetching arguments *)

Definition fetchaddr (addr : Z) : K (Z * Z) :=
  let! p := curproc in
  let! pr := get_proc p in
  if (p_sz pr <=? addr) || (p_sz pr <? u64 (addr + 8)) then ret (-1, 0) else
  let! (r, bs) := copyin (p_pagetable pr) addr 8 in
  if negb (r =? 0) then ret (-1, 0) else ret (0, le_val bs).

(** The returned length and the bytes stored to the buffer. *)
Definition fetchstr (addr max : Z) : K (Z * list Z) :=
  let! p := curproc in
  let! pr := get_proc p in
  let! (r, bs) := copyinstr (p_pagetable pr) addr max in
  if r <? 0 then ret (-1, bs) else ret (Z.of_nat (length (cut_nul bs)), bs).

Definition argraw (n : Z) : K Z :=
  let! p := curproc in
  if n =? 0 then tf_get p tf_a0
  else if n =? 1 then tf_get p tf_a1
  else if n =? 2 then tf_get p tf_a2
  else if n =? 3 then tf_get p tf_a3
  else if n =? 4 then tf_get p tf_a4
  else if n =? 5 then tf_get p tf_a5
  else panic "argraw".

Definition argint (n : Z) : K Z := let! v := argraw n in ret (s32 v).
Definition argaddr (n : Z) : K Z := argraw n.

(** The length, and the string without its terminator. *)
Definition argstr (n max : Z) : K (Z * list Z) :=
  let! addr := argaddr n in
  let! (r, bs) := fetchstr addr max in
  ret (r, cut_nul bs).

Section sys.
Context {I : image} {D : Disk}.

(** ** sysproc.c *)

Definition sys_exit : KM Z :=
  let! n := ⇑ (argint 0) in
  exit n.
Definition sys_getpid : K Z := let! p := curproc in let! pr := get_proc p in ret (u64 (p_pid pr)).
Definition sys_fork : K Z := let! r := fork in ret (u64 r).
Definition sys_wait : KM Z :=
  let! p := ⇑ (argaddr 0) in
  let! r := wait p in
  ret (u64 r).
Definition sys_sbrk : K Z :=
  let! n := argint 0 in
  let! p := curproc in
  let! pr := get_proc p in
  let addr := p_sz pr in
  let! r := growproc n in
  if r <? 0 then ret (u64 (-1)) else ret addr.

(** [ticks - ticks0 < n] is a 32-bit unsigned comparison. *)
Definition sys_sleep_body (ticks0 n : Z) (_ : unit) : KM (unit + Z) :=
  let! k := ⇑ get in
  if negb (u32 (k_ticks k - ticks0) <? u32 n) then
    ⇑ (release LTicks) ;;; ret (inr 0)
  else
  let! p := ⇑ curproc in
  let! d := ⇑ (killed p) in
  if negb (d =? 0) then ⇑ (release LTicks) ;;; ret (inr (u64 (-1))) else
  sleep ChTicks LTicks ;;;
  ret (inl tt).
Definition sys_sleep : KM Z :=
  let! n := ⇑ (argint 0) in
  let n := if n <? 0 then 0 else n in
  ⇑ (acquire LTicks) ;;;
  let! k := ⇑ get in
  sleep_loop (sys_sleep_body (k_ticks k) n) tt.
Definition sys_kill : K Z :=
  let! pid := argint 0 in
  let! r := kill pid in
  ret (u64 r).
Definition sys_uptime : K Z :=
  acquire LTicks ;;;
  let! k := get in
  release LTicks ;;;
  ret (k_ticks k).

(** ** sysfile.c *)

Definition O_RDONLY : Z := 0x000.
Definition O_WRONLY : Z := 0x001.
Definition O_RDWR : Z := 0x002.
Definition O_CREATE : Z := 0x200.
Definition O_TRUNC : Z := 0x400.

Definition MINUS1 : Z := u64 (-1).

(** The descriptor and the file, or [None] for -1. *)
Definition argfd (n : Z) : K (option (Z * nat)) :=
  let! fd := argint n in
  if (fd <? 0) || (Z.of_nat NOFILE <=? fd) then ret None else
  let! p := curproc in
  let! pr := get_proc p in
  match p_ofile pr !! Z.to_nat fd with
  | Some (Some f) => ret (Some (fd, f))
  | _ => ret None
  end.

Definition fdalloc (f : nat) : K Z :=
  let! p := curproc in
  let! r := for_find 0 NOFILE (fun fd =>
    let! pr := get_proc p in
    match p_ofile pr !! Z.to_nat fd with
    | Some None =>
        upd_proc p (fun r => r <| p_ofile ::= <[Z.to_nat fd := Some f]> |>) ;;;
        ret (Some fd)
    | _ => ret None
    end) in
  ret (default (-1) r).

Definition sys_dup : K Z :=
  let! r := argfd 0 in
  match r with
  | None => ret MINUS1
  | Some (_, f) =>
      let! fd := fdalloc f in
      if fd <? 0 then ret MINUS1 else
      filedup f ;;;
      ret fd
  end.

Definition sys_read : KM Z :=
  let! p := ⇑ (argaddr 1) in
  let! n := ⇑ (argint 2) in
  let! r := ⇑ (argfd 0) in
  match r with
  | None => ret MINUS1
  | Some (_, f) => let! r := fileread f p n in ret (u64 r)
  end.

Definition sys_write : KM Z :=
  let! p := ⇑ (argaddr 1) in
  let! n := ⇑ (argint 2) in
  let! r := ⇑ (argfd 0) in
  match r with
  | None => ret MINUS1
  | Some (_, f) => let! r := filewrite f p n in ret (u64 r)
  end.

Definition set_ofile (fd : Z) (f : option nat) : K unit :=
  let! p := curproc in upd_proc p (fun r => r <| p_ofile ::= <[Z.to_nat fd := f]> |>).

Definition sys_close : KM Z :=
  let! r := ⇑ (argfd 0) in
  match r with
  | None => ret MINUS1
  | Some (fd, f) =>
      ⇑ (set_ofile fd None) ;;;
      fileclose f ;;;
      ret 0
  end.

Definition sys_fstat (pad : list Z) : KM Z :=
  let! st := ⇑ (argaddr 1) in
  let! r := ⇑ (argfd 0) in
  match r with
  | None => ret MINUS1
  | Some (_, f) => let! r := filestat pad f st in ret (u64 r)
  end.

Definition add_nlink (ip : nat) (d : Z) : K unit :=
  upd_inode ip (fun r => r <| i_nlink ::= fun n => s16 (n + d) |>).

Definition sys_link : KM Z :=
  let! (r, old) := ⇑ (argstr 0 MAXPATH) in
  if r <? 0 then ret MINUS1 else
  let! (r, new) := ⇑ (argstr 1 MAXPATH) in
  if r <? 0 then ret MINUS1 else
  begin_op ;;;
  let! r := namei old in
  match r with
  | None => end_op ;;; ret MINUS1
  | Some ip =>
      ilock (Some ip) ;;;
      let! x := ⇑ (get_inode ip) in
      if i_type x =? T_DIR then iunlockput ip ;;; end_op ;;; ret MINUS1 else
      ⇑ (add_nlink ip 1) ;;;
      iupdate ip ;;;
      ⇑ (iunlock (Some ip)) ;;;
      let bad :=
        ilock (Some ip) ;;;
        ⇑ (add_nlink ip (-1)) ;;;
        iupdate ip ;;;
        iunlockput ip ;;;
        end_op ;;;
        ret MINUS1 in
      let! r := nameiparent new in
      match r with
      | None => bad
      | Some (dp, name) =>
          ilock (Some dp) ;;;
          let! d := ⇑ (get_inode dp) in
          let! x := ⇑ (get_inode ip) in
          let! fail := (if negb (i_dev d =? i_dev x) then ret true else
                          let! r := dirlink dp name (i_inum x) in ret (r <? 0)) in
          if (fail : bool) then iunlockput dp ;;; bad else
          iunlockput dp ;;;
          iput ip ;;;
          end_op ;;;
          ret 0
      end
  end.

Definition isdirempty_body (dp : nat) (off : Z) : KM (Z + bool) :=
  let! d := ⇑ (get_inode dp) in
  if negb (off <? i_size d) then ret (inr true) else
  let! (r, bs) := readi dp ToLocal off DIRENT_SIZE in
  if negb (r =? DIRENT_SIZE) then panic "isdirempty: readi" else
  if negb (de_inum (read_dirent bs) =? 0) then ret (inr false) else
  ret (inl (off + DIRENT_SIZE)).
Definition isdirempty (dp : nat) : KM bool :=
  let! d := ⇑ (get_inode dp) in
  loop (S (Z.to_nat (i_size d))) (isdirempty_body dp) (2 * DIRENT_SIZE).

Definition DOT : list Z := [46].
Definition DOTDOT : list Z := [46; 46].

Definition sys_unlink : KM Z :=
  let! (r, path) := ⇑ (argstr 0 MAXPATH) in
  if r <? 0 then ret MINUS1 else
  begin_op ;;;
  let! r := nameiparent path in
  match r with
  | None => end_op ;;; ret MINUS1
  | Some (dp, name) =>
      let bad := iunlockput dp ;;; end_op ;;; ret MINUS1 in
      ilock (Some dp) ;;;
      if (namecmp name DOT =? 0) || (namecmp name DOTDOT =? 0) then bad else
      let! r := dirlookup dp name in
      match r with
      | None => bad
      | Some (ip, off) =>
          ilock (Some ip) ;;;
          let! x := ⇑ (get_inode ip) in
          if i_nlink x <? 1 then panic "unlink: nlink < 1" else
          let! full := (if i_type x =? T_DIR then
                          let! e := isdirempty ip in ret (negb e)
                        else ret false) in
          if (full : bool) then iunlockput ip ;;; bad else
          let! n := writei dp (FromLocal (replicate (Z.to_nat DIRENT_SIZE) 0)) off DIRENT_SIZE in
          if negb (n =? DIRENT_SIZE) then panic "unlink: writei" else
          (if i_type x =? T_DIR then ⇑ (add_nlink dp (-1)) ;;; iupdate dp else ret tt) ;;;
          iunlockput dp ;;;
          ⇑ (add_nlink ip (-1)) ;;;
          iupdate ip ;;;
          iunlockput ip ;;;
          end_op ;;;
          ret 0
      end
  end.

Definition create (path : list Z) (type major minor : Z) : KM (option nat) :=
  let! r := nameiparent path in
  match r with
  | None => ret None
  | Some (dp, name) =>
      ilock (Some dp) ;;;
      let! r := dirlookup dp name in
      match r with
      | Some (ip, _) =>
          iunlockput dp ;;;
          ilock (Some ip) ;;;
          let! x := ⇑ (get_inode ip) in
          if (type =? T_FILE) && ((i_type x =? T_FILE) || (i_type x =? T_DEVICE)) then ret (Some ip) else
          iunlockput ip ;;;
          ret None
      | None =>
          let! d := ⇑ (get_inode dp) in
          let! r := ialloc (i_dev d) type in
          match r with
          | None => iunlockput dp ;;; ret None
          | Some ip =>
              ilock (Some ip) ;;;
              ⇑ (upd_inode ip (fun r => r <| i_major := s16 major |> <| i_minor := s16 minor |> <| i_nlink := 1 |>)) ;;;
              iupdate ip ;;;
              let fail :=
                ⇑ (upd_inode ip (fun r => r <| i_nlink := 0 |>)) ;;;
                iupdate ip ;;;
                iunlockput ip ;;;
                iunlockput dp ;;;
                ret None in
              let! x := ⇑ (get_inode ip) in
              let! bad :=
                (if type =? T_DIR then
                   let! r := dirlink ip DOT (i_inum x) in
                   if r <? 0 then ret true else
                   let! d := ⇑ (get_inode dp) in
                   let! r := dirlink ip DOTDOT (i_inum d) in
                   ret (r <? 0)
                 else ret false) in
              if (bad : bool) then fail else
              let! r := dirlink dp name (i_inum x) in
              if r <? 0 then fail else
              (if type =? T_DIR then ⇑ (add_nlink dp 1) ;;; iupdate dp else ret tt) ;;;
              iunlockput dp ;;;
              ret (Some ip)
          end
      end
  end.

Definition flag (omode f : Z) : bool := negb (Z.land omode f =? 0).

(** The inode to open, locked; [None] when the transaction has been ended. *)
Definition open_inode (path : list Z) (omode : Z) : KM (option nat) :=
  if flag omode O_CREATE then
    let! ip := create path T_FILE 0 0 in
    match ip with
    | None => end_op ;;; ret None
    | Some ip => ret (Some ip)
    end
  else
    let! ip := namei path in
    match ip with
    | None => end_op ;;; ret None
    | Some ip =>
        ilock (Some ip) ;;;
        let! x := ⇑ (get_inode ip) in
        if (i_type x =? T_DIR) && negb (omode =? O_RDONLY) then
          iunlockput ip ;;; end_op ;;; ret None
        else ret (Some ip)
    end.

Definition sys_open : KM Z :=
  let! omode := ⇑ (argint 1) in
  let! (n, path) := ⇑ (argstr 0 MAXPATH) in
  if n <? 0 then ret MINUS1 else
  begin_op ;;;
  let! r := open_inode path omode in
  match r with
  | None => ret MINUS1
  | Some ip =>
      let! x := ⇑ (get_inode ip) in
      if (i_type x =? T_DEVICE) && ((i_major x <? 0) || (NDEV <=? i_major x)) then
        iunlockput ip ;;; end_op ;;; ret MINUS1
      else
      let! f := ⇑ filealloc in
      let! fd := (match f with None => ret (-1) | Some f => ⇑ (fdalloc f) end) in
      match f with
      | Some f =>
          if fd <? 0 then
            fileclose f ;;; iunlockput ip ;;; end_op ;;; ret MINUS1
          else
          ⇑ (if i_type x =? T_DEVICE then upd_file f (fun r => r <| f_type := FD_DEVICE |> <| f_major := i_major x |>)
             else upd_file f (fun r => r <| f_type := FD_INODE |> <| f_off := 0 |>)) ;;;
          ⇑ (upd_file f (fun r => r <| f_ip := Some ip |> <| f_readable := truth (negb (flag omode O_WRONLY)) |>
               <| f_writable := truth (flag omode O_WRONLY || flag omode O_RDWR) |>)) ;;;
          (if flag omode O_TRUNC && (i_type x =? T_FILE) then itrunc ip else ret tt) ;;;
          ⇑ (iunlock (Some ip)) ;;;
          end_op ;;;
          ret fd
      | None => iunlockput ip ;;; end_op ;;; ret MINUS1
      end
  end.

Definition sys_mkdir : KM Z :=
  begin_op ;;;
  let! (r, path) := ⇑ (argstr 0 MAXPATH) in
  let! ip := (if r <? 0 then ret None else create path T_DIR 0 0) in
  match ip with
  | None => end_op ;;; ret MINUS1
  | Some ip => iunlockput ip ;;; end_op ;;; ret 0
  end.

Definition sys_mknod : KM Z :=
  begin_op ;;;
  let! major := ⇑ (argint 1) in
  let! minor := ⇑ (argint 2) in
  let! (r, path) := ⇑ (argstr 0 MAXPATH) in
  let! ip := (if r <? 0 then ret None else create path T_DEVICE major minor) in
  match ip with
  | None => end_op ;;; ret MINUS1
  | Some ip => iunlockput ip ;;; end_op ;;; ret 0
  end.

Definition sys_chdir : KM Z :=
  let! p := ⇑ curproc in
  begin_op ;;;
  let! (r, path) := ⇑ (argstr 0 MAXPATH) in
  let! ip := (if r <? 0 then ret None else namei path) in
  match ip with
  | None => end_op ;;; ret MINUS1
  | Some ip =>
      ilock (Some ip) ;;;
      let! x := ⇑ (get_inode ip) in
      if negb (i_type x =? T_DIR) then iunlockput ip ;;; end_op ;;; ret MINUS1 else
      ⇑ (iunlock (Some ip)) ;;;
      let! pr := ⇑ (get_proc p) in
      let! cwd := ⇑ (of_option (p_cwd pr)) in
      iput cwd ;;;
      end_op ;;;
      ⇑ (upd_proc p (fun r => r <| p_cwd := Some ip |>)) ;;;
      ret 0
  end.

(** The pages with the argument strings so far, and whether all were fetched. *)
Fixpoint fetch_argv (fuel : nat) (uargv i : Z) (argv : list Z) : K (bool * list Z) :=
  match fuel with
  | O => ret (false, argv)                       (* i >= NELEM(argv) *)
  | S fuel =>
      let! (r, uarg) := fetchaddr (u64 (uargv + 8 * i)) in
      if r <? 0 then ret (false, argv) else
      if uarg =? 0 then ret (true, argv) else
      let! a := kalloc in
      if a =? 0 then ret (false, argv) else
      let! (r, bs) := fetchstr uarg PGSIZE in
      mem_mod (fun m => write_bytes m a bs) ;;;
      if r <? 0 then ret (false, argv ++ [a]) else
      fetch_argv fuel uargv (i + 1) (argv ++ [a])
  end.

Fixpoint free_argv (argv : list Z) : K unit :=
  match argv with [] => ret tt | a :: argv => kfree a ;;; free_argv argv end.

Definition sys_exec : KM Z :=
  let! uargv := ⇑ (argaddr 1) in
  let! (r, path) := ⇑ (argstr 0 MAXPATH) in
  if r <? 0 then ret MINUS1 else
  let! (ok, argv) := ⇑ (fetch_argv (Z.to_nat MAXARG) uargv 0 []) in
  if negb ok then ⇑ (free_argv argv) ;;; ret MINUS1 else
  let! r := exec path argv in
  ⇑ (free_argv argv) ;;;
  ret (u64 r).

Definition sys_pipe : KM Z :=
  let! p := ⇑ curproc in
  let! fdarray := ⇑ (argaddr 0) in
  let! r := pipealloc in
  match r with
  | None => ret MINUS1
  | Some (rf, wf) =>
      let! fd0 := ⇑ (fdalloc rf) in
      let! fd1 := (if fd0 <? 0 then ret (-1) else ⇑ (fdalloc wf)) in
      if (fd0 <? 0) || (fd1 <? 0) then
        (if 0 <=? fd0 then ⇑ (set_ofile fd0 None) else ret tt) ;;;
        fileclose rf ;;;
        fileclose wf ;;;
        ret MINUS1
      else
      let! pr := ⇑ (get_proc p) in
      let! c := ⇑ (copyout (p_pagetable pr) fdarray (le_bytes 4 fd0)) in
      let! c := (if c <? 0 then ret c else
                   ⇑ (copyout (p_pagetable pr) (u64 (fdarray + 4)) (le_bytes 4 fd1))) in
      if c <? 0 then
        ⇑ (set_ofile fd0 None) ;;;
        ⇑ (set_ofile fd1 None) ;;;
        fileclose rf ;;;
        fileclose wf ;;;
        ret MINUS1
      else ret 0
  end.

(** ** syscall.c: dispatch *)

Definition syscalls (pad : list Z) (num : Z) : option (KM Z) :=
  match num with
  | 1 => Some (⇑ sys_fork) | 2 => Some sys_exit | 3 => Some sys_wait | 4 => Some sys_pipe
  | 5 => Some sys_read | 6 => Some (⇑ sys_kill) | 7 => Some sys_exec | 8 => Some (sys_fstat pad)
  | 9 => Some sys_chdir | 10 => Some (⇑ sys_dup) | 11 => Some (⇑ sys_getpid) | 12 => Some (⇑ sys_sbrk)
  | 13 => Some sys_sleep | 14 => Some (⇑ sys_uptime) | 15 => Some sys_open | 16 => Some sys_write
  | 17 => Some sys_mknod | 18 => Some sys_unlink | 19 => Some sys_link | 20 => Some sys_mkdir
  | 21 => Some sys_close
  | _ => None
  end.

Definition syscall (pad : list Z) : KM unit :=
  let! p := ⇑ curproc in
  let! a7 := ⇑ (tf_get p tf_a7) in
  let num := s32 a7 in
  match syscalls pad num with
  | Some f =>
      let! r := f in
      ⇑ (tf_set p tf_a0 r)
  | None =>
      let! pr := ⇑ (get_proc p) in
      ⇑ (printf ("%d %s: unknown sys call %d" ++ NL)
           [AInt (p_pid pr); AStr (Some (cut_nul (p_name pr))); AInt num]) ;;;
      ⇑ (tf_set p tf_a0 MINUS1)
  end.
End sys.
