(* ===== verification/Trap.v ===== *)
(** * Traps, interrupts and the kernel's entry (trap.c, plic.c, main.c, start.c, forkret of proc.c)

    [usertrap] and [forkret] end in the jump to userret in trampoline.S with the user
    page table's satp, which is their result here. *)

From S2P Require Import Prelude Mem CString Kernel Spinlock Kalloc Vm Proc Uart Printf Console Bio Log Virtio Fs Pipe File Lifecycle Exec Syscall.

(** ** plic.c *)

Definition PLIC_SENABLE (hart : Z) : Z := PLIC + 0x2080 + hart * 0x100.
Definition PLIC_SPRIORITY (hart : Z) : Z := PLIC + 0x201000 + hart * 0x2000.
Definition PLIC_SCLAIM (hart : Z) : Z := PLIC + 0x201004 + hart * 0x2000.

Definition plic_store (a v : Z) : K unit := modify (fun k => k <| k_plic ::= <[a := u32 v]> |>).
Definition plic_load (a : Z) : K Z := gets (fun k => default 0 (k_plic k !! a)).

Definition plicinit : K unit :=
  plic_store (PLIC + UART0_IRQ * 4) 1 ;;;
  plic_store (PLIC + VIRTIO0_IRQ * 4) 1.

Definition plicinithart : K unit :=
  let! hart := cpuid in
  plic_store (PLIC_SENABLE (Z.of_nat hart)) (Z.lor (Z.shiftl 1 UART0_IRQ) (Z.shiftl 1 VIRTIO0_IRQ)) ;;;
  plic_store (PLIC_SPRIORITY (Z.of_nat hart)) 0.

Definition plic_claim : K Z :=
  let! hart := cpuid in
  let! v := plic_load (PLIC_SCLAIM (Z.of_nat hart)) in
  ret (s32 v).

Definition plic_complete (irq : Z) : K unit :=
  let! hart := cpuid in plic_store (PLIC_SCLAIM (Z.of_nat hart)) irq.

(** ** trap.c *)

Section trap.
Context {I : image} {D : Disk} {MM : Mmio}.

Definition trapinit : K unit := initlock LTicks "time".
Definition trapinithart : K unit := upd_csr (fun c => c <| stvec := img_kernelvec |>).

Definition clockintr : K unit :=
  let! h := cpuid in
  (if decide (h = 0%nat) then
     acquire LTicks ;;;
     modify (fun k => k <| k_ticks ::= fun t => u32 (t + 1) |>) ;;;
     wakeup ChTicks ;;;
     release LTicks
   else ret tt) ;;;
  upd_csr (fun c => c <| stimecmp := u64 (time c + 1000000) |>).

Definition devintr : K Z :=
  let! k := get in
  let cause := scause (k_csr k) in
  if cause =? 0x8000000000000009 then
    let! irq := plic_claim in
    (if irq =? UART0_IRQ then uartintr
     else if irq =? VIRTIO0_IRQ then virtio_disk_intr
     else if negb (irq =? 0) then printf ("unexpected interrupt irq=%d" ++ NL) [AInt irq]
     else ret tt) ;;;
    (if negb (irq =? 0) then plic_complete irq else ret tt) ;;;
    ret 1
  else if cause =? 0x8000000000000005 then
    clockintr ;;;
    ret 2
  else ret 0.

Definition usertrapret : K Z :=
  let! p := curproc in
  intr_off ;;;
  upd_csr (fun c => c <| stvec := TRAMPOLINE + (img_uservec - img_trampoline) |>) ;;;
  let! k := get in
  let! pr := get_proc p in
  tf_set p tf_kernel_satp (satp (k_csr k)) ;;;
  tf_set p tf_kernel_sp (p_kstack pr + PGSIZE) ;;;
  tf_set p tf_kernel_trap img_usertrap ;;;
  tf_set p tf_kernel_hartid (Z.of_nat (k_hart k)) ;;;
  upd_csr (fun c => c <| sstatus ::= fun x => Z.lor (Z.land x (Z.lnot SSTATUS_SPP)) SSTATUS_SPIE |>) ;;;
  let! epc := tf_get p tf_epc in
  upd_csr (fun c => c <| sepc := epc |>) ;;;
  ret (MAKE_SATP (p_pagetable pr)).

(** [exit] of a process that was killed; it does not return. *)
Definition exit_if_killed (p : nat) : KM unit :=
  let! d := ⇑ (killed p) in
  if negb (d =? 0) then exit (-1) else ret tt.

Definition usertrap (pad : list Z) : KM Z :=
  let! k := ⇑ get in
  if negb (Z.land (sstatus (k_csr k)) SSTATUS_SPP =? 0) then panic "usertrap: not from user mode" else
  ⇑ (upd_csr (fun c => c <| stvec := img_kernelvec |>)) ;;;
  let! p := ⇑ curproc in
  ⇑ (tf_set p tf_epc (sepc (k_csr k))) ;;;
  let! k := ⇑ get in
  let! which_dev :=
    (if scause (k_csr k) =? 8 then
       exit_if_killed p ;;;
       let! epc := ⇑ (tf_get p tf_epc) in
       ⇑ (tf_set p tf_epc (u64 (epc + 4))) ;;;
       ⇑ intr_on ;;;
       syscall pad ;;;
       ret 0
     else
       let! which_dev := ⇑ devintr in
       if negb (which_dev =? 0) then ret which_dev else
       let! k := ⇑ get in
       let! pr := ⇑ (get_proc p) in
       ⇑ (printf ("usertrap(): unexpected scause 0x%lx pid=%d" ++ NL) [AInt (scause (k_csr k)); AInt (p_pid pr)]) ;;;
       ⇑ (printf ("            sepc=0x%lx stval=0x%lx" ++ NL) [AInt (sepc (k_csr k)); AInt (stval (k_csr k))]) ;;;
       ⇑ (setkilled p) ;;;
       ret 0) in
  exit_if_killed p ;;;
  (if which_dev =? 2 then yield else ret tt) ;;;
  ⇑ usertrapret.

Definition kerneltrap : KM unit :=
  let! k := ⇑ get in
  let epc := sepc (k_csr k) in
  let status := sstatus (k_csr k) in
  let cause := scause (k_csr k) in
  if Z.land status SSTATUS_SPP =? 0 then panic "kerneltrap: not from supervisor mode" else
  let! on := ⇑ intr_get in
  if (on : bool) then panic "kerneltrap: interrupts enabled" else
  let! which_dev := ⇑ devintr in
  (if which_dev =? 0 then
     let! k := ⇑ get in
     ⇑ (printf ("scause=0x%lx sepc=0x%lx stval=0x%lx" ++ NL)
          [AInt cause; AInt (sepc (k_csr k)); AInt (stval (k_csr k))]) ;;;
     panic "kerneltrap"
   else ret tt) ;;;
  (if which_dev =? 2 then
     let! p := ⇑ myproc in
     match p with Some _ => yield | None => ret tt end
   else ret tt) ;;;
  ⇑ (upd_csr (fun c => c <| sepc := epc |>)) ;;;
  ⇑ (upd_csr (fun c => c <| sstatus := status |>)).

(** ** proc.c: a process's first steps *)

Definition forkret : KM Z :=
  let! p := ⇑ curproc in
  ⇑ (release (LProc p)) ;;;
  let! k := ⇑ get in
  (if negb (k_first k =? 0) then
     fsinit ROOTDEV ;;;
     ⇑ (modify (fun k => k <| k_first := 0 |>))
   else ret tt) ;;;
  ⇑ usertrapret.

(** ** main.c: up to the call of [scheduler]; [started] is the flag hart 0 sets *)

Definition main (started : Z) : KM Z :=
  let! h := ⇑ cpuid in
  if decide (h = 0%nat) then
    ⇑ (printf ("xv6 kernel is booting" ++ NL) []) ;;;
    ⇑ consoleinit ;;;
    ⇑ printfinit ;;;
    ⇑ kinit ;;;
    ⇑ kvminit ;;;
    ⇑ kvminithart ;;;
    ⇑ procinit ;;;
    ⇑ trapinit ;;;
    ⇑ trapinithart ;;;
    ⇑ plicinit ;;;
    ⇑ plicinithart ;;;
    ⇑ binit ;;;
    ⇑ iinit ;;;
    ⇑ fileinit ;;;
    ⇑ virtio_disk_init ;;;
    userinit ;;;
    ret 1
  else
    if started =? 0 then hang else
    ⇑ (printf ("hart %d starting" ++ NL) [AInt (Z.of_nat h)]) ;;;
    ⇑ kvminithart ;;;
    ⇑ trapinithart ;;;
    ⇑ plicinithart ;;;
    ret started.
End trap.

(** ** start.c: from machine mode to [main] in supervisor mode *)

Definition MSTATUS_MPP_MASK : Z := Z.shiftl 3 11.
Definition MSTATUS_MPP_M : Z := Z.shiftl 3 11.
Definition MSTATUS_MPP_S : Z := Z.shiftl 1 11.
Definition MSTATUS_MIE : Z := Z.shiftl 1 3.
Definition SIE_SEIE : Z := Z.shiftl 1 9.
Definition SIE_STIE : Z := Z.shiftl 1 5.
Definition SIE_SSIE : Z := Z.shiftl 1 1.
Definition MIE_STIE : Z := Z.shiftl 1 5.

(** The machine-mode registers [start] writes. *)
Record mach := mkmach {
  mstatus : Z; menvcfg : Z; m_mepc : Z; m_satp : Z; medeleg : Z; mideleg : Z; m_sie : Z;
  pmpaddr0 : Z; pmpcfg0 : Z; mie : Z; mcounteren : Z; m_stimecmp : Z; m_time : Z
}.
#[export] Instance mach_settable : Settable mach :=
  fun r => mkmach (mstatus r) (menvcfg r) (m_mepc r) (m_satp r) (medeleg r) (mideleg r) (m_sie r)
    (pmpaddr0 r) (pmpcfg0 r) (mie r) (mcounteren r) (m_stimecmp r) (m_time r).

Definition timerinit (r : mach) : mach :=
  r <| mie ::= fun x => Z.lor x MIE_STIE |>
    <| mcounteren ::= fun x => Z.lor x 2 |>
    <| m_stimecmp := u64 (m_time r + 1000000) |>.

(** [main_addr]: the address of [main]. [mret] then enters it. *)
Definition start (main_addr : Z) (r : mach) : mach :=
  let x2 := mstatus r in
  let r := r <| mstatus ::= fun x => Z.land x (Z.lnot MSTATUS_MIE) |> in   (* r_menvcfg *)
  let r := r <| menvcfg ::= fun x => Z.lor x (Z.shiftl 1 63) |> in
  let x2 := Z.land x2 (Z.lnot MSTATUS_MPP_MASK) in
  let x2 := Z.lor x2 MSTATUS_MPP_S in
  let r := r <| mstatus := x2 |> <| m_mepc := main_addr |> <| m_satp := 0 |>
             <| medeleg := 0xffff |> <| mideleg := 0xffff |>
             <| m_sie ::= fun x => Z.lor x (Z.lor SIE_SEIE (Z.lor SIE_STIE SIE_SSIE)) |>
             <| pmpaddr0 := 0x3fffffffffffff |> <| pmpcfg0 := 0xf |> in
  timerinit r.
