(* ===== verification/Ulib.v ===== *)
(** * The user library's strings and numbers (user/ulib.c)

    As in CString.v the routines are functions on memory.  [strlen], [memset] and [memcmp]
    of user/ulib.c have the loops of the kernel's, [memmove] decides by other means in which
    direction to copy. *)

From S2P Require Import Prelude Mem CString.

Module Ulib.

(** [while(( *s++ = *t++) != 0);] copies at most [fuel] characters. *)
Fixpoint strcpy (m : mem) (s t : Z) (fuel : nat) : option mem :=
  match fuel with
  | O => None
  | S fuel =>
      let m' := mem_set m s (mem_get m t) in
      if decide (mem_get m t = 0) then Some m' else strcpy m' (s + 1) (t + 1) fuel
  end.

Fixpoint strcmp (m : mem) (p q : Z) (fuel : nat) : option Z :=
  match fuel with
  | O => None
  | S fuel =>
      if decide (mem_get m p ≠ 0 ∧ mem_get m p = mem_get m q) then strcmp m (p + 1) (q + 1) fuel
      else Some (u8 (mem_get m p) - u8 (mem_get m q))
  end.

Definition strlen (m : mem) (s : Z) (fuel : nat) : option Z := CString.strlen m s fuel.
Definition memset (m : mem) (dst c n : Z) : mem := memset_loop m dst 0 c (Z.to_nat n).
Definition memcmp (m : mem) (s1 s2 n : Z) : Z := memcmp_loop m s1 s2 (Z.to_nat n).

(** The address of the first [c], or 0. *)
Fixpoint strchr (m : mem) (s c : Z) (fuel : nat) : option Z :=
  match fuel with
  | O => None
  | S fuel =>
      if decide (mem_get m s = 0) then Some 0
      else if decide (mem_get m s = c) then Some s
      else strchr m (s + 1) c fuel
  end.

Definition memmove (m : mem) (dst src n : Z) : mem :=
  if decide (src > dst) then copy_fwd m dst src (Z.to_nat n)
  else copy_bwd m (dst + n) (src + n) (Z.to_nat n).

Definition memcpy (m : mem) (dst src n : Z) : mem := memmove m dst src n.

(** [atoi] of the characters before the null; [n] is an [int]. *)
Fixpoint atoi_loop (s : list Z) (n : Z) : Z :=
  match s with
  | c :: s => if (48 <=? c) && (c <=? 57) then atoi_loop s (s32 (n * 10 + c - 48)) else n
  | [] => n
  end.
Definition atoi (s : list Z) : Z := atoi_loop s 0.

(** ** memmove *)

(** The user's and the kernel's [memmove] do the same, however the areas overlap. *)
Lemma memmove_kernel m dst src n a : 0 ≤ n → mem_get (memmove m dst src n) a = mem_get (CString.memmove m dst src n) a.
Proof.
  intros Hn. rewrite mem_get_memmove by done. unfold memmove. destruct (decide (src > dst)).
  - rewrite mem_get_copy_fwd by lia. rewrite Z2Nat.id by done. done.
  - rewrite mem_get_copy_bwd by lia. rewrite Z2Nat.id by done.
    destruct (decide (dst ≤ a < dst + n)); [rewrite decide_True by lia|rewrite decide_False by lia; done]. f_equal. lia.
Qed.

(** ** Strings *)

(** [strcpy] to a place apart: the string with its null, and nothing else. *)
Lemma strcpy_spec m s t n : cstring_at m t n → s + n < t ∨ t + n < s → ∃ m', strcpy m s t (S (Z.to_nat n)) = Some m' ∧
  ∀ a, mem_get m' a = if decide (s ≤ a ≤ s + n) then mem_get m (t + (a - s)) else mem_get m a.
Proof.
  intros (Hn & Hz & Hnz). remember (Z.to_nat n) as k eqn:Ek. revert m s t n Hn Hz Hnz Ek. induction k as [|k IH]; intros m s t n Hn Hz Hnz Ek Hap.
  - assert (n = 0) as -> by lia. rewrite Z.add_0_r in Hz. cbn [strcpy]. rewrite decide_True by done. eexists. split; [done|]. intros a. rewrite mem_get_set.
    destruct (decide (s = a)) as [<-|]; [rewrite decide_True by lia; by rewrite Z.sub_diag, Z.add_0_r|by rewrite decide_False by lia].
  - assert (Hlt : 0 < n) by lia. pose proof (Hnz 0 ltac:(lia)) as H0. rewrite Z.add_0_r in H0. cbn [strcpy]. rewrite decide_False by done. set (m1 := mem_set m s (mem_get m t)).
    assert (Hsame : ∀ x, t ≤ x ≤ t + n → mem_get m1 x = mem_get m x) by (intros x Hx; unfold m1; rewrite mem_get_set; by rewrite decide_False by lia).
    destruct (IH m1 (s + 1) (t + 1) (n - 1)) as (m' & E & Hm'); [lia|rewrite Hsame by lia; rewrite <-Hz; f_equal; lia|intros i Hi; rewrite Hsame by lia; specialize (Hnz (i + 1) ltac:(lia)); intros E; apply Hnz; rewrite <-E; f_equal; lia|lia|lia|].
    exists m'. split; [done|]. intros a. rewrite Hm'. destruct (decide (s + 1 ≤ a ≤ s + 1 + (n - 1))).
    + rewrite decide_True by lia. rewrite Hsame by lia. f_equal. lia.
    + unfold m1. rewrite mem_get_set. destruct (decide (s = a)) as [<-|]; [rewrite decide_True by lia; by rewrite Z.sub_diag, Z.add_0_r|by rewrite decide_False by lia].
Qed.

(** [strcmp] decides whether two strings are the same. *)
Lemma strcmp_spec m p q n n' : mem_ok m → cstring_at m p n → cstring_at m q n' →
  ∃ r, strcmp m p q (S (Z.to_nat n)) = Some r ∧ (r = 0 ↔ n = n' ∧ ∀ i, 0 ≤ i < n → mem_get m (p + i) = mem_get m (q + i)).
Proof.
  intros Hok (Hn & Hz & Hnz) (Hn' & Hz' & Hnz'). remember (Z.to_nat n) as k eqn:Ek. revert p q n n' Hn Hz Hnz Hn' Hz' Hnz' Ek.
  assert (Hu : ∀ a, u8 (mem_get m a) = mem_get m a) by (intros a; apply wrap_small; exact (Hok a)).
  induction k as [|k IH]; intros p q n n' Hn Hz Hnz Hn' Hz' Hnz' Ek; cbn [strcmp].
  - assert (n = 0) as -> by lia. rewrite Z.add_0_r in Hz. rewrite decide_False by (intros [? _]; done). eexists. split; [done|]. rewrite !Hu, Hz.
    destruct (decide (n' = 0)) as [->|]; [rewrite Z.add_0_r in Hz'; rewrite Hz'; split; [intros _; split; [done|lia]|done]|].
    specialize (Hnz' 0 ltac:(lia)). rewrite Z.add_0_r in Hnz'. split; [lia|intros [? _]; lia].
  - pose proof (Hnz 0 ltac:(lia)) as H0. rewrite Z.add_0_r in H0. destruct (decide (mem_get m p = mem_get m q)) as [E|E].
    + rewrite decide_True by done. destruct (decide (n' = 0)) as [->|]; [rewrite Z.add_0_r in Hz'; congruence|].
      assert (Hsh : ∀ x i, mem_get m (x + 1 + i) = mem_get m (x + (1 + i))) by (intros x i; f_equal; lia).
      destruct (IH (p + 1) (q + 1) (n - 1) (n' - 1)) as (r & Er & Hr); try lia.
      * rewrite Hsh, <-Hz. f_equal. lia.
      * intros i Hi. rewrite Hsh. apply Hnz. lia.
      * rewrite Hsh, <-Hz'. f_equal. lia.
      * intros i Hi. rewrite Hsh. apply Hnz'. lia.
      * exists r. split; [done|]. rewrite Hr. split.
        -- intros [E1 E2]. split; [lia|]. intros i Hi. destruct (decide (i = 0)) as [->|]; [by rewrite !Z.add_0_r|].
           specialize (E2 (i - 1) ltac:(lia)). rewrite !Hsh in E2. by replace (1 + (i - 1)) with i in E2 by lia.
        -- intros [E1 E2]. split; [lia|]. intros i Hi. rewrite !Hsh. apply E2. lia.
    + rewrite decide_False by tauto. eexists. split; [done|]. rewrite !Hu. split; [lia|]. intros [_ E2]. specialize (E2 0 ltac:(lia)). by rewrite !Z.add_0_r in E2.
Qed.

(** ** Numbers *)

Definition digit (c : Z) : Prop := 48 ≤ c ≤ 57.

(** The value of a numeral. *)
Definition numeral (s : list Z) : Z := foldl (fun n c => 10 * n + (c - 48)) 0 s.

Lemma numeral_mono s : ∀ n, Forall digit s → 0 ≤ n → n ≤ foldl (fun n c => 10 * n + (c - 48)) n s.
Proof.
  induction s as [|c s IH]; intros n Hs Hn; cbn [foldl]; [lia|]. apply Forall_cons in Hs as [Hc Hs]. unfold digit in Hc.
  specialize (IH (10 * n + (c - 48)) Hs ltac:(lia)). lia.
Qed.

(** [atoi] reads the numeral before the first character that is not a digit, when it fits an [int]. *)
Lemma atoi_numeral s rest : Forall digit s → (∀ c r, rest = c :: r → ¬ digit c) → numeral s < 2 ^ 31 → atoi (s ++ rest) = numeral s.
Proof.
  intros Hs Hr. unfold atoi, numeral. assert (H0 : 0 ≤ 0) by done. revert H0. generalize 0 at 2 3 4 5. induction s as [|c s IH]; intros n Hn Hlt; cbn [app foldl atoi_loop] in *.
  - destruct rest as [|c r]; [done|]. specialize (Hr c r eq_refl). cbn [atoi_loop]. unfold digit in Hr.
    destruct (Z.leb_spec 48 c), (Z.leb_spec c 57); try done. lia.
  - apply Forall_cons in Hs as [Hc Hs]. unfold digit in Hc. rewrite (proj2 (Z.leb_le 48 c)), (proj2 (Z.leb_le c 57)) by lia. cbn [andb].
    pose proof (numeral_mono s (10 * n + (c - 48)) Hs ltac:(lia)) as Hm.
    assert (s32 (n * 10 + c - 48) = 10 * n + (c - 48)) as -> by (unfold s32; rewrite sgn_small; lia). apply IH; [done|lia|done].
Qed.
End Ulib.
