(* ===== verification/User.v ===== *)
(** * User programs as trees of system calls

    A user program is the tree of the system calls it makes, branching on their results;
    [Exit] ends the process.  [format] is the text the user library's [printf] writes
    (user/printf.c), a character at a time. *)

From Stdlib Require Import FunctionalExtensionality.
From S2P Require Import Prelude Mem Printf Kernel Fs.

Inductive proc (A : Type) : Type :=
  | Ret (a : A)
  | Exit (status : Z)
  | Stuck
  | Fork (k : Z → proc A)
  | Wait (k : Z → proc A)
  | Pipe (k : Z → Z → Z → proc A)
  | Read (fd n : Z) (k : option (list Z) → proc A)
  | Write (fd : Z) (s : list Z) (k : Z → proc A)
  | Close (fd : Z) (k : Z → proc A)
  | Dup (fd : Z) (k : Z → proc A)
  | Open (path : list Z) (mode : Z) (k : Z → proc A)
  | Exec (path : list Z) (argv : list (list Z)) (k : Z → proc A)
  | Chdir (path : list Z) (k : Z → proc A)
  | Mknod (path : list Z) (major minor : Z) (k : Z → proc A)
  | Mkdir (path : list Z) (k : Z → proc A)
  | Link (old new : list Z) (k : Z → proc A)
  | Unlink (path : list Z) (k : Z → proc A)
  | Kill (pid : Z) (k : Z → proc A)
  | Sleep (n : Z) (k : Z → proc A)
  | Fstat (fd : Z) (k : option stat → proc A).
Arguments Ret {A}. Arguments Exit {A}. Arguments Stuck {A}. Arguments Fork {A}. Arguments Wait {A}.
Arguments Pipe {A}. Arguments Read {A}. Arguments Write {A}. Arguments Close {A}. Arguments Dup {A}.
Arguments Open {A}. Arguments Exec {A}. Arguments Chdir {A}. Arguments Mknod {A}.
Arguments Mkdir {A}. Arguments Link {A}. Arguments Unlink {A}. Arguments Kill {A}. Arguments Sleep {A}. Arguments Fstat {A}.

Fixpoint then_ {A B} (m : proc A) (f : A → proc B) : proc B :=
  match m with
  | Ret a => f a
  | Exit s => Exit s
  | Stuck => Stuck
  | Fork k => Fork (fun r => then_ (k r) f)
  | Wait k => Wait (fun r => then_ (k r) f)
  | Pipe k => Pipe (fun r p0 p1 => then_ (k r p0 p1) f)
  | Read fd n k => Read fd n (fun r => then_ (k r) f)
  | Write fd s k => Write fd s (fun r => then_ (k r) f)
  | Close fd k => Close fd (fun r => then_ (k r) f)
  | Dup fd k => Dup fd (fun r => then_ (k r) f)
  | Open p m k => Open p m (fun r => then_ (k r) f)
  | Exec p a k => Exec p a (fun r => then_ (k r) f)
  | Chdir p k => Chdir p (fun r => then_ (k r) f)
  | Mknod p a b k => Mknod p a b (fun r => then_ (k r) f)
  | Mkdir p k => Mkdir p (fun r => then_ (k r) f)
  | Link o n k => Link o n (fun r => then_ (k r) f)
  | Unlink p k => Unlink p (fun r => then_ (k r) f)
  | Kill p k => Kill p (fun r => then_ (k r) f)
  | Sleep n k => Sleep n (fun r => then_ (k r) f)
  | Fstat fd k => Fstat fd (fun r => then_ (k r) f)
  end.

Declare Scope proc_scope.
Delimit Scope proc_scope with proc.
Notation "'let~' x := m 'in' k" := (then_ m (fun x => k))
  (at level 10, x pattern, m at level 100, k at level 200) : proc_scope.
Notation "m ;~ k" := (then_ m (fun _ => k)) (at level 100, k at level 200, right associativity) : proc_scope.
#[global] Open Scope proc_scope.

Lemma then_assoc {A B C} (m : proc A) (f : A → proc B) (g : B → proc C) :
  then_ (then_ m f) g = then_ m (fun a => then_ (f a) g).
Proof. induction m; cbn [then_]; f_equal; repeat (apply functional_extensionality; intros ?); done. Qed.

(** A C loop, of at most [fuel] rounds. *)
Fixpoint repeat_ {A B} (fuel : nat) (body : A → proc (A + B)) (a : A) : proc B :=
  match fuel with
  | O => Stuck
  | S fuel => let~ r := body a in match r with inl a' => repeat_ fuel body a' | inr b => Ret b end
  end.

(** ** user/printf.c *)

Module UPrintf.

(** [digits[d]] *)
Definition digit (d : Z) : Z := if d <? 10 then 48 + d else 65 + (d - 10).

(** The digits of the [uint] [x], the least significant first: at most 32 of them. *)
Fixpoint digits (fuel : nat) (x base : Z) : list Z :=
  match fuel with
  | O => []
  | S fuel => digit (x mod base) :: (if x / base =? 0 then [] else digits fuel (x / base) base)
  end.

(** What [printint] writes. [xx] is an [int]: a wider argument is converted. *)
Definition printint (xx base : Z) (sgn : bool) : list Z :=
  let xx := s32 xx in
  let neg := sgn && (xx <? 0) in
  let x := if neg then u32 (- xx) else u32 xx in
  reverse (digits 32 x base ++ if neg then [45] else []).

Definition printptr (x : Z) : list Z :=
  [48; 120] ++ ((fun i => digit (Z.shiftr (u64 (Z.shiftl x (4 * Z.of_nat i))) 60)) <$> seq 0 16).

(** The text that [vprintf] writes; [None] when an argument is missing or of another type. *)
Fixpoint format (fmt : list Z) (args : list arg) {struct fmt} : option (list Z) :=
  let number base sgn rest :=
    match args with
    | AInt v :: args => (fun l => printint v base sgn ++ l) <$> format rest args
    | _ => None
    end in
  match fmt with
  | [] => Some []
  | c :: f =>
      if negb (c =? ch "%") then cons c <$> format f args else
      match f with
      | [] => Some []
      | c0 :: f1 =>
          if c0 =? ch "d" then number 10 true f1
          else if c0 =? ch "u" then number 10 false f1
          else if c0 =? ch "x" then number 16 false f1
          else if c0 =? ch "l" then
            match f1 with
            | c1 :: f2 =>
                if c1 =? ch "d" then number 10 true f2
                else if c1 =? ch "u" then number 10 false f2
                else if c1 =? ch "x" then number 16 false f2
                else if c1 =? ch "l" then
                  match f2 with
                  | c2 :: f3 =>
                      if c2 =? ch "d" then number 10 true f3
                      else if c2 =? ch "u" then number 10 false f3
                      else if c2 =? ch "x" then number 16 false f3
                      else (fun l => [ch "%"; c0] ++ l) <$> format f1 args
                  | [] => (fun l => [ch "%"; c0] ++ l) <$> format f1 args
                  end
                else (fun l => [ch "%"; c0] ++ l) <$> format f1 args
            | [] => Some [ch "%"; c0]
            end
          else if c0 =? ch "p" then
            match args with
            | AInt v :: args => (fun l => printptr (u64 v) ++ l) <$> format f1 args
            | _ => None
            end
          else if c0 =? ch "s" then
            match args with
            | AStr s :: args => (fun l => default (bytes_of "(null)") s ++ l) <$> format f1 args
            | _ => None
            end
          else if c0 =? ch "%" then cons (ch "%") <$> format f1 args
          else (fun l => [ch "%"; c0] ++ l) <$> format f1 args
      end
  end.
End UPrintf.

Definition putc (fd c : Z) : proc unit := Write fd [c] (fun _ => Ret tt).
Fixpoint puts (fd : Z) (s : list Z) : proc unit :=
  match s with [] => Ret tt | c :: s => putc fd c ;~ puts fd s end.

Definition fprintf (fd : Z) (fmt : string) (args : list arg) : proc unit :=
  match UPrintf.format (bytes_of fmt) args with Some text => puts fd text | None => Stuck end.

Lemma puts_exit {A B} fd text s (f : A → proc B) : then_ (puts fd text ;~ Exit s) f = (puts fd text ;~ Exit s).
Proof. induction text as [|c text IH]; cbn; [done|]. f_equal. apply functional_extensionality. intros _. apply IH. Qed.

(** A message, and then the end of the process. *)
Lemma fprintf_exit {A B} fd fmt args s (f : A → proc B) :
  then_ (fprintf fd fmt args ;~ Exit s) f = (fprintf fd fmt args ;~ Exit s).
Proof. unfold fprintf. destruct (UPrintf.format _ _); [apply puts_exit|done]. Qed.
