(* ===== verification/Sh.v ===== *)
(** * The shell's parser (user/sh.c)

    The parser works on the command line from [*ps] up to its end [es]; the state of the
    monad is that rest of the line, without the terminating null.  A pair of pointers
    [q], [eq] around a token is the text between them, which is the string [argv] and
    [file] point to once [nulterminate] has cut the line.  [panic] prints its message and
    exits the process that parses. *)

From S2P Require Import Prelude Mem Printf Fs Syscall.

Definition MAXARGS : nat := 10.

Inductive cmd :=
  | EXEC (argv : list (list Z))
  | REDIR (c : cmd) (file : list Z) (mode fd : Z)
  | PIPE (left right : cmd)
  | LIST (left right : cmd)
  | BACK (c : cmd).

Definition whitespace : list Z := [32; 9; 13; 10; 11].
Definition symbols : list Z := bytes_of "<|>&;()".
Definition is_ws (c : Z) : bool := bool_decide (c ∈ whitespace).
Definition is_sym (c : Z) : bool := bool_decide (c ∈ symbols).

Abbreviation P := (M (list Z)).

Fixpoint skip_ws (s : list Z) : list Z :=
  match s with c :: s' => if is_ws c then skip_ws s' else s | [] => [] end.

(** The characters of a word, and what follows it. *)
Fixpoint span_word (s : list Z) : list Z * list Z :=
  match s with
  | c :: s' => if is_ws c || is_sym c then ([], s) else let '(w, r) := span_word s' in (c :: w, r)
  | [] => ([], [])
  end.

(** The token's code ([ret]) and its text. *)
Definition gettoken : P (Z * list Z) := fun s =>
  let s := skip_ws s in
  let '(ret, text, s) :=
    match s with
    | [] => (0, [], [])
    | c :: s' =>
        if c =? ch ">" then
          match s' with
          | d :: s2 => if d =? ch ">" then (ch "+", [c; d], s2) else (c, [c], s')
          | [] => (c, [c], s')
          end
        else if is_sym c then (c, [c], s')
        else let '(w, r) := span_word s in (ch "a", w, r)
    end in
  Ok (ret, text) (skip_ws s).

Definition peek (toks : list Z) : P bool := fun s =>
  let s := skip_ws s in
  Ok (match s with c :: _ => bool_decide (c ∈ toks) | [] => false end) s.

(** A loop that reads a token in each round. *)
Definition input_loop {A B} (body : A → P (A + B)) (a : A) : P B := fun s => loop (S (length s)) body a s.

(** The redirections of [parseredirs] as functions on the command they wrap. *)
Definition redir_body (cmd0 : cmd) : P (cmd + cmd) :=
  let! more := peek (bytes_of "<>") in
  if negb more then ret (inr cmd0) else
  let! (tok, _) := gettoken in
  let! (t, q) := gettoken in
  if negb (t =? ch "a") then panic "missing file for redirection" else
  ret (inl (if tok =? ch "<" then REDIR cmd0 q O_RDONLY 0
            else if tok =? ch ">" then REDIR cmd0 q (Z.lor (Z.lor O_WRONLY O_CREATE) O_TRUNC) 1
            else if tok =? ch "+" then REDIR cmd0 q (Z.lor O_WRONLY O_CREATE) 1
            else cmd0)).
Definition parseredirs (c : cmd) : P cmd := input_loop redir_body c.

(** [ret] of [parseexec] points to the redirections around the [execcmd] that is still
    being filled: [set_argv] is a store to that [execcmd]. *)
Fixpoint set_argv (c : cmd) (argv : list (list Z)) : cmd :=
  match c with
  | REDIR c f m d => REDIR (set_argv c argv) f m d
  | _ => EXEC argv
  end.

Definition args_body (st : cmd * list (list Z)) : P ((cmd * list (list Z)) + cmd) :=
  let '(r, argv) := st in
  let! stop := peek (bytes_of "|)&;") in
  if (stop : bool) then ret (inr r) else
  let! (tok, q) := gettoken in
  if tok =? 0 then ret (inr r) else
  if negb (tok =? ch "a") then panic "syntax" else
  let argv := argv ++ [q] in
  if decide (MAXARGS ≤ length argv)%nat then panic "too many args" else
  let! r := parseredirs (set_argv r argv) in
  ret (inl (r, argv)).

Definition back_body (c : cmd) : P (cmd + cmd) :=
  let! more := peek (bytes_of "&") in
  if negb more then ret (inr c) else
  let! _ := gettoken in
  ret (inl (BACK c)).

Definition nofuel {A} : P A := fun _ => NoFuel.

(** [fuel] bounds the nesting of calls. *)
Fixpoint parseline (fuel : nat) : P cmd :=
  match fuel with
  | O => nofuel
  | S fuel =>
      let! c := parsepipe fuel in
      let! c := input_loop back_body c in
      let! more := peek (bytes_of ";") in
      if negb more then ret c else
      let! _ := gettoken in
      let! r := parseline fuel in
      ret (LIST c r)
  end
with parsepipe (fuel : nat) : P cmd :=
  match fuel with
  | O => nofuel
  | S fuel =>
      let! c := parseexec fuel in
      let! more := peek (bytes_of "|") in
      if negb more then ret c else
      let! _ := gettoken in
      let! r := parsepipe fuel in
      ret (PIPE c r)
  end
with parseexec (fuel : nat) : P cmd :=
  match fuel with
  | O => nofuel
  | S fuel =>
      let! block := peek (bytes_of "(") in
      if (block : bool) then parseblock fuel else
      let! r := parseredirs (EXEC []) in
      input_loop args_body (r, [])
  end
with parseblock (fuel : nat) : P cmd :=
  match fuel with
  | O => nofuel
  | S fuel =>
      let! open := peek (bytes_of "(") in
      if negb open then panic "parseblock" else
      let! _ := gettoken in
      let! c := parseline fuel in
      let! close := peek (bytes_of ")") in
      if negb close then panic "syntax - missing )" else
      let! _ := gettoken in
      parseredirs c
  end.

Definition parse_fuel (s : list Z) : nat := (4 * length s + 4)%nat.

Definition parsecmd : P cmd := fun s =>
  (let! c := parseline (parse_fuel s) in
   let! _ := peek [] in
   let! rest := get in
   if decide (rest = []) then ret c else panic "syntax") s.

(** ** The parser terminates *)

(** [m] from [s] returns with no more input than it had, or panics. *)
Definition tot {A} (m : P A) (s : list Z) : Prop :=
  match m s with Ok _ s' => (length s' ≤ length s)%nat | Panic _ _ => True | _ => False end.

Lemma tot_bind {A B} (m : P A) (f : A → P B) s :
  tot m s → (∀ a s', m s = Ok a s' → (length s' ≤ length s)%nat → tot (f a) s') → tot (bind m f) s.
Proof.
  unfold tot, bind. intros Hm Hf. destruct (m s) as [a s'| | | |] eqn:E; try done.
  specialize (Hf a s' eq_refl Hm). destruct (f a s'); try done. lia.
Qed.

Lemma tot_ret {A} (a : A) s : tot (ret a) s.
Proof. unfold tot, ret. lia. Qed.

Lemma skip_ws_length s : (length (skip_ws s) ≤ length s)%nat.
Proof. induction s as [|c s IH]; simpl; [lia|]. destruct (is_ws c); simpl; lia. Qed.

Lemma span_word_length s : (length (span_word s).2 ≤ length s)%nat.
Proof.
  induction s as [|c s IH]; simpl; [lia|]. destruct (is_ws c || is_sym c); simpl; [lia|].
  destruct (span_word s); simpl in *; lia.
Qed.

Lemma skip_ws_head c s s' : skip_ws s = c :: s' → is_ws c = false.
Proof.
  induction s as [|d s IH]; simpl; [done|]. destruct (is_ws d) eqn:E; [done|]. by intros [= <- _].
Qed.

(** [gettoken] takes at least a character when there is one. *)
Lemma gettoken_length s r s' :
  gettoken s = Ok r s' → (length s' ≤ length s)%nat ∧ (skip_ws s ≠ [] → (length s' < length s)%nat).
Proof.
  unfold gettoken. pose proof (skip_ws_length s) as Hs. destruct (skip_ws s) as [|c t] eqn:Es.
  { intros [= _ <-]. simpl in *. split; [lia|done]. }
  simpl in Hs. assert (Hw : is_ws c = false) by (by eapply skip_ws_head).
  destruct (c =? ch ">"); [|destruct (is_sym c) eqn:Esym].
  - destruct t as [|d t]; [intros [= _ <-]; simpl in *; lia|]. destruct (d =? ch ">"); intros [= _ <-].
    + pose proof (skip_ws_length t). simpl in *. lia.
    + pose proof (skip_ws_length (d :: t)). simpl in *. lia.
  - intros [= _ <-]. pose proof (skip_ws_length t). lia.
  - cbn [span_word]. rewrite Hw, Esym. cbn [orb]. pose proof (span_word_length t) as Hl.
    destruct (span_word t) as [w r0]. intros [= _ <-]. pose proof (skip_ws_length r0). simpl in *. lia.
Qed.

Lemma gettoken_tot s : tot gettoken s.
Proof. unfold tot. destruct (gettoken s) as [r s'| | | |] eqn:E; [|unfold gettoken in E; by repeat case_match..].
  by eapply gettoken_length.
Qed.

(** After a [peek] that found a character, the next token is not empty. *)
Lemma peek_spec toks s : ∃ b, peek toks s = Ok b (skip_ws s) ∧ (b = true → skip_ws s ≠ []).
Proof. eexists. split; [done|]. by destruct (skip_ws s). Qed.

Lemma skip_ws_idemp s : skip_ws (skip_ws s) = skip_ws s.
Proof. induction s as [|c s IH]; simpl; [done|]. destruct (is_ws c) eqn:E; [done|]. simpl. by rewrite E. Qed.

(** A [peek] that stops the loop, or a token that is read. *)
Lemma tot_peek {A} toks (f : bool → P A) s :
  (∀ b, (b = true → skip_ws s ≠ []) → tot (f b) (skip_ws s)) → tot (bind (peek toks) f) s.
Proof.
  intros H. destruct (peek_spec toks s) as (b & E & Hb). apply tot_bind.
  - unfold tot. rewrite E. apply skip_ws_length.
  - intros a s' E' _. rewrite E in E'. injection E' as <- <-. by apply H.
Qed.

Lemma tot_gettoken {A} (f : Z * list Z → P A) s :
  (∀ r s', (length s' ≤ length s)%nat → (skip_ws s ≠ [] → (length s' < length s)%nat) → tot (f r) s') →
  tot (bind gettoken f) s.
Proof.
  intros H. apply tot_bind; [apply gettoken_tot|]. intros r s' E _. apply gettoken_length in E as [H1 H2]. by apply H.
Qed.

(** Rounds of a loop that go on have read something. *)
Definition round {A B} (body : A → P (A + B)) : Prop := ∀ a s,
  match body a s with
  | Ok (inl _) s' => (length s' < length s)%nat
  | Ok (inr _) s' => (length s' ≤ length s)%nat
  | Panic _ _ => True
  | _ => False
  end.

Lemma input_loop_tot {A B} (body : A → P (A + B)) a s : round body → tot (input_loop body a) s.
Proof.
  intros Hr. unfold input_loop. cut (∀ n a s, (length s < n)%nat → tot (loop n body a) s); [intros H; apply H; lia|].
  clear a s. induction n as [|n IH]; intros a s Hn; [lia|]. cbn [loop]. unfold tot, bind. specialize (Hr a s).
  destruct (body a s) as [[a'|b] s'| | | |]; try done. specialize (IH a' s' ltac:(lia)). unfold tot in IH.
  destruct (loop n body a' s'); try done. lia.
Qed.

Lemma redir_round : round redir_body.
Proof.
  intros c s. unfold redir_body. destruct (peek_spec (bytes_of "<>") s) as (b & E & Hb). rewrite (bind_Ok _ _ _ _ _ E).
  pose proof (skip_ws_length s). destruct b; cbn [negb]; [|done]. specialize (Hb eq_refl).
  pose proof (gettoken_tot (skip_ws s)) as Ht. unfold bind, tot in *. destruct (gettoken (skip_ws s)) as [[tok q] s1| | | |] eqn:E1; try done.
  apply gettoken_length in E1 as [_ H1]. rewrite skip_ws_idemp in H1. specialize (H1 Hb).
  pose proof (gettoken_tot s1) as Ht1. unfold tot in Ht1. destruct (gettoken s1) as [[t q'] s2| | | |]; try done.
  destruct (negb (t =? ch "a")); [done|]. cbn. lia.
Qed.

Lemma parseredirs_tot c s : tot (parseredirs c) s.
Proof. apply input_loop_tot, redir_round. Qed.

Lemma back_round : round back_body.
Proof.
  intros c s. unfold back_body. destruct (peek_spec (bytes_of "&") s) as (b & E & Hb). rewrite (bind_Ok _ _ _ _ _ E).
  pose proof (skip_ws_length s). destruct b; cbn [negb]; [|done]. specialize (Hb eq_refl).
  pose proof (gettoken_tot (skip_ws s)) as Ht. unfold bind, tot in *. destruct (gettoken (skip_ws s)) as [r s1| | | |] eqn:E1; try done.
  apply gettoken_length in E1 as [_ H1]. rewrite skip_ws_idemp in H1. specialize (H1 Hb). cbn. lia.
Qed.

Lemma args_round : round args_body.
Proof.
  intros [r argv] s. unfold args_body. destruct (peek_spec (bytes_of "|)&;") s) as (b & E & Hb). rewrite (bind_Ok _ _ _ _ _ E).
  pose proof (skip_ws_length s). destruct b; [done|].
  pose proof (gettoken_tot (skip_ws s)) as Ht. unfold tot in Ht. unfold bind at 1.
  destruct (gettoken (skip_ws s)) as [[tok q] s1| | | |] eqn:E1; try done.
  destruct (Z.eqb_spec tok 0) as [->|Hnz]; [cbn; lia|]. destruct (negb (tok =? ch "a")); [done|]. case_decide; [done|].
  assert (Hlt : (length s1 < length (skip_ws s))%nat).
  { apply gettoken_length in E1 as H1. destruct H1 as [_ H1]. rewrite skip_ws_idemp in H1. apply H1. intros E2.
    rewrite E2 in E1. cbn in E1. by injection E1 as <- _ _. }
  pose proof (parseredirs_tot (set_argv r (argv ++ [q])) s1) as Hp. unfold bind, tot in *.
  destruct (parseredirs _ s1); try done. cbn. lia.
Qed.

(** Four levels of calls for each parenthesis, semicolon or bar that is read. *)
Lemma parse_tot fuel : ∀ s,
  ((4 * length s + 4 ≤ fuel)%nat → tot (parseline fuel) s) ∧
  ((4 * length s + 3 ≤ fuel)%nat → tot (parsepipe fuel) s) ∧
  ((4 * length s + 2 ≤ fuel)%nat → tot (parseexec fuel) s) ∧
  ((4 * length s + 1 ≤ fuel)%nat → tot (parseblock fuel) s).
Proof.
  induction fuel as [|fuel IH]; [intros s; split_and!; lia|]. intros s. split_and!; intros Hf; cbn -[bytes_of Nat.mul].
  - apply tot_bind; [apply IH; lia|]. intros c s1 _ H1. apply tot_bind; [apply input_loop_tot, back_round|].
    intros c2 s2 _ H2. apply tot_peek. intros b Hb. pose proof (skip_ws_length s2). destruct b; cbn [negb]; [|apply tot_ret].
    apply tot_gettoken. intros r s3 _ H3. rewrite skip_ws_idemp in H3. specialize (H3 (Hb eq_refl)).
    apply tot_bind; [apply IH; lia|]. intros; apply tot_ret.
  - apply tot_bind; [apply IH; lia|]. intros c s1 _ H1.
    apply tot_peek. intros b Hb. pose proof (skip_ws_length s1). destruct b; cbn [negb]; [|apply tot_ret].
    apply tot_gettoken. intros r s3 _ H3. rewrite skip_ws_idemp in H3. specialize (H3 (Hb eq_refl)).
    apply tot_bind; [apply IH; lia|]. intros; apply tot_ret.
  - apply tot_peek. intros b Hb. pose proof (skip_ws_length s). destruct b; [apply IH; lia|].
    apply tot_bind; [apply parseredirs_tot|]. intros c s1 _ H1. apply input_loop_tot, args_round.
  - apply tot_peek. intros b Hb. pose proof (skip_ws_length s). destruct b; cbn [negb]; [|done].
    apply tot_gettoken. intros r s3 _ H3. rewrite skip_ws_idemp in H3. specialize (H3 (Hb eq_refl)).
    apply tot_bind; [apply IH; lia|]. intros c s4 _ H4. apply tot_peek. intros b' Hb'. destruct b'; cbn [negb]; [|done].
    apply tot_gettoken. intros r' s5 _ _. apply parseredirs_tot.
Qed.

Lemma parsecmd_returns (s : list Z) :
  (∃ c, parsecmd s = Ok c []) ∨ (∃ msg s', parsecmd s = Panic msg s').
Proof.
  assert (Ht : tot (parseline (parse_fuel s)) s) by (apply parse_tot; unfold parse_fuel; lia).
  unfold parsecmd, bind, peek, get, ret. unfold tot in Ht.
  destruct (parseline (parse_fuel s) s) as [c s1|msg s1| | |]; [|right; by exists msg, s1|done..].
  destruct (decide (skip_ws s1 = [])) as [E|E]; [|right; by eexists _, _].
  left. exists c. by rewrite E.
Qed.

(** C34: The parser always terminates: on every line [parsecmd] returns a command and has
    read the whole line, or calls [panic] (a syntax error or too many arguments). *)
Theorem parsecmd_total (s : list Z) :
  (∃ c, parsecmd s = Ok c []) ∨ (∃ msg s', parsecmd s = Panic msg s').
Proof. apply parsecmd_returns. Qed.

(** ** Printing a command and parsing it again *)

Inductive token := TWord (w : list Z) | TSym (c : Z) | TAppend.
Definition text (t : token) : list Z :=
  match t with TWord w => w | TSym c => [c] | TAppend => bytes_of ">>" end.
(** Each token after a space. *)
Definition unlex (ts : list token) : list Z := ts ≫= (fun t => 32 :: text t).

Definition word_ok (w : list Z) : Prop := w ≠ [] ∧ ∀ c, c ∈ w → is_ws c = false ∧ is_sym c = false.
Definition token_ok (t : token) : Prop :=
  match t with TWord w => word_ok w | TSym c => c ∈ symbols | TAppend => True end.

(** The token of a redirection. *)
Definition redir_tok (mode : Z) : token :=
  if mode =? O_RDONLY then TSym (ch "<") else
  if mode =? Z.lor O_WRONLY O_CREATE then TAppend else TSym (ch ">").

Definition paren (b : bool) (ts : list token) : list token :=
  if b then [TSym (ch "(")] ++ ts ++ [TSym (ch ")")] else ts.

(** A command as tokens, where a line (0), a background command (1), a pipe (2) or a
    simple command (3) is expected. *)
Fixpoint toks (level : nat) (c : cmd) : list token :=
  match c with
  | EXEC argv => TWord <$> argv
  | REDIR c f mode fd => toks 3 c ++ [redir_tok mode; TWord f]
  | PIPE l r => paren (2 <? level)%nat (toks 3 l ++ [TSym (ch "|")] ++ toks 2 r)
  | LIST l r => paren (0 <? level)%nat (toks 1 l ++ [TSym (ch ";")] ++ toks 0 r)
  | BACK c => paren (1 <? level)%nat (toks 1 c ++ [TSym (ch "&")])
  end.
Definition print (c : cmd) : list Z := unlex (toks 0 c).

(** The redirections the shell has: <, > and >>. *)
Definition redir_ok (mode fd : Z) : Prop :=
  (mode = O_RDONLY ∧ fd = 0) ∨ (mode = Z.lor (Z.lor O_WRONLY O_CREATE) O_TRUNC ∧ fd = 1) ∨
  (mode = Z.lor O_WRONLY O_CREATE ∧ fd = 1).

Fixpoint cmd_ok (c : cmd) : Prop :=
  match c with
  | EXEC argv => Forall word_ok argv ∧ (length argv < MAXARGS)%nat
  | REDIR c f mode fd => cmd_ok c ∧ word_ok f ∧ redir_ok mode fd
  | PIPE l r | LIST l r => cmd_ok l ∧ cmd_ok r
  | BACK c => cmd_ok c
  end.

#[global] Instance word_ok_dec w : Decision (word_ok w).
Proof.
  refine (cast_if (decide (w ≠ [] ∧ Forall (fun c => is_ws c = false ∧ is_sym c = false) w)));
    unfold word_ok; rewrite Forall_forall in *; done.
Defined.
#[global] Instance redir_ok_dec mode fd : Decision (redir_ok mode fd).
Proof. unfold redir_ok. apply _. Defined.
#[global] Instance cmd_ok_dec c : Decision (cmd_ok c).
Proof. induction c; cbn [cmd_ok]; apply _. Defined.

(** *** Reading tokens back *)

(** The rest of the line is the tokens [ts], up to white space. *)
Definition at_toks (s : list Z) (ts : list token) : Prop := skip_ws s = skip_ws (unlex ts).

Lemma unlex_cons t ts : unlex (t :: ts) = 32 :: text t ++ unlex ts.
Proof. done. Qed.

Lemma sym_not_ws c : c ∈ symbols → is_ws c = false.
Proof. intros H. apply bool_decide_eq_false_2. intros Hw. vm_compute in H, Hw. set_solver. Qed.

Lemma text_head t : token_ok t → ∃ c w, text t = c :: w ∧ is_ws c = false.
Proof.
  destruct t as [[|c w]|c|]; simpl.
  - by intros [? _].
  - intros [_ H]. exists c, w. split; [done|]. apply H. by left.
  - intros H. exists c, []. split; [done|]. by apply sym_not_ws.
  - intros _. eexists _, _. split; [vm_compute; reflexivity|]. done.
Qed.

Lemma skip_unlex t ts : token_ok t → skip_ws (unlex (t :: ts)) = text t ++ unlex ts.
Proof.
  intros Ht. rewrite unlex_cons. cbn [skip_ws]. change (is_ws 32) with true. cbn iota.
  destruct (text_head t Ht) as (c & w & -> & Hc). simpl. by rewrite Hc.
Qed.

Lemma span_word_unlex w ts : (∀ c, c ∈ w → is_ws c = false ∧ is_sym c = false) → span_word (w ++ unlex ts) = (w, unlex ts).
Proof.
  induction w as [|c w IH]; intros H.
  - simpl. by destruct ts as [|t ts].
  - simpl. destruct (H c) as [-> ->]; [by left|]. simpl. rewrite IH; [done|]. intros d Hd. apply H. by right.
Qed.

(** The code [gettoken] returns. *)
Definition code (t : token) : Z := match t with TWord _ => ch "a" | TSym c => c | TAppend => ch "+" end.

Lemma gettoken_at s t ts : at_toks s (t :: ts) → token_ok t → ∃ s', gettoken s = Ok (code t, text t) s' ∧ at_toks s' ts.
Proof.
  unfold at_toks. intros Hs Ht. rewrite skip_unlex in Hs by done. unfold gettoken. rewrite Hs.
  exists (skip_ws (unlex ts)). split; [|apply skip_ws_idemp]. destruct t as [w|c|]; cbn [text code].
  - destruct Ht as [Hne Hw]. destruct w as [|c w]; [done|]. cbn [app]. destruct (Hw c ltac:(by left)) as [Hc1 Hc2].
    rewrite (proj2 (Z.eqb_neq c (ch ">"))), Hc2 by (intros ->; done). change (c :: w ++ unlex ts) with ((c :: w) ++ unlex ts).
    by rewrite span_word_unlex.
  - cbn [app]. destruct (Z.eqb_spec c (ch ">")) as [->|Hne].
    + destruct ts as [|t ts]; [done|]. done.
    + cbn in Ht. unfold is_sym. by rewrite bool_decide_eq_true_2.
  - done.
Qed.

(** From the tokens [ts], [m] returns [a] and leaves [ts']. *)
Definition steps {A} (m : P A) (ts : list token) (a : A) (ts' : list token) : Prop :=
  ∀ s, at_toks s ts → ∃ s', m s = Ok a s' ∧ at_toks s' ts'.

Lemma steps_bind {A B} (m : P A) (f : A → P B) ts a ts1 b ts2 :
  steps m ts a ts1 → steps (f a) ts1 b ts2 → steps (bind m f) ts b ts2.
Proof.
  intros Hm Hf s Hs. destruct (Hm s Hs) as (s1 & E1 & H1). destruct (Hf s1 H1) as (s2 & E2 & H2).
  exists s2. by rewrite (bind_Ok _ _ _ _ _ E1).
Qed.

Lemma steps_ret {A} (a : A) ts : steps (ret a) ts a ts.
Proof. intros s Hs. by exists s. Qed.

Lemma steps_gettoken t ts : token_ok t → steps gettoken (t :: ts) (code t, text t) ts.
Proof. intros Ht s Hs. by apply gettoken_at. Qed.

Lemma steps_gettoken_nil : steps gettoken [] (0, []) [].
Proof. intros s Hs. unfold at_toks in Hs. exists []. unfold gettoken. by rewrite Hs. Qed.

(** What [peek] finds in front of the tokens [ts]. *)
Definition peeked (p : list Z) (ts : list token) : bool :=
  match ts with [] => false | t :: _ => match text t with c :: _ => bool_decide (c ∈ p) | [] => false end end.

Lemma steps_peek p ts : (∀ t, head ts = Some t → token_ok t) → steps (peek p) ts (peeked p ts) ts.
Proof.
  intros Ht s Hs. exists (skip_ws (unlex ts)). split; [|apply skip_ws_idemp]. unfold peek. unfold at_toks in Hs. rewrite Hs.
  destruct ts as [|t ts]; [done|]. specialize (Ht t eq_refl). rewrite skip_unlex by done. cbn [peeked].
  by destruct (text_head t Ht) as (c & w & -> & _).
Qed.

(** A loop is its first round and the loop from there: enough rounds is enough. *)
Lemma loop_enough {A B} (body : A → P (A + B)) : round body → ∀ n m a s,
  (length s < n)%nat → (length s < m)%nat → loop n body a s = loop m body a s.
Proof.
  intros Hr. induction n as [|n IH]; intros m a s Hn Hm; [lia|]. destruct m as [|m]; [lia|]. cbn [loop]. unfold bind.
  specialize (Hr a s). destruct (body a s) as [[a'|b] s'| | | |]; try done. apply IH; lia.
Qed.

Lemma steps_loop_next {A B} (body : A → P (A + B)) a a' b ts ts1 ts2 : round body →
  steps (body a) ts (inl a') ts1 → steps (input_loop body a') ts1 b ts2 → steps (input_loop body a) ts b ts2.
Proof.
  intros Hr Hb Hl s Hs. destruct (Hb s Hs) as (s1 & E1 & H1). destruct (Hl s1 H1) as (s2 & E2 & H2). exists s2.
  split; [|done]. unfold input_loop in *. cbn [loop]. rewrite (bind_Ok _ _ _ _ _ E1). pose proof (Hr a s) as Hlt. rewrite E1 in Hlt.
  rewrite <-E2. apply loop_enough; [done|lia..].
Qed.

Lemma steps_loop_stop {A B} (body : A → P (A + B)) a b ts ts' :
  steps (body a) ts (inr b) ts' → steps (input_loop body a) ts b ts'.
Proof.
  intros Hb s Hs. destruct (Hb s Hs) as (s1 & E1 & H1). exists s1. split; [|done]. unfold input_loop. cbn [loop].
  by rewrite (bind_Ok _ _ _ _ _ E1).
Qed.

(** The tokens that may follow a command: nothing, or one of the symbols [l]. *)
Definition follow (l : list Z) (ts : list token) : Prop :=
  match ts with [] => True | TSym c :: _ => c ∈ l | _ => False end.

(** *** Redirections *)

Definition redir : Type := list Z * Z * Z.
Definition wrap (c : cmd) (rs : list redir) : cmd := foldl (fun c '(f, m, d) => REDIR c f m d) c rs.
Definition rtoks (rs : list redir) : list token := rs ≫= (fun '(f, m, _) => [redir_tok m; TWord f]).
Definition rs_ok (rs : list redir) : Prop := Forall (fun '(f, m, d) => word_ok f ∧ redir_ok m d) rs.

Lemma redir_tok_ok m d : redir_ok m d → token_ok (redir_tok m).
Proof. intros [[-> _]|[[-> _]|[-> _]]]; [| |done]; cbn; unfold symbols; apply list_elem_of_lookup; [by exists 0%nat|by exists 2%nat]. Qed.

(** A redirection is read back as the token's mode and descriptor. *)
Lemma redir_step c f m d ts : word_ok f → redir_ok m d →
  steps (redir_body c) (redir_tok m :: TWord f :: ts) (inl (REDIR c f m d)) ts.
Proof.
  intros Hf Hm. pose proof (redir_tok_ok m d Hm) as Ht. unfold redir_body.
  eapply steps_bind; [by apply steps_peek; intros t [= <-]|].
  replace (peeked _ _) with true by (by destruct Hm as [[-> _]|[[-> _]|[-> _]]]). cbn [negb].
  eapply steps_bind; [by apply steps_gettoken|]. eapply steps_bind; [by apply steps_gettoken|].
  cbn [code text]. rewrite Z.eqb_refl. cbn [negb].
  destruct Hm as [[-> ->]|[[-> ->]|[-> ->]]]; apply steps_ret.
Qed.

(** [parseredirs] stops at a word or at one of the symbols that may follow. *)
Definition no_redir (ts : list token) : Prop :=
  match ts with [] => True | TWord w :: _ => word_ok w | TSym c :: _ => c ∈ bytes_of "|)&;" | TAppend :: _ => False end.

Lemma word_head w p : word_ok w → p ⊆ symbols → match w with c :: _ => bool_decide (c ∈ p) | [] => false end = false.
Proof.
  intros [_ Hw] Hp. destruct w as [|c w]; [done|]. apply bool_decide_eq_false_2. intros Hc.
  destruct (Hw c ltac:(by left)) as [_ Hs]. apply bool_decide_eq_false in Hs. apply Hs. by apply Hp.
Qed.

Lemma no_redir_ok ts t : no_redir ts → head ts = Some t → token_ok t.
Proof.
  destruct ts as [|[w|c|] ts]; try done; intros H [= <-]; [done|]. cbn in *. vm_compute in H. vm_compute. set_solver.
Qed.

Lemma no_redir_peek ts : no_redir ts → peeked (bytes_of "<>") ts = false.
Proof.
  destruct ts as [|[w|c|] ts]; try done; intros H; cbn [peeked text].
  - apply word_head; [done|]. vm_compute. set_solver.
  - apply bool_decide_eq_false_2. cbn in H. vm_compute in H. vm_compute. intros ?. set_solver.
Qed.

Lemma parseredirs_steps rs : rs_ok rs → ∀ c ts, no_redir ts → steps (parseredirs c) (rtoks rs ++ ts) (wrap c rs) ts.
Proof.
  unfold parseredirs. induction 1 as [|[[f m] d] rs [Hf Hm] _ IH]; intros c ts Hts; cbn [rtoks mbind list_bind app].
  - apply steps_loop_stop. unfold redir_body. eapply steps_bind; [apply steps_peek; intros t; by apply no_redir_ok|].
    rewrite no_redir_peek by done. apply steps_ret.
  - eapply steps_loop_next; [apply redir_round|by apply redir_step|]. by apply IH.
Qed.

(** *** Simple commands *)

Definition after_exec : list Z := bytes_of "|)&;".

Lemma follow_no_redir l ts : l ⊆ after_exec → follow l ts → no_redir ts.
Proof. intros Hl. destruct ts as [|[w|c|] ts]; try done. apply Hl. Qed.


(** A word is added to [argv], and the redirections after it are wrapped around the command. *)
Lemma args_step r argv w rs ts : word_ok w → rs_ok rs → no_redir ts → (S (length argv) < MAXARGS)%nat →
  steps (args_body (r, argv)) (TWord w :: rtoks rs ++ ts) (inl (wrap (set_argv r (argv ++ [w])) rs, argv ++ [w])) ts.
Proof.
  intros Hw Hrs Hts Hlen. unfold args_body. eapply steps_bind; [by apply steps_peek; intros t [= <-]|].
  cbn [peeked text]. rewrite word_head; [|done|vm_compute; set_solver].
  eapply steps_bind; [by apply steps_gettoken|]. cbn [code text].
  change (ch "a" =? 0) with false. rewrite Z.eqb_refl. cbn [negb].
  rewrite decide_False by (rewrite length_app; cbn [length]; lia).
  eapply steps_bind; [by apply parseredirs_steps|]. apply steps_ret.
Qed.

Lemma args_stop r argv ts : follow after_exec ts → steps (args_body (r, argv)) ts (inr r) ts.
Proof.
  intros Hts. pose proof (follow_no_redir _ _ (reflexivity _) Hts) as Hno. unfold args_body.
  eapply steps_bind; [apply steps_peek; intros t; by apply no_redir_ok|].
  destruct ts as [|[w|c|] ts]; try done.
  - cbn [peeked]. eapply steps_bind; [apply steps_gettoken_nil|]. apply steps_ret.
  - cbn [peeked text]. rewrite bool_decide_eq_true_2 by done. apply steps_ret.
Qed.

(** The words [argv] and then the redirections [rs]. *)
Lemma args_steps argv : argv ≠ [] → Forall word_ok argv → ∀ done0 rs ts,
  rs_ok rs → follow after_exec ts → (length done0 + length argv < MAXARGS)%nat →
  steps (input_loop args_body (EXEC done0, done0)) ((TWord <$> argv) ++ rtoks rs ++ ts) (wrap (EXEC (done0 ++ argv)) rs) ts.
Proof.
  induction argv as [|w argv IH]; [done|]. intros _ [Hw Hargv]%Forall_cons done0 rs ts Hrs Hts Hlen. cbn [length] in Hlen.
  pose proof (follow_no_redir _ _ (reflexivity _) Hts) as Hno. cbn [fmap list_fmap app].
  destruct argv as [|w' argv].
  - eapply steps_loop_next; [apply args_round|apply args_step; [done..|lia]|]. cbn [set_argv]. by apply steps_loop_stop, args_stop.
  - eapply steps_loop_next; [apply args_round|apply (args_step _ _ _ []); [done|by apply Forall_nil|by apply Forall_cons in Hargv as [? _]|lia]|].
    cbn [set_argv wrap foldl]. change (done0 ++ w :: w' :: argv) with (done0 ++ [w] ++ w' :: argv). rewrite app_assoc.
    apply IH; try done. rewrite length_app. cbn [length] in *. lia.
Qed.

(** A parser that is given enough fuel. *)
Definition parses (p : nat → P cmd) (ts : list token) (c : cmd) (ts' : list token) : Prop :=
  ∃ n, ∀ m, (n ≤ m)%nat → steps (p m) ts c ts'.

Definition exec_ok (c : cmd) : Prop := ∀ rs ts, rs_ok rs → follow after_exec ts →
  parses parseexec (toks 3 c ++ rtoks rs ++ ts) (wrap c rs) ts.
Definition pipe_ok (c : cmd) : Prop := ∀ ts, follow (bytes_of ")&;") ts → parses parsepipe (toks 2 c ++ ts) c ts.
Definition backs (n : nat) (c : cmd) : cmd := Nat.iter n BACK c.
Definition parsebg (fuel : nat) : P cmd := let! c := parsepipe fuel in input_loop back_body c.
Definition back_ok (c : cmd) : Prop := ∀ n ts, follow (bytes_of ");") ts →
  parses parsebg (toks 1 c ++ replicate n (TSym (ch "&")) ++ ts) (backs n c) ts.
Definition line_ok (c : cmd) : Prop := ∀ ts, follow (bytes_of ")") ts → parses parseline (toks 0 c ++ ts) c ts.

Lemma exec_EXEC argv : cmd_ok (EXEC argv) → exec_ok (EXEC argv).
Proof.
  intros [Hargv Hlen] rs ts Hrs Hts. exists 1%nat. intros [|m] Hm; [lia|]. cbn [parseexec toks].
  pose proof (follow_no_redir _ _ (reflexivity _) Hts) as Hno.
  assert (Hhd : ∀ t, head ((TWord <$> argv) ++ rtoks rs ++ ts) = Some t → token_ok t ∧ peeked (bytes_of "(") [t] = false).
  { destruct argv as [|w argv]; [destruct Hrs as [|[[f md] d] rs [Hf Hmd]]|].
    - intros t Ht. split; [by eapply no_redir_ok|]. destruct ts as [|[w|c|] ts]; try done. injection Ht as <-.
      cbn in Hts |- *. apply bool_decide_eq_false_2. vm_compute in Hts |- *. intros ?. set_solver.
    - intros t [= <-]. split; [by eapply redir_tok_ok|]. by destruct Hmd as [[-> _]|[[-> _]|[-> _]]].
    - intros t [= <-]. apply Forall_cons in Hargv as [Hw _]. split; [done|]. cbn. apply word_head; [done|]. vm_compute. set_solver. }
  eapply steps_bind; [apply steps_peek; intros t Ht; by apply Hhd|].
  replace (peeked _ _) with false; last first.
  { destruct ((TWord <$> argv) ++ rtoks rs ++ ts) as [|t l]; [done|]. by destruct (Hhd t eq_refl) as [_ ?]. }
  destruct (decide (argv = [])) as [->|Hne].
  - eapply steps_bind; [by apply parseredirs_steps|]. by apply steps_loop_stop, args_stop.
  - eapply steps_bind; [apply (parseredirs_steps [])|by apply args_steps].
    + by apply Forall_nil.
    + destruct argv; [done|]. by apply Forall_cons in Hargv as [? _].
Qed.

Lemma exec_REDIR c f m d : exec_ok c → word_ok f → redir_ok m d → exec_ok (REDIR c f m d).
Proof.
  intros Hc Hf Hm rs ts Hrs Hts. cbn [toks]. rewrite <-app_assoc.
  apply (Hc ((f, m, d) :: rs)); [by apply Forall_cons|done].
Qed.

(** *** Levels *)

(** What follows a command is a token of the parser. *)
Lemma follow_ok l ts t : l ⊆ after_exec → follow l ts → head ts = Some t → token_ok t.
Proof. intros Hl Hts. eapply no_redir_ok, follow_no_redir; done. Qed.

(** [peek] for a symbol that cannot follow. *)
Lemma follow_peek l p ts : (∀ c, c ∈ l → c ∉ p) → follow l ts → peeked p ts = false.
Proof.
  intros Hp. destruct ts as [|[w|c|] ts]; try done. intros Hc. cbn [peeked text]. apply bool_decide_eq_false_2. by apply Hp.
Qed.

Ltac chars := vm_compute; set_solver.

Lemma pipe_of_exec c : exec_ok c → toks 2 c = toks 3 c → pipe_ok c.
Proof.
  intros Hc E ts Hts. destruct (Hc [] ts) as [n Hn]; [by apply Forall_nil|destruct ts as [|[]]; chars|].
  exists (S n). intros [|m] Hm; [lia|]. cbn [parsepipe]. rewrite E. eapply steps_bind; [apply Hn; lia|].
  eapply steps_bind; [eapply steps_peek; intros t; by apply (follow_ok (bytes_of ")&;")); [chars|]|].
  rewrite (follow_peek (bytes_of ")&;")) by (done || chars). apply steps_ret.
Qed.

(** Looking for [p] before one of the symbols [l] finds nothing. *)
Lemma steps_peek_no {A} l p (f : bool → P A) ts a ts' : l ⊆ after_exec → (∀ c, c ∈ l → c ∉ p) → follow l ts →
  steps (f false) ts a ts' → steps (bind (peek p) f) ts a ts'.
Proof.
  intros Hl Hp Hts Hf. eapply steps_bind; [eapply steps_peek; intros t; by eapply follow_ok|]. by rewrite (follow_peek l).
Qed.

(** A symbol is found and read. *)
Lemma steps_peek_yes {A} x (f : bool → P A) ts a ts' : x ∈ symbols →
  steps (f true) (TSym x :: ts) a ts' → steps (bind (peek [x]) f) (TSym x :: ts) a ts'.
Proof.
  intros Hx Hf. eapply steps_bind; [by apply steps_peek; intros t [= <-]|]. cbn [peeked text].
  rewrite bool_decide_eq_true_2 by (by left). done.
Qed.

Lemma pipe_PIPE l r : exec_ok l → pipe_ok r → pipe_ok (PIPE l r).
Proof.
  intros Hl Hr ts Hts. destruct (Hl [] (TSym (ch "|") :: toks 2 r ++ ts)) as [n1 H1]; [by apply Forall_nil|chars|].
  destruct (Hr ts Hts) as [n2 H2]. exists (S (n1 + n2)). intros [|m] Hm; [lia|]. cbn [parsepipe toks Nat.ltb Nat.leb paren].
  rewrite <-!app_assoc. eapply steps_bind; [apply H1; lia|]. apply steps_peek_yes; [chars|]. cbn [negb].
  eapply steps_bind; [apply steps_gettoken; chars|]. eapply steps_bind; [apply H2; lia|]. apply steps_ret.
Qed.

(** The loop over the ampersands. *)
Lemma back_steps n : ∀ c ts, follow (bytes_of ");") ts →
  steps (input_loop back_body c) (replicate n (TSym (ch "&")) ++ ts) (backs n c) ts.
Proof.
  induction n as [|n IH]; intros c ts Hts; cbn [replicate app].
  - apply steps_loop_stop. unfold back_body. apply (steps_peek_no (bytes_of ");")); [chars|chars|done|]. apply steps_ret.
  - eapply steps_loop_next; [apply back_round| |].
    + unfold back_body. apply steps_peek_yes; [chars|]. cbn [negb]. eapply steps_bind; [apply steps_gettoken; chars|]. apply steps_ret.
    + unfold backs. rewrite Nat.iter_succ_r. by apply IH.
Qed.

Lemma back_of_pipe c : pipe_ok c → toks 1 c = toks 2 c → back_ok c.
Proof.
  intros Hc E n ts Hts. destruct (Hc (replicate n (TSym (ch "&")) ++ ts)) as [k Hk].
  { destruct n; [|chars]. destruct ts as [|[]]; chars. }
  exists k. intros m Hm. unfold parsebg. rewrite E. eapply steps_bind; [by apply Hk|]. by apply back_steps.
Qed.

Lemma back_BACK c : back_ok c → back_ok (BACK c).
Proof.
  intros Hc n ts Hts. cbn [toks Nat.ltb Nat.leb paren]. rewrite <-app_assoc. unfold backs. rewrite <-Nat.iter_succ_r.
  apply (Hc (S n) ts Hts).
Qed.

(** [parseline] reads a background command, and more after a semicolon. *)
Lemma steps_parseline fuel c ts ts1 a ts2 : steps (parsebg fuel) ts c ts1 →
  steps (let! more := peek (bytes_of ";") in
         if negb more then ret c else let! _ := gettoken in let! r := parseline fuel in ret (LIST c r)) ts1 a ts2 →
  steps (parseline (S fuel)) ts a ts2.
Proof.
  intros Hb Hf s Hs. destruct (steps_bind _ (fun c => let! more := peek (bytes_of ";") in
    if negb more then ret c else let! _ := gettoken in let! r := parseline fuel in ret (LIST c r)) _ _ _ _ _ Hb Hf s Hs)
    as (s' & E & H). exists s'. split; [|done]. rewrite <-E. unfold parsebg. by rewrite bind_assoc.
Qed.

Lemma line_of_back c : back_ok c → toks 0 c = toks 1 c → line_ok c.
Proof.
  intros Hc E ts Hts. destruct (Hc 0%nat ts) as [k Hk]; [destruct ts as [|[]]; chars|].
  exists (S k). intros [|m] Hm; [lia|]. rewrite E. eapply steps_parseline; [apply Hk; lia|].
  apply (steps_peek_no (bytes_of ")")); [chars|chars|done|]. apply steps_ret.
Qed.

Lemma line_LIST l r : back_ok l → line_ok r → line_ok (LIST l r).
Proof.
  intros Hl Hr ts Hts. destruct (Hl 0%nat (TSym (ch ";") :: toks 0 r ++ ts)) as [n1 H1]; [chars|].
  destruct (Hr ts Hts) as [n2 H2]. exists (S (n1 + n2)). intros [|m] Hm; [lia|]. cbn [toks Nat.ltb Nat.leb paren].
  rewrite <-!app_assoc. eapply steps_parseline; [apply H1; lia|]. apply steps_peek_yes; [chars|]. cbn [negb].
  eapply steps_bind; [apply steps_gettoken; chars|]. eapply steps_bind; [apply H2; lia|]. apply steps_ret.
Qed.

(** A command in parentheses is a simple command. *)
Lemma exec_of_line c : line_ok c → toks 3 c = paren true (toks 0 c) → exec_ok c.
Proof.
  intros Hc E rs ts Hrs Hts. destruct (Hc (TSym (ch ")") :: rtoks rs ++ ts)) as [n Hn]; [chars|].
  exists (S (S n)). intros [|[|m]] Hm; [lia..|]. rewrite E. cbn [paren]. rewrite <-!app_assoc. cbn [app parseexec parseblock].
  apply steps_peek_yes; [chars|]. apply steps_peek_yes; [chars|]. cbn [negb].
  eapply steps_bind; [apply steps_gettoken; chars|]. eapply steps_bind; [apply Hn; lia|].
  apply steps_peek_yes; [chars|]. cbn [negb]. eapply steps_bind; [apply steps_gettoken; chars|].
  apply parseredirs_steps; [done|]. by eapply follow_no_redir.
Qed.

Lemma all_levels c : cmd_ok c → exec_ok c ∧ pipe_ok c ∧ back_ok c ∧ line_ok c.
Proof.
  induction c as [argv|c IH f m d|l IHl r IHr|l IHl r IHr|c IH]; cbn [cmd_ok].
  - intros Hc. assert (He := exec_EXEC argv Hc). assert (Hp : pipe_ok (EXEC argv)) by (by apply pipe_of_exec).
    assert (Hb : back_ok (EXEC argv)) by (by apply back_of_pipe). split_and!; try done. by apply line_of_back.
  - intros (Hc & Hf & Hm). assert (He : exec_ok (REDIR c f m d)) by (apply exec_REDIR; [by apply IH|done..]).
    assert (Hp : pipe_ok (REDIR c f m d)) by (by apply pipe_of_exec).
    assert (Hb : back_ok (REDIR c f m d)) by (by apply back_of_pipe). split_and!; try done. by apply line_of_back.
  - intros [Hl Hr]. assert (Hp : pipe_ok (PIPE l r)) by (apply pipe_PIPE; [by apply IHl|by apply IHr]).
    assert (Hb : back_ok (PIPE l r)) by (by apply back_of_pipe).
    assert (HL : line_ok (PIPE l r)) by (by apply line_of_back). split_and!; try done. by apply exec_of_line.
  - intros [Hl Hr]. assert (HL : line_ok (LIST l r)) by (apply line_LIST; [by apply IHl|by apply IHr]).
    assert (He : exec_ok (LIST l r)) by (by apply exec_of_line).
    assert (Hp : pipe_ok (LIST l r)) by (by apply pipe_of_exec). split_and!; try done. by apply back_of_pipe.
  - intros Hc. assert (Hb : back_ok (BACK c)) by (apply back_BACK; by apply IH).
    assert (HL : line_ok (BACK c)) by (by apply line_of_back).
    assert (He : exec_ok (BACK c)) by (by apply exec_of_line). split_and!; try done. by apply pipe_of_exec.
Qed.

(** *** More fuel does not change a result *)

Definition less {A} (m m' : P A) : Prop := ∀ s, m s = NoFuel ∨ m s = m' s.

Lemma less_refl {A} (m : P A) : less m m.
Proof. by right. Qed.

Lemma less_bind {A B} (m m' : P A) (f f' : A → P B) : less m m' → (∀ a, less (f a) (f' a)) → less (bind m f) (bind m' f').
Proof.
  intros Hm Hf s. unfold bind. destruct (Hm s) as [E|E]; rewrite E; [by left|]. destruct (m' s) as [a s'| | | |]; try by right. apply Hf.
Qed.

Lemma less_if {A} (b : bool) (m1 m1' m2 m2' : P A) : less m1 m1' → less m2 m2' → less (if b then m1 else m2) (if b then m1' else m2').
Proof. by destruct b. Qed.

Lemma parse_less fuel : ∀ fuel', (fuel ≤ fuel')%nat →
  less (parseline fuel) (parseline fuel') ∧ less (parsepipe fuel) (parsepipe fuel') ∧
  less (parseexec fuel) (parseexec fuel') ∧ less (parseblock fuel) (parseblock fuel').
Proof.
  induction fuel as [|fuel IH]; intros [|k] Hk; [split_and!; by left..|lia|].
  destruct (IH k) as (IHl & IHp & IHe & IHb); [lia|].
  split_and!; cbn -[bytes_of]; repeat first
    [ assumption | apply less_refl | apply less_if | apply less_bind; [|intros ?] ].
Qed.

(** C32: Printing a command and parsing the text gives the command back, for every command
    the parser can make: words without blanks and symbols, fewer than ten of them, and
    the three redirections of the shell.  The precedence of the operators, their
    associativity and the parentheses are those of [print]. *)
Theorem print_parse (c : cmd) : cmd_ok c → parsecmd (print c) = Ok c [].
Proof.
  intros Hc. destruct (all_levels c Hc) as (_ & _ & _ & HL). destruct (HL [] I) as [n Hn]. rewrite app_nil_r in Hn.
  pose proof (parse_tot (parse_fuel (print c)) (print c)) as [Ht _]. unfold tot in Ht.
  destruct (Hn (n + parse_fuel (print c))%nat ltac:(lia) (print c) eq_refl) as (s' & E & Hs').
  assert (El : parseline (parse_fuel (print c)) (print c) = Ok c s').
  { destruct (parse_less (parse_fuel (print c)) (n + parse_fuel (print c)) ltac:(lia)) as [Hl _].
    destruct (Hl (print c)) as [E0|E0]; [|by rewrite E0]. rewrite E0 in Ht. destruct Ht. unfold parse_fuel. lia. }
  unfold parsecmd. rewrite (bind_Ok _ _ _ _ _ El). unfold bind, peek, get. unfold at_toks in Hs'. rewrite Hs'. done.
Qed.

Definition demo_cmd : cmd :=
  LIST (BACK (PIPE (REDIR (EXEC (bytes_of <$> ["cat"; "-n"])) (bytes_of "in") O_RDONLY 0)
                   (REDIR (LIST (EXEC [bytes_of "wc"]) (EXEC [])) (bytes_of "out") (Z.lor O_WRONLY O_CREATE) 1)))
       (EXEC (bytes_of <$> ["echo"; "done"])).
Lemma print_parse_witness : parsecmd (bytes_of " cat -n < in | ( wc ; ) >> out & ; echo done") = Ok demo_cmd [].
Proof.
  apply (print_parse demo_cmd). apply (bool_decide_unpack (cmd_ok demo_cmd)). vm_compute. exact I.
Defined.

(** ** The parser makes well-formed commands *)

Definition makes {A} (m : P A) (Q : A → Prop) : Prop := ∀ s a s', m s = Ok a s' → Q a.

Lemma makes_ret {A} (a : A) (Q : A → Prop) : Q a → makes (ret a) Q.
Proof. by intros Ha s a' s' [= <- _]. Qed.

Lemma makes_bind {A B} (m : P A) (f : A → P B) (Q : A → Prop) (R : B → Prop) :
  makes m Q → (∀ a, Q a → makes (f a) R) → makes (bind m f) R.
Proof.
  unfold makes, bind. intros Hm Hf s b s' E. destruct (m s) as [a s1| | | |] eqn:E1; try done. eapply Hf; [by eapply Hm|done].
Qed.

Lemma makes_panic {A} msg (Q : A → Prop) : makes (panic msg) Q.
Proof. done. Qed.

Lemma makes_any {A} (m : P A) : makes m (fun _ => True).
Proof. done. Qed.

Lemma makes_loop {A B} (body : A → P (A + B)) (I : A → Prop) (Q : B → Prop) a :
  I a → (∀ a, I a → makes (body a) (fun r => match r with inl a' => I a' | inr b => Q b end)) → makes (input_loop body a) Q.
Proof.
  unfold input_loop, makes. intros Ha Hb s. generalize (S (length s)). intros n. revert a s Ha.
  induction n as [|n IH]; intros a s Ha b s' E; [done|]. cbn [loop] in E. unfold bind in E.
  destruct (body a s) as [[a'|b'] s1| | | |] eqn:E1; try done.
  - eapply IH; [|done]. by apply (Hb a Ha s (inl a') s1).
  - injection E as <- _. by apply (Hb a Ha s (inr b') s1).
Qed.

Lemma span_word_ok s : ∀ c, c ∈ (span_word s).1 → is_ws c = false ∧ is_sym c = false.
Proof.
  induction s as [|d s IH]; intros c; simpl; [by intros ?%not_elem_of_nil|].
  destruct (is_ws d) eqn:E1; [by intros ?%not_elem_of_nil|]. destruct (is_sym d) eqn:E2; [by intros ?%not_elem_of_nil|].
  destruct (span_word s) as [w r]. simpl in *. intros [->|Hc]%elem_of_cons; [done|]. by apply IH.
Qed.

(** A token with the code of a word is a word. *)
Lemma gettoken_word : makes gettoken (fun '(t, q) => t = ch "a" → word_ok q).
Proof.
  intros s [t q] s'. unfold gettoken. destruct (skip_ws s) as [|c l] eqn:Es; [by intros [= <- <- _]|].
  assert (Hw : is_ws c = false) by (by eapply skip_ws_head).
  destruct (Z.eqb_spec c (ch ">")) as [->|_]; [|destruct (is_sym c) eqn:Esym].
  - destruct l as [|d l]; [by intros [= <- <- _]|]. destruct (d =? ch ">"); by intros [= <- <- _].
  - intros [= <- <- _] ->. done.
  - pose proof (span_word_ok (c :: l)) as Hs. revert Hs. cbn [span_word]. rewrite Hw, Esym. cbn [orb].
    destruct (span_word l) as [w r]. intros Hs [= <- <- _] _. split; [done|]. apply Hs.
Qed.

Lemma parseredirs_makes c : cmd_ok c → makes (parseredirs c) cmd_ok.
Proof.
  intros Hc. unfold parseredirs. apply (makes_loop _ cmd_ok); [done|]. clear c Hc. intros c Hc. unfold redir_body.
  eapply makes_bind; [apply makes_any|]. intros [] _; cbn [negb]; [|by apply makes_ret].
  eapply makes_bind; [apply makes_any|]. intros [tok q0] _. eapply makes_bind; [apply gettoken_word|]. intros [t q] Hq.
  destruct (Z.eqb_spec t (ch "a")) as [->|]; cbn [negb]; [|apply makes_panic]. apply makes_ret. specialize (Hq eq_refl).
  repeat case_match; cbn [cmd_ok]; split_and?; try done; unfold redir_ok; auto.
Qed.

Lemma set_argv_ok c argv : cmd_ok c → cmd_ok (EXEC argv) → cmd_ok (set_argv c argv).
Proof. induction c; cbn [cmd_ok set_argv]; naive_solver. Qed.

Lemma args_makes c argv : cmd_ok c → cmd_ok (EXEC argv) → makes (input_loop args_body (c, argv)) cmd_ok.
Proof.
  intros Hc Ha. apply (makes_loop _ (fun '(c, argv) => cmd_ok c ∧ cmd_ok (EXEC argv))); [done|]. clear c argv Hc Ha.
  intros [c argv] [Hc [Ha Hlen]]. unfold args_body. eapply makes_bind; [apply makes_any|]. intros [] _; [by apply makes_ret|].
  eapply makes_bind; [apply gettoken_word|]. intros [t q] Hq. destruct (t =? 0); [by apply makes_ret|].
  destruct (Z.eqb_spec t (ch "a")) as [->|]; cbn [negb]; [|apply makes_panic]. specialize (Hq eq_refl).
  case_decide; [apply makes_panic|]. assert (Hok : cmd_ok (EXEC (argv ++ [q]))).
  { split; [|lia]. apply Forall_app. split; [done|]. by apply Forall_singleton. }
  eapply makes_bind; [by apply parseredirs_makes, set_argv_ok|]. intros c' Hc'. by apply makes_ret.
Qed.

Lemma back_makes c : cmd_ok c → makes (input_loop back_body c) cmd_ok.
Proof.
  intros Hc. apply (makes_loop _ cmd_ok); [done|]. clear c Hc. intros c Hc. unfold back_body.
  eapply makes_bind; [apply makes_any|]. intros [] _; cbn [negb]; [|by apply makes_ret].
  eapply makes_bind; [apply makes_any|]. intros _ _. by apply makes_ret.
Qed.

#[local] Hint Resolve makes_ret makes_any makes_panic parseredirs_makes args_makes back_makes : core.

Lemma parse_makes fuel : makes (parseline fuel) cmd_ok ∧ makes (parsepipe fuel) cmd_ok ∧
  makes (parseexec fuel) cmd_ok ∧ makes (parseblock fuel) cmd_ok.
Proof.
  induction fuel as [|fuel (IHl & IHp & IHe & IHb)]; [done|].
  assert (H0 : cmd_ok (EXEC [])) by (split; [by apply Forall_nil|cbn; unfold MAXARGS; lia]).
  split_and!; cbn -[bytes_of].
  - eapply makes_bind; [done|]. intros c Hc. eapply makes_bind; [by apply back_makes|]. intros c2 Hc2.
    eapply makes_bind; [done|]. intros [] _; cbn [negb]; [|auto]. eapply makes_bind; [apply makes_any|]. intros _ _.
    eapply makes_bind; [done|]. intros r Hr. by apply makes_ret.
  - eapply makes_bind; [done|]. intros c Hc.
    eapply makes_bind; [apply makes_any|]. intros [] _; cbn [negb]; [|auto]. eapply makes_bind; [apply makes_any|]. intros _ _.
    eapply makes_bind; [done|]. intros r Hr. by apply makes_ret.
  - eapply makes_bind; [apply makes_any|]. intros [] _; [done|]. eapply makes_bind; [by apply parseredirs_makes|]. auto.
  - eapply makes_bind; [apply makes_any|]. intros [] _; cbn [negb]; [|auto]. eapply makes_bind; [apply makes_any|]. intros _ _.
    eapply makes_bind; [done|]. intros c Hc. eapply makes_bind; [apply makes_any|]. intros [] _; cbn [negb]; [|auto].
    eapply makes_bind; [apply makes_any|]. auto.
Qed.

Lemma parsecmd_makes_ok (s : list Z) (c : cmd) (s' : list Z) : parsecmd s = Ok c s' → cmd_ok c.
Proof.
  intros E. destruct (parse_makes (parse_fuel s)) as [H _]. eapply (makes_bind _ _ _ _ H); [|exact E].
  intros a Ha. eapply makes_bind; [apply makes_any|]. intros _ _. eapply makes_bind; [apply makes_any|]. intros r _.
  case_decide; [by apply makes_ret|apply makes_panic].
Qed.

(** C35: Every command the parser returns is well formed: its words are not empty and hold
    no blank and no symbol, a simple command has fewer than [MAXARGS] of them (so the null
    after the last one is inside [argv]), and every redirection is one of <, > and >>
    with its mode and descriptor. *)
Theorem parsecmd_ok (s : list Z) (c : cmd) (s' : list Z) : parsecmd s = Ok c s' → cmd_ok c.
Proof. apply parsecmd_makes_ok. Qed.

Lemma parsecmd_ok_witness : cmd_ok (REDIR (EXEC [bytes_of "ls"; bytes_of "a"]) (bytes_of "f") (Z.lor (Z.lor O_WRONLY O_CREATE) O_TRUNC) 1).
Proof. apply (parsecmd_ok (bytes_of "ls>f a") _ []). vm_compute. reflexivity. Defined.
