(* ===== verification/Shell.v ===== *)
(** * Running commands: the shell (user/sh.c)

    [runcmd] and [main] as trees of system calls, and a semantics of those calls in which
    the processes have descriptor tables and working directories of their own. *)

From Stdlib Require Import FunctionalExtensionality.
From S2P Require Import Prelude Mem CString Printf Kernel Fs File Syscall Sh User.

Definition panic_ {A} (s : list Z) : proc A :=
  fprintf 2 ("%s" ++ NL) [AStr (Some s)] ;~ Exit 1.

Definition fork1 : proc Z :=
  Fork (fun pid => if pid =? -1 then panic_ (bytes_of "fork") else Ret pid).

(** [runcmd] never returns. *)
Fixpoint runcmd {A} (c : cmd) : proc A :=
  match c with
  | EXEC argv =>
      match argv with
      | [] => Exit 1
      | a :: _ =>
          Exec a argv (fun _ =>
          fprintf 2 ("exec %s failed" ++ NL) [AStr (Some a)] ;~
          Exit 0)
      end
  | REDIR c file mode fd =>
      Close fd (fun _ =>
      Open file mode (fun r =>
      if r <? 0 then fprintf 2 ("open %s failed" ++ NL) [AStr (Some file)] ;~ Exit 1
      else runcmd c))
  | LIST l r =>
      let~ pid := fork1 in
      if pid =? 0 then runcmd l else
      Wait (fun _ => runcmd r)
  | PIPE l r =>
      Pipe (fun ok p0 p1 =>
      if ok <? 0 then panic_ (bytes_of "pipe") else
      let~ pid := fork1 in
      if pid =? 0 then
        Close 1 (fun _ => Dup p1 (fun _ => Close p0 (fun _ => Close p1 (fun _ => runcmd l))))
      else
      let~ pid := fork1 in
      if pid =? 0 then
        Close 0 (fun _ => Dup p0 (fun _ => Close p0 (fun _ => Close p1 (fun _ => runcmd r))))
      else
      Close p0 (fun _ => Close p1 (fun _ =>
      Wait (fun _ => Wait (fun _ => Exit 0)))))
  | BACK c =>
      let~ pid := fork1 in
      if pid =? 0 then runcmd c else Exit 0
  end.

(** [gets(buf, max)] of user/ulib.c: the bytes it stores before the null. *)
Definition gets_body (max : nat) (buf : list Z) : proc (list Z + list Z) :=
  if decide (S (length buf) < max)%nat then
    Read 0 1 (fun r =>
      match r with
      | Some (c :: _) =>
          let buf := buf ++ [c] in
          Ret (if (c =? 10) || (c =? 13) then inr buf else inl buf)
      | _ => Ret (inr buf)
      end)
  else Ret (inr buf).
Definition gets (max : nat) : proc (list Z) := repeat_ max (gets_body max) [].

Definition BUFSIZE : nat := 100.

(** The string in [buf], or [None] at the end of the input. *)
Definition getcmd : proc (option (list Z)) :=
  Write 2 (bytes_of "$ ") (fun _ =>
  let~ line := gets BUFSIZE in
  match cut_nul line with [] => Ret None | s => Ret (Some s) end).

Definition open_console : proc unit :=
  repeat_ (S NOFILE) (fun _ =>
    Open (bytes_of "console") O_RDWR (fun fd =>
    if fd <? 0 then Ret (inr tt) else
    if 3 <=? fd then Close fd (fun _ => Ret (inr tt)) else Ret (inl tt))) tt.

(** [parsecmd] with the messages it writes before it exits. *)
Definition parsecmd_io (buf : list Z) : proc cmd :=
  match parseline (parse_fuel buf) buf with
  | Ok c s =>
      match skip_ws s with
      | [] => Ret c
      | rest => fprintf 2 ("leftovers: %s" ++ NL) [AStr (Some rest)] ;~ panic_ (bytes_of "syntax")
      end
  | Panic msg _ => panic_ (bytes_of msg)
  | _ => Stuck
  end.

(** One round of the loop of [main] on the line [buf]. *)
Definition do_line (buf : list Z) : proc unit :=
  if decide (take 3 buf = bytes_of "cd ") then
    let dir := drop 3 (take (length buf - 1) buf) in
    Chdir dir (fun r =>
      if r <? 0 then fprintf 2 ("cannot cd %s" ++ NL) [AStr (Some dir)] else Ret tt)
  else
    let~ pid := fork1 in
    if pid =? 0 then
      let~ c := parsecmd_io buf in runcmd c
    else Wait (fun _ => Ret tt).

(** [fuel] bounds the number of lines. *)
Definition main_loop (fuel : nat) : proc unit :=
  repeat_ fuel (fun _ =>
    let~ line := getcmd in
    match line with
    | None => Ret (inr tt)
    | Some buf => do_line buf ;~ Ret (inl tt)
    end) tt.

Definition main (fuel : nat) : proc unit :=
  open_console ;~ main_loop fuel ;~ Exit 0.

(** ** What the system calls do *)

(** What a descriptor is open on: a file by its path in a working directory, or an end
    of a pipe. *)
Inductive obj :=
  | OFile (cwd : list (list Z)) (path : list Z) (mode : Z)
  | PipeR (n : nat)
  | PipeW (n : nat).

(** A process: its descriptor table; its working directory, as the [chdir] calls that led to
    it; the pipes it made itself; the programs that have certainly ended, as far as it knows
    from the children it waited for (and its parent before the fork); and the children it has
    not waited for, each with its pid and the programs that have ended when that child has. *)
Record pstate := PState {
  fds : list (option obj); cwd : list (list Z); made : list nat;
  ended : gset nat; kids : list (Z * gset nat)
}.

(** A program that [exec] is asked to run: the descriptors and directory it gets, and the
    programs that have ended before it starts.  Programs are numbered in the list of those
    launched. *)
Record launch := Launch { l_argv : list (list Z); l_fds : list (option obj); l_cwd : list (list Z); l_after : gset nat }.

(** A call of [wait]: the caller's descriptors, and the pipes it made. *)
Record waiting := Waiting { q_fds : list (option obj); q_made : list nat }.

(** What the processes share: the number of calls made, the unread input of the shell, the
    number of pipes made, the programs launched, the calls of [wait]. *)
Record world := World { w_calls : nat; w_input : list Z; w_pipes : nat; w_launched : list launch; w_waits : list waiting }.

(** How a process ends: with it, the programs that have ended by then. *)
Inductive outcome (A : Type) :=
  | Returned (a : A) (st : pstate) | Exited (status : Z) (h : gset nat) | Execed (h : gset nat) | OutOfFuel.
Arguments Returned {A}. Arguments Exited {A}. Arguments Execed {A}. Arguments OutOfFuel {A}.

(** [fdalloc]: the lowest free descriptor. *)
Fixpoint lowest {A} (t : list (option A)) : option nat :=
  match t with [] => None | None :: _ => Some 0%nat | Some _ :: t => S <$> lowest t end.
Definition alloc_fd {A} (t : list (option A)) (o : A) : option (nat * list (option A)) :=
  n ← lowest t; Some (n, <[n := Some o]> t).
Definition fd_obj (t : list (option obj)) (fd : Z) : option obj :=
  if fd <? 0 then None else mjoin (t !! Z.to_nat fd).
Definition close_fd (t : list (option obj)) (fd : Z) : list (option obj) :=
  if fd <? 0 then t else <[Z.to_nat fd := None]> t.

(** What [wait] gives when several children have ended: the one at index [i mod length]. *)
Definition reap (i : nat) (ks : list (Z * gset nat)) : option (Z * gset nat * list (Z * gset nat)) :=
  let j := (i mod length ks)%nat in
  '(pid, h) ← ks !! j; Some (pid, h, delete j ks).

(** [fails n]: call number [n] fails where it can ([fork], [pipe], [open], [exec], [chdir]
    and the calls on names can for reasons outside the process, [wait] when the process was
    killed; [fstat] does, as neither the shell nor init calls it).  [first n]: which child
    call number [n], a [wait], returns.

    Processes run at the same time.  What one of them calls depends on its own descriptors,
    directory and children only, so the calls can be listed with a child's before its
    parent's; what comes before what in time is not the order of this list but what the
    processes know of it: a process that has waited for a child goes on after the child, and
    all it had waited for, ended ([ended]), a forked child after what its parent knew to have
    ended, and nothing else is known.  A program launched in a process ends when the process
    does. *)
Fixpoint run {A} (fails : nat → bool) (first : nat → nat) (p : proc A) (st : pstate) (w : world) : outcome A * world :=
  let bad := fails (w_calls w) in
  let w1 := World (S (w_calls w)) (w_input w) (w_pipes w) (w_launched w) (w_waits w) in
  let with_fds t := PState t (cwd st) (made st) (ended st) (kids st) in
  match p with
  | Ret a => (Returned a st, w)
  | Exit s => (Exited s (ended st), w)
  | Stuck => (OutOfFuel, w)
  | Fork k =>
      if bad then run fails first (k (-1)) st w1 else
      let pid := Z.of_nat (S (w_calls w)) in
      let parent h w2 := run fails first (k pid) (PState (fds st) (cwd st) (made st) (ended st) (kids st ++ [(pid, h)])) w2 in
      match run fails first (k 0) (PState (fds st) (cwd st) [] (ended st) []) w1 with
      | (OutOfFuel, w2) => (OutOfFuel, w2)
      | (Returned _ st2, w2) => parent (ended st2) w2
      | (Exited _ h, w2) => parent h w2
      | (Execed h, w2) => parent h w2
      end
  | Wait k =>
      let w2 := World (S (w_calls w)) (w_input w) (w_pipes w) (w_launched w) (w_waits w ++ [Waiting (fds st) (made st)]) in
      match (if bad then None else reap (first (w_calls w)) (kids st)) with
      | Some (pid, h, ks) => run fails first (k pid) (PState (fds st) (cwd st) (made st) (ended st ∪ h) ks) w2
      | None => run fails first (k (-1)) st w2
      end
  | Pipe k =>
      match (if bad then None else
             '(p0, t) ← alloc_fd (fds st) (PipeR (w_pipes w));
             '(p1, t) ← alloc_fd t (PipeW (w_pipes w)); Some (p0, p1, t)) with
      | Some (p0, p1, t) =>
          run fails first (k 0 (Z.of_nat p0) (Z.of_nat p1)) (PState t (cwd st) (w_pipes w :: made st) (ended st) (kids st))
            (World (S (w_calls w)) (w_input w) (S (w_pipes w)) (w_launched w) (w_waits w))
      | None => run fails first (k (-1) 0 0) st w1
      end
  | Read fd n k =>
      match fd_obj (fds st) fd with
      | Some _ =>
          run fails first (k (Some (take (Z.to_nat n) (w_input w)))) st
            (World (S (w_calls w)) (drop (Z.to_nat n) (w_input w)) (w_pipes w) (w_launched w) (w_waits w))
      | None => run fails first (k None) st w1
      end
  | Write fd s k => run fails first (k (match fd_obj (fds st) fd with Some _ => Z.of_nat (length s) | None => -1 end)) st w1
  | Close fd k =>
      match fd_obj (fds st) fd with
      | Some _ => run fails first (k 0) (with_fds (close_fd (fds st) fd)) w1
      | None => run fails first (k (-1)) st w1
      end
  | Dup fd k =>
      match (o ← fd_obj (fds st) fd; alloc_fd (fds st) o) with
      | Some (n, t) => run fails first (k (Z.of_nat n)) (with_fds t) w1
      | None => run fails first (k (-1)) st w1
      end
  | Open path mode k =>
      match (if bad then None else alloc_fd (fds st) (OFile (cwd st) path mode)) with
      | Some (n, t) => run fails first (k (Z.of_nat n)) (with_fds t) w1
      | None => run fails first (k (-1)) st w1
      end
  | Exec path argv k =>
      let w2 := World (S (w_calls w)) (w_input w) (w_pipes w)
        (w_launched w ++ [Launch argv (fds st) (cwd st) (ended st)]) (w_waits w) in
      if bad then run fails first (k (-1)) st w2 else (Execed ({[length (w_launched w)]} ∪ ended st), w2)
  | Chdir path k =>
      if bad then run fails first (k (-1)) st w1
      else run fails first (k 0) (PState (fds st) (cwd st ++ [path]) (made st) (ended st) (kids st)) w1
  | Mknod _ _ _ k | Mkdir _ k | Link _ _ k | Unlink _ k | Kill _ k | Sleep _ k => run fails first (k (if bad then -1 else 0)) st w1
  | Fstat _ k => run fails first (k None) st w1
  end.

(** The descriptors a program is meant to start with: standard input, output and error. *)
Definition std (i o e : obj) : list (option obj) := [Some i; Some o; Some e] ++ replicate (NOFILE - 3) None.

(** ** Every program starts with three descriptors, every wait is with three *)

(** [n] more calls, and nothing else. *)
Definition adv (n : nat) (w : world) : world := World (n + w_calls w) (w_input w) (w_pipes w) (w_launched w) (w_waits w).

Lemma adv_adv n m w : adv n (adv m w) = adv (n + m) w.
Proof. unfold adv. cbn. by rewrite Nat.add_assoc. Qed.

(** The process has ended, all programs of [h] before it. *)
Definition ends {A} (o : outcome A) (h : gset nat) : Prop := o = Execed h ∨ ∃ s, o = Exited s h.

(** The states of a forked child and of its parent. *)
Definition child (st : pstate) : pstate := PState (fds st) (cwd st) [] (ended st) [].
Definition parent (st : pstate) (pid : Z) (h : gset nat) : pstate :=
  PState (fds st) (cwd st) (made st) (ended st) (kids st ++ [(pid, h)]).

(** A call of [wait] in the log. *)
Definition waits (st : pstate) (w : world) : world :=
  World (S (w_calls w)) (w_input w) (w_pipes w) (w_launched w) (w_waits w ++ [Waiting (fds st) (made st)]).

Section runs.
Context {A : Type} (fails : nat → bool) (first : nat → nat).
#[local] Abbreviation run := (run fails first).

Lemma run_puts fd text (k : proc A) st : ∀ w,
  run (puts fd text ;~ k) st w = run k st (adv (length text) w).
Proof.
  induction text as [|c text IH]; intros w; [by destruct w|]. cbn -[adv]. rewrite IH. unfold adv. cbn.
  by rewrite <-Nat.add_succ_comm.
Qed.

Lemma run_fprintf fd fmt args text (k : proc A) st w : UPrintf.format (bytes_of fmt) args = Some text →
  run (fprintf fd fmt args ;~ k) st w = run k st (adv (length text) w).
Proof. unfold fprintf. intros ->. apply run_puts. Qed.

Lemma run_panic s st w : ∃ n, run (panic_ (A := A) s) st w = (Exited 1 (ended st), adv n w).
Proof. eexists. unfold panic_. erewrite run_fprintf by (vm_compute; reflexivity). done. Qed.

Lemma run_fork1 (f : Z → proc A) st w :
  (fails (w_calls w) = true ∧ ∃ n, run (then_ fork1 f) st w = (Exited 1 (ended st), adv n w)) ∨
  ∀ h, ends (run (f 0) (child st) (adv 1 w)).1 h →
    run (then_ fork1 f) st w = run (f (Z.of_nat (S (w_calls w)))) (parent st (Z.of_nat (S (w_calls w))) h) (run (f 0) (child st) (adv 1 w)).2.
Proof.
  cbn [then_ fork1 Shell.run]. change (World (S (w_calls w)) (w_input w) (w_pipes w) (w_launched w) (w_waits w)) with (adv 1 w).
  change (PState (fds st) (cwd st) [] (ended st) []) with (child st).
  destruct (fails (w_calls w)) eqn:Ef.
  - left. split; [done|]. change (-1 =? -1) with true. cbn iota.
    destruct (run_panic (bytes_of "fork") st (adv 1 w)) as [n E]. exists (S n).
    change (run (panic_ (A := A) (bytes_of "fork")) st (adv 1 w) = (Exited 1 (ended st), adv (S n) w)). rewrite E.
    unfold adv. cbn. by rewrite <-Nat.add_succ_comm.
  - right. intros h. change (0 =? -1) with false. cbn [then_].
    rewrite (proj2 (Z.eqb_neq (Z.of_nat (S (w_calls w))) (-1)) ltac:(lia)). cbn [then_].
    destruct (run (f 0) (child st) (adv 1 w)) as [o w2]. intros [E|[s E]]; cbn in E; by subst o.
Qed.

Lemma run_wait (k : Z → proc A) st w :
  run (Wait k) st w = match (if fails (w_calls w) then None else reap (first (w_calls w)) (kids st)) with
    | Some (pid, h, ks) => run (k pid) (PState (fds st) (cwd st) (made st) (ended st ∪ h) ks) (waits st w)
    | None => run (k (-1)) st (waits st w) end.
Proof. done. Qed.
End runs.

(** The descriptors after [pipe]. *)
Definition std_pipe (i o e : obj) (n : nat) : list (option obj) :=
  [Some i; Some o; Some e; Some (PipeR n); Some (PipeW n)] ++ replicate (NOFILE - 5) None.

(** The calls of [runcmd] on such tables. *)
Section calls.
Context {A : Type} (fails : nat → bool) (first : nat → nat).
#[local] Abbreviation run := (run fails first).

Lemma run_redir f m fd (k : Z → proc A) i o e d ms h ks w : redir_ok m fd →
  run (Close fd (fun _ => Open f m k)) (PState (std i o e) d ms h ks) w =
  if fails (S (w_calls w)) then run (k (-1)) (PState (close_fd (std i o e) fd) d ms h ks) (adv 2 w)
  else run (k fd) (PState (if fd =? 0 then std (OFile d f m) o e else std i (OFile d f m) e) d ms h ks) (adv 2 w).
Proof. intros [[-> ->]|[[-> ->]|[-> ->]]]; cbn [Shell.run]; cbn; by destruct (fails (S (w_calls w))). Qed.

Lemma run_pipe (k : Z → Z → Z → proc A) i o e d ms h ks w :
  run (Pipe k) (PState (std i o e) d ms h ks) w =
  if fails (w_calls w) then run (k (-1) 0 0) (PState (std i o e) d ms h ks) (adv 1 w)
  else run (k 0 3 4) (PState (std_pipe i o e (w_pipes w)) d (w_pipes w :: ms) h ks)
         (World (S (w_calls w)) (w_input w) (S (w_pipes w)) (w_launched w) (w_waits w)).
Proof. cbn [Shell.run]. by destruct (fails (w_calls w)). Qed.

(** The child left of the bar: its output is the pipe, and no other end stays open. *)
Lemma run_left (k : proc A) i o e n d ms h ks w :
  run (Close 1 (fun _ => Dup 4 (fun _ => Close 3 (fun _ => Close 4 (fun _ => k))))) (PState (std_pipe i o e n) d ms h ks) w =
  run k (PState (std i (PipeW n) e) d ms h ks) (adv 4 w).
Proof. done. Qed.

(** The child right of the bar: its input is the pipe. *)
Lemma run_right (k : proc A) i o e n d ms h ks w :
  run (Close 0 (fun _ => Dup 3 (fun _ => Close 3 (fun _ => Close 4 (fun _ => k))))) (PState (std_pipe i o e n) d ms h ks) w =
  run k (PState (std (PipeR n) o e) d ms h ks) (adv 4 w).
Proof. done. Qed.

(** The parent keeps neither end. *)
Lemma run_parent (k : proc A) i o e n d ms h ks w :
  run (Close 3 (fun _ => Close 4 (fun _ => k))) (PState (std_pipe i o e n) d ms h ks) w =
  run k (PState (std i o e) d ms h ks) (adv 2 w).
Proof. done. Qed.
End calls.

Definition three_fds (l : launch) : Prop := ∃ i o e, l_fds l = std i o e.

(** A process that waits with three descriptors, none of them an end of a pipe that it made. *)
Definition waits_clean (q : waiting) : Prop :=
  (∃ i o e, q_fds q = std i o e) ∧
  ∀ n fd x, n ∈ q_made q → q_fds q !! fd = Some (Some x) → x ≠ PipeR n ∧ x ≠ PipeW n.

(** A pipe end of a pipe made earlier. *)
Definition older (n : nat) (x : obj) : Prop :=
  match x with PipeR m | PipeW m => (m < n)%nat | OFile _ _ _ => True end.

Lemma older_le n m x : (n ≤ m)%nat → older n x → older m x.
Proof. destruct x; cbn; [done|lia..]. Qed.

Lemma std_lookup i o e fd x : std i o e !! fd = Some (Some x) → x = i ∨ x = o ∨ x = e.
Proof.
  destruct fd as [|[|[|fd]]]; [intros [= <-]; auto..|]. change (replicate (NOFILE - 3) (None (A := obj)) !! fd = Some (Some x) → x = i ∨ x = o ∨ x = e).
  by intros [? _]%lookup_replicate.
Qed.

Lemma waits_clean_std i o e ms : (∀ n, n ∈ ms → older n i ∧ older n o ∧ older n e) → waits_clean (Waiting (std i o e) ms).
Proof.
  intros Hms. split; [by exists i, o, e|]. intros n fd x Hn Hx%std_lookup. destruct (Hms n Hn) as (H1 & H2 & H3).
  destruct Hx as [->|[->| ->]]; split; intros E; subst; cbn in *; lia.
Qed.

(** The process ended, and every program launched and every [wait] called in between is
    as it should. *)
Definition tidy {A} (w : world) (r : outcome A * world) : Prop :=
  (∃ h, ends r.1 h) ∧ w_input r.2 = w_input w ∧ (w_pipes w ≤ w_pipes r.2)%nat ∧
  (∃ ls, w_launched r.2 = w_launched w ++ ls ∧ Forall three_fds ls) ∧
  (∃ qs, w_waits r.2 = w_waits w ++ qs ∧ Forall waits_clean qs).

Lemma tidy_exit {A} n w s h : tidy (A := A) w (Exited s h, adv n w).
Proof. split; [exists h; right; by eauto|]. split_and!; [done|cbn; lia|exists []; by rewrite app_nil_r|exists []; by rewrite app_nil_r]. Qed.

(** Calls that launch nothing. *)
Lemma tidy_from {A} w w' (r : outcome A * world) :
  w_launched w' = w_launched w → w_input w' = w_input w → (w_pipes w ≤ w_pipes w')%nat → 
  (∃ qs, w_waits w' = w_waits w ++ qs ∧ Forall waits_clean qs) → tidy w' r → tidy w r.
Proof.
  intros El Ei Hp (qs & Eq & Fq) (He & Hi & Hp' & Hl & qs' & Eq' & Fq'). split_and!; [done|congruence|lia|by rewrite <-El|].
  exists (qs ++ qs'). rewrite Eq', Eq, app_assoc. split; [done|]. by apply Forall_app.
Qed.

Lemma tidy_adv {A} n w (r : outcome A * world) : tidy (adv n w) r → tidy w r.
Proof. apply tidy_from; [done..|cbn; lia|]. exists []. by rewrite app_nil_r. Qed.

Lemma tidy_trans {A B} w (r : outcome A * world) (r' : outcome B * world) : tidy w r → tidy r.2 r' → tidy w r'.
Proof.
  intros (_ & Ei & Hp & (ls & El & Fl) & qs & Eq & Fq) (He & Ei' & Hp' & (ls' & El' & Fl') & qs' & Eq' & Fq').
  split_and!; [done|congruence|lia| |].
  - exists (ls ++ ls'). rewrite El', El, app_assoc. split; [done|]. by apply Forall_app.
  - exists (qs ++ qs'). rewrite Eq', Eq, app_assoc. split; [done|]. by apply Forall_app.
Qed.

Lemma tidy_fork {A} fails first (f : Z → proc A) st w :
  (∀ w', (w_pipes w ≤ w_pipes w')%nat → tidy w' (run fails first (f 0) (child st) w')) →
  (∀ w' pid h, (w_pipes w ≤ w_pipes w')%nat → 0 < pid → tidy w' (run fails first (f pid) (parent st pid h) w')) →
  tidy w (run fails first (then_ fork1 f) st w).
Proof.
  intros Hc Hp. destruct (run_fork1 fails first f st w) as [[_ [n ->]]|E]; [apply tidy_exit|].
  assert (Ht : tidy w (run fails first (f 0) (child st) (adv 1 w))) by (apply (tidy_adv 1), Hc; done).
  pose proof Ht as ([h Hh] & _ & Hpp & _). rewrite (E h Hh). eapply tidy_trans; [exact Ht|]. apply Hp; [done|lia].
Qed.

Lemma tidy_wait {A} fails first (k : Z → proc A) i o e d ms h ks w :
  (∀ n, n ∈ ms → older n i ∧ older n o ∧ older n e) →
  (∀ pid h ks w', (w_pipes w ≤ w_pipes w')%nat → tidy w' (run fails first (k pid) (PState (std i o e) d ms h ks) w')) →
  tidy w (run fails first (Wait k) (PState (std i o e) d ms h ks) w).
Proof.
  intros Hms Hk. rewrite run_wait. set (st := PState _ _ _ _ _).
  assert (Hf : ∀ r : outcome A * world, tidy (waits st w) r → tidy w r).
  { intros r. apply tidy_from; [done..|]. exists [Waiting (std i o e) ms]. split; [done|]. by apply Forall_singleton, waits_clean_std. }
  destruct (if fails _ then None else _) as [[[pid h'] ks']|]; by apply Hf, Hk.
Qed.

Lemma runcmd_tidy {A} fails first c : cmd_ok c → ∀ i o e d h ks w,
  older (w_pipes w) i → older (w_pipes w) o → older (w_pipes w) e →
  tidy w (run fails first (runcmd (A := A) c) (PState (std i o e) d [] h ks) w).
Proof.
  induction c as [argv|c IH f m fd|l IHl r IHr|l IHl r IHr|c IH]; cbn [cmd_ok]; intros Hc i o e d h ks w Hi Ho He; cbn [runcmd].
  - destruct argv as [|a argv]; [apply (tidy_exit 0)|]. cbn [run].
    set (x := Launch _ _ _ _). assert (Hq : Forall three_fds [x]) by (apply Forall_singleton; by exists i, o, e).
    set (w' := World _ _ _ _ _). assert (Ht : ∀ oc n, (∃ h, ends (A := A) oc h) → tidy w (oc, adv n w')).
    { intros oc n Hoc. split_and!; [done|done|done|by exists [x]|]. exists []. by rewrite app_nil_r. }
    destruct (fails _); [|apply (Ht _ 0%nat); eexists; by left].
    erewrite run_fprintf by (vm_compute; reflexivity). apply Ht. eexists. right. by eexists.
  - destruct Hc as (Hc & _ & Hm). rewrite run_redir by done. destruct (fails _).
    + cbn iota beta. change (-1 <? 0) with true. cbn iota. erewrite run_fprintf by (vm_compute; reflexivity).
      apply (tidy_adv 2), tidy_exit.
    + replace (fd <? 0) with false by (by destruct Hm as [[_ ->]|[[_ ->]|[_ ->]]]).
      apply (tidy_adv 2). destruct (fd =? 0); by apply IH.
  - destruct Hc as [Hl Hr]. rewrite run_pipe. destruct (fails _).
    { change (-1 <? 0) with true. cbn iota. destruct (run_panic (A := A) fails first (bytes_of "pipe") (PState (std i o e) d [] h ks) (adv 1 w)) as [n ->].
      apply (tidy_adv 1), tidy_exit. }
    cbn iota beta. set (w' := World _ _ _ _ _).
    assert (Hw' : ∀ r : outcome A * world, tidy w' r → tidy w r).
    { intros r0. apply tidy_from; [done..|cbn; lia|]. exists []. by rewrite app_nil_r. }
    apply Hw', tidy_fork; [intros w1 Hw1|intros w1 pid h1 Hw1 Hpid]; cbn [w_pipes] in Hw1.
    + rewrite Z.eqb_refl. unfold child. cbn [fds cwd ended]. rewrite run_left. apply (tidy_adv 4).
      apply IHl; [done|by apply (older_le (w_pipes w)); [cbn in *; lia|]|cbn in *; lia|by apply (older_le (w_pipes w)); [cbn in *; lia|]].
    + rewrite (proj2 (Z.eqb_neq pid 0)) by lia. apply tidy_fork; [intros w2 Hw2|intros w2 pid2 h2 Hw2 Hpid2].
      * rewrite Z.eqb_refl. unfold child, parent. cbn [fds cwd ended]. rewrite run_right. apply (tidy_adv 4).
        apply IHr; [done|cbn in *; lia|by apply (older_le (w_pipes w)); [cbn in *; lia|]|by apply (older_le (w_pipes w)); [cbn in *; lia|]].
      * rewrite (proj2 (Z.eqb_neq pid2 0)) by lia. unfold parent. cbn [fds cwd ended made kids]. rewrite run_parent. apply (tidy_adv 2).
        assert (Hms : ∀ n, n ∈ [w_pipes w] → older n i ∧ older n o ∧ older n e) by (intros n ->%list_elem_of_singleton; done).
        apply tidy_wait; [done|]. intros _ h3 ks3 w3 _. apply tidy_wait; [done|]. intros _ h4 ks4 w4 _. apply (tidy_exit 0).
  - destruct Hc as [Hl Hr]. apply tidy_fork; [intros w1 Hw1|intros w1 pid h1 Hw1 Hpid].
    + apply IHl; [done|by eapply older_le..].
    + rewrite (proj2 (Z.eqb_neq pid 0)) by lia. apply tidy_wait; [by intros n Hn%not_elem_of_nil|].
      intros _ h2 ks2 w2 Hw2. apply IHr; [done|by (eapply older_le; [|done]; lia)..].
  - apply tidy_fork; [intros w1 Hw1|intros w1 pid h1 Hw1 Hpid].
    + apply IH; [done|by eapply older_le..].
    + rewrite (proj2 (Z.eqb_neq pid 0)) by lia. apply (tidy_exit 0).
Qed.

(** C33: Whatever calls fail, every program that a command of the parser runs is started
    with exactly three open descriptors, and every process of the command that calls [wait]
    holds exactly three then, none of them an end of a pipe that it made: so neither the
    programs nor the processes that wait for them hold a write end that would keep the
    reader of a pipe from seeing its end. *)
Theorem runcmd_three_fds (fails : nat → bool) (first : nat → nat) (buf : list Z) (c : cmd) (i o e : obj) (d : list (list Z))
    (h : gset nat) (ks : list (Z * gset nat)) (w : world) :
  parsecmd buf = Ok c [] → older (w_pipes w) i → older (w_pipes w) o → older (w_pipes w) e →
  let r := run fails first (runcmd (A := Empty_set) c) (PState (std i o e) d [] h ks) w in
  (∃ ls, w_launched r.2 = w_launched w ++ ls ∧ Forall (fun l => ∃ i o e, l_fds l = std i o e) ls) ∧
  (∃ qs, w_waits r.2 = w_waits w ++ qs ∧ Forall (fun q => (∃ i o e, q_fds q = std i o e) ∧
     ∀ n fd x, n ∈ q_made q → q_fds q !! fd = Some (Some x) → x ≠ PipeR n ∧ x ≠ PipeW n) qs).
Proof.
  intros Hc Hi Ho He. destruct (runcmd_tidy (A := Empty_set) fails first c (parsecmd_makes_ok _ _ _ Hc) i o e d h ks w Hi Ho He) as (_ & _ & _ & H).
  exact H.
Qed.

(** ** What a command line runs *)

(** The meaning of a command: the programs it runs, with their standard input, output and
    error, in the directory [d], each after the programs of [b] and those its place in the
    command says; the number of pipes; and the programs that have ended when the command has,
    all but those in the background.  [n] numbers the pipes, [k] the programs. *)
Fixpoint denote (c : cmd) (i o e : obj) (d : list (list Z)) (n k : nat) (b : gset nat) : list launch * nat * gset nat :=
  match c with
  | EXEC [] => ([], n, ∅)
  | EXEC argv => ([Launch argv (std i o e) d b], n, {[k]})
  | REDIR c f m fd =>
      if fd =? 0 then denote c (OFile d f m) o e d n k b else denote c i (OFile d f m) e d n k b
  | LIST l r =>
      let '(ls, n, fl) := denote l i o e d n k b in
      let '(rs, n, fr) := denote r i o e d n (k + length ls) (b ∪ fl) in (ls ++ rs, n, fl ∪ fr)
  | PIPE l r =>
      let '(ls, n', fl) := denote l i (PipeW n) e d (S n) k b in
      let '(rs, n', fr) := denote r (PipeR n) o e d n' (k + length ls) b in (ls ++ rs, n', fl ∪ fr)
  | BACK c => let '(ls, n, _) := denote c i o e d n k b in (ls, n, ∅)
  end.

Definition never : nat → bool := fun _ => false.

(** The process ended after launching the programs [ls.1.1]; [ls.1.2] pipes were made, and
    those of [b] and of [ls.2] have ended. *)
Definition did {A} (b : gset nat) (ls : list launch * nat * gset nat) (w : world) (r : outcome A * world) : Prop :=
  ends r.1 (b ∪ ls.2) ∧ w_input r.2 = w_input w ∧
  w_launched r.2 = w_launched w ++ ls.1.1 ∧ w_pipes r.2 = ls.1.2.

Lemma did_exit {A} n w s b : did (A := A) b ([], w_pipes w, ∅) w (Exited s b, adv n w).
Proof. split_and!; [right; exists s; cbn; by rewrite union_empty_r_L|done|by rewrite app_nil_r|done]. Qed.

Lemma did_from {A} b ls w w' (r : outcome A * world) :
  w_launched w' = w_launched w → w_input w' = w_input w → did b ls w' r → did b ls w r.
Proof. unfold did. by intros -> ->. Qed.

Section did.
Context {A : Type} (first : nat → nat).
#[local] Abbreviation run := (run never first).

Lemma did_fork (f : Z → proc A) ls n1 fl b' rs n2 fr b'' st w :
  did (ended st) (ls, n1, fl) (adv 1 w) (run (f 0) (child st) (adv 1 w)) →
  (∀ w2 pid, 0 < pid → w_pipes w2 = n1 → w_launched w2 = w_launched w ++ ls →
     did b' (rs, n2, fr) w2 (run (f pid) (parent st pid (ended st ∪ fl)) w2)) →
  b' ∪ fr = ended st ∪ b'' →
  did (ended st) (ls ++ rs, n2, b'') w (run (then_ fork1 f) st w).
Proof.
  intros (Ho & Hi & Hl & Hn) Hp Hb. cbn [fst snd w_input adv w_launched] in Hi, Hl, Hn. destruct (run_fork1 never first f st w) as [[? _]|E]; [done|]. rewrite (E _ Ho).
  destruct (Hp _ (Z.of_nat (S (w_calls w))) ltac:(lia) Hn Hl) as (H1 & H2 & H3 & H4). cbn [fst snd] in H1, H2, H3, H4.
  split_and!; [cbn [fst snd]; by rewrite <-Hb|etransitivity; [exact H2|exact Hi]| |done]. cbn [fst snd]. by rewrite H3, Hl, <-app_assoc.
Qed.

(** [wait] with one child, and twice with two. *)
Lemma run_wait1 (k : Z → proc A) st pid h w : kids st = [(pid, h)] →
  run (Wait k) st w = run (k pid) (PState (fds st) (cwd st) (made st) (ended st ∪ h) []) (waits st w).
Proof.
  intros Hk. rewrite run_wait, Hk. unfold reap. cbn [never length]. by rewrite Nat.mod_1_r.
Qed.

Lemma run_wait2 (p : proc A) st pid1 h1 pid2 h2 w : kids st = [(pid1, h1); (pid2, h2)] → ∃ w',
  run (Wait (fun _ => Wait (fun _ => p))) st w = run p (PState (fds st) (cwd st) (made st) (ended st ∪ (h1 ∪ h2)) []) w' ∧
  w_launched w' = w_launched w ∧ w_input w' = w_input w ∧ w_pipes w' = w_pipes w.
Proof.
  intros Hk. rewrite run_wait, Hk. unfold reap. cbn [never length].
  assert (Hm : (first (w_calls w) mod 2 = 0 ∨ first (w_calls w) mod 2 = 1)%nat)
    by (pose proof (Nat.mod_upper_bound (first (w_calls w)) 2); lia).
  destruct Hm as [-> | ->]; cbn -[Shell.run]; (erewrite run_wait1 by done); cbn [fds cwd made ended kids]; rewrite <-union_assoc_L.
  - by eexists.
  - rewrite (union_comm_L h2). by eexists.
Qed.
End did.

Lemma runcmd_did {A} first c : cmd_ok c → ∀ i o e d h w,
  did h (denote c i o e d (w_pipes w) (length (w_launched w)) h) w (run never first (runcmd (A := A) c) (PState (std i o e) d [] h []) w).
Proof.
  induction c as [argv|c IH f m fd|l IHl r IHr|l IHl r IHr|c IH]; cbn [cmd_ok]; intros Hc i o e d h w; cbn [runcmd denote].
  - destruct argv as [|a argv]; [apply (did_exit 0)|]. split_and!; [left; cbn; by rewrite union_comm_L|done..].
  - destruct Hc as (Hc & _ & Hm). rewrite run_redir by done. cbn [never].
    replace (fd <? 0) with false by (by destruct Hm as [[_ ->]|[[_ ->]|[_ ->]]]).
    apply (did_from _ _ _ (adv 2 w)); [done..|]. destruct (fd =? 0); apply (IH Hc _ _ _ _ _ (adv 2 w)).
  - destruct Hc as [Hl Hr]. rewrite run_pipe. cbn [never]. set (w' := World _ _ _ _ _).
    destruct (denote l i (PipeW (w_pipes w)) e d (S (w_pipes w)) (length (w_launched w)) h) as [[ls n1] fl] eqn:El.
    destruct (denote r (PipeR (w_pipes w)) o e d n1 (length (w_launched w) + length ls) h) as [[rs n2] fr] eqn:Er.
    apply (did_from _ _ _ w'); [done..|]. set (st := PState _ _ _ _ _). change h with (ended st) at 1.
    apply (did_fork first _ ls n1 fl h rs n2 (fl ∪ fr)); [|intros w1 pid Hpid Hn1 Hl1|done].
    + rewrite Z.eqb_refl. unfold child. cbn [st fds cwd ended]. rewrite run_left. rewrite <-El.
      apply (did_from _ _ _ (adv 4 (adv 1 w'))); [done..|]. apply (IHl Hl _ _ _ _ _ (adv 4 (adv 1 w'))).
    + rewrite (proj2 (Z.eqb_neq pid 0)) by lia. rewrite <-(app_nil_r rs). set (st1 := parent st pid (h ∪ fl)). change h with (ended st1) at 1.
      apply (did_fork first _ rs n2 fr (h ∪ ((h ∪ fl) ∪ (h ∪ fr))) [] n2 ∅ (fl ∪ fr)); [|intros w2 pid2 Hpid2 Hn2 Hl2|cbn; set_solver].
      * rewrite Z.eqb_refl. unfold child. cbn [st1 st parent fds cwd ended]. rewrite run_right.
        apply (did_from _ _ _ (adv 4 (adv 1 w1))); [done..|]. cbn in Hn1, Hl1. rewrite <-Er, <-Hn1.
        replace (length (w_launched w) + length ls)%nat with (length (w_launched (adv 4 (adv 1 w1)))) by (cbn; by rewrite Hl1, length_app).
        apply (IHr Hr _ _ _ _ _ (adv 4 (adv 1 w1))).
      * rewrite (proj2 (Z.eqb_neq pid2 0)) by lia. unfold parent at 1. cbn [st1 st parent fds cwd ended made kids app]. rewrite run_parent.
        destruct (run_wait2 first (Exit 0 : proc A) (PState (std i o e) d [w_pipes w] h [(pid, h ∪ fl); (pid2, h ∪ fr)]) pid (h ∪ fl) pid2 (h ∪ fr) (adv 2 w2))
          as (w3 & -> & E1 & E2 & E3); [done|]. cbn [Shell.run ended fds cwd made].
        apply (did_from _ _ _ w3); [done..|]. cbn in Hn2, E3. rewrite <-Hn2, <-E3. apply (did_exit 0).
  - destruct Hc as [Hl Hr]. destruct (denote l i o e d (w_pipes w) (length (w_launched w)) h) as [[ls n1] fl] eqn:El.
    destruct (denote r i o e d n1 (length (w_launched w) + length ls) (h ∪ fl)) as [[rs n2] fr] eqn:Er.
    set (st := PState _ _ _ _ _). change h with (ended st) at 1.
    apply (did_fork first _ ls n1 fl (h ∪ (h ∪ fl)) rs n2 fr (fl ∪ fr)); [|intros w1 pid Hpid Hn1 Hl1|cbn; set_solver].
    + rewrite Z.eqb_refl, <-El. apply (IHl Hl _ _ _ _ _ (adv 1 w)).
    + rewrite (proj2 (Z.eqb_neq pid 0)) by lia. erewrite run_wait1 by done. cbn [fds cwd made ended st parent].
      match goal with |- context [waits ?s w1] => apply (did_from _ _ _ (waits s w1)); [done..|]; specialize (IHr Hr i o e d (h ∪ (h ∪ fl)) (waits s w1)) end.
      cbn [w_pipes waits w_launched] in IHr. rewrite Hn1, Hl1, length_app in IHr.
      replace (h ∪ (h ∪ fl)) with (h ∪ fl) in * by set_solver. rewrite Er in IHr. exact IHr.
  - destruct (denote c i o e d (w_pipes w) (length (w_launched w)) h) as [[ls n1] fl] eqn:El. rewrite <-(app_nil_r ls).
    set (st := PState _ _ _ _ _). change h with (ended st) at 1.
    apply (did_fork first _ ls n1 fl h [] n1 ∅ ∅); [|intros w1 pid Hpid Hn1 Hl1|done].
    + rewrite Z.eqb_refl, <-El. apply (IH Hc _ _ _ _ _ (adv 1 w)).
    + rewrite (proj2 (Z.eqb_neq pid 0)) by lia. cbn in Hn1. rewrite <-Hn1. apply (did_exit 0).
Qed.

(** ** A session *)

(** [runcmd] does not return. *)
Lemma then_fork1 {A B} (f : Z → proc A) (g : A → proc B) : then_ (then_ fork1 f) g = then_ fork1 (fun pid => then_ (f pid) g).
Proof. apply then_assoc. Qed.

Lemma then_if {A B} (b : bool) (m n : proc A) (f : A → proc B) : then_ (if b then m else n) f = if b then then_ m f else then_ n f.
Proof. by destruct b. Qed.

Lemma then_runcmd {A B} c (f : A → proc B) : then_ (runcmd c) f = runcmd c.
Proof.
  induction c as [argv|c IH fl m fd|l IHl r IHr|l IHl r IHr|c IH]; cbn [runcmd].
  - destruct argv as [|a argv]; [done|]. cbn [then_]. f_equal. apply functional_extensionality. intros _. apply fprintf_exit.
  - cbn [then_]. f_equal. apply functional_extensionality. intros _. f_equal. apply functional_extensionality. intros r.
    rewrite then_if, IH. destruct (r <? 0); [apply fprintf_exit|done].
  - cbn [then_]. f_equal. apply functional_extensionality. intros ok. do 2 (apply functional_extensionality; intros ?).
    rewrite then_if. destruct (ok <? 0); [apply fprintf_exit|].
    rewrite then_fork1. f_equal. apply functional_extensionality. intros pid. rewrite then_if. cbn [then_]. rewrite IHl.
    rewrite then_fork1. destruct (pid =? 0); [done|]. f_equal. apply functional_extensionality. intros pid2. rewrite then_if. cbn [then_]. by rewrite IHr.
  - rewrite then_fork1. f_equal. apply functional_extensionality. intros pid. rewrite then_if. cbn [then_]. by rewrite IHl, IHr.
  - rewrite then_fork1. f_equal. apply functional_extensionality. intros pid. rewrite then_if. cbn [then_]. by rewrite IH.
Qed.

Lemma parsecmd_io_ok buf c s : parsecmd buf = Ok c s → parsecmd_io buf = Ret c.
Proof.
  unfold parsecmd, parsecmd_io, bind, peek, Prelude.get, ret. destruct (parseline _ buf) as [c' s'| | | |]; try done.
  case_decide as E; [|done]. rewrite E. by intros [= <- _].
Qed.

(** A line that the parser rejects: messages, and the process exits with status 1. *)
Lemma parsecmd_io_panic {A} first buf msg s (f : cmd → proc A) st w :
  parsecmd buf = Panic msg s → ∃ n, run never first (then_ (parsecmd_io buf) f) st w = (Exited 1 (ended st), adv n w).
Proof.
  unfold parsecmd, parsecmd_io, bind, peek, Prelude.get, ret. destruct (parseline _ buf) as [c' s'|m s'| | |]; try done.
  - destruct (skip_ws s') as [|x rest] eqn:E; [done|]. intros _. rewrite then_assoc. erewrite run_fprintf by (vm_compute; reflexivity).
    unfold panic_ at 1. rewrite fprintf_exit.
    eexists. erewrite run_fprintf by (vm_compute; reflexivity). by rewrite adv_adv.
  - intros _. unfold panic_. rewrite fprintf_exit. apply run_panic.
Qed.

(** The directory after a line, and the programs it runs. *)
Definition cd_dir (line : list Z) : list Z := drop 3 (take (length line - 1) line).

Definition line_runs (line : list Z) (i o e : obj) (d : list (list Z)) (n k : nat) (b : gset nat) : list launch * nat * gset nat :=
  if decide (take 3 line = bytes_of "cd ") then ([], n, ∅) else
  match parsecmd line with Ok c _ => denote c i o e d n k b | _ => ([], n, ∅) end.
Definition line_cwd (line : list Z) (d : list (list Z)) : list (list Z) :=
  if decide (take 3 line = bytes_of "cd ") then d ++ [cd_dir line] else d.

(** The programs of the lines: those of a line start after the foreground programs of all
    lines before it have ended. *)
Fixpoint session (lines : list (list Z)) (i o e : obj) (d : list (list Z)) (n k : nat) (b : gset nat) : list launch * nat :=
  match lines with
  | [] => ([], n)
  | line :: lines =>
      let '(ls, n, f) := line_runs line i o e d n k b in
      let '(rest, n) := session lines i o e (line_cwd line d) n (k + length ls) (b ∪ f) in (ls ++ rest, n)
  end.

Lemma do_line_runs {A} first line (k : unit → proc A) i o e d h w : ∃ w',
  let r := line_runs line i o e d (w_pipes w) (length (w_launched w)) h in
  run never first (then_ (do_line line) k) (PState (std i o e) d [] h []) w =
    run never first (k tt) (PState (std i o e) (line_cwd line d) [] (h ∪ r.2) []) w' ∧
  w_input w' = w_input w ∧ w_launched w' = w_launched w ++ r.1.1 ∧ w_pipes w' = r.1.2.
Proof.
  unfold do_line, line_runs, line_cwd. destruct (decide (take 3 line = _)) as [E|E].
  { eexists. cbn zeta. cbn [fst snd]. rewrite union_empty_r_L. split; [reflexivity|]. split; [done|]. split; [by rewrite app_nil_r|done]. }
  rewrite then_fork1. set (st := PState (std i o e) d [] h []). set (r := match parsecmd line with Ok _ _ => _ | _ => _ end).
  match goal with |- context [then_ fork1 ?g] => set (f := g) end.
  assert (Hchild : did h r (adv 1 w) (run never first (f 0) (child st) (adv 1 w))).
  { unfold f, r. rewrite Z.eqb_refl, then_assoc. destruct (parsecmd_returns line) as [[c Ec]|(msg & s & Ec)]; rewrite Ec.
    - rewrite (parsecmd_io_ok _ _ _ Ec). cbn [then_]. rewrite then_runcmd.
      apply (runcmd_did first c (parsecmd_makes_ok _ _ _ Ec) _ _ _ _ _ (adv 1 w)).
    - destruct (parsecmd_io_panic first line msg s (fun c => then_ (runcmd c) k) (child st) (adv 1 w) Ec) as [n ->].
      apply (did_exit n (adv 1 w)). }
  destruct Hchild as (Ho & Hi & Hl & Hn). destruct (run_fork1 never first f st w) as [[? _]|Ef]; [done|]. rewrite (Ef _ Ho). clear Ef.
  set (pid := Z.of_nat (S (w_calls w))). assert (Hp : f pid = Wait (fun _ => k tt)).
  { unfold f. by rewrite (proj2 (Z.eqb_neq pid 0)) by lia. }
  rewrite Hp. erewrite run_wait1 by done. cbn [fds cwd made ended kids st parent].
  replace (h ∪ (h ∪ r.2)) with (h ∪ r.2) by set_solver. by eexists.
Qed.

(** A line as it is typed: text without nulls and line ends, that fits the buffer with its
    newline. *)
Definition typed (line : list Z) : Prop :=
  ∃ body, line = body ++ [10] ∧ (∀ c, c ∈ body → c ≠ 0 ∧ c ≠ 10 ∧ c ≠ 13) ∧ (length body + 2 ≤ BUFSIZE)%nat.

(** The state of the shell between two lines, and the world with [n] calls made and [input]
    unread. *)
Definition idle (i o e : obj) (d : list (list Z)) (h : gset nat) : pstate := PState (std i o e) d [] h [].
Definition reading (n : nat) (input : list Z) (w : world) : world := World n input (w_pipes w) (w_launched w) (w_waits w).

Lemma run_read1 {A} fails first (k : option (list Z) → proc A) i o e d h n input w :
  run fails first (Read 0 1 k) (idle i o e d h) (reading n input w) =
  run fails first (k (Some (take 1 input))) (idle i o e d h) (reading (S n) (drop 1 input) w).
Proof. done. Qed.

Lemma gets_line {A} fails first (k : list Z → proc A) i o e d h rest w max fuel body : ∀ buf n,
  (∀ c, c ∈ body → c ≠ 0 ∧ c ≠ 10 ∧ c ≠ 13) → (length buf + length body + 2 ≤ max)%nat → (length body < fuel)%nat → ∃ n',
  run fails first (then_ (repeat_ fuel (gets_body max) buf) k) (idle i o e d h) (reading n (body ++ 10 :: rest) w) =
  run fails first (k (buf ++ body ++ [10])) (idle i o e d h) (reading n' rest w).
Proof.
  revert fuel. induction body as [|c body IH]; intros fuel buf n Hb Hm Hf; (destruct fuel as [|fuel]; [cbn in Hf; lia|]).
  - eexists. cbn [repeat_]. unfold gets_body at 1. rewrite decide_True by (cbn in Hm; lia). cbn [then_]. rewrite run_read1. cbn. done.
  - cbn [repeat_]. unfold gets_body at 1. rewrite decide_True by (cbn in Hm; lia). cbn [then_]. rewrite run_read1. cbn [app take drop].
    destruct (Hb c ltac:(by left)) as (_ & H1 & H2). rewrite (proj2 (Z.eqb_neq c 10) H1), (proj2 (Z.eqb_neq c 13) H2).
    cbn [orb then_]. destruct (IH fuel (buf ++ [c]) (S n)) as [n' E].
    + intros x Hx. apply Hb. by right.
    + rewrite length_app. cbn in Hm |- *. lia.
    + cbn in Hf. lia.
    + exists n'. etransitivity; [exact E|]. by rewrite <-!app_assoc.
Qed.

Lemma cut_nul_typed line : typed line → cut_nul line = line.
Proof.
  intros (body & -> & Hb & _). induction body as [|c body IH]; [done|]. cbn [app cut_nul].
  rewrite decide_False by (by apply (Hb c); left). f_equal. apply IH. intros x Hx. apply Hb. by right.
Qed.

Lemma getcmd_line {A} fails first (k : option (list Z) → proc A) i o e d h line rest n w : typed line → ∃ n',
  run fails first (then_ getcmd k) (idle i o e d h) (reading n (line ++ rest) w) =
  run fails first (k (Some line)) (idle i o e d h) (reading n' rest w).
Proof.
  intros Hl. pose proof (cut_nul_typed line Hl) as Hc. destruct Hl as (body & -> & Hb & Hm).
  unfold getcmd, gets. cbn [then_]. rewrite then_assoc. cbn [run]. rewrite <-app_assoc.
  edestruct (gets_line fails first (fun line => then_ (match cut_nul line with [] => Ret None | s => Ret (Some s) end) k)
    i o e d h rest w BUFSIZE BUFSIZE body []) as [n' E]; [done|cbn; lia|lia|].
  exists n'. etransitivity; [exact E|]. cbn [app]. rewrite Hc. by destruct body.
Qed.

Lemma getcmd_eof {A} fails first (k : option (list Z) → proc A) i o e d h n w : ∃ n',
  run fails first (then_ getcmd k) (idle i o e d h) (reading n [] w) =
  run fails first (k None) (idle i o e d h) (reading n' [] w).
Proof. by eexists. Qed.

Lemma main_loop_session first lines i o e : Forall typed lines → ∀ d h n w,
  let r := run never first (then_ (main_loop (S (length lines))) (fun _ => Exit 0 : proc unit)) (idle i o e d h) (reading n (concat lines) w) in
  let s := session lines i o e d (w_pipes w) (length (w_launched w)) h in
  (∃ h', r.1 = Exited 0 h') ∧ w_launched r.2 = w_launched w ++ s.1 ∧ w_pipes r.2 = s.2.
Proof.
  induction 1 as [|line lines Hline _ IH]; intros d h n w.
  - unfold main_loop. cbn [repeat_ concat]. rewrite !then_assoc.
    match goal with |- context [then_ getcmd ?f] => destruct (getcmd_eof never first f i o e d h n w) as [n'' E] end. rewrite E.
    cbn. rewrite app_nil_r. split; [by eexists|done].
  - unfold main_loop. cbn [length]. remember (S (length lines)) as f. cbn [repeat_ concat]. rewrite !then_assoc.
    match goal with |- context [then_ getcmd ?f] =>
      destruct (getcmd_line never first f i o e d h line (concat lines) n w Hline) as [n'' E] end. rewrite E. clear E. rewrite !then_assoc.
    match goal with |- context [then_ (do_line line) ?f] =>
      destruct (do_line_runs first line f i o e d h (reading n'' (concat lines) w)) as (w2 & E & Hi & Hls & Hp) end.
    change (PState (std i o e) d [] h []) with (idle i o e d h) in E. rewrite E. clear E. cbn [then_]. cbn [reading w_pipes w_launched w_input] in *. subst f.
    specialize (IH (line_cwd line d) (h ∪ (line_runs line i o e d (w_pipes w) (length (w_launched w)) h).2) (w_calls w2) w2).
    cbn [session]. destruct (line_runs line i o e d (w_pipes w) (length (w_launched w)) h) as [[l1 p1] f1]. cbn [fst snd] in *.
    rewrite Hp, Hls, length_app in IH. destruct (session lines i o e (line_cwd line d) p1 _ _) as [l2 p2]. cbn [fst snd] in *.
    rewrite app_assoc. assert (E : reading (w_calls w2) (concat lines) w2 = w2) by (rewrite <-Hi; by destruct w2).
    rewrite E in IH. exact IH.
Qed.

(** C31: A session of the shell, when no call fails: from the descriptors [init] gives it, on
    the lines typed up to the end of the input, the shell runs exactly the programs of
    the lines, each with the standard input, output and error that the operators around it
    say and with no other descriptor; whichever child a [wait] returns, a program starts only
    after those have ended that come before it in the session: the foreground programs of the
    lines before and of what is left of a [;].  A [cd] line changes the directory of every
    later line, a line that does not parse runs nothing, and at the end of the input the
    shell exits with status 0. *)
Theorem shell_session (first : nat → nat) (lines : list (list Z)) (i o e : obj) (d : list (list Z)) (w : world) :
  Forall typed lines → w_input w = concat lines →
  let r := run never first (main (S (length lines))) (PState (std i o e) d [] ∅ []) w in
  let s := session lines i o e d (w_pipes w) (length (w_launched w)) ∅ in
  (∃ h, r.1 = Exited 0 h) ∧ w_launched r.2 = w_launched w ++ s.1 ∧ w_pipes r.2 = s.2.
Proof.
  intros Hl Hi. set (k := fun _ : unit => Exit 0 : proc unit).
  assert (Ho : ∃ n', run never first (main (S (length lines))) (PState (std i o e) d [] ∅ []) w =
    run never first (then_ (main_loop (S (length lines))) k) (idle i o e d ∅) (reading n' (concat lines) w)) by (rewrite <-Hi; by eexists).
  destruct Ho as [n' ->]. by apply main_loop_session.
Qed.

(** ** Examples *)

Definition con : obj := OFile [] (bytes_of "console") O_RDWR.
Definition demo_lines : list (list Z) :=
  (fun s => bytes_of s ++ [10]) <$> ["cat < in | wc > out"; "cd tmp"; "(ls"; "ls &; pwd"].

Lemma runcmd_three_fds_witness :
  let r := run (fun n => bool_decide (n = 12)%nat) (fun n => n) (runcmd (A := Empty_set)
    (PIPE (EXEC [bytes_of "a"]) (EXEC [bytes_of "b"]))) (PState (std con con con) [] [] ∅ []) (World 0 [] 0 [] []) in
  (∃ ls, w_launched r.2 = [] ++ ls ∧ Forall (fun l => ∃ i o e, l_fds l = std i o e) ls) ∧
  (∃ qs, w_waits r.2 = [] ++ qs ∧ Forall (fun q => (∃ i o e, q_fds q = std i o e) ∧
     ∀ n fd x, n ∈ q_made q → q_fds q !! fd = Some (Some x) → x ≠ PipeR n ∧ x ≠ PipeW n) qs).
Proof.
  apply (runcmd_three_fds (fun n => bool_decide (n = 12)%nat) (fun n => n) (bytes_of "a|b") _ con con con [] ∅ [] (World 0 [] 0 [] []));
    [vm_compute; reflexivity|exact I..].
Defined.

Lemma typed_demo : Forall typed demo_lines.
Proof.
  repeat (apply Forall_cons; split; [eexists; split; [reflexivity|]; split; [|vm_compute; lia]|]); [..|by apply Forall_nil];
    intros c Hc; cbn in Hc; repeat (apply elem_of_cons in Hc as [->|Hc]; [done|]); by apply not_elem_of_nil in Hc.
Qed.

(** [wc] and [cat] run together, [ls] after both, [pwd] after both and not after [ls &]. *)
Lemma shell_session_witness :
  let r := run never (fun n => n) (main 5) (PState (std con con con) [] [] ∅ []) (World 0 (concat demo_lines) 0 [] []) in
  (∃ h, r.1 = Exited 0 h) ∧
  w_launched r.2 = [Launch [bytes_of "cat"] (std (OFile [] (bytes_of "in") O_RDONLY) (PipeW 0) con) [] ∅;
                    Launch [bytes_of "wc"] (std (PipeR 0) (OFile [] (bytes_of "out") 1537) con) [] ∅;
                    Launch [bytes_of "ls"] (std con con con) [bytes_of "tmp"] {[0%nat; 1%nat]};
                    Launch [bytes_of "pwd"] (std con con con) [bytes_of "tmp"] {[0%nat; 1%nat]}] ∧ w_pipes r.2 = 1%nat.
Proof. exact (shell_session (fun n => n) demo_lines con con con [] (World 0 (concat demo_lines) 0 [] []) typed_demo eq_refl). Defined.

(** [cd] drops the last character of its line, newline or not: a line that ends with the
    input or fills the buffer loses a character of the directory's name. *)
Lemma cd_chops_last first (dir : list Z) (x : Z) (st : pstate) (w : world) :
  run never first (do_line (bytes_of "cd " ++ dir ++ [x])) st w =
    (Returned tt (PState (fds st) (cwd st ++ [dir]) (made st) (ended st) (kids st)), adv 1 w).
Proof.
  unfold do_line. rewrite decide_True by done. cbn [run never]. rewrite app_assoc, length_app, take_app_le, take_ge by (rewrite ?length_app; cbn; lia).
  done.
Qed.

(** ** init (user/init.c) *)

Definition printf_ (fmt : string) : proc unit := fprintf 1 fmt [].

(** Wait until the shell [pid] has exited. *)
Definition init_wait (fuel : nat) (pid : Z) : proc unit :=
  repeat_ fuel (fun _ =>
    Wait (fun wpid =>
      if wpid =? pid then Ret (inr tt)
      else if wpid <? 0 then printf_ ("init: wait returned an error" ++ NL) ;~ Exit 1
      else Ret (inl tt))) tt.

Definition init_round (fuel : nat) : proc (unit + unit) :=
  printf_ ("init: starting sh" ++ NL) ;~
  Fork (fun pid =>
    if pid <? 0 then printf_ ("init: fork failed" ++ NL) ;~ Exit 1 else
    if pid =? 0 then
      Exec (bytes_of "sh") [bytes_of "sh"] (fun _ => printf_ ("init: exec sh failed" ++ NL) ;~ Exit 1)
    else init_wait fuel pid ;~ Ret (inl tt)).

(** [rounds] shells are started at most, and [fuel] processes waited for between two. *)
Definition init_loop (rounds fuel : nat) : proc unit := repeat_ rounds (fun _ => init_round fuel) tt.
Definition init_main (rounds fuel : nat) : proc unit :=
  let rest := Dup 0 (fun _ => Dup 0 (fun _ => init_loop rounds fuel)) in
  Open (bytes_of "console") O_RDWR (fun fd =>
    if fd <? 0 then
      Mknod (bytes_of "console") CONSOLE 0 (fun _ => Open (bytes_of "console") O_RDWR (fun _ => rest))
    else rest).

(** Programs are only added to those launched. *)
Lemma run_launched {A} fails first (p : proc A) : ∀ st w, w_launched w `prefix_of` w_launched (run fails first p st w).2.
Proof.
  induction p as [a|s| |k IH|k IH|k IH|fd n k IH|fd s k IH|fd k IH|fd k IH|path m k IH|path argv k IH|path k IH|path a b k IH
    |path k IH|old new k IH|path k IH|pid k IH|n k IH|fd k IH];
    intros st w; cbn [run]; [done..| | | | | | | | | | | | | | | | |]; try (etrans; [|apply IH]; done).
  - destruct (fails _); [by (etrans; [|apply IH])|]. pose proof (IH 0 (child st) (adv 1 w)) as H0.
    change (World (S (w_calls w)) (w_input w) (w_pipes w) (w_launched w) (w_waits w)) with (adv 1 w).
    change (PState (fds st) (cwd st) [] (ended st) []) with (child st).
    destruct (run fails first (k 0) (child st) (adv 1 w)) as [[] w2]; try exact H0; (etrans; [exact H0|apply IH]).
  - destruct (if fails _ then None else _) as [[[pid h] ks]|]; (etrans; [|apply IH]; done).
  - destruct (if fails _ then None else _) as [[[p0 p1] t]|]; (etrans; [|apply IH]; done).
  - destruct (fd_obj _ _); (etrans; [|apply IH]; done).
  - destruct (fd_obj _ _); (etrans; [|apply IH]; done).
  - destruct (fd_obj _ _ ≫= _) as [[n t]|]; (etrans; [|apply IH]; done).
  - destruct (if fails _ then None else _) as [[n t]|]; (etrans; [|apply IH]; done).
  - destruct (fails _); [|by apply prefix_app_r]. etrans; [|apply IH]. by apply prefix_app_r.
  - destruct (fails _); (etrans; [|apply IH]; done).
Qed.

Lemma run_starting {A} fails first (k : proc A) st w : ∃ n,
  run fails first (printf_ ("init: starting sh" ++ NL) ;~ k) st w = run fails first k st (adv n w).
Proof. eexists. apply run_fprintf. vm_compute. reflexivity. Qed.

(** A child that calls [exec] at once. *)
Lemma run_fork_exec {A} fails first (k k1 : Z → proc A) path argv st w :
  k 0 = Exec path argv k1 → fails (w_calls w) = false → fails (S (w_calls w)) = false →
  ∃ ls, w_launched (run fails first (Fork k) st w).2 = w_launched w ++ Launch argv (fds st) (cwd st) (ended st) :: ls.
Proof.
  intros Hk H0 H1. cbn [run]. rewrite H0, Hk. cbn [run w_calls]. rewrite H1.
  match goal with |- context [run fails first ?p ?st ?w0] => destruct (run_launched fails first p st w0) as [ls E] end.
  rewrite E. exists ls. cbn. by rewrite <-app_assoc.
Qed.

(** The first shell of [init]. *)
Lemma init_round_launch fails first fuel (k : unit + unit → proc unit) w :
  (∀ n, (w_calls w ≤ n)%nat → fails n = false) →
  ∃ ls, w_launched (run fails first (then_ (init_round fuel) k) (PState (std con con con) [] [] ∅ []) w).2 =
    w_launched w ++ Launch [bytes_of "sh"] (std con con con) [] ∅ :: ls.
Proof.
  intros Hf. unfold init_round. rewrite then_assoc.
  match goal with |- context [then_ (printf_ _) ?f] => destruct (run_starting (A := unit) fails first (f tt) (PState (std con con con) [] [] ∅ []) w) as [n E] end.
  rewrite E. clear E. cbn [then_]. 
  match goal with |- context [Fork ?f] =>
    eapply (run_fork_exec fails first f _ _ [bytes_of "sh"] (PState (std con con con) [] [] ∅ []) (adv n w)); [reflexivity|apply Hf; cbn; lia..] end.
Qed.

(** The console is opened and duplicated. *)
Lemma run_open_console {A} fails first (k : Z → proc A) w : fails (w_calls w) = false →
  run fails first (Open (bytes_of "console") O_RDWR k) (PState (replicate NOFILE None) [] [] ∅ []) w =
  run fails first (k 0) (PState (Some con :: replicate (NOFILE - 1) None) [] [] ∅ []) (adv 1 w).
Proof. intros Hf. cbn [run]. by rewrite Hf. Qed.

Lemma run_open_fail {A} fails first path m (k : Z → proc A) st w : fails (w_calls w) = true →
  run fails first (Open path m k) st w = run fails first (k (-1)) st (adv 1 w).
Proof. intros Hf. cbn [run]. by rewrite Hf. Qed.

Lemma run_mknod {A} fails first path a b (k : Z → proc A) st w :
  run fails first (Mknod path a b k) st w = run fails first (k (if fails (w_calls w) then -1 else 0)) st (adv 1 w).
Proof. done. Qed.

Lemma run_dup_console {A} fails first (p : proc A) w :
  run fails first (Dup 0 (fun _ => Dup 0 (fun _ => p))) (PState (Some con :: replicate (NOFILE - 1) None) [] [] ∅ []) w =
  run fails first p (PState (std con con con) [] [] ∅ []) (adv 2 w).
Proof. done. Qed.

(** Whether or not the console's device node exists when the machine boots, the first
    shell that [init] starts has the console as its standard input, output and error and
    no other descriptor: the table [shell_session] starts from. *)
Theorem init_starts_shell (fails : nat → bool) (first : nat → nat) (rounds fuel : nat) (w : world) :
  (∀ n, (w_calls w < n)%nat → fails n = false) →
  ∃ ls, w_launched (run fails first (init_main (S rounds) fuel) (PState (replicate NOFILE None) [] [] ∅ []) w).2 =
    w_launched w ++ Launch [bytes_of "sh"] (std con con con) [] ∅ :: ls.
Proof.
  intros Hf. unfold init_main. cbv zeta. set (rest := init_loop (S rounds) fuel).
  assert (Hr : ∀ w', (w_calls w < w_calls w')%nat → w_launched w' = w_launched w →
    ∃ ls, w_launched (run fails first rest (PState (std con con con) [] [] ∅ []) w').2 = w_launched w ++ Launch [bytes_of "sh"] (std con con con) [] ∅ :: ls).
  { intros w' Hw El. rewrite <-El. unfold rest, init_loop. cbn [repeat_]. apply init_round_launch. intros n Hn. apply Hf. lia. }
  clearbody rest. destruct (fails (w_calls w)) eqn:E0.
  - rewrite run_open_fail by done. change (-1 <? 0) with true. cbn iota. rewrite run_mknod.
    rewrite run_open_console by (apply Hf; cbn; lia). rewrite run_dup_console. apply Hr; [cbn; lia|done].
  - rewrite run_open_console by done. change (0 <? 0) with false. cbn iota. rewrite run_dup_console. apply Hr; [cbn; lia|done].
Qed.

Lemma init_starts_shell_witness : ∃ ls,
  w_launched (run (fun n => bool_decide (n = 0)%nat) (fun n => n) (init_main 1 1) (PState (replicate NOFILE None) [] [] ∅ []) (World 0 [] 0 [] [])).2 =
    Launch [bytes_of "sh"] (std con con con) [] ∅ :: ls.
Proof.
  apply (init_starts_shell (fun n => bool_decide (n = 0)%nat) (fun n => n) 0 1 (World 0 [] 0 [] [])).
  intros n Hn. apply bool_decide_eq_false_2. cbn in Hn. lia.
Defined.
