(* ===== verification/Umalloc.v ===== *)
(** * The user library's allocator (user/umalloc.c)

    Addresses are counted in units of a [Header], 16 bytes.  [heap] holds the headers that
    memory contains, also where a client has overwritten them or a block has been merged;
    reading memory that never held one is undefined. *)

From S2P Require Import Prelude Mem.

Record header := mkheader { h_ptr : Z; h_size : Z }.
Record ust := mkust { heap : gmap Z header; freep : Z; brk : Z }.

Definition HDR : Z := 16.

Section umalloc.
(** The address of [base], in front of the heap. *)
Context (base : Z).

Abbreviation U := (M ust).

Definition get_hdr (p : Z) : U header := let! s := get in of_option (heap s !! p).
Definition set_hdr (p : Z) (h : header) : U unit :=
  modify (fun s => mkust (<[p := h]> (heap s)) (freep s) (brk s)).
Definition set_freep (p : Z) : U unit := modify (fun s => mkust (heap s) p (brk s)).

(** [sbrk(n)]: the old break in bytes, or -1.  [n] is an [int]; a size below zero wraps
    around, and [uvmdealloc] leaves a size that is not below the old one as it is.
    [grants]: whether the kernel can give the process a size in bytes. *)
Definition sbrk (grants : Z → bool) (n : Z) : U Z :=
  let! s := get in
  let n := s32 n in
  if 0 <=? n then
    if grants (brk s + n) then put (mkust (heap s) (freep s) (brk s + n)) ;;; ret (brk s) else ret (-1)
  else
    let new := u64 (brk s + n) in
    put (mkust (heap s) (freep s) (if brk s <=? new then brk s else new)) ;;; ret (brk s).

(** The search of [free] for the free block before [bp]. *)
Definition place_body (bp p : Z) : U (Z + Z) :=
  let! h := get_hdr p in
  if (p <? bp) && (bp <? h_ptr h) then ret (inr p) else
  if (h_ptr h <=? p) && ((p <? bp) || (bp <? h_ptr h)) then ret (inr p) else
  ret (inl (h_ptr h)).

(** Twice round the list is more than a search takes. *)
Definition rounds (s : ust) : nat := (2 * size (heap s) + 2)%nat.

Definition free (ap : Z) : U unit :=
  let bp := ap - 1 in
  let! s := get in
  let! p := loop (rounds s) (place_body bp) (freep s) in
  let! ph := get_hdr p in
  let! bh := get_hdr bp in
  (if bp + h_size bh =? h_ptr ph then
     let! nh := get_hdr (h_ptr ph) in
     set_hdr bp (mkheader (h_ptr nh) (u32 (h_size bh + h_size nh)))
   else set_hdr bp (mkheader (h_ptr ph) (h_size bh))) ;;;
  let! bh := get_hdr bp in
  (if p + h_size ph =? bp then set_hdr p (mkheader (h_ptr bh) (u32 (h_size ph + h_size bh)))
   else set_hdr p (mkheader bp (h_size ph))) ;;;
  set_freep p.

(** [freep] when there is memory, 0 when there is none. *)
Definition morecore (grants : Z → bool) (nu : Z) : U Z :=
  let nu := if nu <? 4096 then 4096 else nu in
  let! p := sbrk grants (nu * HDR) in
  if p =? -1 then ret 0 else
  let hp := p / HDR in
  let! s := get in
  set_hdr hp (mkheader (default 0 (h_ptr <$> heap s !! hp)) nu) ;;;
  free (hp + 1) ;;;
  let! s := get in
  ret (freep s).

(** The loop of [malloc]: [prevp] and [p]. *)
Definition malloc_body (grants : Z → bool) (nunits : Z) (st : Z * Z) : U (Z * Z + Z) :=
  let '(prevp, p) := st in
  let! h := get_hdr p in
  if nunits <=? h_size h then
    let! p :=
      (if h_size h =? nunits then
         let! ph := get_hdr prevp in
         set_hdr prevp (mkheader (h_ptr h) (h_size ph)) ;;; ret p
       else
         set_hdr p (mkheader (h_ptr h) (h_size h - nunits)) ;;;
         let p := p + (h_size h - nunits) in
         let! s := get in
         set_hdr p (mkheader (default 0 (h_ptr <$> heap s !! p)) nunits) ;;; ret p) in
    set_freep prevp ;;;
    ret (inr (p + 1))
  else
    let! s := get in
    if p =? freep s then
      let! r := morecore grants nunits in
      if r =? 0 then ret (inr 0) else
      let! h := get_hdr r in ret (inl (r, h_ptr h))
    else ret (inl (p, h_ptr h)).

Definition malloc (grants : Z → bool) (nbytes : Z) : U Z :=
  let nunits := u32 ((nbytes + HDR - 1) / HDR + 1) in
  let! s := get in
  (if freep s =? 0 then set_hdr base (mkheader base 0) ;;; set_freep base else ret tt) ;;;
  let! s := get in
  let! h := get_hdr (freep s) in
  loop (rounds s + 1) (malloc_body grants nunits) (freep s, h_ptr h).

(** ** The list of free blocks *)

(** The blocks [l], addresses and sizes, linked in this order; the last points to [last]. *)
Definition next (l : list (Z * Z)) (last : Z) : Z := match l with [] => last | (b, _) :: _ => b end.
Fixpoint chain (h : gmap Z header) (l : list (Z * Z)) (last : Z) : Prop :=
  match l with
  | [] => True
  | (a, s) :: l => h !! a = Some (mkheader (next l last) s) ∧ chain h l last
  end.

(** Blocks of at least a unit, in the order of their addresses, above [lo], with a gap
    between two: adjacent ones have been merged. *)
Fixpoint ordered (lo : Z) (l : list (Z * Z)) : Prop :=
  match l with [] => True | (a, s) :: l => lo < a ∧ 0 < s ∧ ordered (a + s) l end.

(** The unit [x] is in one of the blocks. *)
Definition covers (l : list (Z * Z)) (x : Z) : Prop := ∃ a s, (a, s) ∈ l ∧ a ≤ x < a + s.

Lemma chain_app h l1 a s l2 last : chain h (l1 ++ (a, s) :: l2) last ↔ chain h l1 a ∧ chain h ((a, s) :: l2) last.
Proof.
  induction l1 as [|[b t] l1 IH]; [cbn; tauto|]. cbn [app chain]. rewrite IH.
  assert (next (l1 ++ (a, s) :: l2) last = next l1 a) as -> by (by destruct l1 as [|[]]). cbn [chain]. tauto.
Qed.

Lemma chain_insert_ne h l last x v : (∀ a s, (a, s) ∈ l → a ≠ x) → chain h l last → chain (<[x := v]> h) l last.
Proof.
  induction l as [|[a s] l IH]; [done|]. intros Hx [Ha Hl]. split; [|apply IH; [|done]].
  - rewrite lookup_insert_ne; [done|]. intros ->. by apply (Hx a s); [left|].
  - intros b t Hb. apply (Hx b t). by right.
Qed.

Lemma ordered_app lo l1 a s l2 : ordered lo (l1 ++ (a, s) :: l2) →
  ordered lo l1 ∧ lo < a ∧ 0 < s ∧ ordered (a + s) l2 ∧ (∀ b t, (b, t) ∈ l1 → lo < b ∧ 0 < t ∧ b + t < a) ∧ (∀ b t, (b, t) ∈ l2 → a + s < b ∧ 0 < t).
Proof.
  revert lo. induction l1 as [|[b t] l1 IH]; intros lo; cbn [app ordered].
  - intros (H1 & H2 & H3). split_and!; [done|lia|lia|done|by intros ? ? ?%not_elem_of_nil|].
    clear H1. revert H3. generalize (a + s). induction l2 as [|[c u] l2 IH]; intros z; [by intros _ ? ? ?%not_elem_of_nil|].
    intros (Hz & Hu & Ho) b t [[= -> ->]|Hin]%elem_of_cons; [lia|]. specialize (IH _ Ho b t Hin). lia.
  - intros (H1 & H2 & H3). destruct (IH _ H3) as (Ho & Hb & Hs & Ho2 & Hbef & Haft). split_and!; try done; [lia|].
    intros c u [[= -> ->]|Hin]%elem_of_cons; [lia|]. specialize (Hbef c u Hin). lia.
Qed.

(** ** The search of [free] *)

Definition stops (bp a b : Z) : bool := ((a <? bp) && (bp <? b)) || ((b <=? a) && ((a <? bp) || (bp <? b))).

Lemma place_body_eq bp p h s : heap s !! p = Some h →
  place_body bp p s = Ok (if stops bp p (h_ptr h) then inr p else inl (h_ptr h)) s.
Proof.
  intros E. unfold place_body, get_hdr, bind, get, of_option, ret. rewrite E. unfold stops.
  destruct ((p <? bp) && (bp <? h_ptr h)); [done|]. by destruct ((h_ptr h <=? p) && _).
Qed.

(** Along nodes where the search does not stop. *)
Lemma place_walk bp mid x s n : chain (heap s) mid x →
  (∀ m1 a t m2, mid = m1 ++ (a, t) :: m2 → stops bp a (next m2 x) = false) →
  loop (length mid + n) (place_body bp) (next mid x) s = loop n (place_body bp) x s.
Proof.
  induction mid as [|[a t] mid IH]; intros Hc Hs; [done|]. destruct Hc as [Ha Hc]. cbn [length Nat.add loop next].
  rewrite (bind_Ok _ _ _ _ _ (place_body_eq _ _ _ _ Ha)). cbn [h_ptr]. rewrite (Hs [] a t mid eq_refl).
  apply IH; [done|]. intros m1 b u m2 ->. apply (Hs ((a, t) :: m1) b u m2). done.
Qed.

(** The nodes of the circular list: [base], of size 0, and the free blocks. *)
Definition nodes (l : list (Z * Z)) : list (Z * Z) := (base, 0) :: l.

(** Where [bp] belongs: after [p]. *)
Definition place (bp : Z) (pre : list (Z * Z)) (p sp : Z) (post : list (Z * Z)) : Prop :=
  p < bp ∧ (∀ a t, (a, t) ∈ pre → a < p) ∧ (∀ a t, (a, t) ∈ post → bp < a).

Lemma ordered_above lo l a s : ordered lo l → (a, s) ∈ l → lo < a ∧ 0 < s.
Proof.
  revert lo. induction l as [|[b t] l IH]; intros lo; [by intros _ ?%not_elem_of_nil|].
  intros (H1 & H2 & Ho) [[= -> ->]|Hin]%elem_of_cons; [lia|]. specialize (IH _ Ho Hin). lia.
Qed.

Lemma place_from bp l : ∀ q z, q < bp → 0 ≤ z → ordered (q + z) l → (∀ t, (bp, t) ∉ l) →
  ∃ pre p sp post, (q, z) :: l = pre ++ (p, sp) :: post ∧ place bp pre p sp post ∧ q ≤ p.
Proof.
  induction l as [|[a s] l IH]; intros q z Hq Hz Ho Hn.
  { exists [], q, z, []. split; [done|]. split; [|lia]. split_and!; [done|by intros ?? ?%not_elem_of_nil..]. }
  destruct Ho as (H1 & H2 & Ho). destruct (Z.lt_trichotomy bp a) as [Hlt|[->|Hgt]].
  - exists [], q, z, ((a, s) :: l). split; [done|]. split; [|lia]. split_and!; [done|by intros ?? ?%not_elem_of_nil|].
    intros b t [[= -> ->]|Hin]%elem_of_cons; [lia|]. apply (ordered_above _ _ _ _ Ho) in Hin. lia.
  - by destruct (Hn s); left.
  - destruct (IH a s ltac:(lia) ltac:(lia) Ho) as (pre & p & sp & post & E & (Hp & Hpre & Hpost) & Hle).
    { intros t Ht. apply (Hn t). by right. }
    exists ((q, z) :: pre), p, sp, post. split; [by rewrite E|]. split; [|lia]. split_and!; [done| |done].
    intros b t [[= -> ->]|Hin]%elem_of_cons; [lia|]. by apply (Hpre b t).
Qed.

Lemma place_exists bp l : base < bp → ordered base l → (∀ t, (bp, t) ∉ l) →
  ∃ pre p sp post, nodes l = pre ++ (p, sp) :: post ∧ place bp pre p sp post.
Proof.
  intros Hb Ho Hn. destruct (place_from bp l base 0) as (pre & p & sp & post & E & Hp & _); [done|done|by rewrite Z.add_0_r|done|].
  by exists pre, p, sp, post.
Qed.

(** The nodes are in the order of their addresses. *)
Lemma nodes_sorted l m1 a t m2 : ordered base l → nodes l = m1 ++ (a, t) :: m2 →
  base ≤ a ∧ 0 ≤ t ∧ (∀ b u, (b, u) ∈ m1 → b + u < a) ∧ (∀ b u, (b, u) ∈ m2 → a + t < b).
Proof.
  intros Ho E. destruct m1 as [|[c v] m1]; injection E as <- <- E.
  - split_and!; [lia|lia|by intros ?? ?%not_elem_of_nil|]. subst. intros b u Hb. apply (ordered_above _ _ _ _ Ho) in Hb. lia.
  - subst l. destruct (ordered_app _ _ _ _ _ Ho) as (_ & H1 & H2 & _ & Hbef & Haft). split_and!; [lia|lia| |].
    + intros b u [[= -> ->]|Hin]%elem_of_cons; [lia|]. by apply (Hbef b u).
    + intros b u Hin. by apply (Haft b u).
Qed.

Lemma nodes_lt l m1 a t m2 b u : ordered base l → nodes l = m1 ++ (a, t) :: m2 → (b, u) ∈ m1 → b < a.
Proof.
  intros Ho E Hb. destruct (nodes_sorted _ _ _ _ _ Ho E) as (_ & _ & Hbef & _). specialize (Hbef b u Hb).
  apply list_elem_of_split in Hb as (k1 & k2 & ->). rewrite <-app_assoc in E.
  destruct (nodes_sorted _ _ _ _ _ Ho E) as (_ & ? & _). lia.
Qed.

Lemma next_in l x : next l x = x ∨ ∃ t, (next l x, t) ∈ l.
Proof. destruct l as [|[b t] l]; [by left|]. right. exists t. by left. Qed.

(** From any node the search finds the place. *)
Lemma find_place bp l s q tq pre p sp post n : base < bp → ordered base l → chain (heap s) (nodes l) base →
  (q, tq) ∈ nodes l → nodes l = pre ++ (p, sp) :: post → place bp pre p sp post → (2 * length (nodes l) ≤ n)%nat →
  loop n (place_body bp) q s = Ok p s.
Proof.
  intros Hb Ho Hc Hq E (Hp & Hpre & Hpost) Hn. rewrite E in Hc. apply chain_app in Hc as [Hc1 [Hcp Hc2]].
  assert (Hlen : length (nodes l) = (length pre + S (length post))%nat) by (by rewrite E, length_app).
  (* at p *)
  assert (Hat : ∀ n, (0 < n)%nat → loop n (place_body bp) p s = Ok p s).
  { intros [|m] Hm; [lia|]. cbn [loop]. rewrite (bind_Ok _ _ _ _ _ (place_body_eq _ _ _ _ Hcp)). cbn [h_ptr].
    replace (stops bp p (next post base)) with true; [done|]. unfold stops. destruct post as [|[b t] post]; cbn [next].
    - pose proof (nodes_sorted l pre p sp [] Ho E) as [? _]. lia.
    - specialize (Hpost b t ltac:(by left)). lia. }
  (* from a node before p *)
  assert (Hbefore : ∀ m1 a t m2 n, pre = m1 ++ (a, t) :: m2 → (length pre < n)%nat → loop n (place_body bp) a s = Ok p s).
  { intros m1 a t m2 n' -> Hn'. apply chain_app in Hc1 as [_ Hc1]. rewrite length_app in Hn'. cbn [length] in Hn'.
    replace n' with (length ((a, t) :: m2) + (n' - S (length m2)))%nat by (cbn [length]; lia).
    rewrite (place_walk bp ((a, t) :: m2) p s); [apply Hat; lia|done|]. intros k1 b u k2 E2.
    destruct (nodes_sorted l (m1 ++ k1) b u (k2 ++ (p, sp) :: post) Ho) as (_ & Hu & _ & Hk2).
    { rewrite E. rewrite E2. by rewrite <-!app_assoc. }
    assert (Hle : b < next k2 p ∧ next k2 p ≤ p).
    { destruct k2 as [|[c v] k2]; cbn [next].
      - split; [|lia]. specialize (Hk2 p sp). assert (b + u < p); [|lia]. apply Hk2. by left.
      - split; [specialize (Hk2 c v); assert (b + u < c); [apply Hk2; by left|lia]|].
        apply Z.lt_le_incl, (Hpre c v). rewrite E2. apply elem_of_app. right. apply elem_of_app. right. right. by left. }
    unfold stops. lia. }
  assert (Hbase : ∀ n, (length pre < n)%nat → loop n (place_body bp) base s = Ok p s).
  { intros n' Hn'. destruct pre as [|[a t] pre]; injection E as Ea Et E.
    - rewrite Ea. apply Hat. lia.
    - rewrite Ea. by apply (Hbefore [] a t pre). }
  rewrite E in Hq. apply elem_of_app in Hq as [Hq|[[= -> ->]|Hq]%elem_of_cons].
  - apply list_elem_of_split in Hq as (m1 & m2 & Em). apply (Hbefore m1 q tq m2); [done|lia].
  - apply Hat. lia.
  - apply list_elem_of_split in Hq as (m1 & m2 & Em). rewrite Em in Hc2. apply chain_app in Hc2 as [_ Hc2].
    assert (length post = length m1 + S (length m2))%nat by (rewrite Em, length_app; done).
    replace n with (length ((q, tq) :: m2) + (n - S (length m2)))%nat by (cbn [length]; lia).
    rewrite (place_walk bp ((q, tq) :: m2) base s); [apply Hbase; lia|done|]. intros k1 b u k2 E2.
    assert (Hbp : bp < b). { apply (Hpost b u). rewrite Em, E2. apply elem_of_app. right. apply elem_of_app. right. by left. }
    assert (Hk : next k2 base = base ∨ b < next k2 base).
    { destruct k2 as [|[c v] k2]; [by left|]. right. cbn [next].
      destruct (nodes_sorted l (pre ++ (p, sp) :: m1 ++ k1) b u ((c, v) :: k2) Ho) as (_ & Hu & _ & Hk2).
      - rewrite E, Em, E2. rewrite <-!app_assoc. cbn [app]. by rewrite <-!app_assoc.
      - specialize (Hk2 c v ltac:(by left)). lia. }
    unfold stops. destruct Hk as [->|Hk]; lia.
Qed.

(** ** [free] *)

Lemma ordered_glue lo l1 a s l2 : ordered lo l1 → (∀ b t, (b, t) ∈ l1 → b + t < a) → lo < a → 0 < s →
  ordered (a + s) l2 → ordered lo (l1 ++ (a, s) :: l2).
Proof.
  revert lo. induction l1 as [|[b t] l1 IH]; intros lo H1 Hb Hlo Hs H2; [done|]. destruct H1 as (H0 & Ht & H1).
  split_and!; [done|done|]. apply IH; try done; [intros c u Hc; apply Hb; by right|]. apply Hb. by left.
Qed.

Lemma ordered_from lo z l : ordered lo l → (∀ b t, (b, t) ∈ l → z < b) → ordered z l.
Proof. destruct l as [|[b t] l]; [done|]. intros (H1 & H2 & Ho) Hz. split; [|done]. apply (Hz b t). by left. Qed.

Lemma covers_app l1 l2 x : covers (l1 ++ l2) x ↔ covers l1 x ∨ covers l2 x.
Proof. unfold covers. setoid_rewrite elem_of_app. naive_solver. Qed.

Lemma covers_cons a s l x : covers ((a, s) :: l) x ↔ (a ≤ x < a + s) ∨ covers l x.
Proof. unfold covers. setoid_rewrite elem_of_cons. naive_solver. Qed.

Lemma covers_nodes l x : covers (nodes l) x ↔ covers l x.
Proof. unfold nodes. rewrite covers_cons. split; [intros [?|?]; [lia|done]|by right]. Qed.

(** The block [bp] of size [sz] between the nodes [pre ++ [(p, sp)]] and [post], merged
    with its neighbours. *)
Definition upper (bp sz : Z) (post : list (Z * Z)) : Z * list (Z * Z) :=
  match post with (b, t) :: post' => if bp + sz =? b then (sz + t, post') else (sz, post) | [] => (sz, []) end.
Definition merged (bp sz : Z) (pre : list (Z * Z)) (p sp : Z) (post : list (Z * Z)) : list (Z * Z) :=
  let '(s1, rest) := upper bp sz post in
  if p + sp =? bp then pre ++ (p, sp + s1) :: rest else pre ++ (p, sp) :: (bp, s1) :: rest.

Lemma upper_covers bp sz post x : 0 < sz → (∀ b t, (b, t) ∈ post → bp + sz ≤ b ∧ 0 < t) →
  covers ((bp, (upper bp sz post).1) :: (upper bp sz post).2) x ↔ (bp ≤ x < bp + sz) ∨ covers post x.
Proof.
  intros Hsz Hpost. unfold upper. destruct post as [|[b t] post]; [by rewrite covers_cons|].
  destruct (Z.eqb_spec (bp + sz) b) as [<-|]; cbn [fst snd]; rewrite !covers_cons; [|done].
  destruct (Hpost (bp + sz) t) as [_ Ht]; [by left|]. split; [intros [?|?]|intros [?|[?|?]]]; try tauto; lia.
Qed.

Lemma merged_covers bp sz pre p sp post x : 0 < sz → 0 ≤ sp → p + sp ≤ bp → (∀ b t, (b, t) ∈ post → bp + sz ≤ b ∧ 0 < t) →
  covers (merged bp sz pre p sp post) x ↔ covers (pre ++ (p, sp) :: post) x ∨ bp ≤ x < bp + sz.
Proof.
  intros Hsz Hsp Hp Hpost. pose proof (upper_covers bp sz post x Hsz Hpost) as Hu. unfold merged.
  destruct (upper bp sz post) as [s1 rest] eqn:E. cbn [fst snd] in Hu. rewrite covers_cons in Hu.
  assert (Hs1 : 0 < s1).
  { unfold upper in E. destruct post as [|[b t] post]; [by injection E as <- _|]. destruct (Hpost b t) as [_ Ht]; [by left|].
    destruct (bp + sz =? b); injection E as <- _; lia. }
  destruct (Z.eqb_spec (p + sp) bp) as [<-|]; rewrite !covers_app, !covers_cons.
  - assert (Hx : p ≤ x < p + (sp + s1) ↔ p ≤ x < p + sp ∨ p + sp ≤ x < p + sp + s1) by lia. rewrite Hx. tauto.
  - tauto.
Qed.

Lemma upper_ordered lo bp sz post : 0 < sz → ordered lo post → (∀ b t, (b, t) ∈ post → bp + sz ≤ b ∧ 0 < t) →
  0 < (upper bp sz post).1 ∧ ordered (bp + (upper bp sz post).1) (upper bp sz post).2.
Proof.
  intros Hsz Ho Hpost. unfold upper. destruct post as [|[b t] post]; [done|]. destruct Ho as (H1 & H2 & Ho).
  destruct (Z.eqb_spec (bp + sz) b) as [<-|Hne]; cbn [fst snd].
  - split; [lia|]. by rewrite Z.add_assoc.
  - split; [done|]. destruct (Hpost b t) as [? _]; [by left|]. split_and!; [lia|lia|done].
Qed.

Lemma merged_ordered bp sz l pre p sp post : base < bp → 0 < sz → ordered base l → nodes l = pre ++ (p, sp) :: post →
  p < bp → p + sp ≤ bp → (∀ b t, (b, t) ∈ post → bp + sz ≤ b ∧ 0 < t) →
  ∃ l', merged bp sz pre p sp post = nodes l' ∧ ordered base l'.
Proof.
  intros Hb Hsz Ho E Hlt Hp Hpost. unfold merged. destruct pre as [|[c v] pre]; injection E as <- <- E.
  - destruct (upper_ordered _ bp sz post Hsz ltac:(by rewrite <-E) Hpost) as [Hs1 Ho1].
    destruct (upper bp sz post) as [s1 rest]. rewrite (proj2 (Z.eqb_neq (base + 0) bp)) by lia. exists ((bp, s1) :: rest). done.
  - subst l. destruct (ordered_app _ _ _ _ _ Ho) as (Hpre & H1 & H2 & Hopost & Hbef & _).
    destruct (upper_ordered _ bp sz post Hsz Hopost Hpost) as [Hs1 Ho1].
    destruct (upper bp sz post) as [s1 rest]. cbn [fst snd] in Hs1, Ho1. destruct (Z.eqb_spec (p + sp) bp) as [<-|Hne].
    + exists (pre ++ (p, sp + s1) :: rest). split; [done|]. apply ordered_glue; [done| |done|lia|by rewrite Z.add_assoc].
      intros b t Hin. by apply (Hbef b t).
    + exists (pre ++ (p, sp) :: (bp, s1) :: rest). split; [done|]. apply ordered_glue; [done| |done|lia|].
      * intros b t Hin. by apply (Hbef b t).
      * split_and!; [lia|done|done].
Qed.

(** The largest sizes stay within an unsigned int. *)
Definition top (s : ust) : Z := brk s / HDR.

Record wf (l : list (Z * Z)) (s : ust) : Prop := {
  wf_chain : chain (heap s) (nodes l) base;
  wf_ordered : ordered base l;
  wf_freep : ∃ t, (freep s, t) ∈ nodes l;
  wf_top : ∀ a t, (a, t) ∈ l → a + t ≤ top s;
  wf_brk : brk s mod HDR = 0 ∧ 0 < base < top s ∧ top s < 2 ^ 32
}.

Lemma chain_size h l last : chain h l last → NoDup l.*1 → (length l ≤ size h)%nat.
Proof.
  intros Hc Hn. rewrite <-(length_fmap fst), <-(size_list_to_set (C := gset Z) _ Hn), <-size_dom.
  apply subseteq_size. intros a. rewrite elem_of_list_to_set, elem_of_dom. clear Hn. induction l as [|[b t] l IH].
  - by intros ?%not_elem_of_nil.
  - destruct Hc as [Hb Hc]. cbn. intros [->|Hin]%elem_of_cons; [by eexists|]. by apply IH.
Qed.

Lemma ordered_NoDup lo l : ordered lo l → NoDup l.*1 ∧ ∀ a, a ∈ l.*1 → lo < a.
Proof.
  intros Ho. split.
  - revert lo Ho. induction l as [|[b t] l IH]; intros lo; [by constructor|]. intros (H1 & H2 & Ho). cbn. constructor; [|by eapply IH].
    intros ([c u] & Hc & Hin)%list_elem_of_fmap. cbn in Hc. subst. apply (ordered_above _ _ _ _ Ho) in Hin. lia.
  - intros a ([c u] & -> & Hin)%list_elem_of_fmap. cbn. apply (ordered_above _ _ _ _ Ho) in Hin. lia.
Qed.

Lemma wf_size l s : wf l s → (length (nodes l) ≤ size (heap s))%nat.
Proof.
  intros H. eapply chain_size; [apply H|]. destruct (ordered_NoDup _ _ (wf_ordered _ _ H)) as [Hn Ha]. cbn. constructor; [|done].
  intros Hb%Ha. lia.
Qed.

(** The headers that [free] writes make [merged] the list. *)
Definition free_heap (h : gmap Z header) (bp sz p sp : Z) (post : list (Z * Z)) : gmap Z header :=
  let '(s1, rest) := upper bp sz post in
  let h := <[bp := mkheader (next rest base) s1]> h in
  <[p := if p + sp =? bp then mkheader (next rest base) (sp + s1) else mkheader bp sp]> h.

Lemma chain_free_heap h bp sz l pre p sp post : ordered base l → nodes l = pre ++ (p, sp) :: post →
  chain h (nodes l) base → p < bp → (∀ b t, (b, t) ∈ post → bp < b) →
  chain (free_heap h bp sz p sp post) (merged bp sz pre p sp post) base.
Proof.
  intros Ho E Hc Hp Hpost. destruct (nodes_sorted _ _ _ _ _ Ho E) as (_ & Hsp & Hbef & Haft).
  rewrite E in Hc. apply chain_app in Hc as [Hc1 [_ Hc2]]. unfold free_heap, merged.
  assert (Hr : chain h (upper bp sz post).2 base ∧ ∀ b t, (b, t) ∈ (upper bp sz post).2 → (b, t) ∈ post).
  { unfold upper. destruct post as [|[b t] post]; [done|]. destruct Hc2 as [Hb Hc2].
    destruct (bp + sz =? b); cbn [snd]; [|done]. split; [done|]. intros c u ?. by right. }
  destruct (upper bp sz post) as [s1 rest]. cbn [snd] in Hr. destruct Hr as [Hr1 Hr2].
  assert (Hpre : ∀ v w, chain (<[p := v]> (<[bp := w]> h)) pre p).
  { intros v w. apply chain_insert_ne; [|apply chain_insert_ne; [|done]]; intros a t Ha; apply (nodes_lt _ _ _ _ _ _ _ Ho E) in Ha.
    - lia.
    - lia. }
  assert (Hrest : ∀ v w, chain (<[p := v]> (<[bp := w]> h)) rest base).
  { intros v w. apply chain_insert_ne; [|apply chain_insert_ne; [|done]]; intros a t Ha%Hr2.
    - apply Haft in Ha. lia.
    - apply Hpost in Ha. lia. }
  destruct (p + sp =? bp); apply chain_app; (split; [apply Hpre|]).
  - split; [by rewrite lookup_insert_eq|apply Hrest].
  - split; [by rewrite lookup_insert_eq|]. split; [|apply Hrest]. rewrite lookup_insert_ne by lia. by rewrite lookup_insert_eq.
Qed.

(** The upper neighbour lies within the heap, so sizes do not wrap around. *)
Lemma u32_id x : 0 ≤ x < 2 ^ 32 → u32 x = x.
Proof. apply wrap_small. Qed.

Lemma free_eq bp sz q l s pre p sp post : wf l s → base < bp → 0 < sz → bp + sz ≤ top s →
  heap s !! bp = Some (mkheader q sz) → nodes l = pre ++ (p, sp) :: post → place bp pre p sp post → p + sp ≤ bp →
  (∀ b t, (b, t) ∈ post → bp + sz ≤ b ∧ 0 < t ∧ b + t ≤ top s) →
  free (bp + 1) s = Ok tt (mkust (free_heap (heap s) bp sz p sp post) p (brk s)).
Proof.
  intros Hwf Hb Hsz Htop Hbp E Hpl Hle Hpost. pose proof (wf_size _ _ Hwf) as Hsize. destruct (wf_freep _ _ Hwf) as [tq Hq].
  destruct (wf_brk _ _ Hwf) as (_ & Hbase & H32). destruct (nodes_sorted _ _ _ _ _ (wf_ordered _ _ Hwf) E) as (Hpb & Hsp & _).
  pose proof (wf_chain _ _ Hwf) as Hc. rewrite E in Hc. apply chain_app in Hc as [_ [Hp Hc]].
  unfold free. replace (bp + 1 - 1) with bp by lia. unfold bind at 1, get.
  rewrite (bind_Ok _ _ _ _ _ (find_place bp l s _ tq pre p sp post (rounds s) Hb (wf_ordered _ _ Hwf) (wf_chain _ _ Hwf) Hq E Hpl
    ltac:(unfold rounds; lia))).
  unfold get_hdr, bind, get, of_option, ret, set_hdr, set_freep, modify. rewrite Hp, Hbp. cbn [h_ptr h_size heap freep brk].
  destruct Hpl as (Hlt & _ & _). unfold free_heap, upper. destruct post as [|[b t] post]; cbn [next].
  - rewrite (proj2 (Z.eqb_neq (bp + sz) base)) by lia. cbn [heap freep brk]. rewrite lookup_insert_eq. cbn [h_ptr h_size].
    rewrite u32_id by lia. by destruct (p + sp =? bp).
  - destruct (Hpost b t) as (H1 & H2 & H3); [by left|]. destruct Hc as [Hbt Hc]. destruct (Z.eqb_spec (bp + sz) b) as [<-|Hne].
    + rewrite Hbt. cbn [h_ptr h_size heap freep brk]. rewrite lookup_insert_eq. cbn [h_ptr h_size]. rewrite (u32_id (sz + t)) by lia.
      rewrite u32_id by lia. by destruct (p + sp =? bp).
    + cbn [heap freep brk]. rewrite lookup_insert_eq. cbn [h_ptr h_size]. rewrite u32_id by lia. by destruct (p + sp =? bp).
Qed.

(** Some node holds [n] units. *)
Definition has_room (n : Z) (l : list (Z * Z)) : Prop := ∃ a t, (a, t) ∈ l ∧ n ≤ t.

Lemma merged_room bp sz pre p sp post : 0 ≤ sp → 0 < sz → (∀ b t, (b, t) ∈ post → 0 < t) →
  has_room sz (merged bp sz pre p sp post).
Proof.
  intros Hsp Hsz Hpost. unfold merged. destruct (upper bp sz post) as [s1 rest] eqn:E.
  assert (Hs1 : sz ≤ s1).
  { unfold upper in E. destruct post as [|[b t] post]; [by injection E as <- _|]. specialize (Hpost b t ltac:(by left)).
    destruct (bp + sz =? b); injection E as <- _; lia. }
  destruct (p + sp =? bp).
  - exists p, (sp + s1). split; [|lia]. apply elem_of_app. right. by left.
  - exists bp, s1. split; [|lia]. apply elem_of_app. right. right. by left.
Qed.

Lemma free_wf bp sz q l s : wf l s → base < bp → 0 < sz → bp + sz ≤ top s →
  heap s !! bp = Some (mkheader q sz) → (∀ x, bp ≤ x < bp + sz → ¬ covers l x) →
  ∃ l' s', free (bp + 1) s = Ok tt s' ∧ wf l' s' ∧ brk s' = brk s ∧ has_room sz l' ∧
    (∀ x, covers l' x ↔ covers l x ∨ bp ≤ x < bp + sz) ∧
    (∀ x, x ≠ bp → x ∉ (nodes l).*1 → heap s' !! x = heap s !! x) ∧ (length l' ≤ S (length l))%nat.
Proof.
  intros Hwf Hb Hsz Htop Hbp Hfree.
  assert (Hn : ∀ t, (bp, t) ∉ l).
  { intros t Ht. apply (Hfree bp); [lia|]. exists bp, t. split; [done|]. apply (ordered_above _ _ _ _ (wf_ordered _ _ Hwf)) in Ht. lia. }
  destruct (place_exists bp l Hb (wf_ordered _ _ Hwf) Hn) as (pre & p & sp & post & E & Hpl). pose proof Hpl as (Hlt & Hpre & Hpost).
  destruct (nodes_sorted _ _ _ _ _ (wf_ordered _ _ Hwf) E) as (Hpb & Hsp & Hbef & Haft).
  assert (Hin : ∀ a t, (a, t) ∈ post → (a, t) ∈ l).
  { intros a t Ha. destruct pre as [|[c v] pre]; injection E as _ _ E; [by subst|]. subst. apply elem_of_app. right. by right. }
  assert (Hle : p + sp ≤ bp).
  { destruct (decide (p + sp ≤ bp)); [done|]. destruct (Hfree bp); [lia|]. apply covers_nodes. rewrite E. apply covers_app. right. apply covers_cons. lia. }
  assert (Hposts : ∀ b t, (b, t) ∈ post → bp + sz ≤ b ∧ 0 < t ∧ b + t ≤ top s).
  { intros b t Hbt. pose proof (Hpost b t Hbt). apply Hin in Hbt. pose proof (ordered_above _ _ _ _ (wf_ordered _ _ Hwf) Hbt) as [_ ?].
    pose proof (wf_top _ _ Hwf b t Hbt). split_and!; [|done|done]. destruct (decide (bp + sz ≤ b)); [done|].
    destruct (Hfree b); [lia|]. exists b, t. split; [done|lia]. }
  assert (Hposts' : ∀ b t, (b, t) ∈ post → bp + sz ≤ b ∧ 0 < t) by naive_solver.
  destruct (merged_ordered bp sz l pre p sp post Hb Hsz (wf_ordered _ _ Hwf) E Hlt Hle Hposts') as (l' & El & Ho').
  assert (Hcov : ∀ x, covers l' x ↔ covers l x ∨ bp ≤ x < bp + sz).
  { intros x. rewrite <-(covers_nodes l'), <-El, (merged_covers _ _ _ _ _ _ x Hsz Hsp Hle Hposts'), <-E. by rewrite covers_nodes. }
  exists l', (mkust (free_heap (heap s) bp sz p sp post) p (brk s)). split; [by eapply free_eq|]. split; [|split_and!; [done| |done| |]].
  - split; cbn [heap freep brk].
    + rewrite <-El. by apply (chain_free_heap _ _ _ l _ _ _ _ (wf_ordered _ _ Hwf) E (wf_chain _ _ Hwf)).
    + done.
    + rewrite <-El. unfold merged. destruct (upper bp sz post). destruct (p + sp =? bp); eexists; apply elem_of_app; right; by left.
    + intros a t Ha. change (a + t ≤ top s). pose proof (ordered_above _ _ _ _ Ho' Ha) as [_ Ht].
      assert (Hl : covers l' (a + t - 1)) by (exists a, t; split; [done|lia]). apply Hcov in Hl as [(b & u & Hbu & Hx)|]; [|lia].
      apply (wf_top _ _ Hwf) in Hbu. lia.
    + apply Hwf.
  - destruct (merged_room bp sz pre p sp post Hsp Hsz) as (a & t & Ha & Ht); [intros b t Hbt; by apply (Hposts b t)|].
    rewrite El in Ha. apply elem_of_cons in Ha as [[= -> ->]|Ha]; [lia|]. by exists a, t.
  - intros x Hx Hxn. unfold free_heap. destruct (upper bp sz post). cbn [heap]. rewrite !lookup_insert_ne; [done|done|].
    intros Heq. apply Hxn. rewrite E, <-Heq. apply list_elem_of_fmap. exists (p, sp). split; [done|]. apply elem_of_app. right. by left.
  - apply (f_equal length) in El, E. rewrite length_app in E. cbn [nodes length] in El, E. unfold merged, upper in El.
    repeat case_match; simplify_eq/=; rewrite length_app in El; cbn [length] in *; lia.
Qed.

(** ** Free and allocated blocks *)

(** The blocks in use, by the address of their header, with their size in units. *)
Definition owned (A : gmap Z Z) (x : Z) : Prop := ∃ a sz, A !! a = Some sz ∧ a ≤ x < a + sz.

(** The break when the program started. *)
Context (lo : Z).

Record blocks (A : gmap Z Z) (l : list (Z * Z)) (s : ust) : Prop := {
  b_block : ∀ a sz, A !! a = Some sz → base < a ∧ 0 < sz ∧ a + sz ≤ top s ∧ (∃ r, heap s !! a = Some (mkheader r sz));
  b_free : ∀ x, owned A x → ¬ covers l x;
  b_disjoint : ∀ a sa b sb, A !! a = Some sa → A !! b = Some sb → a ≠ b → a + sa ≤ b ∨ b + sb ≤ a;
  b_all : ∀ x, lo ≤ x < top s → covers l x ∨ owned A x
}.

(** Before the first [malloc], or with a list of free blocks. *)
Definition ok (A : gmap Z Z) (s : ust) : Prop :=
  (freep s = 0 ∧ A = ∅ ∧ brk s mod HDR = 0 ∧ 0 < base < top s ∧ top s < 2 ^ 32 ∧ top s = lo) ∨
  (∃ l, wf l s ∧ blocks A l s).

Lemma in_use_not_node A l s a : wf l s → blocks A l s → is_Some (A !! a) → a ∉ (nodes l).*1.
Proof.
  intros Hwf Hb [sz Ha] ([b t] & -> & Hin)%list_elem_of_fmap. cbn in Ha. destruct (b_block _ _ _ Hb _ _ Ha) as (H1 & H2 & _).
  apply elem_of_cons in Hin as [[= -> ->]|Hin]; [lia|]. apply (b_free _ _ _ Hb b); [exists b, sz; split; [done|lia]|].
  exists b, t. split; [done|]. apply (ordered_above _ _ _ _ (wf_ordered _ _ Hwf)) in Hin. lia.
Qed.

(** The list changes and the break grows; the blocks in use stay. *)
Lemma blocks_keep A l s l' s' : blocks A l s → top s ≤ top s' → (∀ a, is_Some (A !! a) → heap s' !! a = heap s !! a) →
  (∀ x, covers l' x ↔ covers l x ∨ top s ≤ x < top s') → blocks A l' s'.
Proof.
  intros [H1 H2 H3 H4] Ht Hh Hc. split; [| |done|].
  - intros a sz Ha. destruct (H1 a sz Ha) as (? & ? & ? & r & Hr). split_and!; [done|done|lia|]. exists r. by rewrite Hh.
  - intros x Hx [Hl|Hl]%Hc; [by apply (H2 x)|]. destruct Hx as (a & sz & Ha & Hx). destruct (H1 a sz Ha) as (? & ? & ? & _). lia.
  - intros x Hx. rewrite Hc. destruct (decide (x < top s)); [|left; right; lia]. destruct (H4 x); [lia|by left; left|by right].
Qed.

(** A block is taken out of the list. *)
Lemma blocks_take A l s l' s' a n : blocks A l s → top s' = top s → base < a → 1 ≤ n →
  (∃ r, heap s' !! a = Some (mkheader r n)) → (∀ b, is_Some (A !! b) → heap s' !! b = heap s !! b) →
  (∀ x, covers l x ↔ covers l' x ∨ a ≤ x < a + n) → (∀ x, a ≤ x < a + n → ¬ covers l' x) → a + n ≤ top s →
  A !! a = None ∧ blocks (<[a := n]> A) l' s'.
Proof.
  intros [H1 H2 H3 H4] Ht Hba Hn Hr Hh Hc Hnc Htop.
  assert (Hdis : ∀ b sb, A !! b = Some sb → a + n ≤ b ∨ b + sb ≤ a).
  { intros b sb Hb. destruct (H1 b sb Hb) as (? & ? & _). destruct (decide (a + n ≤ b)) as [|H5]; [by left|]. right.
    destruct (decide (b + sb ≤ a)) as [|H6]; [done|]. destruct (H2 (Z.max a b)); [exists b, sb; split; [done|lia]|]. apply Hc. right. lia. }
  assert (Hnone : A !! a = None).
  { destruct (A !! a) as [sa|] eqn:E; [|done]. destruct (H1 a sa E) as (? & ? & _). destruct (Hdis a sa E); lia. }
  split; [done|]. split.
  - intros b sb Hb. rewrite Ht. destruct (decide (b = a)) as [->|Hne].
    + rewrite lookup_insert_eq in Hb. injection Hb as <-. split_and!; [done|lia|done|done].
    + rewrite lookup_insert_ne in Hb by done. destruct (H1 b sb Hb) as (? & ? & ? & r & Hbr). split_and!; try done. exists r. by rewrite Hh.
  - intros x (b & sb & Hb & Hx). destruct (decide (b = a)) as [->|Hne].
    + rewrite lookup_insert_eq in Hb. injection Hb as <-. by apply Hnc.
    + rewrite lookup_insert_ne in Hb by done. intros Hl. apply (H2 x); [by exists b, sb|]. apply Hc. by left.
  - intros b sb c sc Hb Hcc Hbc. destruct (decide (b = a)) as [->|Hb']; [|destruct (decide (c = a)) as [->|Hc']].
    + rewrite lookup_insert_eq in Hb. rewrite lookup_insert_ne in Hcc by done. injection Hb as <-. by apply Hdis.
    + rewrite lookup_insert_eq in Hcc. rewrite lookup_insert_ne in Hb by done. injection Hcc as <-. destruct (Hdis b sb Hb); [by right|by left].
    + rewrite lookup_insert_ne in Hb, Hcc by done. by eapply H3.
  - intros x Hx. rewrite Ht in Hx. destruct (H4 x Hx) as [Hl|(b & sb & Hb & Hxb)].
    + apply Hc in Hl as [Hl|Hl]; [by left|]. right. exists a, n. by rewrite lookup_insert_eq.
    + right. exists b, sb. rewrite lookup_insert_ne; [done|]. intros ->. congruence.
Qed.

(** A block is given back. *)
Lemma blocks_free A l s l' s' a sz : blocks A l s → A !! a = Some sz → top s' = top s →
  (∀ b, b ≠ a → is_Some (A !! b) → heap s' !! b = heap s !! b) → (∀ x, covers l' x ↔ covers l x ∨ a ≤ x < a + sz) →
  blocks (delete a A) l' s'.
Proof.
  intros [H1 H2 H3 H4] Ha Ht Hh Hc.
  assert (Hdel : ∀ b sb, delete a A !! b = Some sb → b ≠ a ∧ A !! b = Some sb) by (intros b sb [? ?]%lookup_delete_Some; split; congruence).
  split.
  - intros b sb [Hne Hb]%Hdel. rewrite Ht. destruct (H1 b sb Hb) as (? & ? & ? & r & Hbr). split_and!; try done. exists r. by rewrite Hh.
  - intros x (b & sb & [Hne Hb]%Hdel & Hx). rewrite Hc. intros [Hl|Hx']; [by apply (H2 x); [exists b, sb|]|].
    destruct (H3 b sb a sz Hb Ha Hne); lia.
  - intros b sb c sc [_ Hb]%Hdel [_ Hcc]%Hdel. by eapply H3.
  - intros x Hx. rewrite Ht in Hx. rewrite Hc. destruct (H4 x Hx) as [Hl|(b & sb & Hb & Hxb)]; [by left; left|].
    destruct (decide (b = a)) as [->|Hne]; [left; right; congruence|]. right. exists b, sb. split; [|done]. by apply lookup_delete_Some.
Qed.

(** C30: [free] of a block in use gives its units back: it returns, the block is in use no
    longer, and the list of free blocks stays circular, sorted and merged, disjoint from
    the blocks in use, with no unit of the heap lost. *)
Theorem free_correct (A : gmap Z Z) (s : ust) (ap sz : Z) : ok A s → A !! (ap - 1) = Some sz →
  ∃ s', free ap s = Ok tt s' ∧ ok (delete (ap - 1) A) s' ∧ brk s' = brk s.
Proof.
  intros [(_ & -> & _)|(l & Hwf & Hb)] Ha; [by rewrite lookup_empty in Ha|].
  destruct (b_block _ _ _ Hb _ _ Ha) as (H1 & H2 & H3 & r & Hr).
  destruct (free_wf (ap - 1) sz r l s Hwf H1 H2 H3 Hr) as (l' & s' & Ef & Hwf' & Eb & _ & Hcov & Hheap & _).
  { intros x Hx. apply (b_free _ _ _ Hb). by exists (ap - 1), sz. }
  replace (ap - 1 + 1) with ap in Ef by lia. exists s'. split_and!; [done| |done]. right. exists l'. split; [done|].
  eapply blocks_free; [done|done|unfold top; by rewrite Eb| |done].
  intros b Hne Hb'. apply Hheap; [done|]. by eapply in_use_not_node.
Qed.

(** ** [morecore] *)

Context (grants : Z → bool).
Hypothesis grants_ok : ∀ n, grants n = true → n / HDR < 2 ^ 32.

Lemma node_below l s a t : wf l s → (a, t) ∈ nodes l → base ≤ a < top s.
Proof.
  intros H [[= -> ->]|Hin]%elem_of_cons.
  - destruct (wf_brk _ _ H) as (_ & ? & _). lia.
  - pose proof (ordered_above _ _ _ _ (wf_ordered _ _ H) Hin). pose proof (wf_top _ _ H _ _ Hin). lia.
Qed.

(** Other addresses than those of nodes may change. *)
Lemma wf_change l s h' : wf l s → (∀ a, a ∈ (nodes l).*1 → h' !! a = heap s !! a) → wf l (mkust h' (freep s) (brk s)).
Proof.
  intros H Hh. destruct H as [Hc Ho Hf Ht Hb]. split; try done. cbn [heap]. revert Hc Hh. generalize (nodes l) as l0. clear.
  induction l0 as [|[a t] l0 IH]; [done|]. intros [Ha Hc] Hh. split; [rewrite Hh; [done|by left]|]. apply IH; [done|].
  intros b Hb. apply Hh. by right.
Qed.

Lemma wf_grow l s n : wf l s → 0 ≤ n → (brk s + n * HDR) / HDR < 2 ^ 32 → wf l (mkust (heap s) (freep s) (brk s + n * HDR)).
Proof.
  intros [Hc Ho Hf Ht (Hb & Hba & H32)] Hn Hlim. assert (E : (brk s + n * HDR) / HDR = top s + n) by (unfold top; by rewrite Z.div_add).
  split; try done; cbn [heap freep brk].
  - intros a t Ha. unfold top. cbn [brk]. rewrite E. specialize (Ht a t Ha). lia.
  - unfold top. cbn [brk]. rewrite Z_mod_plus_full, E in *. split_and!; [done|lia|lia|lia].
Qed.

Lemma sbrk_eq n s : 0 ≤ n < 2 ^ 31 →
  sbrk grants n s = if grants (brk s + n) then Ok (brk s) (mkust (heap s) (freep s) (brk s + n)) else Ok (-1) s.
Proof.
  intros Hn. unfold sbrk, bind, get, put, ret. unfold s32. rewrite sgn_small by lia.
  rewrite (proj2 (Z.leb_le 0 n)) by lia. by destruct (grants _).
Qed.

Lemma morecore_wf n l s : wf l s → 1 ≤ n → n * HDR < 2 ^ 31 →
  (morecore grants n s = Ok 0 s ∧ grants (brk s + Z.max 4096 n * HDR) = false) ∨
  ∃ l' s', morecore grants n s = Ok (freep s') s' ∧ wf l' s' ∧ has_room n l' ∧ top s ≤ top s' ∧
    (∀ x, covers l' x ↔ covers l x ∨ top s ≤ x < top s') ∧
    (∀ x, x ≠ top s → x ∉ (nodes l).*1 → heap s' !! x = heap s !! x) ∧ (length l' ≤ S (length l))%nat.
Proof.
  intros Hwf Hn Hmax. unfold morecore. set (nu := if n <? 4096 then 4096 else n).
  assert (Hnu : n ≤ nu ∧ 0 ≤ nu * HDR < 2 ^ 31) by (unfold nu; destruct (Z.ltb_spec n 4096); unfold HDR in *; lia).
  assert (Emax : Z.max 4096 n = nu) by (unfold nu; destruct (Z.ltb_spec n 4096); lia). rewrite Emax.
  clearbody nu. destruct Hnu as [Hle Hnu]. cbv zeta. pose proof (sbrk_eq (nu * HDR) s Hnu) as Es.
  destruct (grants (brk s + nu * HDR)) eqn:Eg; rewrite (bind_Ok _ _ _ _ _ Es); [right|left].
  2: { done. }
  apply grants_ok in Eg.
  assert (Hpos : 0 ≤ brk s).
  { destruct (wf_brk _ _ Hwf) as (_ & Hb & _). apply Z.nlt_ge. intros Hneg. unfold top, HDR in Hb.
    pose proof (Z.div_lt_upper_bound (brk s) 16 0). lia. }
  rewrite (proj2 (Z.eqb_neq (brk s) (-1))) by lia.
  set (s1 := mkust (heap s) (freep s) (brk s + nu * HDR)).
  assert (Hwf1 : wf l s1) by (apply wf_grow; unfold HDR in *; [done|lia|done]).
  assert (Etop : top s1 = top s + nu) by (unfold top; cbn [s1 brk]; by rewrite Z.div_add).
  unfold bind at 1, get. change (brk s / HDR) with (top s). unfold bind at 1, set_hdr, modify.
  cbn [heap s1 freep brk]. set (s2 := mkust (<[top s := _]> (heap s)) (freep s) (brk s + nu * HDR)).
  assert (Hnode : ∀ a, a ∈ (nodes l).*1 → a < top s).
  { intros a ([b t] & -> & Hin)%list_elem_of_fmap. by apply (node_below _ _ _ _ Hwf) in Hin as [_ ?]. }
  assert (Hwf2 : wf l s2).
  { apply (wf_change l s1); [done|]. intros a Ha%Hnode. cbn [heap s1]. rewrite lookup_insert_ne by lia. done. }
  destruct (wf_brk _ _ Hwf) as (_ & Hbase & _).
  destruct (free_wf (top s) nu (default 0 (h_ptr <$> heap s !! top s)) l s2) as (l' & s3 & Ef & Hwf3 & Eb & Hroom & Hcov & Hheap & Hlen).
  - done.
  - lia.
  - lia.
  - change (top s2) with (top s1). lia.
  - cbn [heap s2]. by rewrite lookup_insert_eq.
  - intros x Hx (a & t & Ha & Hat). apply (wf_top _ _ Hwf) in Ha. lia.
  - assert (Et : top s3 = top s + nu) by (unfold top; rewrite Eb; exact Etop).
    exists l', s3. rewrite (bind_Ok _ _ _ _ _ Ef). unfold bind, get, ret. split_and!; try done.
    + destruct Hroom as (a & t & Ha & Ht). exists a, t. split; [done|lia].
    + lia.
    + intros x. rewrite Hcov, Et. done.
    + intros x Hx Hxn. rewrite Hheap by done. cbn [heap s2]. by rewrite lookup_insert_ne.
Qed.

(** ** [malloc] *)

(** The address of the last node, or [prev]. *)
Definition last_addr (prev : Z) (mid : list (Z * Z)) : Z := match last mid with Some (a, _) => a | None => prev end.

Lemma last_addr_cons prev a t mid : last_addr prev ((a, t) :: mid) = last_addr a mid.
Proof. unfold last_addr. rewrite last_cons. by destruct (last mid) as [[b u]|]. Qed.

Lemma last_addr_app prev m1 a t : last_addr prev (m1 ++ [(a, t)]) = a.
Proof. unfold last_addr. by rewrite last_snoc. Qed.

(** Along nodes that are too small. *)
Lemma malloc_walk n mid x s k : ∀ prev, chain (heap s) mid x → (∀ a t, (a, t) ∈ mid → t < n ∧ a ≠ freep s) →
  loop (length mid + k) (malloc_body grants n) (prev, next mid x) s = loop k (malloc_body grants n) (last_addr prev mid, x) s.
Proof.
  induction mid as [|[a t] mid IH]; intros prev Hc Hs; [done|]. destruct Hc as [Ha Hc]. destruct (Hs a t) as [Ht Hf]; [by left|].
  rewrite last_addr_cons, <-IH; [|done|intros b u Hb; apply Hs; by right]. cbn [length Nat.add loop next].
  unfold bind at 1. unfold malloc_body at 1. unfold get_hdr, bind, get, of_option, ret. rewrite Ha. cbn [h_size h_ptr].
  rewrite (proj2 (Z.leb_gt n t)) by lia. by rewrite (proj2 (Z.eqb_neq a (freep s))).
Qed.

(** Taking [n] units of the node [p] that follows [q]: their header, and the nodes left. *)
Definition taken_at (n p t : Z) : Z := if t =? n then p else p + (t - n).
Definition rest_of (n p t : Z) : list (Z * Z) := if t =? n then [] else [(p, t - n)].

Lemma rest_of_spec n p t : 1 ≤ n ≤ t → rest_of n p t = [] ∨ ∃ t', rest_of n p t = [(p, t')] ∧ 0 < t' ≤ t.
Proof. unfold rest_of. destruct (Z.eqb_spec t n); [by left|]. right. exists (t - n). split; [done|lia]. Qed.

Lemma ordered_shrink lw L p t R B : ordered lw (L ++ (p, t) :: B) →
  R = [] ∨ (∃ t', R = [(p, t')] ∧ 0 < t' ≤ t) → ordered lw (L ++ R ++ B).
Proof.
  intros Ho HR. revert lw Ho. induction L as [|[a u] L IH]; intros lw; cbn [app ordered]; [|intros (? & ? & ?); split_and!; [done|done|by apply IH]].
  intros (H1 & H2 & Ho). destruct HR as [->|(t' & -> & Ht)]; cbn [app ordered].
  - apply (ordered_from _ _ _ Ho). intros b v Hb. apply (ordered_above _ _ _ _ Ho) in Hb. lia.
  - split_and!; [done|lia|]. apply (ordered_from _ _ _ Ho). intros b v Hb. apply (ordered_above _ _ _ _ Ho) in Hb. lia.
Qed.

(** A node loses units at its end. *)
Lemma nodes_shrink l A q tq p t R B : ordered base l → nodes l = A ++ (q, tq) :: (p, t) :: B →
  R = [] ∨ (∃ t', R = [(p, t')] ∧ 0 < t' ≤ t) →
  ∃ l', nodes l' = A ++ (q, tq) :: R ++ B ∧ ordered base l' ∧ (∀ a u, (a, u) ∈ l' → ∃ v, (a, v) ∈ l ∧ u ≤ v).
Proof.
  intros Ho E HR.
  assert (Hin : ∀ L, l = L ++ (p, t) :: B → ∀ a u, (a, u) ∈ L ++ R ++ B → ∃ v, (a, v) ∈ l ∧ u ≤ v).
  { intros L -> a u. rewrite !elem_of_app. intros [H|[H|H]].
    - exists u. split; [|lia]. apply elem_of_app. by left.
    - destruct HR as [->|(t' & -> & Ht)]; [by apply not_elem_of_nil in H|]. apply list_elem_of_singleton in H as [= -> ->].
      exists t. split; [|lia]. apply elem_of_app. right. by left.
    - exists u. split; [|lia]. apply elem_of_app. right. by right. }
  destruct A as [|[c v] A]; injection E as <- <- E; subst l.
  - exists (R ++ B). split; [done|]. split; [by apply (ordered_shrink base [] p t)|]. by apply (Hin []).
  - exists (A ++ (q, tq) :: R ++ B). split; [done|].
    assert (E1 : ∀ X, A ++ (q, tq) :: X = (A ++ [(q, tq)]) ++ X) by (intros X; by rewrite <-app_assoc).
    rewrite (E1 (R ++ B)). rewrite (E1 ((p, t) :: B)) in Ho, Hin |- *. split; [by apply (ordered_shrink base _ p t)|]. by apply Hin.
Qed.

Lemma take_wf n l s A q tq p t B : wf l s → nodes l = A ++ (q, tq) :: (p, t) :: B → 1 ≤ n ≤ t →
  ∃ l' s', malloc_body grants n (q, p) s = Ok (inr (taken_at n p t + 1)) s' ∧ wf l' s' ∧ brk s' = brk s ∧
    nodes l' = A ++ (q, tq) :: rest_of n p t ++ B ∧ (∃ r, heap s' !! taken_at n p t = Some (mkheader r n)) ∧
    (∀ x, x ≠ taken_at n p t → x ∉ (nodes l).*1 → heap s' !! x = heap s !! x).
Proof.
  intros Hwf E Hn. pose proof (wf_ordered _ _ Hwf) as Ho. pose proof (wf_chain _ _ Hwf) as Hc. rewrite E in Hc.
  apply chain_app in Hc as [HcA [Hq [Hp HcB]]].
  destruct (nodes_sorted l A q tq ((p, t) :: B) Ho E) as (Hqb & Htq & HA & HqB). pose proof (HqB p t ltac:(by left)) as Hqp.
  assert (E' : nodes l = (A ++ [(q, tq)]) ++ (p, t) :: B) by (by rewrite <-app_assoc).
  destruct (nodes_sorted l _ p t B Ho E') as (_ & _ & _ & HpB).
  unfold malloc_body, get_hdr, set_hdr, set_freep, bind, get, of_option, ret, modify, taken_at, rest_of. rewrite Hp. cbn [h_size h_ptr].
  rewrite (proj2 (Z.leb_le n t)) by lia.
  destruct (nodes_shrink l A q tq p t _ B Ho E (rest_of_spec n p t Hn)) as (l' & El & Ho' & Hin).
  assert (Hwf' : ∀ h', chain h' (nodes l') base → wf l' (mkust h' q (brk s))).
  { intros h' Hc'. destruct Hwf as [_ _ _ Ht Hb]. split; try done; cbn [freep].
    - exists tq. rewrite El. apply elem_of_app. right. by left.
    - intros a u (v & Hv & Huv)%Hin. apply Ht in Hv. change (a + u ≤ top s). lia. }
  unfold rest_of in El. destruct (Z.eqb_spec t n) as [->|Hne].
  - rewrite Hq. cbn [h_size h_ptr heap freep brk]. eexists l', _. split; [done|]. split; [apply Hwf'|split_and!; [done..| |]].
    + rewrite El. apply chain_app. split; [|split].
      * apply chain_insert_ne; [|done]. intros a u Ha. apply (nodes_lt _ _ _ _ _ _ _ Ho E) in Ha. lia.
      * by rewrite lookup_insert_eq.
      * apply chain_insert_ne; [|done]. intros a u Ha. specialize (HpB a u Ha). lia.
    + exists (next B base). cbn [heap]. rewrite lookup_insert_ne by lia. done.
    + intros x Hx Hxn. cbn [heap]. rewrite lookup_insert_ne; [done|]. intros Heq. apply Hxn. rewrite E, <-Heq.
      apply list_elem_of_fmap. exists (q, tq). split; [done|]. apply elem_of_app. right. by left.
  - cbn [h_size h_ptr heap freep brk]. eexists l', _. split; [done|]. split; [apply Hwf'|split_and!; [done..| |]].
    + rewrite El. apply chain_app. split; [|split; [|split]].
      * do 2 (apply chain_insert_ne; [intros a u Ha; apply (nodes_lt _ _ _ _ _ _ _ Ho E) in Ha; lia|]). done.
      * cbn [next app]. rewrite !lookup_insert_ne by lia. done.
      * cbn [next app]. rewrite lookup_insert_ne by lia. by rewrite lookup_insert_eq.
      * do 2 (apply chain_insert_ne; [intros a u Ha; specialize (HpB a u Ha); lia|]). done.
    + eexists. cbn [heap]. by rewrite lookup_insert_eq.
    + intros x Hx Hxn. cbn [heap]. rewrite !lookup_insert_ne; [done| |done]. intros Heq. apply Hxn. rewrite E, <-Heq.
      apply list_elem_of_fmap. exists (p, t). split; [done|]. apply elem_of_app. right. right. by left.
Qed.

Lemma take_covers n l l' A q tq p t B x : ordered base l → nodes l = A ++ (q, tq) :: (p, t) :: B → 1 ≤ n ≤ t →
  nodes l' = A ++ (q, tq) :: rest_of n p t ++ B →
  (covers l x ↔ covers l' x ∨ taken_at n p t ≤ x < taken_at n p t + n) ∧
  (taken_at n p t ≤ x < taken_at n p t + n → ¬ covers l' x).
Proof.
  intros Ho E Hn E'. destruct (nodes_sorted l (A ++ [(q, tq)]) p t B Ho) as (_ & _ & Hbef & Haft); [by rewrite <-app_assoc|].
  rewrite <-(covers_nodes l), <-(covers_nodes l'), E, E'. rewrite !covers_app, !covers_cons, !covers_app.
  assert (HA : covers A x → x < p).
  { intros (a & u & Ha & Hx). specialize (Hbef a u). assert (a + u < p); [|lia]. apply Hbef, elem_of_app. by left. }
  assert (Hq : q ≤ x < q + tq → x < p).
  { intros Hx. assert (q + tq < p); [|lia]. apply (Hbef q tq), elem_of_app. right. by left. }
  assert (HB : covers B x → p + t < x).
  { intros (a & u & Ha & Hx). specialize (Haft a u Ha). lia. }
  assert (HR : covers (rest_of n p t) x ↔ p ≤ x < taken_at n p t).
  { unfold rest_of, taken_at. destruct (Z.eqb_spec t n) as [->|].
    - split; [by intros (? & ? & ?%not_elem_of_nil & _)|lia].
    - rewrite covers_cons. split; [intros [?|(? & ? & ?%not_elem_of_nil & _)]; [lia|done]|left; lia]. }
  assert (Ht : taken_at n p t + n = p + t ∧ p ≤ taken_at n p t) by (unfold taken_at; destruct (Z.eqb_spec t n); lia).
  assert (Hsplit : p ≤ x < p + t ↔ p ≤ x < taken_at n p t ∨ taken_at n p t ≤ x < taken_at n p t + n) by lia.
  rewrite Hsplit, HR. split; [tauto|]. intros Hx [H|[H|[H|H]]]; [specialize (HA H)|specialize (Hq H)| |specialize (HB H)]; lia.
Qed.

(** The cycle from the node after [f] back to [f]. *)
Lemma chain_rotate h l pre f tf post : nodes l = pre ++ (f, tf) :: post → chain h (nodes l) base → chain h (post ++ pre) f.
Proof.
  intros E Hc. rewrite E in Hc. apply chain_app in Hc as [H1 [_ H2]]. destruct pre as [|[c v] pre]; injection E as <- <- E.
  - by rewrite app_nil_r.
  - apply chain_app. split; done.
Qed.

Lemma first_room n (L : list (Z * Z)) :
  (∃ mid p t rest, L = mid ++ (p, t) :: rest ∧ n ≤ t ∧ ∀ a u, (a, u) ∈ mid → u < n) ∨ (∀ a u, (a, u) ∈ L → u < n).
Proof.
  induction L as [|[a u] L IH]; [right; by intros ?? ?%not_elem_of_nil|]. destruct (decide (n ≤ u)) as [Hu|Hu].
  - left. exists [], a, u, L. split_and!; [done|done|by intros ?? ?%not_elem_of_nil].
  - destruct IH as [(mid & p & t & rest & -> & Ht & Hm)|Hall].
    + left. exists ((a, u) :: mid), p, t, rest. split_and!; [done|done|]. intros b v [[= -> ->]|Hb]%elem_of_cons; [lia|]. by apply (Hm b v).
    + right. intros b v [[= -> ->]|Hb]%elem_of_cons; [lia|]. by apply (Hall b v).
Qed.

Lemma last_addr_in prev (mid : list (Z * Z)) : mid ≠ [] → ∃ mid' q tq, mid = mid' ++ [(q, tq)] ∧ ∀ m0, last_addr prev (m0 ++ mid) = q.
Proof.
  intros Hne. destruct (exists_last Hne) as (mid' & [q tq] & ->). exists mid', q, tq. split; [done|].
  intros m0. rewrite app_assoc. apply last_addr_app.
Qed.

(** The search goes along [mid], nodes of the cycle without room that are not [freep]. *)
Lemma search_along n l s pre f tf post mid p k : wf l s → freep s = f → nodes l = pre ++ (f, tf) :: post →
  (∃ rest t, post ++ pre ++ [(f, tf)] = mid ++ (p, t) :: rest) → (∀ a u, (a, u) ∈ mid → u < n) → (length (nodes l) ≤ k)%nat →
  ∃ m, (k ≤ m + length (nodes l))%nat ∧ loop k (malloc_body grants n) (f, next post base) s = loop (S m) (malloc_body grants n) (last_addr f mid, p) s.
Proof.
  intros Hwf Hf E (rest & t & ER) Hmid Hk. pose proof (wf_ordered _ _ Hwf) as Ho.
  pose proof (chain_rotate _ _ _ _ _ _ E (wf_chain _ _ Hwf)) as Hc.
  assert (Hpre : ∃ m2, post ++ pre = mid ++ m2 ∧ p = next m2 f).
  { rewrite app_assoc in ER. destruct (exists_last (l := (p, t) :: rest) ltac:(done)) as (m2 & [z tz] & Em).
    rewrite Em, app_assoc in ER. apply app_inj_tail in ER as [E1 [= <- <-]]. exists m2. split; [done|].
    destruct m2 as [|[c v] m2]; injection Em as -> -> Em; done. }
  destruct Hpre as (m2 & Em & ->). rewrite Em in Hc.
  assert (Hnext : next post base = next (mid ++ m2) f).
  { rewrite <-Em. destruct post as [|[b v] post]; [|done]. destruct pre as [|[b v] pre]; by injection E as <- <- E. }
  assert (Hcm : chain (heap s) mid (next m2 f)).
  { destruct m2 as [|[c v] m2]; [by rewrite app_nil_r in Hc|]. by apply chain_app in Hc as [? _]. }
  assert (Hnf : ∀ a u, (a, u) ∈ mid → u < n ∧ a ≠ freep s).
  { intros a u Ha. split; [by apply (Hmid a u)|]. rewrite Hf.
    assert (Hin : (a, u) ∈ post ++ pre) by (rewrite Em; apply elem_of_app; by left). apply elem_of_app in Hin as [Hin|Hin].
    - destruct (nodes_sorted _ _ _ _ _ Ho E) as (_ & ? & _ & Haft). specialize (Haft a u Hin). lia.
    - pose proof (nodes_lt _ _ _ _ _ _ _ Ho E Hin). lia. }
  assert (Hlen : (length mid < length (nodes l))%nat).
  { apply (f_equal length) in Em. rewrite E, length_app. rewrite !length_app in Em. cbn [length]. lia. }
  exists (k - length mid - 1)%nat. split; [lia|].
  replace k with (length mid + S (k - length mid - 1))%nat at 1 by lia.
  replace (next post base) with (next mid (next m2 f)); [by apply malloc_walk|].
  rewrite Hnext. by destruct mid as [|[]].
Qed.

(** The first node with room after [freep], and the node before it. *)
Lemma search_ok n l s pre f tf post k : wf l s → freep s = f → nodes l = pre ++ (f, tf) :: post → has_room n l → 1 ≤ n →
  (length (nodes l) ≤ k)%nat →
  ∃ A q tq p t B m, nodes l = A ++ (q, tq) :: (p, t) :: B ∧ n ≤ t ∧
    loop k (malloc_body grants n) (f, next post base) s = loop (S m) (malloc_body grants n) (q, p) s.
Proof.
  intros Hwf Hf E (a0 & t0 & Ha0 & Ht0) Hn Hk. pose proof (search_along n l s pre f tf post) as Hs.
  destruct (first_room n post) as [(mid & p & t & rest & -> & Ht & Hm)|Hpost]; [|destruct (first_room n pre) as [(mid & p & t & rest & -> & Ht & Hm)|Hpre]].
  - destruct (Hs mid p k Hwf Hf E) as (m & _ & El); [exists (rest ++ pre ++ [(f, tf)]), t; by rewrite <-app_assoc|done|done|].
    destruct (decide (mid = [])) as [->|Hne]; [by exists pre, f, tf, p, t, rest, m|].
    destruct (last_addr_in f mid Hne) as (mid' & q & tq & -> & Hl). specialize (Hl []). cbn [app] in Hl. rewrite Hl in El.
    exists (pre ++ (f, tf) :: mid'), q, tq, p, t, rest, m. split; [|done]. rewrite E. rewrite <-!app_assoc. cbn [app]. done.
  - destruct (Hs (post ++ mid) p k Hwf Hf E) as (m & _ & El); [|intros a u [Ha|Ha]%elem_of_app; [by apply (Hpost a u)|by apply (Hm a u)]|done|].
    { exists (rest ++ [(f, tf)]), t. by rewrite <-!app_assoc. }
    assert (Hne : mid ≠ []). { intros ->. injection E as _ <- _. lia. }
    destruct (last_addr_in f mid Hne) as (mid' & q & tq & -> & Hl). rewrite (Hl post) in El.
    exists mid', q, tq, p, t, (rest ++ (f, tf) :: post), m. split; [|done]. rewrite E. by rewrite <-!app_assoc.
  - destruct (Hs (post ++ pre) f k Hwf Hf E) as (m & _ & El); [|intros a u [Ha|Ha]%elem_of_app; [by apply (Hpost a u)|by apply (Hpre a u)]|done|].
    { exists [], tf. by rewrite <-!app_assoc. }
    assert (Htf : n ≤ tf).
    { assert (H : (a0, t0) ∈ nodes l) by (by right). rewrite E in H. apply elem_of_app in H as [H|[[= -> ->]|H]%elem_of_cons]; [|done|].
      - apply Hpre in H. lia.
      - apply Hpost in H. lia. }
    assert (Hne : pre ≠ []). { intros ->. injection E as _ <- _. lia. }
    destruct (last_addr_in f pre Hne) as (mid' & q & tq & -> & Hl). rewrite (Hl post) in El.
    exists mid', q, tq, f, tf, post, m. split; [|done]. rewrite E. by rewrite <-!app_assoc.
Qed.

(** Taking a node's units out of a list with room. *)
Lemma malloc_take A n l s pre f tf post k : wf l s → blocks A l s → freep s = f → nodes l = pre ++ (f, tf) :: post →
  has_room n l → 1 ≤ n → (length (nodes l) ≤ k)%nat →
  ∃ a s', loop k (malloc_body grants n) (f, next post base) s = Ok (a + 1) s' ∧ base < a ∧ A !! a = None ∧ ok (<[a := n]> A) s'.
Proof.
  intros Hwf Hb Hf E Hroom Hn Hk. destruct (search_ok n l s pre f tf post k Hwf Hf E Hroom Hn Hk) as (A0 & q & tq & p & t & B & m & E2 & Ht & ->).
  destruct (take_wf n l s A0 q tq p t B Hwf E2 ltac:(lia)) as (l' & s' & Em & Hwf' & Eb & E3 & Hr & Hh).
  cbn [loop]. rewrite (bind_Ok _ _ _ _ _ Em). exists (taken_at n p t), s'. split; [done|].
  pose proof (fun x => take_covers n l l' A0 q tq p t B x (wf_ordered _ _ Hwf) E2 ltac:(lia) E3) as Hcov.
  assert (Hat : taken_at n p t + n = p + t ∧ p ≤ taken_at n p t) by (unfold taken_at; destruct (Z.eqb_spec t n); lia).
  assert (Hin : (p, t) ∈ l).
  { assert (H : (p, t) ∈ nodes l) by (rewrite E2; apply elem_of_app; right; right; by left).
    apply elem_of_cons in H as [[= -> ->]|H]; [lia|done]. }
  pose proof (wf_top _ _ Hwf _ _ Hin). pose proof (ordered_above _ _ _ _ (wf_ordered _ _ Hwf) Hin) as [Hp _].
  split; [lia|]. destruct (blocks_take A l s l' s' (taken_at n p t) n) as [H1 H2]; try done.
  - unfold top. by rewrite Eb.
  - lia.
  - intros b Hbs. apply Hh; [|by eapply in_use_not_node]. intros ->. destruct Hbs as [sb Hsb].
    destruct (b_block _ _ _ Hb _ _ Hsb) as (_ & ? & _).
    apply (b_free _ _ _ Hb (taken_at n p t)); [exists (taken_at n p t), sb; split; [done|lia]|]. apply Hcov. right. lia.
  - intros x. apply Hcov.
  - intros x. apply Hcov.
  - lia.
  - split; [done|]. right. by exists l'.
Qed.

Lemma freep_split l s : wf l s → ∃ pre tf post, nodes l = pre ++ (freep s, tf) :: post ∧
  heap s !! freep s = Some (mkheader (next post base) tf).
Proof.
  intros Hwf. destruct (wf_freep _ _ Hwf) as [tf Hin]. apply list_elem_of_split in Hin as (pre & post & E).
  exists pre, tf, post. split; [done|]. pose proof (wf_chain _ _ Hwf) as Hc. rewrite E in Hc. by apply chain_app in Hc as [_ [? _]].
Qed.

(** No node has room: [morecore] is called at [freep], and the search starts again. *)
Lemma malloc_loop A n l s pre tf post k : wf l s → blocks A l s → nodes l = pre ++ (freep s, tf) :: post →
  1 ≤ n → n * HDR < 2 ^ 31 → (2 * length (nodes l) + 2 ≤ k)%nat →
  (loop k (malloc_body grants n) (freep s, next post base) s = Ok 0 s ∧ ¬ has_room n l ∧ grants (brk s + Z.max 4096 n * HDR) = false) ∨
  (∃ a s', loop k (malloc_body grants n) (freep s, next post base) s = Ok (a + 1) s' ∧ base < a ∧ A !! a = None ∧ ok (<[a := n]> A) s').
Proof.
  intros Hwf Hb E Hn Hmax Hk. destruct (first_room n (nodes l)) as [(mid & p & t & rest & E1 & Ht & _)|Hsmall].
  { right. apply (malloc_take A n l s pre (freep s) tf post); try done; [|lia]. exists p, t. split; [|done].
    assert (H : (p, t) ∈ nodes l) by (rewrite E1; apply elem_of_app; right; by left). apply elem_of_cons in H as [[= -> ->]|H]; [lia|done]. }
  destruct (search_along n l s pre (freep s) tf post (post ++ pre) (freep s) k Hwf eq_refl E) as (m & Hm & ->).
  { exists [], tf. by rewrite <-app_assoc. }
  { intros a u Ha. apply (Hsmall a u). rewrite E. apply elem_of_app. apply elem_of_app in Ha as [Ha|Ha]; [right; by right|by left]. }
  { lia. }
  destruct (freep_split l s Hwf) as (pre' & tf' & post' & E' & Hf).
  assert (Htf : tf' < n) by (apply (Hsmall (freep s)); rewrite E'; apply elem_of_app; right; by left).
  assert (Hbody : ∀ prev, malloc_body grants n (prev, freep s) s =
    (let! r := morecore grants n in if r =? 0 then ret (inr 0) else let! h := get_hdr r in ret (inl (r, h_ptr h))) s).
  { intros prev. unfold malloc_body, get_hdr at 1. unfold bind at 1 2, get, of_option, ret at 1. rewrite Hf. cbn [h_size].
    rewrite (proj2 (Z.leb_gt n tf')) by lia. unfold bind at 1. by rewrite Z.eqb_refl. }
  cbn [loop].
  destruct (morecore_wf n l s Hwf Hn Hmax) as [[Em Hg]|(l2 & s2 & Em & Hwf2 & Hroom & Htop & Hcov & Hh & Hlen)].
  - left. erewrite bind_Ok; [|rewrite Hbody, (bind_Ok _ _ _ _ _ Em); reflexivity].
    split_and!; [done| |done]. intros (a & t & Ha & Ht). assert (t < n); [|lia]. apply (Hsmall a t). by right.
  - right. destruct (freep_split l2 s2 Hwf2) as (pre2 & tf2 & post2 & E2 & Hf2).
    assert (Hnz : freep s2 ≠ 0).
    { assert (H : (freep s2, tf2) ∈ nodes l2) by (rewrite E2; apply elem_of_app; right; by left).
      apply (node_below _ _ _ _ Hwf2) in H. destruct (wf_brk _ _ Hwf) as (_ & ? & _). lia. }
    erewrite bind_Ok; [|rewrite Hbody, (bind_Ok _ _ _ _ _ Em), (proj2 (Z.eqb_neq (freep s2) 0) Hnz);
      unfold get_hdr, bind, get, of_option, ret; rewrite Hf2; reflexivity].
    apply (malloc_take A n l2 s2 pre2 (freep s2) tf2 post2); try done.
    + eapply blocks_keep; [done|done| |done]. intros a Ha. apply Hh; [|by eapply in_use_not_node].
      destruct Ha as [sa Ha]. destruct (b_block _ _ _ Hb _ _ Ha) as (_ & ? & ? & _). lia.
    + cbn [nodes length] in *. lia.
Qed.

(** The first call makes [base] the only node. *)
Lemma first_call A s : ok A s → ∃ s', (if freep s =? 0 then set_hdr base (mkheader base 0) ;;; set_freep base else ret tt) s = Ok tt s' ∧
  brk s' = brk s ∧ ∃ l, wf l s' ∧ blocks A l s'.
Proof.
  intros [(Hf & -> & Hb & Hba & H32 & Elo)|(l & Hwf & Hb)].
  - rewrite Hf. cbn. eexists. split; [done|]. split; [done|]. exists []. split.
    + split; cbn [heap freep brk].
      * split; [by rewrite lookup_insert_eq|done].
      * done.
      * exists 0. by left.
      * by intros ?? ?%not_elem_of_nil.
      * done.
    + split.
      * intros a sz Ha. by rewrite lookup_empty in Ha.
      * by intros x (a & sz & Ha & _).
      * intros a sa b sb Ha. by rewrite lookup_empty in Ha.
      * intros x Hx. change (lo ≤ x < top s) in Hx. lia.
  - assert (Hnz : freep s ≠ 0).
    { destruct (wf_freep _ _ Hwf) as [t Ht]. apply (node_below _ _ _ _ Hwf) in Ht. destruct (wf_brk _ _ Hwf) as (_ & ? & _). lia. }
    rewrite (proj2 (Z.eqb_neq _ _) Hnz). exists s. split_and!; [done|done|]. by exists l.
Qed.

(** Free units next to each other are in one block, the list being merged. *)
Lemma run_in_block l : ∀ b a n, ordered b l → 0 < n → (∀ x, a ≤ x < a + n → covers l x) → has_room n l.
Proof.
  induction l as [|[c t] l IH]; intros b a n Ho Hn Hc; [destruct (Hc a ltac:(lia)) as (? & ? & ?%not_elem_of_nil & _); done|].
  destruct Ho as (H1 & H2 & Ho). assert (Hl : ∀ x, covers l x → c + t < x).
  { intros x (d & u & Hd & Hx). apply (ordered_above _ _ _ _ Ho) in Hd. lia. }
  destruct (decide (c + t ≤ a)) as [Hlt|Hge].
  - destruct (IH (c + t) a n Ho Hn) as (d & u & Hd & Hu); [|exists d, u; split; [by right|done]].
    intros x Hx. destruct (Hc x Hx) as (d & u & [[= -> ->]|Hd]%elem_of_cons & Hxd); [lia|]. by exists d, u.
  - exists c, t. split; [by left|]. destruct (decide (n ≤ t)) as [|Hnt]; [done|]. exfalso.
    assert (Hca : c ≤ a) by (destruct (Hc a ltac:(lia)) as (d & u & [[= -> ->]|Hd]%elem_of_cons & Hxd); [lia|]; specialize (Hl a ltac:(by exists d, u)); lia).
    destruct (Hc (c + t) ltac:(lia)) as (d & u & [[= -> ->]|Hd]%elem_of_cons & Hxd); [lia|]. specialize (Hl (c + t) ltac:(by exists d, u)). lia.
Qed.

(** The units [malloc] takes for [nbytes] bytes: rounded up, and one for the header. *)
Definition units (nbytes : Z) : Z := (nbytes + HDR - 1) / HDR + 1.

(** C29: [malloc] of up to 2 GB always returns (for more see [malloc_of_3GB]).  A pointer it
    returns is to a block of its own: not in use before, disjoint from every block in use and
    from the free blocks, of the units asked for.  It returns 0 only when every run of so many
    units of the heap has one in use, and the kernel refuses to grow the process by what
    [morecore] asks for, those units or 4096 if that is more; then nothing has changed but
    the first call's setting up of the list. *)
Theorem malloc_correct (A : gmap Z Z) (s : ust) (nbytes : Z) : ok A s → 0 ≤ nbytes ≤ 2 ^ 31 - 48 →
  let n := units nbytes in
  ∃ r s', malloc grants nbytes s = Ok r s' ∧
  ((r = 0 ∧ ok A s' ∧ brk s' = brk s ∧ grants (brk s + Z.max 4096 n * HDR) = false ∧
      ∀ a, lo ≤ a → a + n ≤ top s → ∃ x, a ≤ x < a + n ∧ owned A x) ∨
   (r ≠ 0 ∧ A !! (r - 1) = None ∧ ok (<[r - 1 := n]> A) s')).
Proof.
  intros Hok Hn n. unfold malloc.
  assert (Hn1 : 1 ≤ n ∧ n * HDR < 2 ^ 31).
  { unfold n, units, HDR. pose proof (Z.div_mod (nbytes + 16 - 1) 16). pose proof (Z.mod_pos_bound (nbytes + 16 - 1) 16). lia. }
  fold (units nbytes). fold n. rewrite u32_id by (unfold HDR in *; lia). clearbody n.
  destruct (first_call A s Hok) as (s1 & E1 & Eb & l & Hwf & Hb). unfold bind at 1, get. rewrite (bind_Ok _ _ _ _ _ E1).
  destruct (freep_split l s1 Hwf) as (pre & tf & post & E & Hf). unfold bind at 1, get.
  erewrite bind_Ok; [|unfold get_hdr, bind, get, of_option; rewrite Hf; reflexivity]. cbn [h_ptr].
  pose proof (wf_size _ _ Hwf). destruct (malloc_loop A n l s1 pre tf post (rounds s1 + 1) Hwf Hb E) as [(-> & Hroom & Hg)|(a & s' & -> & Ha & Hnone & Ho)].
  - lia.
  - lia.
  - unfold rounds. lia.
  - exists 0, s1. split; [done|]. left. rewrite <-Eb. split_and!; [done|right; by exists l|done|done|]. intros a Hlo Htop.
    assert (Hdec : ∀ k : nat, (∃ x, a ≤ x < a + Z.of_nat k ∧ owned A x) ∨ (a + Z.of_nat k ≤ top s → ∀ x, a ≤ x < a + Z.of_nat k → covers l x)).
    { induction k as [|k [(x & Hx & Hox)|IH]]; [right; lia|left; exists x; split; [lia|done]|].
      destruct (decide (a + Z.of_nat (S k) ≤ top s)) as [Hle|]; [|right; lia].
      destruct (b_all _ _ _ Hb (a + Z.of_nat k)) as [Hc|Hox]; [unfold top in *; rewrite Eb; lia| |left; exists (a + Z.of_nat k); split; [lia|done]].
      right. intros _ x Hx. destruct (decide (x = a + Z.of_nat k)) as [->|]; [done|]. apply IH; lia. }
    destruct (Hdec (Z.to_nat n)) as [(x & Hx & Hox)|Hc]; [exists x; split; [lia|done]|]. destruct Hroom.
    apply (run_in_block l base a n (wf_ordered _ _ Hwf)); [lia|]. intros x Hx. apply Hc; lia.
  - exists (a + 1), s'. split; [done|]. right. replace (a + 1 - 1) with a by lia. split_and!; try done; try lia.
    destruct (wf_brk _ _ Hwf) as (_ & ? & _). lia.
Qed.

(** A client may write anything inside its blocks, behind their headers. *)
Lemma client_write A s h' : ok A s → (∀ x, ¬ (∃ a sz, A !! a = Some sz ∧ a < x < a + sz) → h' !! x = heap s !! x) →
  ok A (mkust h' (freep s) (brk s)).
Proof.
  intros [(Hf & -> & H)|(l & Hwf & Hb)] Hh; [by left|]. right. exists l. split.
  - apply wf_change; [done|]. intros a Ha. apply Hh. intros (b & sz & Hbs & Hx).
    apply list_elem_of_fmap in Ha as ([c t] & -> & Hin). cbn in Hx. apply elem_of_cons in Hin as [[= -> ->]|Hin].
    + destruct (b_block _ _ _ Hb _ _ Hbs) as (? & _). lia.
    + apply (b_free _ _ _ Hb c); [exists b, sz; split; [done|lia]|]. exists c, t. split; [done|].
      apply (ordered_above _ _ _ _ (wf_ordered _ _ Hwf)) in Hin. lia.
  - destruct Hb as [H1 H2 H3 H4]. split; try done. intros a sz Ha. destruct (H1 a sz Ha) as (? & ? & ? & r & Hr). split_and!; try done.
    exists r. cbn [heap]. rewrite Hh; [done|]. intros (b & sb & Hbs & Hx). destruct (H1 b sb Hbs) as (? & ? & _).
    destruct (decide (a = b)) as [->|Hne]; [lia|]. destruct (H3 a sz b sb Ha Hbs Hne); lia.
Qed.
End umalloc.

(** ** Examples *)

(** A process of 4 KB with [base] at unit 100, on a machine with room for 1 MB. *)
Definition demo_grants (n : Z) : bool := n <=? 2 ^ 20.
Definition demo_heap : ust := mkust ∅ 0 4096.

Lemma demo_grants_ok n : demo_grants n = true → n / HDR < 2 ^ 32.
Proof. unfold demo_grants, HDR. intros H%Z.leb_le. apply Z.div_lt_upper_bound; lia. Qed.

Lemma demo_heap_ok : ok 100 256 ∅ demo_heap.
Proof. left. by vm_compute. Qed.

(** The first call, and a call for more than there is. *)
Lemma malloc_correct_witness :
  (∃ r s', malloc 100 demo_grants 20 demo_heap = Ok r s' ∧ r ≠ 0 ∧ ok 100 256 (<[r - 1 := 3]> ∅) s') ∧
  (∃ s', malloc 100 demo_grants (2 ^ 21) demo_heap = Ok 0 s' ∧ ok 100 256 ∅ s' ∧ brk s' = brk demo_heap).
Proof.
  split.
  - destruct (malloc_correct 100 256 demo_grants demo_grants_ok ∅ demo_heap 20 demo_heap_ok ltac:(lia)) as (r & s' & E & [(_ & _ & _ & H & _)|(H1 & _ & H2)]).
    + vm_compute in H. discriminate H.
    + exists r, s'. split; [exact E|]. split; [exact H1|exact H2].
  - destruct (malloc_correct 100 256 demo_grants demo_grants_ok ∅ demo_heap (2 ^ 21) demo_heap_ok ltac:(lia)) as (r & s' & E & [(-> & H1 & H2 & _)|(H1 & _ & _)]).
    + exists s'. split; [exact E|]. split; [exact H1|exact H2].
    + exfalso. apply H1. apply (f_equal (fun o => match o with Ok r _ => r | _ => 0 end)) in E. rewrite <-E. vm_compute. reflexivity.
Defined.

(** The heap after that call: a free block of 4093 units, and the block of 3 in use. *)
Definition demo_used : ust := mkust {[100 := mkheader 256 0; 256 := mkheader 100 4093; 4349 := mkheader 0 3]} 100 (4352 * 16).

Lemma demo_used_ok : ok 100 256 {[4349 := 3]} demo_used.
Proof.
  right. exists [(256, 4093)]. split.
  - split; try (by vm_compute).
    + exists 0. by left.
    + intros a t [= -> ->]%list_elem_of_singleton. by vm_compute.
  - change (top demo_used) with 4352. split.
    + intros a sz [<- <-]%lookup_singleton_Some. split_and!; [done|done|by vm_compute|]. by exists 0.
    + intros x (a & sz & [<- <-]%lookup_singleton_Some & Hx) (b & t & [= -> ->]%list_elem_of_singleton & Hx'). lia.
    + intros a sa b sb [<- <-]%lookup_singleton_Some [<- <-]%lookup_singleton_Some. done.
    + intros x Hx. change (top demo_used) with 4352 in Hx. destruct (decide (x < 4349)).
      * left. exists 256, 4093. split; [by left|lia].
      * right. exists 4349, 3. split; [done|lia].
Qed.

Lemma free_correct_witness : ∃ s', free 4350 demo_used = Ok tt s' ∧ ok 100 256 (delete (4350 - 1) {[4349 := 3]}) s' ∧ brk s' = brk demo_used.
Proof. apply (free_correct 100 256 {[4349 := 3]} demo_used 4350 3 demo_used_ok). reflexivity. Defined.

(** [morecore] passes a size of 2 GB or more to [sbrk] as a negative [int]: the process
    does not grow, and [malloc] returns memory that is not there. *)
Lemma malloc_of_3GB : ∃ r s', malloc 100 demo_grants (3 * 2 ^ 30) demo_heap = Ok r s' ∧ r ≠ 0 ∧ brk s' = brk demo_heap.
Proof. eexists _, _. split; [vm_compute; reflexivity|]. by vm_compute. Qed.
