(* ===== verification/Grep.v ===== *)
(** * grep (user/grep.c)

    The matcher of Kernighan and Pike and the loop that finds lines in the blocks that
    [read] returns.  Strings are lists of characters without the terminating null; where
    the C code reads the character after the last one it finds that null. *)

From S2P Require Import Prelude Mem Printf Kernel Syscall User.

Definition CARET : Z := 94.
Definition DOLLAR : Z := 36.
Definition STAR : Z := 42.
Definition DOT : Z := 46.
Definition NEWLINE : Z := 10.

(** [matchstar(c, re, text)], where [here] is [matchhere(re, .)]. *)
Fixpoint matchstar (here : list Z → bool) (c : Z) (text : list Z) : bool :=
  if here text then true else
  match text with
  | t :: text' => if (t =? c) || (c =? DOT) then matchstar here c text' else false
  | [] => false
  end.

Fixpoint matchhere (re : list Z) {struct re} : list Z → bool :=
  match re with
  | [] => fun _ => true
  | c :: re1 =>
      let single text :=
        match text with
        | t :: text' => if (c =? DOT) || (c =? t) then matchhere re1 text' else false
        | [] => false
        end in
      match re1 with
      | [] => fun text => if c =? DOLLAR then match text with [] => true | _ => false end else single text
      | s :: re2 => if s =? STAR then matchstar (matchhere re2) c else single
      end
  end.

(** The [do ... while] of [match]: [matchhere] at every suffix of the text. *)
Fixpoint match_any (here : list Z → bool) (text : list Z) : bool :=
  if here text then true else match text with _ :: text' => match_any here text' | [] => false end.

Definition re_match (re text : list Z) : bool :=
  match re with
  | c :: re1 => if c =? CARET then matchhere re1 text else match_any (matchhere re) text
  | [] => match_any (matchhere re) text
  end.

(** ** The loop of [grep] *)

(** [strchr(p, '\n')]: the line before the newline and what follows it; [p] ends at a null. *)
Fixpoint break_line (p : list Z) : option (list Z * list Z) :=
  match p with
  | [] => None
  | c :: p =>
      if c =? 0 then None else
      if c =? NEWLINE then Some ([], p) else
      match break_line p with Some (l, r) => Some (c :: l, r) | None => None end
  end.

(** The inner loop: it writes the lines that match, and returns the bytes left for the next
    round.  Every round takes a line off [p]: [fuel] over the length of [p] is enough. *)
Fixpoint grep_lines (fuel : nat) (pattern p : list Z) : proc (list Z) :=
  match fuel with
  | O => Stuck
  | S fuel =>
      match break_line p with
      | Some (line, p') =>
          (if re_match pattern line then Write 1 (line ++ [NEWLINE]) (fun _ => Ret tt) else Ret tt) ;~
          grep_lines fuel pattern p'
      | None => Ret p
      end
  end.

Definition GREP_BUF : nat := 1024.

(** A round of the outer loop; [buf] holds the first [m] bytes of the buffer. *)
Definition grep_body (pattern : list Z) (fd : Z) (buf : list Z) : proc (list Z + unit) :=
  Read fd (Z.of_nat (GREP_BUF - length buf - 1)) (fun r =>
  match r with
  | None | Some [] => Ret (inr tt)
  | Some blk =>
      let p := buf ++ blk in
      let~ rest := grep_lines (S (length p)) pattern p in
      Ret (inl rest)
  end).
Definition grep (fuel : nat) (pattern : list Z) (fd : Z) : proc unit := repeat_ fuel (grep_body pattern fd) [].

Fixpoint grep_files (fuel : nat) (pattern : list Z) (args : list (list Z)) : proc unit :=
  match args with
  | [] => Ret tt
  | path :: args =>
      Open path O_RDONLY (fun fd =>
      if fd <? 0 then fprintf 1 ("grep: cannot open %s" ++ NL) [AStr (Some path)] ;~ Exit 1 else
      grep fuel pattern fd ;~
      Close fd (fun _ => grep_files fuel pattern args))
  end.
Definition grep_main (fuel : nat) (args : list (list Z)) : proc unit :=
  match args with
  | [] => fprintf 2 ("usage: grep pattern [file ...]" ++ NL) [] ;~ Exit 1
  | [pattern] => grep fuel pattern 0 ;~ Exit 0
  | pattern :: files => grep_files fuel pattern files ;~ Exit 0
  end.

(** ** What patterns mean *)

Inductive item := One (c : Z) | Many (c : Z).

(** The items of a pattern and whether it ends in an end anchor. *)
Fixpoint parse (re : list Z) : list item * bool :=
  match re with
  | [] => ([], false)
  | c :: re1 =>
      match re1 with
      | [] => if c =? DOLLAR then ([], true) else ([One c], false)
      | s :: re2 =>
          if s =? STAR then let '(its, e) := parse re2 in (Many c :: its, e)
          else let '(its, e) := parse re1 in (One c :: its, e)
      end
  end.

(** A dot stands for any character. *)
Definition fits (c x : Z) : Prop := c = DOT ∨ x = c.

(** The strings a sequence of items matches. *)
Fixpoint lang (its : list item) (w : list Z) : Prop :=
  match its with
  | [] => w = []
  | One c :: its => ∃ x w', w = x :: w' ∧ fits c x ∧ lang its w'
  | Many c :: its => ∃ u v, w = u ++ v ∧ Forall (fits c) u ∧ lang its v
  end.

(** [re] without a start anchor matches at the beginning of [text]. *)
Definition matches_here (re text : list Z) : Prop :=
  ∃ w rest, text = w ++ rest ∧ lang (parse re).1 w ∧ ((parse re).2 = true → rest = []).

Definition matches (re text : list Z) : Prop :=
  match re with
  | c :: re1 => if c =? CARET then matches_here re1 text else ∃ pre suf, text = pre ++ suf ∧ matches_here re suf
  | [] => True
  end.

(** ** The matcher is right *)

Lemma fits_spec c x : (x =? c) || (c =? DOT) = true ↔ fits c x.
Proof. unfold fits. rewrite orb_true_iff, !Z.eqb_eq. tauto. Qed.

Lemma matchstar_spec (here : list Z → bool) c text :
  matchstar here c text = true ↔ ∃ u v, text = u ++ v ∧ Forall (fits c) u ∧ here v = true.
Proof.
  induction text as [|t text IH]; simpl; destruct (here _) eqn:E.
  - split; [|done]. intros _. by exists [], [].
  - split; [done|]. intros (u & v & Huv & _ & Hv). symmetry in Huv. apply app_nil in Huv as [-> ->]. congruence.
  - split; [|done]. intros _. by exists [], (t :: text).
  - destruct ((t =? c) || (c =? DOT)) eqn:Ec.
    + apply fits_spec in Ec. rewrite IH. split.
      * intros (u & v & -> & Hu & Hv). exists (t :: u), v. split_and!; [done|by constructor|done].
      * intros ([|x u] & v & Huv & Hu & Hv); simplify_eq/=; [congruence|]. apply Forall_cons in Hu as [_ Hu].
        by exists u, v.
    + split; [done|]. intros ([|x u] & v & Huv & Hu & Hv); simplify_eq/=; [congruence|].
      apply Forall_cons in Hu as [Hx _]. apply fits_spec in Hx. congruence.
Qed.

Lemma match_any_spec (here : list Z → bool) text :
  match_any here text = true ↔ ∃ pre suf, text = pre ++ suf ∧ here suf = true.
Proof.
  induction text as [|t text IH]; simpl; destruct (here _) eqn:E.
  - split; [|done]. intros _. by exists [], [].
  - split; [done|]. intros (u & v & Huv & Hv). symmetry in Huv. apply app_nil in Huv as [-> ->]. congruence.
  - split; [|done]. intros _. by exists [], (t :: text).
  - rewrite IH. split.
    + intros (u & v & -> & Hv). by exists (t :: u), v.
    + intros ([|x u] & v & Huv & Hv); simplify_eq/=; [congruence|]. by exists u, v.
Qed.

Lemma here_one c its e text :
  (∃ w rest, text = w ++ rest ∧ lang (One c :: its) w ∧ (e = true → rest = [])) ↔
  ∃ x text', text = x :: text' ∧ fits c x ∧ ∃ w rest, text' = w ++ rest ∧ lang its w ∧ (e = true → rest = []).
Proof.
  split.
  - intros (w & rest & -> & (x & w' & -> & Hx & Hl) & He). exists x, (w' ++ rest). split_and!; [done|done|]. eauto.
  - intros (x & t' & -> & Hx & w & rest & -> & Hl & He). exists (x :: w), rest. split_and!; [done| |done]. simpl. eauto.
Qed.

Lemma single_spec c (here : list Z → bool) text :
  match text with t :: text' => if (c =? DOT) || (c =? t) then here text' else false | [] => false end = true ↔
  ∃ x text', text = x :: text' ∧ fits c x ∧ here text' = true.
Proof.
  destruct text as [|t text]; [split; [done|]; by intros (? & ? & ? & _)|].
  rewrite (orb_comm (c =? DOT)), (Z.eqb_sym c t). destruct ((t =? c) || (c =? DOT)) eqn:E.
  - apply fits_spec in E. split; [by exists t, text|]. intros (x & t' & [= -> ->] & _ & H). done.
  - split; [done|]. intros (x & t' & [= -> ->] & Hx & _). apply fits_spec in Hx. congruence.
Qed.

(** Patterns are taken apart one or two characters at a time. *)
Lemma pattern_ind (P : list Z → Prop) :
  P [] → (∀ c, P [c]) → (∀ c s re, P re → P (s :: re) → P (c :: s :: re)) → ∀ re, P re.
Proof.
  intros H0 H1 H2 re. cut (P re ∧ ∀ c, P (c :: re)); [tauto|].
  induction re as [|s re [IH1 IH2]]; [split; auto|]. split; [apply IH2|]. intros c. by apply H2.
Qed.

Lemma matchhere_spec re : ∀ text, matchhere re text = true ↔ matches_here re text.
Proof.
  induction re as [|c|c s re IH1 IH2] using pattern_ind; intros text.
  - split; [|done]. intros _. by exists [], text.
  - unfold matches_here. cbn [parse matchhere]. destruct (c =? DOLLAR); cbn [fst snd].
    + destruct text as [|t text]; [split; [by exists [], []|done]|]. split; [done|].
      intros (w & rest & E & -> & He). by rewrite (He eq_refl) in E.
    + rewrite (single_spec c (fun _ => true)), here_one. split; intros (x & t' & -> & Hx & _); exists x, t'; split_and!; try done.
      by exists [], t'.
  - unfold matches_here. change (parse (c :: s :: re)) with
      (if s =? STAR then let '(its, e) := parse re in (Many c :: its, e) else let '(its, e) := parse (s :: re) in (One c :: its, e)).
    change (matchhere (c :: s :: re)) with (if s =? STAR then matchstar (matchhere re) c else fun text =>
      match text with t :: text' => if (c =? DOT) || (c =? t) then matchhere (s :: re) text' else false | [] => false end).
    destruct (s =? STAR).
    + rewrite matchstar_spec. unfold matches_here in IH1. destruct (parse re) as [its e]. simpl. split.
      * intros (u & v & -> & Hu & (w & rest & -> & Hl & He)%IH1). exists (u ++ w), rest. split_and!; [by rewrite app_assoc| |done].
        by exists u, w.
      * intros (w & rest & -> & (u & v & -> & Hu & Hl) & He). exists u, (v ++ rest). split_and!; [by rewrite app_assoc|done|].
        apply IH1. by exists v, rest.
    + rewrite single_spec. unfold matches_here in IH2. destruct (parse (s :: re)) as [its e] eqn:Ep. cbn [fst snd] in *.
      rewrite here_one. split; intros (x & t' & -> & Hx & H); exists x, t'; (split_and!; [done|done|]); by apply IH2.
Qed.

(** C37: [match] is a decision procedure for the patterns: it answers 1 exactly when some
    part of the text (the beginning, for a pattern that starts with a caret) is in the
    language of the pattern's items, and reaches the end of the text if the pattern ends
    in a dollar sign. *)
Theorem re_match_correct (re text : list Z) : re_match re text = true ↔ matches re text.
Proof.
  unfold re_match, matches. destruct re as [|c re].
  - split; [done|]. intros _. apply match_any_spec. by exists [], text.
  - destruct (c =? CARET); [apply matchhere_spec|]. rewrite match_any_spec.
    split; intros (pre & suf & -> & H); exists pre, suf; split; try done; by apply matchhere_spec.
Qed.

(** ** The lines *)

(** The complete lines of [s] when [cur] has been read before it, and the rest. *)
Fixpoint split_lines (s cur : list Z) : list (list Z) * list Z :=
  match s with
  | [] => ([], cur)
  | c :: s =>
      if c =? NEWLINE then let '(ls, r) := split_lines s [] in (cur :: ls, r) else split_lines s (cur ++ [c])
  end.

Lemma split_lines_app a b cur :
  split_lines (a ++ b) cur =
    ((split_lines a cur).1 ++ (split_lines b (split_lines a cur).2).1, (split_lines b (split_lines a cur).2).2).
Proof.
  revert cur. induction a as [|c a IH]; intros cur; simpl; [by destruct (split_lines b cur)|].
  destruct (c =? NEWLINE); [|apply IH]. rewrite IH. by destruct (split_lines a []).
Qed.

Lemma break_line_split p cur : Forall (fun c => c ≠ 0) p →
  split_lines p cur = match break_line p with
    | Some (l, p') => ((cur ++ l) :: (split_lines p' []).1, (split_lines p' []).2)
    | None => ([], cur ++ p)
    end.
Proof.
  intros Hp. revert cur. induction Hp as [|c p Hc Hp IH]; intros cur; simpl; [by rewrite app_nil_r|].
  rewrite (proj2 (Z.eqb_neq _ _) Hc).
  destruct (c =? NEWLINE); [rewrite app_nil_r; by destruct (split_lines p [])|]. rewrite IH.
  destruct (break_line p) as [[l p']|]; by rewrite <- app_assoc.
Qed.

Lemma break_line_shorter p l p' : break_line p = Some (l, p') → (length p' < length p)%nat.
Proof.
  revert l. induction p as [|c p IH]; intros l; simpl; [done|]. destruct (c =? 0); [done|]. destruct (c =? NEWLINE); [intros [= _ ->]; lia|].
  destruct (break_line p) as [[l0 p0]|]; [|done]. intros [= <- <-]. specialize (IH l0 eq_refl). lia.
Qed.

Lemma break_line_rest (P : Z → Prop) p l p' : Forall P p → break_line p = Some (l, p') → Forall P p'.
Proof.
  intros Hp. revert l. induction Hp as [|c p Hc Hp IH]; intros l; simpl; [done|]. destruct (c =? 0); [done|].
  destruct (c =? NEWLINE); [by intros [= _ <-]|]. destruct (break_line p) as [[l0 p0]|]; [|done]. intros [= <- <-]. by apply (IH l0).
Qed.

Lemma split_rest_forall (P : Z → Prop) cur p : Forall P p → Forall P cur → Forall P (split_lines p cur).2.
Proof.
  intros Hp. revert cur. induction Hp as [|c p Hc Hp IH]; intros cur Hcur; simpl; [done|]. destruct (c =? NEWLINE).
  - specialize (IH [] ltac:(by constructor)). by destruct (split_lines p []).
  - apply IH. apply Forall_app. split; [done|]. by constructor.
Qed.

Lemma split_lines_rest p cur : split_lines cur [] = ([], cur) → split_lines (split_lines p cur).2 [] = ([], (split_lines p cur).2).
Proof.
  revert cur. induction p as [|c p IH]; intros cur Hc; simpl; [done|]. destruct (Z.eqb_spec c NEWLINE) as [|Hn].
  - specialize (IH [] eq_refl). by destruct (split_lines p []).
  - apply IH. rewrite split_lines_app, Hc. simpl. by rewrite (proj2 (Z.eqb_neq _ _) Hn).
Qed.

(** What is printed for the lines [ls]. *)
Definition printed (pattern : list Z) (ls : list (list Z)) : list Z :=
  concat ((fun l => if re_match pattern l then l ++ [NEWLINE] else []) <$> ls).

