(* ===== verification/Utils.v ===== *)
(** * The user programs (user/cat.c, wc.c, echo.c, kill.c, ln.c, mkdir.c, rm.c, ls.c, ...)

    Programs are trees of system calls, as in User.v; [args] is argv without argv[0].  A
    loop that reads a file has [fuel]: the number of reads it may make. *)

From S2P Require Import Prelude Mem CString Printf Kernel Fs File Syscall Ulib User Shell.

(** ** user/ulib.c *)

(** [start]: it is all right if [main] does not call exit. *)
Definition start (main : proc unit) : proc unit := main ;~ Exit 0.

Definition stat_ (n : list Z) : proc (option stat) :=
  Open n O_RDONLY (fun fd =>
  if fd <? 0 then Ret None else
  Fstat fd (fun r => Close fd (fun _ => Ret r))).

(** ** cat *)

Definition cat_body (fd : Z) (_ : unit) : proc (unit + unit) :=
  Read fd 512 (fun r =>
  match r with
  | None => fprintf 2 ("cat: read error" ++ NL) [] ;~ Exit 1
  | Some [] => Ret (inr tt)
  | Some s =>
      Write 1 s (fun n =>
      if negb (n =? Z.of_nat (length s)) then fprintf 2 ("cat: write error" ++ NL) [] ;~ Exit 1
      else Ret (inl tt))
  end).
Definition cat (fuel : nat) (fd : Z) : proc unit := repeat_ fuel (cat_body fd) tt.

Fixpoint cat_files (fuel : nat) (args : list (list Z)) : proc unit :=
  match args with
  | [] => Ret tt
  | path :: args =>
      Open path O_RDONLY (fun fd =>
      if fd <? 0 then fprintf 2 ("cat: cannot open %s" ++ NL) [AStr (Some path)] ;~ Exit 1 else
      cat fuel fd ;~
      Close fd (fun _ => cat_files fuel args))
  end.
Definition cat_main (fuel : nat) (args : list (list Z)) : proc unit :=
  match args with
  | [] => cat fuel 0 ;~ Exit 0
  | _ => cat_files fuel args ;~ Exit 0
  end.

(** ** wc *)

(** The counters [l], [w], [c] and the flag [inword]. *)
Record counts := Counts { wc_l : Z; wc_w : Z; wc_c : Z; inword : bool }.

(** [strchr(" \r\t\n\v", c)] *)
Definition is_space (c : Z) : bool := bool_decide (c ∈ [32; 13; 9; 10; 11]).

Definition wc_byte (n : counts) (b : Z) : counts :=
  let c := s32 (wc_c n + 1) in
  let l := if b =? 10 then s32 (wc_l n + 1) else wc_l n in
  if is_space b then Counts l (wc_w n) c false
  else if inword n then Counts l (wc_w n) c true
  else Counts l (s32 (wc_w n + 1)) c true.

Definition wc_body (fd : Z) (n : counts) : proc (counts + counts) :=
  Read fd 512 (fun r =>
  match r with
  | None => printf_ ("wc: read error" ++ NL) ;~ Exit 1
  | Some [] => Ret (inr n)
  | Some s => Ret (inl (foldl wc_byte n s))
  end).
Definition wc (fuel : nat) (fd : Z) (name : list Z) : proc unit :=
  let~ n := repeat_ fuel (wc_body fd) (Counts 0 0 0 false) in
  fprintf 1 ("%d %d %d %s" ++ NL) [AInt (wc_l n); AInt (wc_w n); AInt (wc_c n); AStr (Some name)].

Fixpoint wc_files (fuel : nat) (args : list (list Z)) : proc unit :=
  match args with
  | [] => Ret tt
  | path :: args =>
      Open path O_RDONLY (fun fd =>
      if fd <? 0 then fprintf 1 ("wc: cannot open %s" ++ NL) [AStr (Some path)] ;~ Exit 1 else
      wc fuel fd path ;~
      Close fd (fun _ => wc_files fuel args))
  end.
Definition wc_main (fuel : nat) (args : list (list Z)) : proc unit :=
  match args with
  | [] => wc fuel 0 [] ;~ Exit 0
  | _ => wc_files fuel args ;~ Exit 0
  end.

(** ** echo, kill, ln, mkdir, rm *)

Fixpoint echo_args (args : list (list Z)) : proc unit :=
  match args with
  | [] => Ret tt
  | a :: args =>
      Write 1 a (fun _ =>
      Write 1 (match args with [] => [10] | _ => [32] end) (fun _ => echo_args args))
  end.
Definition echo_main (args : list (list Z)) : proc unit := echo_args args ;~ Exit 0.

Fixpoint kill_args (args : list (list Z)) : proc unit :=
  match args with [] => Ret tt | a :: args => Kill (Ulib.atoi a) (fun _ => kill_args args) end.
Definition kill_main (args : list (list Z)) : proc unit :=
  match args with
  | [] => fprintf 2 ("usage: kill pid..." ++ NL) [] ;~ Exit 1
  | _ => kill_args args ;~ Exit 0
  end.

Definition ln_main (args : list (list Z)) : proc unit :=
  match args with
  | [old; new] =>
      Link old new (fun r =>
      (if r <? 0 then fprintf 2 ("link %s %s: failed" ++ NL) [AStr (Some old); AStr (Some new)] else Ret tt) ;~ Exit 0)
  | _ => fprintf 2 ("Usage: ln old new" ++ NL) [] ;~ Exit 1
  end.

Fixpoint mkdir_args (args : list (list Z)) : proc unit :=
  match args with
  | [] => Ret tt
  | a :: args =>
      Mkdir a (fun r =>
      if r <? 0 then fprintf 2 ("mkdir: %s failed to create" ++ NL) [AStr (Some a)] else mkdir_args args)
  end.
Definition mkdir_main (args : list (list Z)) : proc unit :=
  match args with
  | [] => fprintf 2 ("Usage: mkdir files..." ++ NL) [] ;~ Exit 1
  | _ => mkdir_args args ;~ Exit 0
  end.

Fixpoint rm_args (args : list (list Z)) : proc unit :=
  match args with
  | [] => Ret tt
  | a :: args =>
      Unlink a (fun r =>
      if r <? 0 then fprintf 2 ("rm: %s failed to delete" ++ NL) [AStr (Some a)] else rm_args args)
  end.
Definition rm_main (args : list (list Z)) : proc unit :=
  match args with
  | [] => fprintf 2 ("Usage: rm files..." ++ NL) [] ;~ Exit 1
  | _ => rm_args args ;~ Exit 0
  end.

(** ** ls *)

(** The characters after the last slash. *)
Fixpoint after_slash (path : list Z) : list Z :=
  match path with
  | [] => []
  | c :: rest => if bool_decide (47 ∈ rest) then after_slash rest else if c =? 47 then rest else path
  end.
Definition fmtname (path : list Z) : list Z :=
  let p := after_slash path in
  if decide (14 ≤ length p)%nat then p else p ++ replicate (14 - length p) 32.

Definition ls_line (path : list Z) (st : stat) : proc unit :=
  fprintf 1 ("%s %d %d %d" ++ NL) [AStr (Some (fmtname path)); AInt (st_type st); AInt (st_ino st); AInt (s32 (st_size st))].

(** A round of the loop over the entries of a directory. *)
Definition ls_body (fd : Z) (path : list Z) (_ : unit) : proc (unit + unit) :=
  Read fd 16 (fun r =>
  match r with
  | Some bs =>
      if negb (Z.of_nat (length bs) =? 16) then Ret (inr tt) else
      let de := read_dirent bs in
      if de_inum de =? 0 then Ret (inl tt) else
      let buf := path ++ [47] ++ cut_nul (de_name de) in
      let~ st := stat_ buf in
      (match st with
       | None => fprintf 1 ("ls: cannot stat %s" ++ NL) [AStr (Some buf)]
       | Some st => ls_line buf st
       end) ;~
      Ret (inl tt)
  | None => Ret (inr tt)
  end).

Definition ls (fuel : nat) (path : list Z) : proc unit :=
  Open path O_RDONLY (fun fd =>
  if fd <? 0 then fprintf 2 ("ls: cannot open %s" ++ NL) [AStr (Some path)] else
  Fstat fd (fun r =>
  match r with
  | None => fprintf 2 ("ls: cannot stat %s" ++ NL) [AStr (Some path)] ;~ Close fd (fun _ => Ret tt)
  | Some st =>
      (if (st_type st =? T_DEVICE) || (st_type st =? T_FILE) then ls_line path st
       else if st_type st =? T_DIR then
         if decide (512 < length path + 1 + 14 + 1)%nat then printf_ ("ls: path too long" ++ NL)
         else repeat_ fuel (ls_body fd path) tt
       else Ret tt) ;~
      Close fd (fun _ => Ret tt)
  end)).

Fixpoint ls_args (fuel : nat) (args : list (list Z)) : proc unit :=
  match args with [] => Ret tt | a :: args => ls fuel a ;~ ls_args fuel args end.
Definition ls_main (fuel : nat) (args : list (list Z)) : proc unit :=
  match args with
  | [] => ls fuel (bytes_of ".") ;~ Exit 0
  | _ => ls_args fuel args ;~ Exit 0
  end.

(** ** zombie, forktest, stressfs *)

Definition zombie_main : proc unit :=
  Fork (fun pid => if 0 <? pid then Sleep 5 (fun _ => Exit 0) else Exit 0).

Definition forktest_print (s : string) : proc unit := Write 1 (bytes_of s) (fun _ => Ret tt).
Definition FORKTEST_N : nat := 1000.

(** The number of children made. *)
Definition fork_body (n : nat) : proc (nat + nat) :=
  if decide (n < FORKTEST_N)%nat then
    Fork (fun pid => if pid <? 0 then Ret (inr n) else if pid =? 0 then Exit 0 else Ret (inl (S n)))
  else Ret (inr n).
Fixpoint wait_all (n : nat) : proc unit :=
  match n with
  | O => Ret tt
  | S n => Wait (fun r => if r <? 0 then forktest_print ("wait stopped early" ++ NL) ;~ Exit 1 else wait_all n)
  end.
Definition forktest : proc unit :=
  forktest_print ("fork test" ++ NL) ;~
  let~ n := repeat_ (S FORKTEST_N) fork_body 0%nat in
  if decide (n = FORKTEST_N) then forktest_print ("fork claimed to work N times!" ++ NL) ;~ Exit 1 else
  wait_all n ;~
  Wait (fun r =>
  if negb (r =? -1) then forktest_print ("wait got too many" ++ NL) ;~ Exit 1 else
  forktest_print ("fork test OK" ++ NL)).
Definition forktest_main : proc unit := forktest ;~ Exit 0.

Fixpoint repeat_n (n : nat) (p : proc unit) : proc unit :=
  match n with O => Ret tt | S n => p ;~ repeat_n n p end.

Definition stress_body (i : nat) : proc (nat + nat) :=
  if decide (i < 4)%nat then Fork (fun pid => if 0 <? pid then Ret (inr i) else Ret (inl (S i))) else Ret (inr i).
Definition stressfs_main : proc unit :=
  printf_ ("stressfs starting" ++ NL) ;~
  let data := replicate 512 97 in
  let~ i := repeat_ 5 stress_body 0%nat in
  fprintf 1 ("write %d" ++ NL) [AInt (Z.of_nat i)] ;~
  let path := bytes_of "stressfs" ++ [48 + Z.of_nat i] in
  Open path (Z.lor O_CREATE O_RDWR) (fun fd =>
  repeat_n 20 (Write fd data (fun _ => Ret tt)) ;~
  Close fd (fun _ =>
  printf_ ("read" ++ NL) ;~
  Open path O_RDONLY (fun fd =>
  repeat_n 20 (Read fd 512 (fun _ => Ret tt)) ;~
  Close fd (fun _ => Wait (fun _ => Exit 0))))).
