(* ===== verification/Utilsproof.v ===== *)
(** * What the user programs do

    The programs of Grep.v and Utils.v run over files: [play] interprets their calls on a
    process with a table of descriptors, the bytes of each that are not read yet, and the
    bytes written to the standard output and error.  [read] may return fewer bytes than
    asked for, at least one before the end. *)

From S2P Require Import Prelude Mem CString Printf Kernel Fs File Syscall Ulib User Shell Grep Utils.

(** The calls on names and processes. *)
Inductive act := AKill (pid : Z) | ALink (old new : list Z) | AMkdir (path : list Z) | AUnlink (path : list Z).

(** The files by path; how many more bytes than one call number [n] reads at most; whether
    call number [n] fails, for the calls [act]. *)
Record env := Env { e_files : list Z → option (stat * list Z); e_cut : nat → nat; e_fails : nat → bool }.

Record ust := Ust {
  u_calls : nat;
  u_fds : list (option (stat * list Z));
  u_out : list Z;
  u_err : list Z;
  u_acts : list act
}.

Inductive ures (A : Type) := URet (a : A) | UExit (status : Z) | UStuck.
Arguments URet {A}. Arguments UExit {A}. Arguments UStuck {A}.

Definition u_fd (w : ust) (fd : Z) : option (stat * list Z) :=
  if fd <? 0 then None else mjoin (u_fds w !! Z.to_nat fd).
Definition with_fds (w : ust) (t : list (option (stat * list Z))) : ust :=
  Ust (S (u_calls w)) t (u_out w) (u_err w) (u_acts w).
Definition tick (w : ust) : ust := with_fds w (u_fds w).
Definition did_act (w : ust) (a : act) : ust := Ust (S (u_calls w)) (u_fds w) (u_out w) (u_err w) (u_acts w ++ [a]).

Section play.
Context (e : env).

(** The calls that the programs of this file do not make fail. *)
Fixpoint play {A} (p : proc A) (w : ust) : ures A * ust :=
  let acted a k := play (k (if e_fails e (u_calls w) then -1 else 0)) (did_act w a) in
  match p with
  | Ret a => (URet a, w)
  | Exit s => (UExit s, w)
  | Stuck => (UStuck, w)
  | Read fd n k =>
      match u_fd w fd with
      | Some (st, s) =>
          let j := Nat.min (Z.to_nat n) (S (e_cut e (u_calls w))) in
          play (k (Some (take j s))) (with_fds w (<[Z.to_nat fd := Some (st, drop j s)]> (u_fds w)))
      | None => play (k None) (tick w)
      end
  | Write fd s k =>
      if fd =? 1 then play (k (Z.of_nat (length s))) (Ust (S (u_calls w)) (u_fds w) (u_out w ++ s) (u_err w) (u_acts w))
      else if fd =? 2 then play (k (Z.of_nat (length s))) (Ust (S (u_calls w)) (u_fds w) (u_out w) (u_err w ++ s) (u_acts w))
      else play (k (-1)) (tick w)
  | Open path _ k =>
      match f ← e_files e path; alloc_fd (u_fds w) f with
      | Some (n, t) => play (k (Z.of_nat n)) (with_fds w t)
      | None => play (k (-1)) (tick w)
      end
  | Close fd k =>
      match u_fd w fd with
      | Some _ => play (k 0) (with_fds w (<[Z.to_nat fd := None]> (u_fds w)))
      | None => play (k (-1)) (tick w)
      end
  | Fstat fd k => play (k (fst <$> u_fd w fd)) (tick w)
  | Kill pid k => acted (AKill pid) k
  | Link o n k => acted (ALink o n) k
  | Mkdir p k => acted (AMkdir p) k
  | Unlink p k => acted (AUnlink p) k
  | Fork k | Wait k | Dup _ k | Exec _ _ k | Chdir _ k | Mknod _ _ _ k | Sleep _ k => play (k (-1)) (tick w)
  | Pipe k => play (k (-1) 0 0) (tick w)
  end.

Lemma play_then {A B} (m : proc A) (f : A → proc B) : ∀ w,
  play (then_ m f) w =
    match play m w with
    | (URet a, w') => play (f a) w'
    | (UExit s, w') => (UExit s, w')
    | (UStuck, w') => (UStuck, w')
    end.
Proof.
  induction m; intros w; cbn [then_ play]; auto.
  - destruct (u_fd w fd) as [[st s]|]; auto.
  - destruct (fd =? 1), (fd =? 2); auto.
  - destruct (u_fd w fd); auto.
  - destruct (e_files e path) as [f0|]; cbn [mbind option_bind]; [destruct (alloc_fd _ _) as [[n t]|]|]; auto.
Qed.

(** ** Output *)

(** [w'] is [w] after some calls that wrote [out] and [err] and left the rest as it was. *)
Definition wrote (out err : list Z) (w w' : ust) : Prop :=
  u_fds w' = u_fds w ∧ u_out w' = u_out w ++ out ∧ u_err w' = u_err w ++ err ∧ u_acts w' = u_acts w.

Lemma wrote_refl w : wrote [] [] w w.
Proof. unfold wrote. by rewrite !app_nil_r. Qed.
Lemma wrote_trans o1 o2 e1 e2 w w1 w2 : wrote o1 e1 w w1 → wrote o2 e2 w1 w2 → wrote (o1 ++ o2) (e1 ++ e2) w w2.
Proof. intros (F1 & O1 & E1 & A1) (F2 & O2 & E2 & A2). unfold wrote. by rewrite F2, O2, E2, A2, F1, O1, E1, A1, !app_assoc. Qed.

Lemma play_puts fd text : fd = 1 ∨ fd = 2 → ∀ w, ∃ w', play (puts fd text) w = (URet tt, w') ∧
  wrote (if fd =? 1 then text else []) (if fd =? 1 then [] else text) w w'.
Proof.
  intros Hfd. induction text as [|c text IH]; intros w; cbn [puts].
  - exists w. split; [done|]. destruct (fd =? 1); apply wrote_refl.
  - unfold putc. cbn [then_ play]. destruct Hfd as [-> | ->]; cbn [Z.eqb Pos.eqb].
    + destruct (IH (Ust (S (u_calls w)) (u_fds w) (u_out w ++ [c]) (u_err w) (u_acts w))) as (w' & -> & F & O & E & Ac). exists w'. split; [done|].
      cbn in F, O, E, Ac. unfold wrote. cbn. by rewrite F, O, E, Ac, <-app_assoc.
    + destruct (IH (Ust (S (u_calls w)) (u_fds w) (u_out w) (u_err w ++ [c]) (u_acts w))) as (w' & -> & F & O & E & Ac). exists w'. split; [done|].
      cbn in F, O, E, Ac. unfold wrote. cbn. by rewrite F, O, E, Ac, <-app_assoc.
Qed.

Lemma play_fprintf fd fmt args text w : fd = 1 ∨ fd = 2 → UPrintf.format (bytes_of fmt) args = Some text →
  ∃ w', play (fprintf fd fmt args) w = (URet tt, w') ∧ wrote (if fd =? 1 then text else []) (if fd =? 1 then [] else text) w w'.
Proof. intros Hfd E. unfold fprintf. rewrite E. by apply play_puts. Qed.

(** ** Reading a file to its end *)

(** [w'] is [w] after some calls that read descriptor [fd] up to where [s] is left, and wrote [out]. *)
Definition read_to (fd : Z) (st : stat) (s out : list Z) (w w' : ust) : Prop :=
  u_fds w' = <[Z.to_nat fd := Some (st, s)]> (u_fds w) ∧ u_out w' = u_out w ++ out ∧ u_err w' = u_err w ∧ u_acts w' = u_acts w.

Lemma read_to_trans fd st s1 s2 o1 o2 w w1 w2 : read_to fd st s1 o1 w w1 → read_to fd st s2 o2 w1 w2 → read_to fd st s2 (o1 ++ o2) w w2.
Proof.
  intros (F1 & O1 & E1 & A1) (F2 & O2 & E2 & A2). unfold read_to. by rewrite F2, O2, E2, A2, F1, O1, E1, A1, list_insert_insert_eq, app_assoc.
Qed.
Lemma read_to_wrote fd st s o1 o2 w w1 w2 : read_to fd st s o1 w w1 → wrote o2 [] w1 w2 → read_to fd st s (o1 ++ o2) w w2.
Proof.
  intros (F1 & O1 & E1 & A1) (F2 & O2 & E2 & A2). unfold read_to. by rewrite F2, O2, E2, A2, F1, O1, E1, A1, app_assoc, app_nil_r.
Qed.

Lemma u_fd_lt w fd f : u_fd w fd = Some f → 0 ≤ fd ∧ u_fds w !! Z.to_nat fd = Some (Some f).
Proof.
  unfold u_fd. destruct (Z.ltb_spec fd 0); [done|]. intros E. split; [done|].
  destruct (u_fds w !! Z.to_nat fd) as [o|]; cbn in E; congruence.
Qed.
Lemma u_fd_read_to fd st s s' o w w' : u_fd w fd = Some (st, s) → read_to fd st s' o w w' → u_fd w' fd = Some (st, s').
Proof.
  intros H (F & _). apply u_fd_lt in H as [Hfd H]. unfold u_fd. rewrite F. destruct (Z.ltb_spec fd 0); [lia|].
  rewrite list_lookup_insert_eq; [done|]. by eapply lookup_lt_Some.
Qed.

(** One read before the end takes between one byte and as many as were asked for. *)
Lemma play_read fd n st s w : u_fd w fd = Some (st, s) → s ≠ [] → 0 < n → ∃ j w',
  (0 < j ≤ Z.to_nat n)%nat ∧ take j s ≠ [] ∧ (∀ A (k : option (list Z) → proc A), play (Read fd n k) w = play (k (Some (take j s))) w') ∧ read_to fd st (drop j s) [] w w'.
Proof.
  intros Hfd Hs Hn. exists (Nat.min (Z.to_nat n) (S (e_cut e (u_calls w)))). eexists. split; [lia|]. split; [|split; [intros A k; cbn [play]; rewrite Hfd; reflexivity|]].
  - destruct s; [done|]. destruct (Nat.min _ _) eqn:E; [lia|done].
  - unfold read_to, with_fds. cbn. by rewrite app_nil_r.
Qed.
Lemma play_read_end fd n st w : u_fd w fd = Some (st, []) → ∃ w',
  (∀ A (k : option (list Z) → proc A), play (Read fd n k) w = play (k (Some [])) w') ∧ read_to fd st [] [] w w'.
Proof.
  intros Hfd. eexists. split; [intros A k; cbn [play]; rewrite Hfd, take_nil, drop_nil; reflexivity|]. unfold read_to, with_fds. cbn. by rewrite app_nil_r.
Qed.

Section loop.
Context {A B : Type} (body : A → proc (A + B)) (fd : Z) (st : stat).
(** What holds between the state of the loop and the bytes not read; what is still written and the result. *)
Context (I : A → list Z → Prop) (out : A → list Z → list Z) (res : A → list Z → B).

Definition round_ok : Prop := ∀ a s w, I a s → u_fd w fd = Some (st, s) →
  (s = [] ∧ ∃ w', play (body a) w = (URet (inr (res a [])), w') ∧ read_to fd st [] (out a []) w w') ∨
  (∃ j a' o w', (0 < j)%nat ∧ s ≠ [] ∧ play (body a) w = (URet (inl a'), w') ∧ read_to fd st (drop j s) o w w' ∧
     I a' (drop j s) ∧ res a s = res a' (drop j s) ∧ out a s = o ++ out a' (drop j s)).

Lemma play_read_loop fuel : round_ok → ∀ a s w, I a s → u_fd w fd = Some (st, s) → (length s < fuel)%nat →
  ∃ w', play (repeat_ fuel body a) w = (URet (res a s), w') ∧ read_to fd st [] (out a s) w w'.
Proof.
  intros Hr. induction fuel as [|fuel IH]; intros a s w HI Hfd Hf; [lia|]. cbn [repeat_]. rewrite play_then.
  destruct (Hr a s w HI Hfd) as [(-> & w' & -> & Hw)|(j & a' & o & w' & Hj & Hs & -> & Hw & HI' & -> & ->)]; [by exists w'|].
  destruct (IH a' (drop j s) w') as (w2 & E & Hw2); [done|by eapply u_fd_read_to|rewrite length_drop; destruct s; [done|]; cbn in *; lia|].
  exists w2. split; [done|]. by eapply read_to_trans.
Qed.
End loop.

(** ** The programs that go through the files named on the command line *)

(** The files that can be opened before the first that cannot, and that one. *)
Fixpoint openable (args : list (list Z)) : list (list Z * list Z) * option (list Z) :=
  match args with
  | [] => ([], None)
  | p :: args =>
      match e_files e p with
      | Some (_, s) => let '(fs, bad) := openable args in ((p, s) :: fs, bad)
      | None => ([], Some p)
      end
  end.

Lemma play_open {A} path m (k : Z → proc A) st s n w : e_files e path = Some (st, s) → lowest (u_fds w) = Some n →
  play (Open path m k) w = play (k (Z.of_nat n)) (with_fds w (<[n := Some (st, s)]> (u_fds w))).
Proof. intros Hf Hn. cbn [play]. rewrite Hf. cbn [mbind option_bind]. unfold alloc_fd. by rewrite Hn. Qed.
Lemma play_open_none {A} path m (k : Z → proc A) w : e_files e path = None → play (Open path m k) w = play (k (-1)) (tick w).
Proof. intros Hf. cbn [play]. by rewrite Hf. Qed.
Lemma lowest_free {X} (t : list (option X)) n : lowest t = Some n → t !! n = Some None.
Proof.
  revert n. induction t as [|[x|] t IH]; intros n; cbn; [done| |by intros [= <-]].
  destruct (lowest t) as [k|]; [|done]. intros [= <-]. by apply IH.
Qed.

(** Closing the descriptor that was opened gives the table back. *)
Lemma play_close {A} (k : Z → proc A) n st s o w w0 w1 : lowest (u_fds w) = Some n →
  u_fds w0 = <[n := Some (st, s)]> (u_fds w) → read_to (Z.of_nat n) st [] o w0 w1 →
  ∃ w2, play (Close (Z.of_nat n) k) w1 = play (k 0) w2 ∧ u_fds w2 = u_fds w ∧ u_out w2 = u_out w0 ++ o ∧ u_err w2 = u_err w0 ∧ u_acts w2 = u_acts w0.
Proof.
  intros Hn H0 (F & O & E & Ac). apply lowest_free in Hn as Ht. rewrite H0, Nat2Z.id, list_insert_insert_eq in F.
  cbn [play]. unfold u_fd. destruct (Z.ltb_spec (Z.of_nat n) 0); [lia|]. rewrite F, Nat2Z.id, list_lookup_insert_eq by (by eapply lookup_lt_Some). cbn [mjoin option_join].
  eexists. split; [done|]. unfold with_fds. cbn. rewrite list_insert_insert_eq. split; [|done]. by apply list_insert_id.
Qed.

Section files.
Context (F : list (list Z) → proc unit) (each : Z → list Z → proc unit) (mfd : Z) (fmt : string).
Context (msg : list Z → list Z) (emit : list Z → list Z → list Z) (good : list Z → Prop).
Hypothesis F_nil : F [] = Ret tt.
Hypothesis F_cons : ∀ p args, F (p :: args) =
  Open p O_RDONLY (fun fd => if fd <? 0 then fprintf mfd fmt [AStr (Some p)] ;~ Exit 1 else each fd p ;~ Close fd (fun _ => F args)).
Hypothesis each_ok : ∀ fd p st s w, good s → u_fd w fd = Some (st, s) →
  ∃ w', play (each fd p) w = (URet tt, w') ∧ read_to fd st [] (emit p s) w w'.
Hypothesis mfd_ok : mfd = 1 ∨ mfd = 2.
Hypothesis msg_ok : ∀ p, UPrintf.format (bytes_of fmt) [AStr (Some p)] = Some (msg p).

Definition complaint (bad : option (list Z)) : list Z := match bad with Some p => msg p | None => [] end.

Lemma play_files args n : ∀ w, lowest (u_fds w) = Some n → Forall (fun f => good f.2) (openable args).1 → ∃ w',
  play (F args) w = (match (openable args).2 with Some _ => UExit 1 | None => URet tt end, w') ∧
  wrote (concat ((fun f => emit f.1 f.2) <$> (openable args).1) ++ (if mfd =? 1 then complaint (openable args).2 else []))
    (if mfd =? 1 then [] else complaint (openable args).2) w w'.
Proof.
  induction args as [|p args IH]; intros w Hn Hg; cbn [openable] in *.
  - exists w. rewrite F_nil. cbn. split; [done|]. destruct (mfd =? 1); apply wrote_refl.
  - rewrite F_cons. destruct (e_files e p) as [[st s]|] eqn:Ef.
    + destruct (openable args) as [fs bad]. cbn [fst snd fmap list_fmap concat] in *. apply Forall_cons in Hg as [Hg1 Hg2]. rewrite (play_open _ _ _ st s n) by done.
      destruct (Z.ltb_spec (Z.of_nat n) 0); [lia|]. rewrite play_then. set (w0 := with_fds w _).
      assert (H0 : u_fd w0 (Z.of_nat n) = Some (st, s)).
      { unfold u_fd. destruct (Z.ltb_spec (Z.of_nat n) 0); [lia|]. apply lowest_free in Hn. unfold w0. cbn. rewrite Nat2Z.id, list_lookup_insert_eq; [done|]. by eapply lookup_lt_Some. }
      destruct (each_ok (Z.of_nat n) p st s w0 Hg1 H0) as (w1 & -> & Hw1).
      destruct (play_close (fun _ => F args) n st s (emit p s) w w0 w1 Hn eq_refl Hw1) as (w2 & -> & F2 & O2 & E2 & A2).
      destruct (IH w2) as (w' & -> & F' & O' & E' & A'); [by rewrite F2|done|]. exists w'. split; [done|]. unfold wrote. rewrite F', O', E', A', F2, O2, E2, A2. cbn. by rewrite <-!app_assoc.
    + rewrite play_open_none by done. cbn [Z.ltb Z.compare]. rewrite play_then. destruct (play_fprintf mfd fmt [AStr (Some p)] (msg p) (tick w) mfd_ok (msg_ok p)) as (w' & -> & Hw).
      exists w'. cbn. split; [done|]. exact Hw.
Qed.
End files.

(** The exit status of such a program. *)
Definition status (bad : option (list Z)) : Z := match bad with Some _ => 1 | None => 0 end.

(** ** cat *)

Lemma cat_ok fuel fd st s w : u_fd w fd = Some (st, s) → (length s < fuel)%nat →
  ∃ w', play (cat fuel fd) w = (URet tt, w') ∧ read_to fd st [] s w w'.
Proof.
  intros Hfd Hf. apply (play_read_loop (cat_body fd) fd st (fun _ _ => True) (fun _ s => s) (fun _ _ => tt)); try done.
  clear s w Hfd Hf. intros [] s w _ Hfd. unfold cat_body. destruct (decide (s = [])) as [->|Hs].
  - left. split; [done|]. destruct (play_read_end fd 512 st w Hfd) as (w' & E & Hw). rewrite E. clear E. by exists w'.
  - right. destruct (play_read fd 512 st s w Hfd Hs eq_refl) as (j & w' & Hj & Ht & E & Hw). rewrite E. clear E.
    destruct (take j s) as [|c t] eqn:Et; [done|]. cbn [play Z.eqb Pos.eqb]. rewrite Z.eqb_refl. cbn [negb play].
    exists j, tt, (take j s), (Ust (S (u_calls w')) (u_fds w') (u_out w' ++ take j s) (u_err w') (u_acts w')).
    split; [lia|]. split; [done|]. rewrite Et. split; [done|]. rewrite <-Et. split; [|split; [done|split; [done|by rewrite take_drop]]].
    apply (read_to_wrote fd st (drop j s) [] _ w w'); [done|]. unfold wrote. cbn. by rewrite app_nil_r.
Qed.

(** [cat] writes the contents of the files in order, up to the first that cannot be opened. *)
Lemma cat_correct fuel args n w : args ≠ [] → lowest (u_fds w) = Some n →
  Forall (fun f => length f.2 < fuel)%nat (openable args).1 → ∃ w',
  play (cat_main fuel args) w = (UExit (status (openable args).2), w') ∧
  wrote (concat (snd <$> (openable args).1))
    (complaint (fun p => bytes_of "cat: cannot open " ++ p ++ [10]) (openable args).2) w w'.
Proof.
  intros Hne Hn Hg. assert (E : cat_main fuel args = (cat_files fuel args ;~ Exit 0)) by (by destruct args). rewrite E, play_then.
  destruct (play_files (cat_files fuel) (fun fd _ => cat fuel fd) 2 ("cat: cannot open %s" ++ NL) (fun p => bytes_of "cat: cannot open " ++ p ++ [10])
    (fun _ s => s) (fun s => length s < fuel)%nat eq_refl (fun _ _ => eq_refl)) with (args := args) (n := n) (w := w) as (w' & -> & Hw); try done.
  - intros fd p st s w0 Hf Hfd. by apply cat_ok.
  - by right.
  - exists w'. split; [by destruct (openable args).2|]. rewrite app_nil_r in Hw. exact Hw.
Qed.

(** ** wc *)

(** The reference: the newlines, and the characters that are no space after one that is or at the start. *)
Definition lines_of (s : list Z) : Z := Z.of_nat (length (filter (fun c => c = 10) s)).
Definition words_of (s : list Z) : Z :=
  Z.of_nat (length (filter (fun ab => is_space ab.1 = true ∧ is_space ab.2 = false) (zip (32 :: s) s))).

Definition wc_line (name s : list Z) : list Z :=
  let dec n := UPrintf.printint n 10 true in
  dec (lines_of s) ++ [32] ++ dec (words_of s) ++ [32] ++ dec (Z.of_nat (length s)) ++ [32] ++ name ++ [10].

Lemma wc_fold s : ∀ l w c last, 0 ≤ l ≤ c → 0 ≤ w ≤ c → c + Z.of_nat (length s) < 2 ^ 31 → ∃ i,
  foldl wc_byte (Counts l w c (negb (is_space last))) s =
    Counts (l + lines_of s)
      (w + Z.of_nat (length (filter (fun ab => is_space ab.1 = true ∧ is_space ab.2 = false) (zip (last :: s) s))))
      (c + Z.of_nat (length s)) i.
Proof.
  induction s as [|b s IH]; intros l w c lst Hl Hw Hlt; [cbn; rewrite !Z.add_0_r; by eexists|].
  cbn [length] in Hlt. change (zip (lst :: b :: s) (b :: s)) with ((lst, b) :: zip (b :: s) s). cbn [foldl]. rewrite filter_cons. cbn [fst snd].
  assert (E : s32 (l + 1) = l + 1 ∧ s32 (w + 1) = w + 1 ∧ s32 (c + 1) = c + 1) by (unfold s32; rewrite !sgn_small by lia; done).
  destruct E as (El & Ew & Ec).
  assert (EL : lines_of (b :: s) = (if b =? 10 then 1 else 0) + lines_of s).
  { unfold lines_of. rewrite filter_cons. destruct (Z.eqb_spec b 10) as [->|Hb]; [rewrite decide_True by done|rewrite decide_False by done]; cbn [length]; lia. }
  unfold wc_byte at 2. cbn [wc_l wc_w wc_c inword]. rewrite El, Ew, Ec, EL.
  assert (EI : ∀ w', 0 ≤ w' ≤ c + 1 → _) by (intros w' Hw'; exact (IH (if b =? 10 then l + 1 else l) w' (c + 1) b ltac:(destruct (b =? 10); lia) Hw' ltac:(lia))).
  assert (Hl' : (if b =? 10 then l + 1 else l) + lines_of s = l + ((if b =? 10 then 1 else 0) + lines_of s)) by (destruct (b =? 10); lia).
  destruct (is_space b) eqn:Eb; cbn [negb] in EI.
  - rewrite decide_False by (intros [_ ?]; done). destruct (EI w ltac:(lia)) as (i & ->). exists i. f_equal; cbn [length]; lia.
  - destruct (is_space lst); cbn [negb].
    + rewrite decide_True by done. destruct (EI (w + 1) ltac:(lia)) as (i & ->). exists i. f_equal; cbn [length]; lia.
    + rewrite decide_False by (intros [? _]; done). destruct (EI w ltac:(lia)) as (i & ->). exists i. f_equal; cbn [length]; lia.
Qed.

Lemma wc_ok fuel fd name st s w : u_fd w fd = Some (st, s) → (length s < fuel)%nat → Z.of_nat (length s) < 2 ^ 31 →
  ∃ w', play (wc fuel fd name) w = (URet tt, w') ∧ read_to fd st [] (wc_line name s) w w'.
Proof.
  intros Hfd Hf Hlt. unfold wc. rewrite play_then.
  destruct (play_read_loop (wc_body fd) fd st (fun _ _ => True) (fun _ _ => []) (foldl wc_byte) fuel) with (a := Counts 0 0 0 false) (s := s) (w := w) as (w1 & -> & Hw1); try done.
  - clear s w Hfd Hf Hlt. intros n s w _ Hfd. unfold wc_body. destruct (decide (s = [])) as [->|Hs].
    + left. split; [done|]. destruct (play_read_end fd 512 st w Hfd) as (w' & E & Hw). rewrite E. clear E. by exists w'.
    + right. destruct (play_read fd 512 st s w Hfd Hs eq_refl) as (j & w' & Hj & Ht & E & Hw). rewrite E. clear E.
      destruct (take j s) as [|c t] eqn:Et; [done|]. cbn [play]. rewrite <-Et.
      exists j, (foldl wc_byte n (take j s)), [], w'. split; [lia|]. do 4 (split; [done|]). split; [|done]. by rewrite <-foldl_app, take_drop.
  - destruct (wc_fold s 0 0 0 32) as (i & Ei); [done|done|lia|]. change (negb (is_space 32)) with false in Ei. rewrite Ei. cbn [wc_l wc_w wc_c].
    edestruct (play_fprintf 1) with (w := w1) as (w2 & -> & Hw2); [by left|reflexivity|]. exists w2. split; [done|].
    change (1 =? 1) with true in Hw2. cbv iota in Hw2. pose proof (read_to_wrote _ _ _ _ _ _ _ _ Hw1 Hw2) as H. cbn [app] in H. rewrite !Z.add_0_l in H. exact H.
Qed.

(** C39: [wc] prints, for each file in order, the number of its newlines, of its words and of
    its bytes, however [read] cuts the files; at the first file it cannot open it says so and
    exits with status 1. *)
Theorem wc_correct (fuel : nat) (args : list (list Z)) (n : nat) (w : ust) : args ≠ [] → lowest (u_fds w) = Some n →
  Forall (fun f => (length f.2 < fuel)%nat ∧ Z.of_nat (length f.2) < 2 ^ 31) (openable args).1 → ∃ w',
  play (wc_main fuel args) w = (UExit (status (openable args).2), w') ∧
  wrote (concat ((fun f => wc_line f.1 f.2) <$> (openable args).1) ++
         complaint (fun p => bytes_of "wc: cannot open " ++ p ++ [10]) (openable args).2) [] w w'.
Proof.
  intros Hne Hn Hg. assert (E : wc_main fuel args = (wc_files fuel args ;~ Exit 0)) by (by destruct args). rewrite E, play_then.
  destruct (play_files (wc_files fuel) (wc fuel) 1 ("wc: cannot open %s" ++ NL) (fun p => bytes_of "wc: cannot open " ++ p ++ [10])
    wc_line (fun s => (length s < fuel)%nat ∧ Z.of_nat (length s) < 2 ^ 31) eq_refl (fun _ _ => eq_refl)) with (args := args) (n := n) (w := w) as (w' & -> & Hw); try done.
  - intros fd p st s w0 [Hf1 Hf2] Hfd. by apply wc_ok.
  - by left.
  - exists w'. split; [by destruct (openable args).2|]. exact Hw.
Qed.

(** ** grep *)

Lemma play_grep_lines pattern fuel : ∀ p w, (length p < fuel)%nat → Forall (fun c => c ≠ 0) p → ∃ w',
  play (grep_lines fuel pattern p) w = (URet (split_lines p []).2, w') ∧ wrote (printed pattern (split_lines p []).1) [] w w'.
Proof.
  induction fuel as [|fuel IH]; intros p w Hf Hp; [lia|]. cbn [grep_lines]. rewrite break_line_split by done.
  destruct (break_line p) as [[l p']|] eqn:E; [|exists w; split; [done|apply wrote_refl]].
  assert (Hp' : Forall (fun c => c ≠ 0) p') by (exact (break_line_rest _ p l p' Hp E)).
  apply break_line_shorter in E. cbn [fst snd]. rewrite play_then.
  set (w1 := if re_match pattern l then Ust (S (u_calls w)) (u_fds w) (u_out w ++ l ++ [NEWLINE]) (u_err w) (u_acts w) else w).
  assert (E1 : play (if re_match pattern l then Write 1 (l ++ [NEWLINE]) (fun _ => Ret tt) else Ret tt) w = (URet tt, w1)) by (unfold w1; by destruct (re_match pattern l)).
  rewrite E1. destruct (IH p' w1 ltac:(lia) Hp') as (w2 & -> & Hw2). exists w2. split; [done|]. unfold printed. cbn [fmap list_fmap concat].
  apply (wrote_trans _ _ [] [] w w1); [|exact Hw2]. clear E1 Hw2. unfold w1, wrote. simpl. destruct (re_match pattern l); simpl; rewrite ?app_nil_r; done.
Qed.

(** The lines [grep] can hold: with no null, and shorter than its buffer. *)
Definition line_fits (l : list Z) : Prop := (length l < GREP_BUF - 1)%nat.
Definition grep_fits (buf s : list Z) : Prop :=
  Forall (fun c => c ≠ 0) (buf ++ s) ∧ split_lines buf [] = ([], buf) ∧
  Forall line_fits (split_lines s buf).1 ∧ line_fits (split_lines s buf).2.

Lemma split_fits s : ∀ cur, Forall line_fits (split_lines s cur).1 → line_fits (split_lines s cur).2 → line_fits cur.
Proof.
  induction s as [|c s IH]; intros cur; cbn [split_lines]; [done|]. destruct (c =? NEWLINE).
  - destruct (split_lines s []) as [ls r]. cbn. intros [H _]%Forall_cons _. exact H.
  - intros H1 H2. specialize (IH _ H1 H2). unfold line_fits in *. rewrite length_app in IH. lia.
Qed.

Lemma grep_ok fuel pattern fd st s w : u_fd w fd = Some (st, s) → (length s < fuel)%nat → grep_fits [] s →
  ∃ w', play (grep fuel pattern fd) w = (URet tt, w') ∧ read_to fd st [] (printed pattern (split_lines s []).1) w w'.
Proof.
  intros Hfd Hf Hfit. apply (play_read_loop (grep_body pattern fd) fd st grep_fits (fun buf s => printed pattern (split_lines s buf).1) (fun _ _ => tt)); try done.
  clear s w Hfd Hf Hfit. intros buf s w (Hnz & Hbuf & Hls & Hr) Hfd. unfold grep_body. destruct (decide (s = [])) as [->|Hs].
  - left. split; [done|]. destruct (play_read_end fd (Z.of_nat (GREP_BUF - length buf - 1)) st w Hfd) as (w' & E & Hw). rewrite E. clear E. by exists w'.
  - right. pose proof (split_fits s buf Hls Hr) as Hb. unfold line_fits in Hb.
    destruct (play_read fd (Z.of_nat (GREP_BUF - length buf - 1)) st s w Hfd Hs ltac:(lia)) as (j & w' & Hj & Ht & E & Hw). rewrite E. clear E.
    destruct (take j s) as [|c t] eqn:Et; [done|]. rewrite <-Et. clear Ht Et c t. cbv zeta. rewrite play_then.
    rewrite <-(take_drop j s), app_assoc in Hnz. apply Forall_app in Hnz as [Hnz1 Hnz2].
    destruct (play_grep_lines pattern (S (length (buf ++ take j s))) (buf ++ take j s) w' ltac:(lia) Hnz1) as (w2 & -> & Hw2).
    pose proof (split_lines_app buf (take j s) []) as Eb. rewrite Hbuf in Eb. cbn [fst snd app] in Eb.
    pose proof (split_lines_app (take j s) (drop j s) buf) as Es. rewrite take_drop in Es. rewrite Es in Hls, Hr. cbn [fst snd] in Hls, Hr.
    apply Forall_app in Hls as [Hls1 Hls2]. rewrite Eb in *. cbn [fst snd] in *.
    exists j, (split_lines (take j s) buf).2, (printed pattern (split_lines (take j s) buf).1), w2. split; [lia|]. split; [done|]. split; [done|].
    split; [exact (read_to_wrote _ _ _ _ _ _ _ _ Hw Hw2)|]. split; [|split; [done|rewrite Es; cbn [fst]; unfold printed; by rewrite fmap_app, concat_app]].
    split; [|split; [by apply split_lines_rest|split; done]]. apply Forall_app. split; [|done]. pose proof (split_rest_forall _ [] _ Hnz1 (List.Forall_nil _)) as H. rewrite Eb in H. exact H.
Qed.

(** ** echo, mkdir, rm, kill *)

(** The words with a space between them and a newline at the end. *)
Definition echo_text (args : list (list Z)) : list Z :=
  match args with [] => [] | a :: args => a ++ concat ((fun b => [32] ++ b) <$> args) ++ [10] end.

Lemma echo_correct args w : ∃ w', play (echo_main args) w = (UExit 0, w') ∧ wrote (echo_text args) [] w w'.
Proof.
  unfold echo_main. rewrite play_then. assert (H : ∃ w', play (echo_args args) w = (URet tt, w') ∧ wrote (echo_text args) [] w w').
  { revert w. induction args as [|a args IH]; intros w; [by exists w; split; [|apply wrote_refl]|]. cbn [echo_args play Z.eqb Pos.eqb].
    edestruct IH as (w' & E & F & O & Er & Ac). exists w'. split; [exact E|]. cbn in F, O, Er, Ac. unfold wrote. rewrite F, O, Er, Ac. split_and!; [done| |done|done].
    destruct args as [|b args]; cbn [echo_text fmap list_fmap concat app]; rewrite <-!app_assoc; [by rewrite app_nil_r|done]. }
  destruct H as (w' & -> & Hw). by exists w'.
Qed.

(** The names up to and with the first for which the call fails, the calls being made from
    call number [n] on. *)
Fixpoint tried (n : nat) (args : list (list Z)) : list (list Z) * option (list Z) :=
  match args with
  | [] => ([], None)
  | a :: args => if e_fails e n then ([a], Some a) else let '(l, bad) := tried (S n) args in (a :: l, bad)
  end.

(** [mkdir] and [rm] stop at the first name they fail on, with a message and status 0. *)
Section names.
Context (F : list (list Z) → proc unit) (call : list Z → (Z → proc unit) → proc unit) (mk : list Z → act) (fmt : string) (msg : list Z → list Z).
Hypothesis F_nil : F [] = Ret tt.
Hypothesis F_cons : ∀ a args, F (a :: args) = call a (fun r => if r <? 0 then fprintf 2 fmt [AStr (Some a)] else F args).
Hypothesis call_ok : ∀ a k w, play (call a k) w = play (k (if e_fails e (u_calls w) then -1 else 0)) (did_act w (mk a)).
Hypothesis msg_ok : ∀ p, UPrintf.format (bytes_of fmt) [AStr (Some p)] = Some (msg p).

Lemma play_names args : ∀ w, ∃ w', play (F args) w = (URet tt, w') ∧
  u_fds w' = u_fds w ∧ u_out w' = u_out w ∧ u_err w' = u_err w ++ complaint msg (tried (u_calls w) args).2 ∧
  u_acts w' = u_acts w ++ (mk <$> (tried (u_calls w) args).1).
Proof.
  induction args as [|a args IH]; intros w; [exists w; rewrite F_nil; cbn; by rewrite !app_nil_r|]. rewrite F_cons, call_ok. cbn [tried].
  destruct (e_fails e (u_calls w)).
  - change (-1 <? 0) with true. cbv iota. destruct (play_fprintf 2 fmt [AStr (Some a)] (msg a) (did_act w (mk a)) ltac:(by right) (msg_ok a)) as (w' & -> & Fd & O & Er & Ac).
    exists w'. split; [done|]. cbn in *. by rewrite Fd, O, Er, Ac, app_nil_r.
  - change (0 <? 0) with false. cbv iota. destruct (IH (did_act w (mk a))) as (w' & -> & Fd & O & Er & Ac). exists w'. split; [done|].
    change (u_calls (did_act w (mk a))) with (S (u_calls w)) in *. destruct (tried (S (u_calls w)) args) as [l bad]. cbn in *. by rewrite Fd, O, Er, Ac, <-app_assoc.
Qed.
End names.

Lemma rm_correct args w : args ≠ [] → ∃ w', play (rm_main args) w = (UExit 0, w') ∧
  u_fds w' = u_fds w ∧ u_out w' = u_out w ∧
  u_err w' = u_err w ++ complaint (fun p => bytes_of "rm: " ++ p ++ bytes_of " failed to delete" ++ [10]) (tried (u_calls w) args).2 ∧
  u_acts w' = u_acts w ++ (AUnlink <$> (tried (u_calls w) args).1).
Proof.
  intros Hne. assert (E : rm_main args = (rm_args args ;~ Exit 0)) by (by destruct args). rewrite E, play_then.
  destruct (play_names rm_args Unlink AUnlink ("rm: %s failed to delete" ++ NL) (fun p => bytes_of "rm: " ++ p ++ bytes_of " failed to delete" ++ [10]) eq_refl (fun _ _ => eq_refl) (fun _ _ _ => eq_refl) (fun _ => eq_refl) args w) as (w' & -> & H).
  by exists w'.
Qed.
Lemma mkdir_correct args w : args ≠ [] → ∃ w', play (mkdir_main args) w = (UExit 0, w') ∧
  u_fds w' = u_fds w ∧ u_out w' = u_out w ∧
  u_err w' = u_err w ++ complaint (fun p => bytes_of "mkdir: " ++ p ++ bytes_of " failed to create" ++ [10]) (tried (u_calls w) args).2 ∧
  u_acts w' = u_acts w ++ (AMkdir <$> (tried (u_calls w) args).1).
Proof.
  intros Hne. assert (E : mkdir_main args = (mkdir_args args ;~ Exit 0)) by (by destruct args). rewrite E, play_then.
  destruct (play_names mkdir_args Mkdir AMkdir ("mkdir: %s failed to create" ++ NL) (fun p => bytes_of "mkdir: " ++ p ++ bytes_of " failed to create" ++ [10]) eq_refl (fun _ _ => eq_refl) (fun _ _ _ => eq_refl) (fun _ => eq_refl) args w) as (w' & -> & H).
  by exists w'.
Qed.

(** [kill] sends every number on the line, whatever the kernel answers. *)
Lemma kill_args_correct args w : args ≠ [] → ∃ w', play (kill_main args) w = (UExit 0, w') ∧ u_acts w' = u_acts w ++ ((fun a => AKill (Ulib.atoi a)) <$> args).
Proof.
  intros Hne. assert (E : kill_main args = (kill_args args ;~ Exit 0)) by (by destruct args). rewrite E, play_then. clear.
  assert (H : ∃ w', play (kill_args args) w = (URet tt, w') ∧ u_acts w' = u_acts w ++ ((fun a => AKill (Ulib.atoi a)) <$> args)).
  { revert w. induction args as [|a args IH]; intros w; [exists w; cbn; by rewrite app_nil_r|]. cbn [kill_args play].
    edestruct IH as (w' & E & Ac). exists w'. split; [exact E|]. rewrite Ac. cbn. by rewrite <-app_assoc. }
  destruct H as (w' & -> & Hw). by exists w'.
Qed.

(** ** ls *)

Definition ls_text (path : list Z) (st : stat) : list Z :=
  let dec n := UPrintf.printint n 10 true in
  fmtname path ++ [32] ++ dec (st_type st) ++ [32] ++ dec (st_ino st) ++ [32] ++ dec (s32 (st_size st)) ++ [10].

(** What [ls] says of the 16 bytes [d] of an entry of the directory [path]. *)
Definition ls_entry (path d : list Z) : list Z :=
  if de_inum (read_dirent d) =? 0 then [] else
  let name := path ++ [47] ++ cut_nul (de_name (read_dirent d)) in
  match e_files e name with
  | Some (st, _) => ls_text name st
  | None => bytes_of "ls: cannot stat " ++ name ++ [10]
  end.

Lemma lowest_insert {X} (t : list (option X)) i x : ∀ y, t !! i = Some (Some y) → lowest (<[i := Some x]> t) = lowest t.
Proof.
  revert i. induction t as [|[z|] t IH]; intros [|i] y; try done; intros H; cbn in H |- *; try done. f_equal. exact (IH i y H).
Qed.

Lemma play_stat path m w : lowest (u_fds w) = Some m → ∃ w', play (stat_ path) w = (URet (fst <$> e_files e path), w') ∧ wrote [] [] w w'.
Proof.
  intros Hm. apply lowest_free in Hm as Ht. unfold stat_. destruct (e_files e path) as [[st s]|] eqn:E.
  - rewrite (play_open _ _ _ st s m) by done. destruct (Z.ltb_spec (Z.of_nat m) 0); [lia|]. cbn [play]. unfold u_fd, tick, with_fds. cbn [u_fds u_calls u_out u_err u_acts].
    destruct (Z.ltb_spec (Z.of_nat m) 0); [lia|]. rewrite Nat2Z.id, list_lookup_insert_eq by (by eapply lookup_lt_Some). cbn [mjoin option_join].
    eexists. split; [done|]. unfold wrote. cbn. rewrite list_insert_insert_eq, list_insert_id by done. by rewrite !app_nil_r.
  - rewrite play_open_none by done. eexists. split; [done|]. unfold wrote, tick, with_fds. cbn. by rewrite !app_nil_r.
Qed.

Lemma play_ls_line path st w : ∃ w', play (ls_line path st) w = (URet tt, w') ∧ wrote (ls_text path st) [] w w'.
Proof.
  exact (play_fprintf 1 ("%s %d %d %d" ++ NL) [AStr (Some (fmtname path)); AInt (st_type st); AInt (st_ino st); AInt (s32 (st_size st))]
    (ls_text path st) w (or_introl eq_refl) eq_refl).
Qed.

(** A read of one entry, where reads of files are not cut short. *)
Lemma play_read_entry fd st d s w : (∀ n, 16 ≤ S (e_cut e n))%nat → length d = 16%nat → u_fd w fd = Some (st, d ++ s) → ∃ w',
  (∀ A (k : option (list Z) → proc A), play (Read fd 16 k) w = play (k (Some d)) w') ∧ read_to fd st s [] w w'.
Proof.
  intros Hc Hd Hfd. exists (with_fds w (<[Z.to_nat fd := Some (st, s)]> (u_fds w))).
  assert (Hj : Nat.min (Z.to_nat 16) (S (e_cut e (u_calls w))) = length d) by (specialize (Hc (u_calls w)); rewrite Hd; lia). split.
  - intros A k. cbn [play]. rewrite Hfd, Hj, take_app_length, drop_app_length. done.
  - unfold read_to, with_fds. cbn. by rewrite app_nil_r.
Qed.

Lemma ls_round fd path st d s m w : (∀ n, 16 ≤ S (e_cut e n))%nat → length d = 16%nat → u_fd w fd = Some (st, d ++ s) → lowest (u_fds w) = Some m →
  ∃ w', play (ls_body fd path tt) w = (URet (inl tt), w') ∧ read_to fd st s (ls_entry path d) w w'.
Proof.
  intros Hc Hd Hfd Hm. destruct (play_read_entry fd st d s w Hc Hd Hfd) as (w1 & E & Hw1). unfold ls_body, ls_entry. rewrite E, Hd. clear E. change (negb (Z.of_nat 16 =? 16)) with false. cbv iota zeta.
  destruct (de_inum (read_dirent d) =? 0); [by exists w1|]. set (name := path ++ _).
  assert (Hm1 : lowest (u_fds w1) = Some m) by (destruct Hw1 as (-> & _); apply u_fd_lt in Hfd as [_ Hfd]; by rewrite (lowest_insert _ _ _ _ Hfd)).
  rewrite play_then. destruct (play_stat name m w1 Hm1) as (w2 & -> & Hw2). rewrite play_then.
  pose proof (read_to_wrote _ _ _ _ _ _ _ _ Hw1 Hw2) as H12. destruct (e_files e name) as [[st' s']|]; cbn [fmap option_fmap option_map fst].
  - destruct (play_ls_line name st' w2) as (w3 & -> & Hw3). exists w3. split; [done|]. exact (read_to_wrote _ _ _ _ _ _ _ _ H12 Hw3).
  - edestruct (play_fprintf 1) with (w := w2) as (w3 & -> & Hw3); [by left|reflexivity|]. exists w3. split; [done|]. exact (read_to_wrote _ _ _ _ _ _ _ _ H12 Hw3).
Qed.

Lemma ls_loop fd path st m : (∀ n, 16 ≤ S (e_cut e n))%nat → ∀ ents fuel w, (length ents < fuel)%nat → Forall (fun d => length d = 16%nat) ents →
  u_fd w fd = Some (st, concat ents) → lowest (u_fds w) = Some m →
  ∃ w', play (repeat_ fuel (ls_body fd path) tt) w = (URet tt, w') ∧ read_to fd st [] (concat (ls_entry path <$> ents)) w w'.
Proof.
  intros Hc ents. induction ents as [|d ents IH]; intros [|fuel] w Hf Hl Hfd Hm; cbn in Hf; try lia; cbn [repeat_]; rewrite play_then.
  - destruct (play_read_end fd 16 st w Hfd) as (w1 & E & Hw1). unfold ls_body. rewrite E. by exists w1.
  - apply Forall_cons in Hl as [Hd Hl]. cbn [concat] in Hfd. destruct (ls_round fd path st d (concat ents) m w Hc Hd Hfd Hm) as (w1 & -> & Hw1).
    destruct (IH fuel w1) as (w2 & -> & Hw2); [lia|done|by eapply u_fd_read_to| |].
    + destruct Hw1 as (-> & _). apply u_fd_lt in Hfd as [_ Hfd]. by rewrite (lowest_insert _ _ _ _ Hfd).
    + exists w2. split; [done|]. cbn [fmap list_fmap concat]. by eapply read_to_trans.
Qed.

(** The name of an entry, blank-padded. *)
Lemma after_slash_name dir name : 47 ∉ name → after_slash (dir ++ 47 :: name) = name.
Proof.
  intros Hn. induction dir as [|c dir IH]; cbn [app after_slash]; [by rewrite bool_decide_eq_false_2|].
  rewrite bool_decide_eq_true_2 by (apply elem_of_app; right; constructor). exact IH.
Qed.
Lemma fmtname_entry dir name : 47 ∉ name → (length name ≤ 14)%nat → fmtname (dir ++ 47 :: name) = name ++ replicate (14 - length name) 32.
Proof.
  intros Hn Hl. unfold fmtname. rewrite after_slash_name by done. destruct (decide (14 ≤ length name)%nat); [|done].
  replace (14 - length name)%nat with 0%nat by lia. by rewrite app_nil_r.
Qed.

(** [ls] of a directory: a line for every entry in use, in the order of the directory. *)
Lemma ls_dir_correct fuel path st ents n m w : (∀ n, 16 ≤ S (e_cut e n))%nat →
  e_files e path = Some (st, concat ents) → st_type st = T_DIR → (length path + 16 ≤ 512)%nat →
  Forall (fun d => length d = 16%nat) ents → (length ents < fuel)%nat →
  lowest (u_fds w) = Some n → lowest (<[n := Some (st, concat ents)]> (u_fds w)) = Some m →
  ∃ w', play (ls fuel path) w = (URet tt, w') ∧ wrote (concat (ls_entry path <$> ents)) [] w w'.
Proof.
  intros Hc Hf Ht Hp Hl Hfu Hn Hm. unfold ls. rewrite (play_open _ _ _ st (concat ents) n) by done. destruct (Z.ltb_spec (Z.of_nat n) 0); [lia|].
  set (w0 := with_fds w _). assert (H0 : u_fd w0 (Z.of_nat n) = Some (st, concat ents)).
  { unfold u_fd. destruct (Z.ltb_spec (Z.of_nat n) 0); [lia|]. apply lowest_free in Hn. unfold w0. cbn. rewrite Nat2Z.id, list_lookup_insert_eq; [done|]. by eapply lookup_lt_Some. }
  cbn [play]. rewrite H0. cbn [fmap option_fmap option_map fst]. rewrite Ht. change (_ || _) with false. change (T_DIR =? T_DIR) with true. cbv iota. rewrite decide_False by lia. rewrite play_then.
  destruct (ls_loop (Z.of_nat n) path st m Hc ents fuel (tick w0) Hfu Hl H0 Hm) as (w1 & -> & Hw1).
  destruct (play_close (fun _ => Ret tt) n st (concat ents) (concat (ls_entry path <$> ents)) w (tick w0) w1 Hn eq_refl Hw1) as (w2 & -> & F2 & O2 & E2 & A2).
  exists w2. split; [done|]. unfold wrote. rewrite F2, O2, E2, A2, app_nil_r. done.
Qed.

(** C38: [grep] with a pattern and files prints, in order and each with its newline, exactly the
    complete lines of the files that the pattern matches, however [read] cuts the files, when
    no file has a null or a line that its buffer cannot hold; at the first file it cannot
    open it says so and exits with status 1. *)
Theorem grep_correct (fuel : nat) (pattern : list Z) (files : list (list Z)) (n : nat) (w : ust) :
  files ≠ [] → lowest (u_fds w) = Some n →
  Forall (fun f => (length f.2 < fuel)%nat ∧ grep_fits [] f.2) (openable files).1 → ∃ w',
  play (grep_main fuel (pattern :: files)) w = (UExit (status (openable files).2), w') ∧
  wrote (concat ((fun f => printed pattern (split_lines f.2 []).1) <$> (openable files).1) ++
         complaint (fun p => bytes_of "grep: cannot open " ++ p ++ [10]) (openable files).2) [] w w'.
Proof.
  intros Hne Hn Hg. assert (E : grep_main fuel (pattern :: files) = (grep_files fuel pattern files ;~ Exit 0)) by (by destruct files). rewrite E, play_then.
  destruct (play_files (grep_files fuel pattern) (fun fd _ => grep fuel pattern fd) 1 ("grep: cannot open %s" ++ NL) (fun p => bytes_of "grep: cannot open " ++ p ++ [10])
    (fun _ s => printed pattern (split_lines s []).1) (fun s => (length s < fuel)%nat ∧ grep_fits [] s) eq_refl (fun _ _ => eq_refl)) with (args := files) (n := n) (w := w) as (w' & -> & Hw); try done.
  - intros fd p st s w0 [Hf1 Hf2] Hfd. by apply grep_ok.
  - by left.
  - exists w'. split; [by destruct (openable files).2|]. exact Hw.
Qed.
End play.

(** ** Two files and a name that does not open *)

Definition demo_env : env :=
  Env (fun p => if decide (p = bytes_of "a") then Some (mkstat 1 2 T_FILE 1 12, bytes_of ("one two" ++ NL ++ "tw" ++ NL ++ "x"))
                else if decide (p = bytes_of "b") then Some (mkstat 1 3 T_FILE 1 4, bytes_of ("two" ++ NL)) else None)
      (fun n => n mod 3)%nat (fun _ => false).
Definition demo_ust : ust := Ust 0 (replicate 16 None) [] [] [].

Definition demo_files : list (list Z * list Z) :=
  [(bytes_of "a", bytes_of ("one two" ++ NL ++ "tw" ++ NL ++ "x")); (bytes_of "b", bytes_of ("two" ++ NL))].

Lemma wc_correct_witness : ∃ w',
  play demo_env (wc_main 20 [bytes_of "a"; bytes_of "b"; bytes_of "c"]) demo_ust = (UExit 1, w') ∧
  wrote (bytes_of ("2 4 12 a" ++ NL ++ "1 1 4 b" ++ NL ++ "wc: cannot open c" ++ NL)) [] demo_ust w'.
Proof.
  apply (wc_correct demo_env 20 [bytes_of "a"; bytes_of "b"; bytes_of "c"] 0 demo_ust); [discriminate|reflexivity|].
  assert (E : (openable demo_env [bytes_of "a"; bytes_of "b"; bytes_of "c"]).1 = demo_files) by reflexivity.
  rewrite E. repeat constructor; cbn; lia.
Defined.

Lemma demo_fits : Forall (fun f => (length f.2 < 20)%nat ∧ grep_fits [] f.2) demo_files.
Proof. unfold grep_fits, line_fits. apply (bool_decide_unpack _). vm_compute. exact I. Qed.

Lemma grep_correct_witness : ∃ w',
  play demo_env (grep_main 20 [bytes_of "^tw"; bytes_of "a"; bytes_of "b"]) demo_ust = (UExit 0, w') ∧
  wrote (bytes_of ("tw" ++ NL ++ "two" ++ NL)) [] demo_ust w'.
Proof.
  apply (grep_correct demo_env 20 (bytes_of "^tw") [bytes_of "a"; bytes_of "b"] 0 demo_ust); [discriminate|reflexivity|].
  assert (E : (openable demo_env [bytes_of "a"; bytes_of "b"]).1 = demo_files) by reflexivity. rewrite E.
  exact demo_fits.
Defined.

(** A line that fills the buffer ends the search: [read] is asked for no bytes and returns
    none, as at the end of the file.  The matching line after it is not printed, and the
    status is 0. *)
Definition long_line_env : env :=
  Env (fun _ => Some (mkstat 1 2 T_FILE 1 1028, replicate 1023 120 ++ bytes_of (NL ++ "two" ++ NL))) (fun _ => 4095%nat) (fun _ => false).

Lemma grep_stops_at_long_line :
  let '(r, w) := play long_line_env (grep_main 20 [bytes_of "two"; bytes_of "f"]) demo_ust in r = UExit 0 ∧ u_out w = [] ∧ u_err w = [].
Proof. vm_compute. done. Qed.
